(* ===== verification/_CoqProject ===== *)
-Q . S2P
Prelude.v
GoStd.v
Proto.v
Api.v
DeepCopy.v
Portalloc.v
Kube.v
Cluster.v
Server.v
Session.v
Proxy.v
DataPath.v
Controller.v
Reconcile.v
Calm.v
Lifecycle.v
Scenarios.v
Client.v
Forwarder.v
Health.v
Drain.v
Operator.v
Startup.v
Fleet.v
Restart.v
Convergence.v
Gateway.v
Relay.v
System.v
Stubs.v
Process.v
Spike.v
