(* ===== verification/Prelude.v ===== *)
(** * Verification of the tunnel operator

    The repository is three programs that together give a cluster WireGuard
    tunnels.  The operator (cmd/main.go) watches Tunnel resources: for each it
    allocates a UDP port of the shared load balancer, runs a gateway pod with a
    network policy, and publishes the mapping "port to gateway" to the forwarders.
    A forwarder (cmd/forwarder) fetches a snapshot of all mappings, follows the
    stream of updates, forwards UDP packets between clients and gateways, and
    acknowledges what it has applied.  A gateway (cmd/gateway) ends the tunnel and
    forwards TCP connections to the tunnel's target.

    ** The files, in dependency order

    - Prelude (this file): errors, the state and error monad [ST] with its rules
      ([wp]), machine integers, tactics.
    - GoStd: strconv, net and strings functions the program computes with, and IPv4 blocks.
    - Proto: pkg/forwarder/proto/forwarder/v1/forwarder.pb.go, the messages and
      their getters.
    - Api: api/v1alpha1/tunnel_types.go, the Tunnel resource.
    - DeepCopy: api/v1alpha1/zz_generated.deepcopy.go over an explicit memory of
      pointers, maps and slices.
    - Portalloc: pkg/portalloc/allocator.go.  [PortAllocator] is the struct; [New],
      [Allocate], [Release], [IsAllocated], [GetPort], [LoadExisting] its methods.
    - Kube: the Kubernetes API as an interface ([KubeClient]), and a small cluster
      ([FakeKube]) for evaluation.
    - Cluster: what the fleet theorems assume of a cluster ([KubeLaws]): calls change at
      most the object they are for, in the way they say, reads are current, and other
      clients do not touch the status.  [FakeKube] satisfies it.
    - Server: internal/grpc/server.go.  [GetConfig], [NotifyUpdate], [Ack],
      [MissingAcks] are functions on [ForwarderServer]; StreamUpdates is the step
      relation [server_step].
    - Session: pkg/forwarder/session.go over a store of sockets and sessions.
    - Proxy: the mapping table of pkg/forwarder/proxy.go ([ApplyMapping],
      [ReconcileMappings], [RemoveMapping], [Stop], ...).
    - DataPath: its goroutines (servePort, pipeResponses, the cleanup ticker) as the
      step relation [fw_step], with the counters of pkg/forwarder/metrics.go.
    - Controller: internal/controller/tunnel_controller.go, [Reconcile] and every
      function below it, over [KubeClient], the allocator and the interface
      [forwarderServer].
    - Reconcile, Lifecycle, Scenarios: the theorems on Controller.
    - Calm: what a reconciliation leaves alone, whatever other clients may do meanwhile.
    - Client: pkg/forwarder/grpc_client.go.
    - Forwarder: cmd/forwarder/main.go up to the [select] at the end of [run], with the
      callbacks, and the handlers of pkg/forwarder/health.go.
    - Health: the health server of pkg/forwarder/health.go, its routes and [Start] as
      the step relation [health_step].
    - Drain: the end of [run] in cmd/forwarder/main.go, its [select] and the drain, which
      may overlap a callback that still runs ([shutdown_step]).
    - Operator: the parts [main] of cmd/main.go builds.
    - Startup: [main] itself, Start of internal/grpc/server.go, SetupWithManager and the
      permission markers of the controller.
    - Fleet: the operator over time, on a cluster others change too ([fleet_step]).
    - Restart: the operator killed at any moment and started again, and snapshots taken
      apart into their listing and their loads ([crash_step]).
    - Convergence: server, client and forwarder composed, from publication to route.
    - Gateway: cmd/gateway/main.go and pkg/wireguard/wireguard.go.
    - Relay: one connection of the gateway byte by byte (handleConn, copyAndClose) as the
      step relation [relay_step].
    - System: operator and forwarder connected.
    - Stubs: pkg/forwarder/proto/forwarder/v1/forwarder_grpc.pb.go, the client stubs, the
      handlers and the service description, over an interface for connections.
    - Process: what runs before and after the work of the three processes, that is the
      registration of metrics and of resource types (api/v1alpha1/groupversion_info.go)
      and the exit codes.
    - Spike: cmd/forwarder/spike_vip_binding.go, a stand-alone experiment.

    ** How code becomes definitions

    A function that can fail or has effects is a computation in [ST]: it returns a
    value or an error and keeps the state reached so far, as an early [return err]
    does.  What the program does not contain (the API server, the random source,
    the operating system's sockets, the network, wireguard-go) is an interface or an
    argument, and theorems quantify over it: any API call may fail or answer
    anything, any [ListenUDP] may be refused, any connection attempt may break.
    The reconciler's world also has a trace of the calls it made, with their
    answers; no operation reads it, and the ordering theorems are about it.
    Methods that hold one lock from start to end are one function; goroutines that
    interleave are step relations, with one step per stretch of code between two
    points where another goroutine may run.  Pointers shared between goroutines
    (listeners, sessions, sockets) are names in a store.  Integers keep their width
    where it can matter: ports are int32 in the allocator, revisions wrap at 64
    bits.  Prometheus metrics are state where a theorem is about them.

    ** What the theorems show

    - Reconciler (Reconcile): in every reconciliation, whatever fails, a mapping is
      published only after it is persisted and is the one a snapshot has; the
      finalizer is persisted before a pod is made and removed only after pod and
      policy are deleted; ports are released only after the finalizer is gone; every
      status write moves the revision exactly when the mapping changes; a tunnel
      turns Ready only on a ready pod, an answered key and all acknowledgements.
    - Reconciler (Lifecycle): deletion is all or nothing towards allocator and
      forwarders, termination tears everything down before the object goes, the
      status computation is idempotent, a converged tunnel is left alone, a tunnel
      that is not Ready yet is requeued, the network policy admits only the target if that
      is a pod selector or an IPv4 address.
    - Allocator (Portalloc): it refines an abstract table of distinct ports in range,
      equals the choice of the first free port in cyclic order, fails exactly when the
      range is full, and is rebuilt by a restart, which Operator lifts to the start of the
      process.
    - Fleet: from a start on, through any reconciliations, snapshots, failing calls and
      actions of other clients, no two live tunnels have the same port.
    - Restart: nor when the operator is killed between any two calls and started again, or
      when a snapshot loads its ports late, within conditions that counterexamples show to
      be needed.
    - Convergence: for a forwarder that took a snapshot and handled its whole stream, which
      publication decides what a port serves; nothing is assumed about what was
      published.
    - Startup: [main] starts the manager only after the ports are loaded; the pods a
      reconciliation creates are in the manager's cache and wake the controller.
    - DeepCopy: copies have the value of their original and share no memory with it, which
      is what lets the other files treat resource objects as values.
    - Server: every stream carries the updates published since it registered, in
      order, unless it was told to resynchronise; acknowledgements exist only for
      connected forwarders; [MissingAcks] and snapshots are exact.
    - Proxy, Session, DataPath: a snapshot leaves exactly its ports served, replays are no-ops,
      bound sockets are the mapped ports; in every interleaving a client's packets
      use a session of its own to its listener's gateway, and the session gauge is
      the number of running response goroutines.
    - Client, Forwarder: back-off and readiness; nothing is acknowledged before it is
      applied; a pass of the stream refines a plain routing table.
    - Health: Start returns only after its context is cancelled, and then within bounded
      time.
    - Gateway: it listens on the tunnel's port and dials its target when started
      with the variables the reconciler sets; gauge and inactivity timeout.
    - Relay: a connection's bytes arrive in order and unchanged, ends of streams follow
      the data, a handler whose peers are done ends; the connection refines the handler of
      Gateway.
    - Drain: [run] returns only after its context was cancelled, with its connection closed
      and its proxy sound; if the watching goroutine has returned before the drain it serves
      nothing then, and otherwise it can end with a port open.
    - System: a published update that is delivered to a forwarder that is not ahead of it is
      served and acknowledged, and the next reconciliation writes the tunnel Ready; every
      mapping the operator sends passes the forwarder's checks.
    - Stubs: a stub call is the server's method of that name with the same request, at most
      once; an update the forwarder handles without error over a connection is applied and
      on record at the server.
    - Process: the registrations do not panic; how a gateway ends, and whether the kubelet
      ended it, decides whether its tunnel is Terminated or Failed.

    Some theorems record behaviour the comments in the code do not expect: among
    them [Proxy.failed_replacement_loses_route],
    [Scenarios.recreated_tunnel_ready_on_stale_ack],
    [Forwarder.recreated_tunnel_keeps_old_gateway],
    [System.late_deletion_takes_down_other_tunnel], [Fleet.failed_listing_reuses_port],
    [Fleet.late_snapshot_load_leaks_port], [Fleet.late_snapshot_load_steals_port],
    [Restart.leaving_tunnel_takes_port], [Scenarios.deletion_without_finalizer_is_silent],
    [Process.stopped_gateway_terminates_tunnel], [Drain.drain_overtaken_by_callback] and
    [Startup.markers_miss_policy_update].

    ** Loops and bounds

    All definitions are total.  [Portalloc.scan] counts down the size of the range, which
    is how far the loop of Allocate goes.  [GoStd.trim_while] has the length of the
    string as fuel and every round removes a character.  The reconnect loops of the
    client recurse on the list of answers the network gives; a list that runs out is
    a loop still running.  StreamUpdates, the data path and the gateway's goroutines
    do not terminate and are step relations, with the theorems over all reachable
    states.  The update channel of a stream has the 64 places the code gives it.

    Termination is proved where the code means to end: [Relay.relay_terminates] and
    [Health.health_server_stops] bound the steps left by a measure and show that no
    state before the end is stuck.

    ** Not modelled

    Libraries: the gRPC transport (an interface with laws in Stubs), controller-runtime's
    manager, work queue and watches, the Prometheus registry and the scheme (interfaces in
    Process), gVisor and wireguard-go, and the protobuf library, which encodes the messages
    (an interface with laws in Stubs).  Left out are the methods and tables of forwarder.pb.go
    that only serve that library (String, ProtoReflect, the descriptor and its tables), log
    output, the HTTP servers that only expose the metrics, and the methods
    of a WireGuard device that only pass a call on to gVisor (Net, ListenTCP, DialTCP).

    Fleet takes a reconciliation and a GetConfig call as one step each.
    controller-runtime runs one worker, but a snapshot may overlap it; Restart lets it list
    and load at different times between reconciliations and cuts a reconciliation at any
    call, but does not load a port in the middle of one.  [late_snapshot_load_leaks_port]
    and [late_snapshot_load_steals_port] are what overlapping can do.  Fleet and Restart also
    take reads as current, while the program reads from the manager's cache, except at
    start-up, and a cache may lag behind.  The theorems on single reconciliations and on
    GetConfig make no such assumption: there a read may answer anything. *)

From stdpp Require Export base tactics option list numbers gmap strings fin_maps sets.

#[global] Open Scope Z_scope.
#[global] Open Scope string_scope.
#[global] Open Scope list_scope.

Declare Scope go_scope.
Delimit Scope go_scope with go.
#[global] Open Scope go_scope.

(** ** Errors and results

    A Go [error] is a chain of messages around a cause: [fmt.Errorf("msg: %w", e)]
    is [ErrWrap msg e].  The causes the program distinguishes have their own
    constructors, everything else is an opaque message. *)

Inductive grpc_code := InvalidArgument | FailedPrecondition | ResourceExhausted | OtherCode (c : Z).

Inductive error :=
| ErrNew (msg : string)
| ErrWrap (msg : string) (inner : error)
| ErrNotFound (what : string)
| ErrStatus (code : grpc_code) (msg : string)
| ErrCanceled
| ErrNetClosed.

#[export] Instance grpc_code_eq_dec : EqDecision grpc_code.
Proof. solve_decision. Defined.
#[export] Instance error_eq_dec : EqDecision error.
Proof. solve_decision. Defined.

(** [errors.Is] against a sentinel: the sentinel anywhere in the chain. *)
Fixpoint errors_Is (e target : error) : bool :=
  bool_decide (e = target) ||
  match e with ErrWrap _ e' => errors_Is e' target | _ => false end.

(** The pair [(value, err)] a fallible Go function returns, read the way its
    callers read it: the value counts when [err] is nil. *)
Inductive res (A : Type) := Ok (a : A) | Fail (e : error).
Arguments Ok {_} _.
Arguments Fail {_} _.

#[export] Instance res_eq_dec `{EqDecision A} : EqDecision (res A).
Proof. solve_decision. Defined.

Definition is_ok {A} (r : res A) : bool := match r with Ok _ => true | Fail _ => false end.

#[export] Instance res_ret : MRet res := fun _ => Ok.
#[export] Instance res_bind : MBind res := fun _ _ f r => match r with Ok a => f a | Fail e => Fail e end.

(** ** Stateful fallible code

    [ST S A] is a computation over the state [S] that returns an [A] or an
    error; on an error the state reached so far is kept, as in the source,
    where an early [return err] undoes nothing. *)

Definition ST (S A : Type) : Type := S -> res A * S.

#[export] Instance ST_ret {S} : MRet (ST S) := fun _ a s => (Ok a, s).
#[export] Instance ST_bind {S} : MBind (ST S) := fun _ _ f m s =>
  match m s with (Ok a, s') => f a s' | (Fail e, s') => (Fail e, s') end.

Definition throw {S A} (e : error) : ST S A := fun s => (Fail e, s).
Definition get_st {S} : ST S S := fun s => (Ok s, s).
Definition gets {S A} (f : S -> A) : ST S A := fun s => (Ok (f s), s).
Definition modify {S} (f : S -> S) : ST S unit := fun s => (Ok tt, f s).

(** [try m] never fails: it hands the caller the result to inspect, as
    [v, err := m()] does. *)
Definition try {S A} (m : ST S A) : ST S (res A) := fun s => let '(r, s') := m s in (Ok r, s').

(** [if err := m(); err != nil { return fmt.Errorf("msg: %w", err) }] *)
Definition wrap_err {S A} (msg : string) (m : ST S A) : ST S A := fun s =>
  match m s with (Fail e, s') => (Fail (ErrWrap msg e), s') | r => r end.

(** [for _, x := range l { if err := f(x); err != nil { return err } }] *)
Fixpoint for_each {S A} (f : A -> ST S unit) (l : list A) : ST S unit :=
  match l with
  | [] => mret tt
  | x :: l => f x ;; for_each f l
  end.

(** ** Reasoning about [ST]

    [wp m Q s]: running [m] from [s] ends in a result and a state that satisfy
    [Q].  The rules follow the combinators, so [wp_steps] runs a computation
    symbolically and leaves the calls it has no rule for, and one goal per
    branch. *)

Definition wp {S A} (m : ST S A) (Q : res A -> S -> Prop) (s : S) : Prop := Q (m s).1 (m s).2.

Create HintDb golib.

Section wp.
Context {S : Type}.

Lemma wp_ret {A} (a : A) (Q : res A -> S -> Prop) s : Q (Ok a) s -> wp (mret a) Q s.
Proof. done. Qed.

Lemma wp_throw {A} e (Q : res A -> S -> Prop) s : Q (Fail e) s -> wp (throw e) Q s.
Proof. done. Qed.

Lemma wp_gets {A} (f : S -> A) (Q : res A -> S -> Prop) s : Q (Ok (f s)) s -> wp (gets f) Q s.
Proof. done. Qed.

Lemma wp_modify f (Q : res unit -> S -> Prop) s : Q (Ok tt) (f s) -> wp (modify f) Q s.
Proof. done. Qed.

Lemma wp_bind {A B} (m : ST S A) (f : A -> ST S B) (Q : res B -> S -> Prop) s :
  wp m (fun r s' => match r with Ok a => wp (f a) Q s' | Fail e => Q (Fail e) s' end) s ->
  wp (mbind f m) Q s.
Proof. unfold wp, mbind, ST_bind. by destruct (m s) as [[a|e] s']. Qed.

Lemma wp_try {A} (m : ST S A) (Q : res (res A) -> S -> Prop) s :
  wp m (fun r s' => Q (Ok r) s') s -> wp (try m) Q s.
Proof. unfold wp, try. by destruct (m s). Qed.

Lemma wp_wrap_err {A} msg (m : ST S A) (Q : res A -> S -> Prop) s :
  wp m (fun r s' => match r with Ok a => Q (Ok a) s' | Fail e => Q (Fail (ErrWrap msg e)) s' end) s ->
  wp (wrap_err msg m) Q s.
Proof. unfold wp, wrap_err. by destruct (m s) as [[a|e] s']. Qed.

Lemma wp_mono {A} (m : ST S A) (Q Q' : res A -> S -> Prop) s :
  wp m Q' s -> (forall r s', Q' r s' -> Q r s') -> wp m Q s.
Proof. unfold wp. auto. Qed.

Lemma wp_and {A} (m : ST S A) (Q Q' : res A -> S -> Prop) s :
  wp m Q s -> wp m Q' s -> wp m (fun r s' => Q r s' /\ Q' r s') s.
Proof. by split. Qed.

Lemma wp_run {A} (m : ST S A) (Q : res A -> S -> Prop) s : wp m Q s -> exists r s', m s = (r, s') /\ Q r s'.
Proof. intros Hwp. exists (m s).1, (m s).2. split; [by destruct (m s)|exact Hwp]. Qed.

(** A loop with an invariant on the part of the list already done. *)
Lemma wp_for_each {A} (f : A -> ST S unit) (I : list A -> S -> Prop) (Q : res unit -> S -> Prop) todo done_ s :
  I done_ s ->
  (forall x d rest s, done_ ++ todo = d ++ x :: rest -> I d s ->
     wp (f x) (fun r s' => match r with Ok _ => I (d ++ [x]) s' | Fail e => Q (Fail e) s' end) s) ->
  (forall s, I (done_ ++ todo) s -> Q (Ok tt) s) ->
  wp (for_each f todo) Q s.
Proof.
  revert done_ s. induction todo as [|x todo IH]; intros done_ s HI Hf HQ; simpl.
  { apply wp_ret, HQ. by rewrite app_nil_r. }
  apply wp_bind. eapply wp_mono; [by apply (Hf x done_ todo)|].
  intros [[]|e] s'; [|done]. intros HI'. apply (IH (done_ ++ [x])); [done| |].
  - intros y d rest s''. rewrite <- app_assoc. simpl. apply Hf.
  - rewrite <- app_assoc. simpl. apply HQ.
Qed.
End wp.

Ltac wp_step :=
  first
  [ apply wp_bind | apply wp_ret | apply wp_throw | apply wp_gets | apply wp_modify | apply wp_try | apply wp_wrap_err ].
Ltac wp_steps := repeat (wp_step; cbv beta iota).

(** ** Machine integers *)

(** Two's-complement reduction of [x] to a signed [w]-bit integer. *)
Definition wrap (w x : Z) : Z := (x + 2 ^ (w - 1)) `mod` 2 ^ w - 2 ^ (w - 1).
Abbreviation wrap32 := (wrap 32).
Abbreviation wrap64 := (wrap 64).

Definition int32_ok (x : Z) : Prop := -2147483648 <= x <= 2147483647.
Definition int64_ok (x : Z) : Prop := -9223372036854775808 <= x <= 9223372036854775807.

Lemma wrap32_id x : int32_ok x -> wrap32 x = x.
Proof.
  unfold int32_ok, wrap. intros.
  change (2 ^ (32 - 1)) with 2147483648. change (2 ^ 32) with 4294967296.
  rewrite Z.mod_small; lia.
Qed.

Lemma wrap64_id x : int64_ok x -> wrap64 x = x.
Proof.
  unfold int64_ok, wrap. intros.
  change (2 ^ (64 - 1)) with 9223372036854775808. change (2 ^ 64) with 18446744073709551616.
  rewrite Z.mod_small; lia.
Qed.

Lemma wrap64_ok x : int64_ok (wrap64 x).
Proof.
  unfold int64_ok, wrap.
  change (2 ^ (64 - 1)) with 9223372036854775808. change (2 ^ 64) with 18446744073709551616.
  pose proof (Z.mod_pos_bound (x + 9223372036854775808) 18446744073709551616). lia.
Qed.

(** An increment is never lost, not even when it wraps. *)
Lemma wrap64_succ_ne x : wrap64 (x + 1) <> x.
Proof.
  unfold wrap. change (2 ^ (64 - 1)) with 9223372036854775808. change (2 ^ 64) with 18446744073709551616.
  pose proof (Z.div_mod (x + 1 + 9223372036854775808) 18446744073709551616). lia.
Qed.

(** [time.Duration] is a number of nanoseconds. *)
Definition Second : Z := 1000000000.

#[export] Hint Resolve wrap64_ok : golib.

(** ** Tactics *)

(** Case analysis on the first [match] of the goal, with equations kept and
    trivial branches closed. *)
Ltac split_match := repeat (case_match; simplify_eq/=; try done).

(** Evaluate a closed proposition. *)
Ltac eval_closed := vm_compute; repeat split; try reflexivity; try congruence.

(** *** Options *)

Lemma Some_default {A} (o : option A) d x : o = Some x -> x = default d o.
Proof. by intros ->. Qed.
