(* ===== verification/GoStd.v ===== *)
(** * The parts of Go's standard library the program computes with

    Strings are byte strings, as in Go.  [Itoa], [ParseInt], [JoinHostPort],
    [TrimSpace], [ToLower] and [HasPrefix] follow strconv, net and strings. *)

From stdpp Require Import pretty.
From S2P Require Import Prelude.
From Stdlib Require Import Ascii.

(** ** strconv *)

(** [strconv.Itoa] *)
Definition Itoa (n : Z) : string := pretty n.

Definition digit_value (c : ascii) : option Z :=
  let n := Z.of_N (N_of_ascii c) in
  if bool_decide (48 <= n <= 57) then Some (n - 48) else None.

Fixpoint parse_digits (acc : Z) (s : string) : option Z :=
  match s with
  | EmptyString => Some acc
  | String c s =>
      match digit_value c with
      | Some d => parse_digits (acc * 10 + d) s
      | None => None
      end
  end.

Definition split_sign (s : string) : Z * string :=
  match s with
  | String c s' =>
      if bool_decide (c = "-"%char) then (-1, s')
      else if bool_decide (c = "+"%char) then (1, s') else (1, s)
  | EmptyString => (1, s)
  end.

Definition errSyntax : error := ErrNew "invalid syntax".
Definition errRange : error := ErrNew "value out of range".

(** [strconv.ParseInt(s, 10, bits)]: an optional sign, at least one digit,
    and the value in the range of a signed [bits]-bit integer. *)
Definition ParseInt (s : string) (bits : Z) : res Z :=
  let '(sign, digits) := split_sign s in
  if bool_decide (digits = "") then Fail errSyntax
  else match parse_digits 0 digits with
       | None => Fail errSyntax
       | Some n =>
           let v := sign * n in
           if bool_decide (- 2 ^ (bits - 1) <= v <= 2 ^ (bits - 1) - 1) then Ok v else Fail errRange
       end.

(** [strconv.Atoi] on a 64-bit platform *)
Definition Atoi (s : string) : res Z := ParseInt s 64.

(** ** net and strings *)

Fixpoint contains_char (c : ascii) (s : string) : bool :=
  match s with
  | EmptyString => false
  | String c' s => bool_decide (c = c') || contains_char c s
  end.

(** [net.JoinHostPort]: brackets around a host that has a colon. *)
Definition JoinHostPort (host port : string) : string :=
  if contains_char ":"%char host then "[" +:+ host +:+ "]:" +:+ port else host +:+ ":" +:+ port.

Fixpoint strip_prefix (p s : string) : option string :=
  match p, s with
  | EmptyString, _ => Some s
  | String a p, String b s => if bool_decide (a = b) then strip_prefix p s else None
  | String _ _, EmptyString => None
  end.

(** [strings.HasPrefix] *)
Definition HasPrefix (s p : string) : bool := bool_decide (is_Some (strip_prefix p s)).

Fixpoint string_of_bytes (l : list N) : string :=
  match l with [] => EmptyString | n :: l => String (ascii_of_N n) (string_of_bytes l) end.

(** The runes of [unicode.IsSpace], in UTF-8. *)
Definition space_encodings : list (list N) :=
  ([[9]; [10]; [11]; [12]; [13]; [32]; [194; 133]; [194; 160]; [225; 154; 128];
    [226; 128; 128]; [226; 128; 129]; [226; 128; 130]; [226; 128; 131]; [226; 128; 132];
    [226; 128; 133]; [226; 128; 134]; [226; 128; 135]; [226; 128; 136]; [226; 128; 137];
    [226; 128; 138]; [226; 128; 168]; [226; 128; 169]; [226; 128; 175]; [226; 129; 159];
    [227; 128; 128]])%N.

Fixpoint strip_any (ps : list string) (s : string) : option string :=
  match ps with
  | [] => None
  | p :: ps => match strip_prefix p s with Some s' => Some s' | None => strip_any ps s end
  end.

Fixpoint trim_while (ps : list string) (fuel : nat) (s : string) : string :=
  match fuel with
  | O => s
  | S fuel => match strip_any ps s with Some s' => trim_while ps fuel s' | None => s end
  end.

Definition trim_left (s : string) : string :=
  trim_while (string_of_bytes <$> space_encodings) (String.length s) s.
Definition trim_right (s : string) : string :=
  String.rev (trim_while (string_of_bytes ∘ reverse <$> space_encodings) (String.length s) (String.rev s)).

(** [strings.TrimSpace] *)
Definition TrimSpace (s : string) : string := trim_right (trim_left s).

Definition lower_char (c : ascii) : ascii :=
  let n := N_of_ascii c in
  if bool_decide (65 <= n <= 90)%N then ascii_of_N (n + 32) else c.

(** [strings.ToLower] on ASCII input. *)
Fixpoint ToLower (s : string) : string :=
  match s with EmptyString => EmptyString | String c s => String (lower_char c) (ToLower s) end.

(** ** Lemmas *)

Lemma digit_value_pretty (d : N) : (d < 10)%N -> digit_value (pretty_N_char d) = Some (Z.of_N d).
Proof.
  intros Hd. assert (d ∈ [0; 1; 2; 3; 4; 5; 6; 7; 8; 9]%N) as Hin by (rewrite !elem_of_cons; lia).
  repeat (apply elem_of_cons in Hin as [->|Hin]; [reflexivity|]). by apply elem_of_nil in Hin.
Qed.

Lemma parse_digits_pretty_go (x : N) s :
  parse_digits 0 (pretty_N_go x s) = parse_digits (Z.of_N x) s.
Proof.
  revert s. induction (N.lt_wf_0 x) as [x _ IH]; intros s.
  destruct (decide (x = 0)%N) as [->|Hx]; [done|].
  rewrite pretty_N_go_step by lia. rewrite IH by (apply N.div_lt; lia). simpl.
  rewrite digit_value_pretty by (apply N.mod_lt; lia). f_equal.
  rewrite N2Z.inj_div, N2Z.inj_mod. pose proof (Z.div_mod (Z.of_N x) 10). lia.
Qed.

Lemma parse_digits_pretty (x : N) : parse_digits 0 (pretty x) = Some (Z.of_N x).
Proof.
  unfold pretty, pretty_N. case_decide as Hx; [by rewrite Hx|].
  by rewrite parse_digits_pretty_go.
Qed.

Lemma pretty_N_not_empty (x : N) : pretty x <> "".
Proof.
  intros H. pose proof (parse_digits_pretty x) as Hp. rewrite H in Hp. simpl in Hp.
  assert (x = 0%N) as -> by (injection Hp; lia). done.
Qed.

(** A decimal numeral starts with a digit, so it has no sign. *)
Lemma split_sign_digits s n : parse_digits 0 s = Some n -> split_sign s = (1, s).
Proof.
  destruct s as [|c s]; [done|]. simpl. intros H.
  rewrite !bool_decide_false; [done|..]; intros ->; by vm_compute in H.
Qed.

Lemma split_sign_Itoa (n : Z) :
  split_sign (Itoa n) = (if bool_decide (n < 0) then -1 else 1, pretty (Z.abs_N n)).
Proof.
  unfold Itoa. destruct n as [|p|p]; [done|..].
  - rewrite bool_decide_false by lia. apply (split_sign_digits _ (Z.pos p)), (parse_digits_pretty (Npos p)).
  - by rewrite bool_decide_true by lia.
Qed.

(** Printing and parsing an integer that fits is the identity. *)
Lemma ParseInt_Itoa n bits :
  - 2 ^ (bits - 1) <= n <= 2 ^ (bits - 1) - 1 -> ParseInt (Itoa n) bits = Ok n.
Proof.
  intros Hn. unfold ParseInt. rewrite split_sign_Itoa.
  rewrite bool_decide_false by apply pretty_N_not_empty.
  rewrite parse_digits_pretty.
  replace ((if bool_decide (n < 0) then -1 else 1) * Z.of_N (Z.abs_N n)) with n.
  - by rewrite bool_decide_true.
  - case_bool_decide; lia.
Qed.

#[export] Instance Itoa_inj : Inj (=) (=) Itoa.
Proof. intros x y H. by apply (inj pretty) in H. Qed.

(** *** Appending *)

Lemma append_length s t : String.length (s +:+ t) = (String.length s + String.length t)%nat.
Proof. induction s as [|c s IH]; simpl; [done|by rewrite IH]. Qed.

Lemma append_inj_len s s' t t' :
  String.length s = String.length s' -> s +:+ t = s' +:+ t' -> s = s' /\ t = t'.
Proof.
  revert s'. induction s as [|c s IH]; intros [|c' s'] Hlen H; simpl in *; try done.
  injection H as -> H. injection Hlen as Hlen. by destruct (IH _ Hlen H) as [-> ->].
Qed.

Lemma append_inj_r s s' t : s +:+ t = s' +:+ t -> s = s'.
Proof.
  intros H. apply (append_inj_len s s' t t); [|done].
  apply (f_equal String.length) in H. rewrite !append_length in H. lia.
Qed.

Lemma contains_char_append c s t : contains_char c (s +:+ t) = contains_char c s || contains_char c t.
Proof. induction s as [|c' s IH]; simpl; [done|]. by rewrite IH, orb_assoc. Qed.

(** Text before a separator it does not contain is determined by the whole. *)
Lemma append_sep_inj c s s' t t' :
  contains_char c s = false -> contains_char c s' = false ->
  s +:+ String c t = s' +:+ String c t' -> s = s' /\ t = t'.
Proof.
  revert s'. induction s as [|a s IH]; intros [|a' s'] Hs Hs' H; simpl in *.
  - by injection H as ->.
  - injection H as -> _. by rewrite bool_decide_true in Hs'.
  - injection H as -> _. by rewrite bool_decide_true in Hs.
  - injection H as -> H. apply orb_false_elim in Hs as [_ Hs], Hs' as [_ Hs'].
    by destruct (IH _ Hs Hs' H) as [-> ->].
Qed.

Lemma append_assoc s t u : (s +:+ t) +:+ u = s +:+ (t +:+ u).
Proof. induction s as [|c s IH]; [done|]. apply (f_equal (String c)), IH. Qed.

(** For a fixed port the joined address determines the host. *)
Lemma JoinHostPort_inj h h' p : JoinHostPort h p = JoinHostPort h' p -> h = h'.
Proof.
  unfold JoinHostPort.
  destruct (contains_char ":" h) eqn:Hh, (contains_char ":" h') eqn:Hh'; intros H.
  - injection H as H. exact (append_inj_r h h' ("]:" +:+ p) H).
  - assert (("[" +:+ h +:+ "]") +:+ (":" +:+ p) = h' +:+ (":" +:+ p)) as E.
    { rewrite <- H, !append_assoc. done. }
    apply append_inj_r in E. subst h'. by rewrite !contains_char_append, Hh in Hh'.
  - assert (h +:+ (":" +:+ p) = ("[" +:+ h' +:+ "]") +:+ (":" +:+ p)) as E.
    { rewrite H, !append_assoc. done. }
    apply append_inj_r in E. subst h. by rewrite !contains_char_append, Hh' in Hh.
  - by apply append_inj_r in H.
Qed.

Lemma JoinHostPort_nonempty h p : JoinHostPort h p <> "".
Proof. unfold JoinHostPort. case_match; [done|]. by destruct h. Qed.

(** *** Trimming what has no blanks at its ends *)

(** Two bytes that no encoding of a space starts or ends with. *)
Definition solid (c : ascii) : bool :=
  forallb (fun p => match p with String a _ => negb (bool_decide (a = c)) | EmptyString => false end)
    ((string_of_bytes <$> space_encodings) ++ (string_of_bytes ∘ reverse <$> space_encodings)).

Lemma strip_any_solid ps c s :
  forallb (fun p => match p with String a _ => negb (bool_decide (a = c)) | EmptyString => false end) ps = true ->
  strip_any ps (String c s) = None.
Proof.
  induction ps as [|[|a p] ps IH]; simpl; [done|done|]. rewrite andb_true_iff, negb_true_iff. intros [Ha Hps].
  by rewrite Ha, IH.
Qed.

Fixpoint all_solid (s : string) : bool :=
  match s with EmptyString => true | String c s => solid c && all_solid s end.

Lemma trim_while_solid ps fuel s :
  (ps = (string_of_bytes <$> space_encodings) \/ ps = (string_of_bytes ∘ reverse <$> space_encodings)) ->
  all_solid s = true -> trim_while ps fuel s = s.
Proof.
  intros Hps Hs. destruct fuel as [|fuel]; [done|]. destruct s as [|c s]; [by destruct Hps as [->| ->]|].
  simpl in *. apply andb_true_iff in Hs as [Hc _]. unfold solid in Hc. rewrite forallb_app, andb_true_iff in Hc.
  rewrite strip_any_solid; [done|]. destruct Hps as [->| ->]; tauto.
Qed.

Lemma rev_app_app s t u : String.rev_app (String.rev_app s t) u = String.rev_app t (s +:+ u).
Proof.
  revert t u. induction s as [|c s IH]; intros t u; [done|].
  change (String.rev_app (String.rev_app s (String c t)) u = String.rev_app t (String c (s +:+ u))). by rewrite IH.
Qed.

Lemma append_nil_r s : s +:+ "" = s.
Proof. induction s as [|c s IH]; [done|]. change (String c (s +:+ "") = String c s). by rewrite IH. Qed.

Lemma rev_involutive s : String.rev (String.rev s) = s.
Proof. unfold String.rev. rewrite rev_app_app. simpl. apply append_nil_r. Qed.

Lemma all_solid_rev_app s t : all_solid (String.rev_app s t) = all_solid s && all_solid t.
Proof.
  revert t. induction s as [|c s IH]; intros t; simpl; [done|]. rewrite IH. simpl.
  by rewrite andb_assoc, (andb_comm (all_solid s)).
Qed.

Lemma TrimSpace_solid s : all_solid s = true -> TrimSpace s = s.
Proof.
  intros Hs. unfold TrimSpace, trim_right, trim_left. rewrite (trim_while_solid (string_of_bytes <$> space_encodings) (String.length s) s) by auto.
  rewrite trim_while_solid; [apply rev_involutive|auto|]. unfold String.rev. by rewrite all_solid_rev_app, Hs.
Qed.

Lemma digit_solid c d : digit_value c = Some d -> solid c = true.
Proof.
  unfold digit_value. case_bool_decide as Hd; [|done]. intros _.
  assert (N_of_ascii c ∈ [48; 49; 50; 51; 52; 53; 54; 55; 56; 57]%N) as Hin by (rewrite !elem_of_cons; lia).
  rewrite <- (ascii_N_embedding c).
  repeat (apply elem_of_cons in Hin as [->|Hin]; [vm_compute; reflexivity|]). by apply elem_of_nil in Hin.
Qed.

Lemma parse_digits_solid acc s n : parse_digits acc s = Some n -> all_solid s = true.
Proof.
  revert acc. induction s as [|c s IH]; intros acc; simpl; [done|].
  destruct (digit_value c) eqn:Hc; [|done]. intros Hs. by rewrite (digit_solid _ _ Hc), (IH _ Hs).
Qed.

(** A printed number is not changed by trimming. *)
Lemma TrimSpace_Itoa n : TrimSpace (Itoa n) = Itoa n.
Proof.
  apply TrimSpace_solid. unfold Itoa. destruct n as [|p|p]; [by vm_compute|..].
  - apply (parse_digits_solid 0 _ _ (parse_digits_pretty (Npos p))).
  - change (all_solid ("-" +:+ pretty (Npos p)) = true). change (solid "-" && all_solid (pretty (Npos p)) = true).
    by rewrite (parse_digits_solid 0 _ _ (parse_digits_pretty (Npos p))).
Qed.

Lemma Itoa_nonempty n : Itoa n <> "".
Proof.
  unfold Itoa. destruct n as [|p|p]; [done|apply (pretty_N_not_empty (Npos p))|done].
Qed.

(** *** Trimming keeps what is not blank *)

(** A byte that occurs in no encoding of a space. *)
Definition dark (c : ascii) : bool :=
  forallb (fun p => negb (contains_char c p))
    ((string_of_bytes <$> space_encodings) ++ (string_of_bytes ∘ reverse <$> space_encodings)).

Lemma strip_prefix_Some p s s' : strip_prefix p s = Some s' -> s = p +:+ s'.
Proof.
  revert s. induction p as [|a p IH]; intros s; [by intros [= ->]|].
  destruct s as [|b s]; [done|]. simpl. case_bool_decide; [subst|done]. intros Hs.
  change (String b s = String b (p +:+ s')). f_equal. by apply IH.
Qed.

Lemma strip_any_contains c ps s s' :
  forallb (fun p => negb (contains_char c p)) ps = true -> strip_any ps s = Some s' ->
  contains_char c s' = contains_char c s.
Proof.
  induction ps as [|p ps IH]; simpl; [done|]. rewrite andb_true_iff, negb_true_iff. intros [Hp Hps].
  destruct (strip_prefix p s) as [s1|] eqn:Hs; [|by apply IH]. intros [= <-].
  apply strip_prefix_Some in Hs as ->. by rewrite contains_char_append, Hp.
Qed.

Lemma trim_while_contains c ps fuel s :
  forallb (fun p => negb (contains_char c p)) ps = true -> contains_char c (trim_while ps fuel s) = contains_char c s.
Proof.
  intros Hps. revert s. induction fuel as [|fuel IH]; intros s; simpl; [done|].
  destruct (strip_any ps s) as [s'|] eqn:Hs; [|done]. rewrite IH. by apply (strip_any_contains c ps).
Qed.

Lemma contains_char_rev_app c s t : contains_char c (String.rev_app s t) = contains_char c s || contains_char c t.
Proof.
  revert t. induction s as [|a s IH]; intros t; simpl; [done|]. rewrite IH. simpl.
  by rewrite orb_assoc, (orb_comm (contains_char c s)).
Qed.

Lemma TrimSpace_contains c s : dark c = true -> contains_char c (TrimSpace s) = contains_char c s.
Proof.
  unfold dark. rewrite forallb_app, andb_true_iff. intros [H1 H2].
  unfold TrimSpace, trim_right, trim_left, String.rev.
  rewrite contains_char_rev_app, trim_while_contains, contains_char_rev_app, trim_while_contains by done.
  simpl. by rewrite !orb_false_r.
Qed.

(** An address with a port is not blank. *)
Lemma TrimSpace_JoinHostPort h p : TrimSpace (JoinHostPort h p) <> "".
Proof.
  intros Heq. pose proof (TrimSpace_contains ":"%char (JoinHostPort h p) ltac:(by vm_compute)) as Hc. rewrite Heq in Hc.
  unfold JoinHostPort in Hc. destruct (contains_char ":"%char h) eqn:Hh.
  - rewrite !contains_char_append, Hh in Hc. done.
  - rewrite !contains_char_append, Hh in Hc. done.
Qed.

(** ** IPv4 addresses and blocks

    The dotted form, four numbers up to 255 without leading zeros, and the form
    address/length of a block, as network policies have it. *)

Fixpoint parse_octets (s : string) (cur : option Z) : option (list Z) :=
  match s with
  | EmptyString => match cur with Some o => Some [o] | None => None end
  | String c s =>
      if bool_decide (c = "."%char) then
        match cur with Some o => cons o <$> parse_octets s None | None => None end
      else
        match digit_value c, cur with
        | Some d, None => parse_octets s (Some d)
        | Some d, Some o =>
            if bool_decide (o = 0) || bool_decide (255 < 10 * o + d) then None else parse_octets s (Some (10 * o + d))
        | None, _ => None
        end
  end.

(** The address as a 32-bit number. *)
Definition ParseIPv4 (s : string) : option Z :=
  match parse_octets s None with
  | Some [a; b; c; d] => Some (((a * 256 + b) * 256 + c) * 256 + d)
  | _ => None
  end.

Fixpoint cut (sep : ascii) (s : string) : option (string * string) :=
  match s with
  | EmptyString => None
  | String c s => if bool_decide (c = sep) then Some (EmptyString, s) else (fun '(a, b) => (String c a, b)) <$> cut sep s
  end.

Definition ParseCIDRv4 (s : string) : option (Z * Z) :=
  match cut "/"%char s with
  | Some (addr, len) =>
      match ParseIPv4 addr, parse_digits 0 len with
      | Some a, Some n => if bool_decide (len = "") || bool_decide (32 < n) then None else Some (a, n)
      | _, _ => None
      end
  | None => None
  end.

(** The block has the address: they agree on the first [n] bits. *)
Definition cidr_contains (cidr : string) (addr : Z) : bool :=
  match ParseCIDRv4 cidr with
  | Some (a, n) => bool_decide (Z.shiftr addr (32 - n) = Z.shiftr a (32 - n))
  | None => false
  end.

Lemma cut_append sep a b : contains_char sep a = false -> cut sep (a +:+ String sep b) = Some (a, b).
Proof.
  induction a as [|c a IH]; intros Hc.
  - simpl. by rewrite bool_decide_true.
  - simpl in Hc. apply orb_false_iff in Hc as [Hne Hc]. apply bool_decide_eq_false in Hne. assert (c <> sep) by congruence.
    change (cut sep (String c (a +:+ String sep b)) = Some (String c a, b)). simpl.
    rewrite bool_decide_false by done. by rewrite IH.
Qed.

Lemma parse_octets_no_slash s cur l : parse_octets s cur = Some l -> contains_char "/"%char s = false.
Proof.
  revert cur l. induction s as [|c s IH]; intros cur l; simpl; [done|]. case_bool_decide as Hdot.
  - subst c. destruct cur; [|done]. intros (l' & Hl & _)%fmap_Some. change (contains_char "/"%char s = false). by eapply IH.
  - destruct (digit_value c) as [d|] eqn:Hd; [|done]. intros Hl. apply orb_false_iff. split.
    + apply bool_decide_eq_false. intros <-. discriminate Hd.
    + destruct cur; [destruct (_ || _); [done|]|]; by eapply IH.
Qed.

(** A block of length 32 has exactly its address. *)
Lemma cidr_contains_one ip a b : ParseIPv4 ip = Some a -> cidr_contains (ip +:+ "/32") b = true <-> b = a.
Proof.
  intros Hip. unfold cidr_contains, ParseCIDRv4. rewrite (cut_append "/"%char ip "32").
  - rewrite Hip. simpl. rewrite bool_decide_eq_true. by rewrite !Z.shiftr_0_r.
  - unfold ParseIPv4 in Hip. destruct (parse_octets ip None) eqn:Hp; [|done]. by eapply parse_octets_no_slash.
Qed.
