(* ===== verification/Proto.v ===== *)
(** * The wire messages (pkg/forwarder/proto/forwarder/v1/forwarder.pb.go)

    The generated structs have a pointer per field (explicit presence), so a
    field is an [option], and the getters read a nil message or a nil field as
    the zero value.  A message pointer is an [option] of the record. *)

From S2P Require Import Prelude.

(** The enum is open: a peer may send a number the schema does not name. *)
Inductive UpdateType := ADDED | MODIFIED | DELETED | SYNC | UpdateTypeOther (n : Z).

Record TunnelMapping := mkTunnelMapping {
  tm_TunnelName : option string;
  tm_TunnelNamespace : option string;
  tm_ForwarderPort : option Z;
  tm_GatewayAddress : option string;
  tm_Revision : option Z;
  tm_GatewayPodUid : option string;
  tm_GatewayPodIp : option string;
}.

Record TunnelUpdate := mkTunnelUpdate {
  tu_Type : option UpdateType;
  tu_Tunnel : option TunnelMapping;
}.

Record ForwarderConfig := mkForwarderConfig {
  fc_LbVip : option string;
  fc_Tunnels : list (option TunnelMapping);
}.

Record AckRequest := mkAckRequest {
  ar_ForwarderId : option string;
  ar_TunnelName : option string;
  ar_TunnelNamespace : option string;
  ar_Revision : option Z;
}.

Record StreamUpdatesRequest := mkStreamUpdatesRequest { su_ForwarderId : option string }.

(** The two messages without fields. *)
Inductive GetConfigRequest := mkGetConfigRequest.
Inductive AckResponse := mkAckResponse.

#[export] Instance UpdateType_eq_dec : EqDecision UpdateType.
Proof. solve_decision. Defined.
#[export] Instance TunnelMapping_eq_dec : EqDecision TunnelMapping.
Proof. solve_decision. Defined.
#[export] Instance TunnelUpdate_eq_dec : EqDecision TunnelUpdate.
Proof. solve_decision. Defined.
#[export] Instance AckRequest_eq_dec : EqDecision AckRequest.
Proof. solve_decision. Defined.

(** [if x != nil && x.F != nil { return *x.F }; return zero] *)
Definition getter {M A} (field : M -> option A) (zero : A) (x : option M) : A :=
  default zero (x ≫= field).

Definition GetTunnelName := getter tm_TunnelName "".
Definition GetTunnelNamespace := getter tm_TunnelNamespace "".
Definition GetForwarderPort := getter tm_ForwarderPort 0.
Definition GetGatewayAddress := getter tm_GatewayAddress "".
Definition GetRevision := getter tm_Revision 0.
Definition GetGatewayPodUid := getter tm_GatewayPodUid "".
Definition GetGatewayPodIp := getter tm_GatewayPodIp "".

Definition GetType := getter tu_Type ADDED.
Definition GetTunnel (x : option TunnelUpdate) : option TunnelMapping := x ≫= tu_Tunnel.

Definition GetLbVip := getter fc_LbVip "".
Definition GetTunnels (x : option ForwarderConfig) : list (option TunnelMapping) :=
  match x with Some c => fc_Tunnels c | None => [] end.

Definition GetAckForwarderId := getter ar_ForwarderId "".
Definition GetAckTunnelName := getter ar_TunnelName "".
Definition GetAckTunnelNamespace := getter ar_TunnelNamespace "".
Definition GetAckRevision := getter ar_Revision 0.
Definition GetStreamForwarderId := getter su_ForwarderId "".

(** The marker that opens every update stream. *)
Definition sync_update : TunnelUpdate := mkTunnelUpdate (Some SYNC) None.
