(* ===== verification/Api.v ===== *)
(** * The Tunnel custom resource (api/v1alpha1/tunnel_types.go)

    Go structs as records; a pointer field is an [option]; [TunnelPhase] is the
    string type it is in Go, with its constants. *)

From S2P Require Import Prelude.

Definition TunnelPhase := string.
Definition TunnelPhasePending : TunnelPhase := "Pending".
Definition TunnelPhaseProvisioning : TunnelPhase := "Provisioning".
Definition TunnelPhaseReady : TunnelPhase := "Ready".
Definition TunnelPhaseConnected : TunnelPhase := "Connected".
Definition TunnelPhaseFailed : TunnelPhase := "Failed".
Definition TunnelPhaseTerminated : TunnelPhase := "Terminated".

(** [metav1.LabelSelectorRequirement] *)
Record LabelSelectorRequirement := mkRequirement {
  lsr_Key : string;
  lsr_Operator : string;
  lsr_Values : list string;
}.

Record TunnelTargetPodSelector := mkPodSelector {
  MatchLabels : gmap string string;
  MatchExpressions : list LabelSelectorRequirement;
}.

Record TunnelTarget := mkTarget {
  Host : string;
  Port : Z;
  ResolvedIP : string;
  PodSelector : option TunnelTargetPodSelector;
}.

Record TunnelSpec := mkSpec {
  TeamSlug : string;
  Target : TunnelTarget;
  ClientPublicKey : string;
  ActiveDeadlineSeconds : option Z;
}.

Record TunnelStatus := mkStatus {
  Phase : TunnelPhase;
  GatewayPublicKey : string;
  ForwarderPort : Z;
  ForwarderEndpoint : string;
  GatewayPodName : string;
  GatewayPodUID : string;
  GatewayPodIP : string;
  MappingRevision : Z;
  Message : string;
}.

(** The metadata the program reads and writes. *)
Record Tunnel := mkTunnel {
  Name : string;
  Namespace : string;
  DeletionTimestamp : option Z;
  Finalizers : list string;
  Spec : TunnelSpec;
  Status : TunnelStatus;
}.

(** The zero value of the status of a new Tunnel. *)
Definition empty_status : TunnelStatus := mkStatus "" "" 0 "" "" "" "" 0 "".

#[export] Instance LabelSelectorRequirement_eq_dec : EqDecision LabelSelectorRequirement.
Proof. solve_decision. Defined.
#[export] Instance TunnelTargetPodSelector_eq_dec : EqDecision TunnelTargetPodSelector.
Proof. solve_decision. Defined.
#[export] Instance TunnelTarget_eq_dec : EqDecision TunnelTarget.
Proof. solve_decision. Defined.
#[export] Instance TunnelSpec_eq_dec : EqDecision TunnelSpec.
Proof. solve_decision. Defined.
#[export] Instance TunnelStatus_eq_dec : EqDecision TunnelStatus.
Proof. solve_decision. Defined.
#[export] Instance Tunnel_eq_dec : EqDecision Tunnel.
Proof. solve_decision. Defined.

(** ** Field assignment: [tunnel.Status.F = v] *)

Definition set_status (f : TunnelStatus -> TunnelStatus) (t : Tunnel) : Tunnel :=
  mkTunnel (Name t) (Namespace t) (DeletionTimestamp t) (Finalizers t) (Spec t) (f (Status t)).

Definition set_Finalizers (fs : list string) (t : Tunnel) : Tunnel :=
  mkTunnel (Name t) (Namespace t) (DeletionTimestamp t) fs (Spec t) (Status t).

Definition set_Phase v s := mkStatus v (GatewayPublicKey s) (ForwarderPort s) (ForwarderEndpoint s)
  (GatewayPodName s) (GatewayPodUID s) (GatewayPodIP s) (MappingRevision s) (Message s).
Definition set_GatewayPublicKey v s := mkStatus (Phase s) v (ForwarderPort s) (ForwarderEndpoint s)
  (GatewayPodName s) (GatewayPodUID s) (GatewayPodIP s) (MappingRevision s) (Message s).
Definition set_ForwarderPort v s := mkStatus (Phase s) (GatewayPublicKey s) v (ForwarderEndpoint s)
  (GatewayPodName s) (GatewayPodUID s) (GatewayPodIP s) (MappingRevision s) (Message s).
Definition set_ForwarderEndpoint v s := mkStatus (Phase s) (GatewayPublicKey s) (ForwarderPort s) v
  (GatewayPodName s) (GatewayPodUID s) (GatewayPodIP s) (MappingRevision s) (Message s).
Definition set_GatewayPodName v s := mkStatus (Phase s) (GatewayPublicKey s) (ForwarderPort s) (ForwarderEndpoint s)
  v (GatewayPodUID s) (GatewayPodIP s) (MappingRevision s) (Message s).
Definition set_GatewayPodUID v s := mkStatus (Phase s) (GatewayPublicKey s) (ForwarderPort s) (ForwarderEndpoint s)
  (GatewayPodName s) v (GatewayPodIP s) (MappingRevision s) (Message s).
Definition set_GatewayPodIP v s := mkStatus (Phase s) (GatewayPublicKey s) (ForwarderPort s) (ForwarderEndpoint s)
  (GatewayPodName s) (GatewayPodUID s) v (MappingRevision s) (Message s).
Definition set_MappingRevision v s := mkStatus (Phase s) (GatewayPublicKey s) (ForwarderPort s) (ForwarderEndpoint s)
  (GatewayPodName s) (GatewayPodUID s) (GatewayPodIP s) v (Message s).
Definition set_Message v s := mkStatus (Phase s) (GatewayPublicKey s) (ForwarderPort s) (ForwarderEndpoint s)
  (GatewayPodName s) (GatewayPodUID s) (GatewayPodIP s) (MappingRevision s) v.
