(* ===== verification/DeepCopy.v ===== *)
(** * Deep copies of the resource types (api/v1alpha1/zz_generated.deepcopy.go)

    The reconciler keeps [tunnel.DeepCopy()] beside the object it changes, and the
    informer cache hands out objects that callers must not change: both rely on a copy
    that shares no memory with its original.  Here memory is explicit.  A pointer, map
    or slice is a name in a store of cells, a struct holds such names, and the generated
    functions read, allocate and write cells in the order of the code.

    Every struct has its reference fields as type parameters: in memory they are
    names ([option loc], [option slice]; [None] is nil), in the value the struct denotes
    they are what the names lead to.  [denote] relates the two.  The copy functions of
    apimachinery (ObjectMeta, ListMeta, Condition, LabelSelectorRequirement) are not part
    of the repository: they are an interface, [Copier] with [CopierLaws]. *)

From S2P Require Import Prelude.

Definition loc := positive.

(** A slice header; the capacity plays no role in copying. *)
Record slice := mkSlice { s_array : loc; s_offset : nat; s_len : nat }.

(** ** The structs (tunnel_types.go), over the types of their reference fields *)

Record TunnelTargetPodSelector (M E : Type) := mkPodSelector {
  MatchLabels : M;
  MatchExpressions : E;
}.
Arguments mkPodSelector {_ _}.
Arguments MatchLabels {_ _}.
Arguments MatchExpressions {_ _}.

Record TunnelTarget (P : Type) := mkTarget {
  Host : string;
  Port : Z;
  ResolvedIP : string;
  PodSelector : P;
}.
Arguments mkTarget {_}.
Arguments Host {_}.
Arguments Port {_}.
Arguments ResolvedIP {_}.
Arguments PodSelector {_}.

Record TunnelSpec (P D : Type) := mkSpec {
  TeamSlug : string;
  Target : TunnelTarget P;
  ClientPublicKey : string;
  ActiveDeadlineSeconds : D;
}.
Arguments mkSpec {_ _}.
Arguments TeamSlug {_ _}.
Arguments Target {_ _}.
Arguments ClientPublicKey {_ _}.
Arguments ActiveDeadlineSeconds {_ _}.

Record TunnelStatus (C : Type) := mkStatus {
  Phase : string;
  GatewayPublicKey : string;
  ForwarderPort : Z;
  ForwarderEndpoint : string;
  GatewayPodName : string;
  GatewayPodUID : string;
  GatewayPodIP : string;
  MappingRevision : Z;
  Message : string;
  Conditions : C;
}.
Arguments mkStatus {_}.
Arguments Phase {_}.
Arguments GatewayPublicKey {_}.
Arguments ForwarderPort {_}.
Arguments ForwarderEndpoint {_}.
Arguments GatewayPodName {_}.
Arguments GatewayPodUID {_}.
Arguments GatewayPodIP {_}.
Arguments MappingRevision {_}.
Arguments Message {_}.
Arguments Conditions {_}.

(** [metav1.TypeMeta], two strings. *)
Record TypeMeta := mkTypeMeta { Kind : string; APIVersion : string }.

Record Tunnel (O P D C : Type) := mkTunnel {
  Tunnel_TypeMeta : TypeMeta;
  ObjectMeta : O;
  Spec : TunnelSpec P D;
  Status : TunnelStatus C;
}.
Arguments mkTunnel {_ _ _ _}.
Arguments Tunnel_TypeMeta {_ _ _ _}.
Arguments ObjectMeta {_ _ _ _}.
Arguments Spec {_ _ _ _}.
Arguments Status {_ _ _ _}.

Record TunnelList (L I : Type) := mkTunnelList {
  List_TypeMeta : TypeMeta;
  ListMeta : L;
  Items : I;
}.
Arguments mkTunnelList {_ _}.
Arguments List_TypeMeta {_ _}.
Arguments ListMeta {_ _}.
Arguments Items {_ _}.

(** The structs as they lie in memory. *)
Abbreviation mem_selector := (TunnelTargetPodSelector (option loc) (option slice)).
Abbreviation mem_target := (TunnelTarget (option loc)).
Abbreviation mem_spec := (TunnelSpec (option loc) (option loc)).
Abbreviation mem_status := (TunnelStatus (option slice)).
Abbreviation mem_tunnel O := (Tunnel O (option loc) (option loc) (option slice)).
Abbreviation mem_list L := (TunnelList L (option slice)).

(** ** Memory

    One constructor per type the functions allocate; [CLib] holds what the library's
    own copy functions allocate. *)

Inductive cell (X Req Cond O L : Type) :=
| CSelector (s : mem_selector)
| CLabels (m : gmap string string)
| CRequirements (l : list Req)
| CInt64 (n : Z)
| CTarget (t : mem_target)
| CSpec (s : mem_spec)
| CConditions (l : list Cond)
| CStatus (s : mem_status)
| CTunnel (t : mem_tunnel O)
| CTunnels (l : list (mem_tunnel O))
| CTunnelList (l : mem_list L)
| CLib (x : X).
Arguments CSelector {_ _ _ _ _}.
Arguments CLabels {_ _ _ _ _}.
Arguments CRequirements {_ _ _ _ _}.
Arguments CInt64 {_ _ _ _ _}.
Arguments CTarget {_ _ _ _ _}.
Arguments CSpec {_ _ _ _ _}.
Arguments CConditions {_ _ _ _ _}.
Arguments CStatus {_ _ _ _ _}.
Arguments CTunnel {_ _ _ _ _}.
Arguments CTunnels {_ _ _ _ _}.
Arguments CTunnelList {_ _ _ _ _}.
Arguments CLib {_ _ _ _ _}.

(** A computation over the store [gmap loc C]; [None] is a panic (a nil or dangling
    dereference, an index out of range). *)
Definition HM (C A : Type) : Type := gmap loc C -> option (A * gmap loc C).
#[export] Instance HM_ret {C} : MRet (HM C) := fun _ a h => Some (a, h).
#[export] Instance HM_bind {C} : MBind (HM C) := fun _ _ f m h => match m h with Some (a, h') => f a h' | None => None end.

(** How a Go type is kept in a cell, and its zero value. *)
Class InCell (C A : Type) := { into : A -> C; outof : C -> option A; outof_into a : outof (into a) = Some a }.
Class Zero (A : Type) := zero : A.

Section memory.
Context {C : Type}.

Definition alloc `{InCell C A} (a : A) : HM C loc := fun h =>
  let l := fresh (dom h) in Some (l, <[l := into a]> h).

(** What the cell [l] holds, read as an [A]. *)
Definition contents (A : Type) `{InCell C A} (h : gmap loc C) (l : loc) : option A :=
  match h !! l with Some c => outof c | None => None end.

Definition load `{InCell C A} (l : loc) : HM C A := fun h =>
  match contents A h l with Some a => Some (a, h) | None => None end.

Definition store `{InCell C A} (l : loc) (a : A) : HM C unit := fun h =>
  match h !! l with Some _ => Some (tt, <[l := into a]> h) | None => None end.

(** An element of an array: out of range panics. *)
Definition index {A} (xs : list A) (i : nat) : HM C A := fun h =>
  match xs !! i with Some x => Some (x, h) | None => None end.

(** The type [T] as copied by [copyInto] and read by [denote]. *)
Class Copier (T V : Type) := { copyInto : T -> HM C T; denote : gmap loc C -> T -> option V }.

(** Plain data is copied by assignment. *)
Definition plain {T} : Copier T T := {| copyInto x := mret x; denote _ x := Some x |}.

(** [if in == nil { return nil }; out := new(T); in.DeepCopyInto(out); return out],
    and the same pattern for a pointer field. *)
Definition copy_pointer `{InCell C T, !Zero T, !Copier T V} (p : option loc) : HM C (option loc) :=
  match p with
  | None => mret None
  | Some l =>
      out ← alloc (zero : T);
      x ← load l;
      y ← copyInto x;
      store out y ;;
      mret (Some out)
  end.

(** [for i := range in { in[i].DeepCopyInto(&out[i]) }], from index [i] on
    with [n] rounds to go. *)
Fixpoint copy_elements `{InCell C (list T), !Copier T V} (src : slice) (dst : loc) (i n : nat) : HM C unit :=
  match n with
  | O => mret tt
  | S n =>
      xs ← load (s_array src);
      x ← index xs (s_offset src + i);
      y ← copyInto x;
      ys ← (load dst : HM C (list T));
      _ ← index ys i;
      store dst (<[i := y]> ys) ;;
      copy_elements src dst (S i) n
  end.

Definition copy_slice `{InCell C (list T), !Zero T, !Copier T V} (p : option slice) : HM C (option slice) :=
  match p with
  | None => mret None
  | Some src =>
      dst ← alloc (replicate (s_len src) (zero : T));
      copy_elements src dst 0 (s_len src) ;;
      mret (Some (mkSlice dst 0 (s_len src)))
  end.

(** [for key, val := range in { out[key] = val }] over the entries [l]. *)
Fixpoint copy_entries `{InCell C (gmap string string)} (dst : loc) (l : list (string * string)) : HM C unit :=
  match l with
  | [] => mret tt
  | (key, val) :: l =>
      m ← (load dst : HM C (gmap string string));
      store dst (<[key := val]> m) ;;
      copy_entries dst l
  end.

Definition copy_map `{InCell C (gmap string string)} (p : option loc) : HM C (option loc) :=
  match p with
  | None => mret None
  | Some src =>
      dst ← alloc (∅ : gmap string string);
      m ← (load src : HM C (gmap string string));
      copy_entries dst (map_to_list m) ;;
      mret (Some dst)
  end.

(** What a pointer, a slice and a map denote. *)
Definition denote_pointer `{InCell C T, !Copier T V} (h : gmap loc C) (p : option loc) : option (option V) :=
  match p with
  | None => Some None
  | Some l =>
      match contents T h l with
      | Some x => match denote h x with Some v => Some (Some v) | None => None end
      | None => None
      end
  end.

Definition denote_slice `{InCell C (list T), !Copier T V} (h : gmap loc C) (p : option slice) : option (option (list V)) :=
  match p with
  | None => Some None
  | Some s =>
      match contents (list T) h (s_array s) with
      | Some xs =>
          if bool_decide (s_offset s + s_len s <= length xs)%nat
          then match mapM (denote h) (take (s_len s) (drop (s_offset s) xs)) with Some vs => Some (Some vs) | None => None end
          else None
      | None => None
      end
  end.

Definition denote_map `{InCell C (gmap string string)} (h : gmap loc C) (p : option loc) : option (option (gmap string string)) :=
  match p with
  | None => Some None
  | Some l => match contents (gmap string string) h l with Some m => Some (Some m) | None => None end
  end.
End memory.
Arguments Copier : clear implicits.

(** ** What a correct copy is

    A copy allocates new cells [hn] and writes nothing else, and the new cells alone
    hold the value of the original. *)
Class CopierLaws (C T V : Type) `{!Copier C T V} : Prop := {
  denote_mono h h' (x : T) (v : V) : h ⊆ h' -> denote h x = Some v -> denote h' x = Some v;
  copyInto_fresh h (x : T) (v : V) : denote h x = Some v ->
    exists y hn, copyInto x h = Some (y, h ∪ hn) /\ h ##ₘ hn /\ denote hn y = Some v;
}.

(** ** The generated functions

    Each starts with [*out = *in], which fills the fields without references, and then
    replaces the reference fields. *)

Section cells.
Context {X Req Cond O L : Type}.
#[export] Instance in_selector : InCell (cell X Req Cond O L) mem_selector :=
  {| into := CSelector; outof c := match c with CSelector s => Some s | _ => None end; outof_into _ := eq_refl |}.
#[export] Instance in_labels : InCell (cell X Req Cond O L) (gmap string string) :=
  {| into := CLabels; outof c := match c with CLabels m => Some m | _ => None end; outof_into _ := eq_refl |}.
#[export] Instance in_requirements : InCell (cell X Req Cond O L) (list Req) :=
  {| into := CRequirements; outof c := match c with CRequirements l => Some l | _ => None end; outof_into _ := eq_refl |}.
#[export] Instance in_int64 : InCell (cell X Req Cond O L) Z :=
  {| into := CInt64; outof c := match c with CInt64 n => Some n | _ => None end; outof_into _ := eq_refl |}.
#[export] Instance in_target : InCell (cell X Req Cond O L) mem_target :=
  {| into := CTarget; outof c := match c with CTarget t => Some t | _ => None end; outof_into _ := eq_refl |}.
#[export] Instance in_spec : InCell (cell X Req Cond O L) mem_spec :=
  {| into := CSpec; outof c := match c with CSpec s => Some s | _ => None end; outof_into _ := eq_refl |}.
#[export] Instance in_conditions : InCell (cell X Req Cond O L) (list Cond) :=
  {| into := CConditions; outof c := match c with CConditions l => Some l | _ => None end; outof_into _ := eq_refl |}.
#[export] Instance in_status : InCell (cell X Req Cond O L) mem_status :=
  {| into := CStatus; outof c := match c with CStatus s => Some s | _ => None end; outof_into _ := eq_refl |}.
#[export] Instance in_tunnel : InCell (cell X Req Cond O L) (mem_tunnel O) :=
  {| into := CTunnel; outof c := match c with CTunnel t => Some t | _ => None end; outof_into _ := eq_refl |}.
#[export] Instance in_tunnels : InCell (cell X Req Cond O L) (list (mem_tunnel O)) :=
  {| into := CTunnels; outof c := match c with CTunnels l => Some l | _ => None end; outof_into _ := eq_refl |}.
#[export] Instance in_list : InCell (cell X Req Cond O L) (mem_list L) :=
  {| into := CTunnelList; outof c := match c with CTunnelList l => Some l | _ => None end; outof_into _ := eq_refl |}.
End cells.

#[export] Instance zero_int64 : Zero Z := 0.
#[export] Instance zero_selector : Zero mem_selector := mkPodSelector None None.
#[export] Instance zero_target : Zero mem_target := mkTarget "" 0 "" None.
#[export] Instance zero_spec : Zero mem_spec := mkSpec "" zero "" None.
#[export] Instance zero_status : Zero mem_status := mkStatus "" "" 0 "" "" "" "" 0 "" None.
#[export] Instance zero_tunnel {O} `{!Zero O} : Zero (mem_tunnel O) := mkTunnel (mkTypeMeta "" "") zero zero zero.
#[export] Instance zero_list {L} `{!Zero L} : Zero (mem_list L) := mkTunnelList (mkTypeMeta "" "") zero None.

(** The values the structs stand for. *)
Abbreviation v_selector VReq := (TunnelTargetPodSelector (option (gmap string string)) (option (list VReq))).
Abbreviation v_target VReq := (TunnelTarget (option (v_selector VReq))).
Abbreviation v_spec VReq := (TunnelSpec (option (v_selector VReq)) (option Z)).
Abbreviation v_status VCond := (TunnelStatus (option (list VCond))).
Abbreviation v_tunnel VReq VCond VO := (Tunnel VO (option (v_selector VReq)) (option Z) (option (list VCond))).
Abbreviation v_list VReq VCond VO VL := (TunnelList VL (option (list (v_tunnel VReq VCond VO)))).

(** [runtime.Object]: an interface value is nil or holds a pointer. *)
Inductive runtime_Object := TunnelObject (p : loc) | TunnelListObject (p : loc).

Section generated.
Context {X Req VReq Cond VCond O VO L VL : Type}.
Abbreviation C := (cell X Req Cond O L).
Context `{copy_req : !Copier C Req VReq, copy_cond : !Copier C Cond VCond,
          copy_ometa : !Copier C O VO, copy_lmeta : !Copier C L VL,
          !Zero Req, !Zero Cond, !Zero O, !Zero L}.

Definition TunnelTargetPodSelector_DeepCopyInto (i : mem_selector) : HM C mem_selector :=
  labels ← copy_map (MatchLabels i);
  expressions ← copy_slice (T := Req) (MatchExpressions i);
  mret (mkPodSelector labels expressions).

#[export] Instance selector_copier : Copier C mem_selector (v_selector VReq) := {|
  copyInto := TunnelTargetPodSelector_DeepCopyInto;
  denote h s :=
    match denote_map h (MatchLabels s), denote_slice (T := Req) h (MatchExpressions s) with
    | Some m, Some e => Some (mkPodSelector m e)
    | _, _ => None
    end |}.

Definition TunnelTarget_DeepCopyInto (i : mem_target) : HM C mem_target :=
  p ← copy_pointer (T := mem_selector) (PodSelector i);
  mret (mkTarget (Host i) (Port i) (ResolvedIP i) p).

#[export] Instance target_copier : Copier C mem_target (v_target VReq) := {|
  copyInto := TunnelTarget_DeepCopyInto;
  denote h t :=
    match denote_pointer (T := mem_selector) h (PodSelector t) with
    | Some p => Some (mkTarget (Host t) (Port t) (ResolvedIP t) p)
    | None => None
    end |}.

#[local] Instance int64_copier : Copier C Z Z := plain.

Definition TunnelSpec_DeepCopyInto (i : mem_spec) : HM C mem_spec :=
  target ← TunnelTarget_DeepCopyInto (Target i);
  deadline ← copy_pointer (T := Z) (ActiveDeadlineSeconds i);
  mret (mkSpec (TeamSlug i) target (ClientPublicKey i) deadline).

#[export] Instance spec_copier : Copier C mem_spec (v_spec VReq) := {|
  copyInto := TunnelSpec_DeepCopyInto;
  denote h s :=
    match denote h (Target s), denote_pointer (T := Z) h (ActiveDeadlineSeconds s) with
    | Some t, Some d => Some (mkSpec (TeamSlug s) t (ClientPublicKey s) d)
    | _, _ => None
    end |}.

(** A status with other conditions. *)
Definition with_conditions {A B} (s : TunnelStatus A) (c : B) : TunnelStatus B :=
  mkStatus (Phase s) (GatewayPublicKey s) (ForwarderPort s) (ForwarderEndpoint s) (GatewayPodName s)
    (GatewayPodUID s) (GatewayPodIP s) (MappingRevision s) (Message s) c.

Definition TunnelStatus_DeepCopyInto (i : mem_status) : HM C mem_status :=
  conditions ← copy_slice (T := Cond) (Conditions i);
  mret (with_conditions i conditions).

#[export] Instance status_copier : Copier C mem_status (v_status VCond) := {|
  copyInto := TunnelStatus_DeepCopyInto;
  denote h s :=
    match denote_slice (T := Cond) h (Conditions s) with
    | Some c => Some (with_conditions s c)
    | None => None
    end |}.

Definition Tunnel_DeepCopyInto (i : mem_tunnel O) : HM C (mem_tunnel O) :=
  meta ← copyInto (ObjectMeta i);
  spec ← TunnelSpec_DeepCopyInto (Spec i);
  status ← TunnelStatus_DeepCopyInto (Status i);
  mret (mkTunnel (Tunnel_TypeMeta i) meta spec status).

#[export] Instance tunnel_copier : Copier C (mem_tunnel O) (v_tunnel VReq VCond VO) := {|
  copyInto := Tunnel_DeepCopyInto;
  denote h t :=
    match denote h (ObjectMeta t), denote h (Spec t), denote h (Status t) with
    | Some m, Some sp, Some st => Some (mkTunnel (Tunnel_TypeMeta t) m sp st)
    | _, _, _ => None
    end |}.

Definition TunnelList_DeepCopyInto (i : mem_list L) : HM C (mem_list L) :=
  meta ← copyInto (ListMeta i);
  items ← copy_slice (T := mem_tunnel O) (Items i);
  mret (mkTunnelList (List_TypeMeta i) meta items).

#[export] Instance list_copier : Copier C (mem_list L) (v_list VReq VCond VO VL) := {|
  copyInto := TunnelList_DeepCopyInto;
  denote h t :=
    match denote h (ListMeta t), denote_slice (T := mem_tunnel O) h (Items t) with
    | Some m, Some items => Some (mkTunnelList (List_TypeMeta t) m items)
    | _, _ => None
    end |}.

Definition TunnelTargetPodSelector_DeepCopy : option loc -> HM C (option loc) := copy_pointer (T := mem_selector).
Definition TunnelTarget_DeepCopy : option loc -> HM C (option loc) := copy_pointer (T := mem_target).
Definition TunnelSpec_DeepCopy : option loc -> HM C (option loc) := copy_pointer (T := mem_spec).
Definition TunnelStatus_DeepCopy : option loc -> HM C (option loc) := copy_pointer (T := mem_status).
Definition Tunnel_DeepCopy : option loc -> HM C (option loc) := copy_pointer (T := mem_tunnel O).
Definition TunnelList_DeepCopy : option loc -> HM C (option loc) := copy_pointer (T := mem_list L).

(** A nil pointer becomes the nil interface, not an interface that holds one. *)
Definition Tunnel_DeepCopyObject (i : option loc) : HM C (option runtime_Object) :=
  c ← Tunnel_DeepCopy i;
  mret (match c with Some p => Some (TunnelObject p) | None => None end).
Definition TunnelList_DeepCopyObject (i : option loc) : HM C (option runtime_Object) :=
  c ← TunnelList_DeepCopy i;
  mret (match c with Some p => Some (TunnelListObject p) | None => None end).
End generated.

(** ** Reasoning about copies

    [runs h hi m Q]: over memory that existed before ([h], which [m] must leave alone)
    and cells made since ([hi]), [m] returns, and its result and the new cells satisfy
    [Q]. *)
Section logic.
Context {C : Type}.
Implicit Types h hi hn : gmap loc C.

Definition runs {A} h hi (m : HM C A) (Q : A -> gmap loc C -> Prop) : Prop :=
  h ##ₘ hi -> exists a hn, m (h ∪ hi) = Some (a, h ∪ hn) /\ h ##ₘ hn /\ Q a hn.

Lemma runs_ret {A} h hi (a : A) (Q : A -> gmap loc C -> Prop) : Q a hi -> runs h hi (mret a) Q.
Proof. intros HQ Hd. exists a, hi. done. Qed.

Lemma runs_bind {A B} h hi (m : HM C A) (f : A -> HM C B) Q :
  runs h hi m (fun a hn => runs h hn (f a) Q) -> runs h hi (mbind f m) Q.
Proof.
  intros Hm Hd. destruct (Hm Hd) as (a & h1 & E1 & Hd1 & Hf). destruct (Hf Hd1) as (b & h2 & E2 & Hd2 & HQ).
  exists b, h2. unfold mbind, HM_bind. by rewrite E1.
Qed.

Lemma runs_mono {A} h hi (m : HM C A) (Q Q' : A -> gmap loc C -> Prop) :
  runs h hi m Q -> (forall a hn, h ##ₘ hn -> Q a hn -> Q' a hn) -> runs h hi m Q'.
Proof. intros Hm HQ Hd. destruct (Hm Hd) as (a & hn & E & Hd' & HQa). exists a, hn. auto. Qed.

Lemma contents_mono `{InCell C A} h h' l (a : A) : h ⊆ h' -> contents A h l = Some a -> contents A h' l = Some a.
Proof.
  unfold contents. intros Hsub. destruct (h !! l) as [c|] eqn:E; [|done].
  by rewrite (lookup_weaken _ _ _ _ E Hsub).
Qed.

Lemma contents_insert `{InCell C A} h l (a : A) : contents A (<[l := into a]> h) l = Some a.
Proof. unfold contents. by rewrite lookup_insert_eq, outof_into. Qed.

Lemma runs_alloc `{InCell C A} h hi (a : A) (Q : loc -> gmap loc C -> Prop) :
  (forall l, hi !! l = None -> Q l (<[l := into a]> hi)) -> runs h hi (alloc a) Q.
Proof.
  intros HQ Hd. set (l := fresh (dom (h ∪ hi))).
  assert ((h ∪ hi) !! l = None) as Hl by (apply not_elem_of_dom, is_fresh).
  apply lookup_union_None in Hl as [Hl1 Hl2]. exists l, (<[l := into a]> hi). split_and!; [| |by apply HQ].
  - unfold alloc. fold l. by rewrite insert_union_r.
  - by apply map_disjoint_insert_r.
Qed.

Lemma runs_load_old `{InCell C A} h hi l (a : A) (Q : A -> gmap loc C -> Prop) :
  contents A h l = Some a -> Q a hi -> runs h hi (load l) Q.
Proof.
  intros Hl HQ Hd. exists a, hi. split_and!; [|done..]. unfold load.
  by rewrite (contents_mono h (h ∪ hi) l a (map_union_subseteq_l _ _) Hl).
Qed.

Lemma runs_load_new `{InCell C A} h hi l (a : A) (Q : A -> gmap loc C -> Prop) :
  contents A hi l = Some a -> Q a hi -> runs h hi (load l) Q.
Proof.
  intros Hl HQ Hd. exists a, hi. split_and!; [|done..]. unfold load.
  by rewrite (contents_mono hi (h ∪ hi) l a (map_union_subseteq_r _ _ Hd) Hl).
Qed.

Lemma runs_store `{InCell C A} h hi l (a : A) (Q : unit -> gmap loc C -> Prop) :
  is_Some (hi !! l) -> Q tt (<[l := into a]> hi) -> runs h hi (store l a) Q.
Proof.
  intros [c Hl] HQ Hd. assert (h !! l = None) as Hh by (by apply (map_disjoint_Some_r h hi l c)).
  exists tt, (<[l := into a]> hi). split_and!; [|by apply map_disjoint_insert_r|done].
  unfold store. rewrite lookup_union_r, Hl by done. by rewrite insert_union_r.
Qed.

Lemma runs_index {A} h hi (xs : list A) i x (Q : A -> gmap loc C -> Prop) :
  xs !! i = Some x -> Q x hi -> runs h hi (index xs i) Q.
Proof. intros Hx HQ Hd. exists x, hi. unfold index. by rewrite Hx. Qed.

(** Treat what was made so far as memory to leave alone. *)
Lemma runs_frame {A} h hi (m : HM C A) (Q : A -> gmap loc C -> Prop) :
  runs (h ∪ hi) ∅ m (fun a hn => hi ##ₘ hn -> Q a (hi ∪ hn)) -> runs h hi m Q.
Proof.
  intros Hm Hd. destruct Hm as (a & hn & E & Hd' & HQ); [apply map_disjoint_empty_r|].
  apply map_disjoint_union_l in Hd' as [Hd1 Hd2]. rewrite (right_id_L ∅ (∪)) in E.
  exists a, (hi ∪ hn). rewrite E, (assoc_L (∪)). split_and!; [done| |by apply HQ]. by apply map_disjoint_union_r.
Qed.

(** Copying something that existed before. *)
Lemma runs_copy `{CopierLaws C T V} h hi (x : T) (v : V) (Q : T -> gmap loc C -> Prop) :
  denote h x = Some v ->
  (forall y hn, hi ##ₘ hn -> denote hn y = Some v -> Q y (hi ∪ hn)) -> runs h hi (copyInto x) Q.
Proof.
  intros Hx HQ Hd.
  destruct (copyInto_fresh (h ∪ hi) x v) as (y & hn & E & Hd' & Hy).
  { apply (denote_mono h); [apply map_union_subseteq_l|done]. }
  apply map_disjoint_union_l in Hd' as [Hd1 Hd2].
  exists y, (hi ∪ hn). rewrite E, (assoc_L (∪)). split_and!; [done| |by apply HQ]. by apply map_disjoint_union_r.
Qed.
End logic.

Ltac runs_step := apply runs_bind.

Section containers.
Context {C : Type}.
Implicit Types h hi hn : gmap loc C.

(** *** Pointers *)
Lemma denote_pointer_mono `{InCell C T, CopierLaws C T V} h h' p (v : option V) :
  h ⊆ h' -> denote_pointer (T := T) h p = Some v -> denote_pointer (T := T) h' p = Some v.
Proof.
  intros Hsub. destruct p as [l|]; simpl; [|done]. destruct (contents T h l) as [x|] eqn:El; [|done].
  rewrite (contents_mono _ _ _ _ Hsub El). destruct (denote h x) as [w|] eqn:Ex; [|done].
  by rewrite (denote_mono _ _ _ _ Hsub Ex).
Qed.

Lemma runs_copy_pointer `{InCell C T, !Zero T, CopierLaws C T V} h hi p (v : option V) (Q : option loc -> gmap loc C -> Prop) :
  denote_pointer (T := T) h p = Some v ->
  (forall p' hn, hi ##ₘ hn -> (p = None <-> p' = None) -> denote_pointer (T := T) hn p' = Some v -> Q p' (hi ∪ hn)) ->
  runs h hi (copy_pointer (T := T) p) Q.
Proof.
  intros Hp HQ. destruct p as [l|]; simpl in Hp |- *; simplify_eq.
  2: { apply runs_ret. rewrite <- (right_id_L ∅ (∪) hi). apply HQ; [apply map_disjoint_empty_r|done|done]. }
  destruct (contents T h l) as [x|] eqn:El; [|done]. destruct (denote h x) as [w|] eqn:Ex; simplify_eq.
  runs_step. apply runs_alloc. intros out Hout.
  runs_step. apply (runs_load_old _ _ _ x); [done|].
  runs_step. apply (runs_copy _ _ _ w); [done|]. intros y hn Hd Hy.
  apply map_disjoint_insert_l in Hd as [Hn Hd].
  runs_step. apply runs_store; [rewrite <- insert_union_l, lookup_insert_eq; by eexists|].
  apply runs_ret. rewrite <- insert_union_l, insert_insert_eq, insert_union_r by done.
  apply HQ; [by apply map_disjoint_insert_r|done|]. simpl. rewrite contents_insert.
  by rewrite (denote_mono hn (<[out := into y]> hn) y w (insert_subseteq _ _ _ Hn) Hy).
Qed.

(** *** Slices *)
Lemma mapM_denote_mono `{CopierLaws C T V} h h' (xs : list T) (vs : list V) :
  h ⊆ h' -> mapM (denote h) xs = Some vs -> mapM (denote h') xs = Some vs.
Proof.
  intros Hsub Hm. apply mapM_Some in Hm. apply mapM_Some. eapply Forall2_impl; [exact Hm|].
  intros x v Hx. by apply (denote_mono h).
Qed.

Lemma denote_slice_mono `{InCell C (list T), CopierLaws C T V} h h' p (v : option (list V)) :
  h ⊆ h' -> denote_slice (T := T) h p = Some v -> denote_slice (T := T) h' p = Some v.
Proof.
  intros Hsub. destruct p as [s|]; simpl; [|done]. destruct (contents (list T) h (s_array s)) as [xs|] eqn:El; [|done].
  rewrite (contents_mono _ _ _ _ Hsub El). case_bool_decide; [|done].
  destruct (mapM (denote h) _) as [ws|] eqn:Ex; [|done]. by rewrite (mapM_denote_mono _ _ _ _ Hsub Ex).
Qed.

(** The loop: elements before [i] are done; the array being filled is the only cell
    the loop overwrites, and no copied element depends on it. *)
Lemma runs_copy_elements `{InCell C (list T), CopierLaws C T V} h src dst (xs : list T) (vs : list V) n i ys hr
    (Q : unit -> gmap loc C -> Prop) :
  contents (list T) h (s_array src) = Some xs ->
  (s_offset src + s_len src <= length xs)%nat ->
  mapM (denote h) (take (s_len src) (drop (s_offset src) xs)) = Some vs ->
  (i + n = s_len src)%nat -> length ys = s_len src -> hr !! dst = None ->
  mapM (denote hr) (take i ys) = Some (take i vs) ->
  (forall ys hr, hr !! dst = None -> length ys = s_len src -> mapM (denote hr) ys = Some vs -> Q tt (<[dst := into ys]> hr)) ->
  runs h (<[dst := into ys]> hr) (copy_elements (T := T) src dst i n) Q.
Proof.
  intros Hxs Hlen Hvs. apply mapM_Some in Hvs as Hvs'.
  assert (length vs = s_len src) as Hlv.
  { rewrite <- (Forall2_length _ _ _ Hvs'), length_take, length_drop. lia. }
  revert i ys hr. induction n as [|n IH]; intros i ys hr Hi Hys Hdst Hdone HQ; simpl.
  { apply runs_ret, HQ; [done|done|]. rewrite !take_ge in Hdone by lia. done. }
  assert (exists v, vs !! i = Some v) as [v Hv] by (apply lookup_lt_is_Some; lia).
  destruct (Forall2_lookup_r _ _ _ _ _ Hvs' Hv) as (x & Hx & Hxv).
  rewrite lookup_take_lt, lookup_drop in Hx by lia.
  assert (exists y0, ys !! i = Some y0) as [y0 Hy0] by (apply lookup_lt_is_Some; lia).
  runs_step. apply (runs_load_old _ _ _ xs); [done|].
  runs_step. apply (runs_index _ _ _ _ x); [done|].
  runs_step. apply (runs_copy _ _ _ v); [done|]. intros y hn Hd Hy.
  apply map_disjoint_insert_l in Hd as [Hn Hd]. rewrite <- insert_union_l.
  runs_step. apply (runs_load_new _ _ _ ys); [apply contents_insert|].
  runs_step. apply (runs_index _ _ _ _ y0); [done|].
  runs_step. apply runs_store; [rewrite lookup_insert_eq; by eexists|]. rewrite insert_insert_eq.
  apply IH; [lia|by rewrite length_insert|by apply lookup_union_None| |done].
  rewrite (take_S_r _ _ y) by (apply list_lookup_insert_eq; lia). rewrite take_insert_ge by lia.
  rewrite (take_S_r _ _ v) by done. apply mapM_Some, Forall2_app.
  - apply mapM_Some, (mapM_denote_mono hr); [apply map_union_subseteq_l|done].
  - constructor; [|constructor]. apply (denote_mono hn); [by apply map_union_subseteq_r|done].
Qed.

Lemma runs_copy_slice `{InCell C (list T), !Zero T, CopierLaws C T V} h hi p (v : option (list V))
    (Q : option slice -> gmap loc C -> Prop) :
  denote_slice (T := T) h p = Some v ->
  (forall p' hn, hi ##ₘ hn -> denote_slice (T := T) hn p' = Some v -> Q p' (hi ∪ hn)) ->
  runs h hi (copy_slice (T := T) p) Q.
Proof.
  intros Hp HQ. destruct p as [src|]; simpl in Hp |- *; simplify_eq.
  2: { apply runs_ret. rewrite <- (right_id_L ∅ (∪) hi). apply HQ; [apply map_disjoint_empty_r|done]. }
  destruct (contents (list T) h (s_array src)) as [xs|] eqn:Exs; [|done]. case_bool_decide as Hlen; [|done].
  destruct (mapM (denote h) _) as [vs|] eqn:Evs; simplify_eq.
  apply runs_frame. runs_step. apply runs_alloc. intros dst _. runs_step.
  apply (runs_copy_elements _ _ _ xs vs); [| |  |done|apply length_replicate|apply lookup_empty|done|].
  - by apply (contents_mono h); [apply map_union_subseteq_l|].
  - done.
  - by apply (mapM_denote_mono h); [apply map_union_subseteq_l|].
  - intros ys hr Hdst Hys Hden. apply runs_ret. intros Hd. apply HQ; [done|]. simpl.
    rewrite contents_insert, bool_decide_true, drop_0, take_ge by (simpl; lia).
    by rewrite (mapM_denote_mono _ _ _ _ (insert_subseteq _ _ (into ys) Hdst) Hden).
Qed.

(** *** Maps *)
Context `{InCell C (gmap string string)}.

Lemma denote_map_mono h h' p v : h ⊆ h' -> denote_map h p = Some v -> denote_map h' p = Some v.
Proof.
  intros Hsub. destruct p as [l|]; simpl; [|done]. destruct (contents (gmap string string) h l) as [x|] eqn:El; [|done].
  by rewrite (contents_mono _ _ _ _ Hsub El).
Qed.

Lemma runs_copy_entries h hr dst l (m : gmap string string) (Q : unit -> gmap loc C -> Prop) :
  Q tt (<[dst := into (foldl (fun m e => <[e.1 := e.2]> m) m l)]> hr) ->
  runs h (<[dst := into m]> hr) (copy_entries dst l) Q.
Proof.
  revert m. induction l as [|[key val] l IH]; intros m HQ; simpl; [by apply runs_ret|].
  runs_step. apply (runs_load_new _ _ _ m); [apply contents_insert|].
  runs_step. apply runs_store; [rewrite lookup_insert_eq; by eexists|]. rewrite insert_insert_eq. by apply IH.
Qed.

(** The entries may come in any order: each key has one value. *)
Lemma foldl_insert_entries (l : list (string * string)) (m : gmap string string) :
  NoDup l.*1 -> foldl (fun m e => <[e.1 := e.2]> m) m l = list_to_map l ∪ m.
Proof.
  revert m. induction l as [|[k v] l IH]; intros m Hnd; simpl; [by rewrite (left_id_L ∅ (∪))|].
  apply NoDup_cons in Hnd as [Hk Hnd]. rewrite IH by done.
  rewrite <- insert_union_r, <- insert_union_l; [done|]. by apply not_elem_of_list_to_map_1.
Qed.

Lemma runs_copy_map h hi p v (Q : option loc -> gmap loc C -> Prop) :
  denote_map h p = Some v ->
  (forall p' hn, hi ##ₘ hn -> denote_map hn p' = Some v -> Q p' (hi ∪ hn)) ->
  runs h hi (copy_map p) Q.
Proof.
  intros Hp HQ. destruct p as [src|]; simpl in Hp |- *; simplify_eq.
  2: { apply runs_ret. rewrite <- (right_id_L ∅ (∪) hi). apply HQ; [apply map_disjoint_empty_r|done]. }
  destruct (contents (gmap string string) h src) as [m|] eqn:Em; simplify_eq.
  apply runs_frame. runs_step. apply runs_alloc. intros dst _.
  runs_step. apply (runs_load_old _ _ _ m); [by apply (contents_mono h); [apply map_union_subseteq_l|]|].
  runs_step. apply runs_copy_entries, runs_ret. intros Hd. apply HQ; [done|]. simpl.
  rewrite contents_insert, foldl_insert_entries by apply NoDup_fst_map_to_list.
  by rewrite list_to_map_to_list, (right_id_L ∅ (∪)).
Qed.
End containers.

(** ** The generated functions copy *)

(** Two parts made one after the other lie in disjoint cells: each keeps its value in
    the union. *)
Ltac in_union := first
  [ done
  | apply map_union_subseteq_l
  | etrans; [|apply map_union_subseteq_l]; in_union
  | etrans; [|apply map_union_subseteq_r; assumption]; in_union
  | apply map_union_subseteq_r; assumption ].

(** The law from a run that starts with no new cells. *)
Lemma runs_fresh {C T V} (copy : T -> HM C T) (den : gmap loc C -> T -> option V) h x v :
  runs h ∅ (copy x) (fun y hn => den hn y = Some v) ->
  exists y hn, copy x h = Some (y, h ∪ hn) /\ h ##ₘ hn /\ den hn y = Some v.
Proof. intros Hr. destruct Hr as (y & hn & E & Hd & Hy); [apply map_disjoint_empty_r|]. rewrite (right_id_L ∅ (∪)) in E. eauto. Qed.

(** The copy has the value of the original; writes to memory that existed before the
    call do not reach the copy, other writes do not reach the original. *)
Definition independent_copy {C V} (copy : option loc -> HM C (option loc))
    (den : gmap loc C -> option loc -> option (option V)) : Prop :=
  forall h p v, den h p = Some v ->
    exists p' h', copy p h = Some (p', h') /\ (p = None <-> p' = None) /\ den h' p' = Some v /\
      (forall h2, (forall l, l ∈ dom h -> h2 !! l = h' !! l) -> den h2 p = Some v) /\
      (forall h2, (forall l, l ∉ dom h -> h2 !! l = h' !! l) -> den h2 p' = Some v).

Lemma copy_object_nil {C T V} `{InCell C T, !Zero T, !Copier C T V} (obj : loc -> runtime_Object) h p o h' :
  (c ← copy_pointer (T := T) p; mret (match c with Some p => Some (obj p) | None => None end)) h = Some (o, h') ->
  o = None <-> p = None.
Proof.
  destruct p as [l|]; [|by intros [= <- _]]. unfold copy_pointer, mbind, HM_bind, mret, HM_ret, alloc.
  destruct (load l _) as [[x h1]|]; [|done]. destruct (copyInto x h1) as [[y h2]|]; [|done].
  by destruct (store _ y h2) as [[[] h3]|]; [intros [= <- _]|].
Qed.

Section laws.
Context {X Req VReq Cond VCond O VO L VL : Type}.
Abbreviation C := (cell X Req Cond O L).
Context `{copy_req : !Copier C Req VReq, copy_cond : !Copier C Cond VCond,
          copy_ometa : !Copier C O VO, copy_lmeta : !Copier C L VL,
          !Zero Req, !Zero Cond, !Zero O, !Zero L,
          !CopierLaws C Req VReq, !CopierLaws C Cond VCond, !CopierLaws C O VO, !CopierLaws C L VL}.

#[export] Instance selector_laws : CopierLaws C mem_selector (v_selector VReq).
Proof.
  split.
  - intros h h' x v Hsub. cbn [denote selector_copier]. destruct (denote_map h _) as [m|] eqn:Em; [|done].
    destruct (denote_slice h _) as [e|] eqn:Ee; [|done].
    by rewrite (denote_map_mono _ _ _ _ Hsub Em), (denote_slice_mono _ _ _ _ Hsub Ee).
  - intros h x v Hx. apply (runs_fresh copyInto denote). revert Hx. cbn [denote copyInto selector_copier]. destruct (denote_map h _) as [m|] eqn:Em; [|done].
    destruct (denote_slice h _) as [e|] eqn:Ee; [|done]. intros [= <-].
    runs_step. apply (runs_copy_map _ _ _ m); [done|]. intros p1 h1 D1 E1.
    runs_step. apply (runs_copy_slice _ _ _ e); [done|]. intros p2 h2 D2 E2. apply runs_ret. cbn [MatchLabels MatchExpressions PodSelector Conditions with_conditions].
    rewrite (denote_map_mono h1 _ _ m); [|in_union|done]. rewrite (denote_slice_mono h2 _ _ e); [done|in_union|done].
Qed.

#[export] Instance target_laws : CopierLaws C mem_target (v_target VReq).
Proof.
  split.
  - intros h h' x v Hsub. cbn [denote target_copier]. destruct (denote_pointer h _) as [p|] eqn:Ep; [|done].
    by rewrite (denote_pointer_mono _ _ _ _ Hsub Ep).
  - intros h x v Hx. apply (runs_fresh copyInto denote). revert Hx. cbn [denote copyInto target_copier]. destruct (denote_pointer h _) as [p|] eqn:Ep; [|done]. intros [= <-].
    runs_step. apply (runs_copy_pointer _ _ _ p); [done|]. intros p1 h1 D1 _ E1. apply runs_ret. cbn [MatchLabels MatchExpressions PodSelector Conditions with_conditions].
    by rewrite (denote_pointer_mono h1 _ _ p); [|in_union|].
Qed.

#[local] Existing Instance int64_copier.
#[local] Instance int64_laws : CopierLaws C Z Z.
Proof.
  split; [done|]. intros h x v [= <-]. exists x, ∅. split_and!; [|apply map_disjoint_empty_r|done].
  by rewrite (right_id_L ∅ (∪)).
Qed.

#[export] Instance spec_laws : CopierLaws C mem_spec (v_spec VReq).
Proof.
  split.
  - intros h h' x v Hsub. cbn [denote spec_copier]. destruct (denote h (Target x)) as [t|] eqn:Et; [|done].
    destruct (denote_pointer (T := Z) h _) as [d|] eqn:Ed; [|done].
    by rewrite (denote_mono _ _ _ _ Hsub Et), (denote_pointer_mono (T := Z) _ _ _ _ Hsub Ed).
  - intros h x v Hx. apply (runs_fresh copyInto denote). revert Hx. cbn [denote copyInto spec_copier]. destruct (denote h (Target x)) as [t|] eqn:Et; [|done].
    destruct (denote_pointer (T := Z) h _) as [d|] eqn:Ed; [|done]. intros [= <-].
    runs_step. refine (runs_copy (H := target_laws) _ _ (Target x) t _ _ _); [done|]. intros p1 h1 D1 E1.
    runs_step. apply (runs_copy_pointer (T := Z) _ _ _ d); [done|]. intros p2 h2 D2 _ E2. apply runs_ret.
    cbn [Target ActiveDeadlineSeconds ObjectMeta Spec Status ListMeta Items].
    rewrite (denote_mono h1 _ p1 t); [|in_union|done]. by rewrite (denote_pointer_mono (T := Z) h2 _ _ d); [|in_union|].
Qed.

#[export] Instance status_laws : CopierLaws C mem_status (v_status VCond).
Proof.
  split.
  - intros h h' x v Hsub. cbn [denote status_copier]. destruct (denote_slice h _) as [c|] eqn:Ec; [|done].
    by rewrite (denote_slice_mono _ _ _ _ Hsub Ec).
  - intros h x v Hx. apply (runs_fresh copyInto denote). revert Hx. cbn [denote copyInto status_copier]. destruct (denote_slice h _) as [c|] eqn:Ec; [|done]. intros [= <-].
    runs_step. apply (runs_copy_slice _ _ _ c); [done|]. intros p1 h1 D1 E1. apply runs_ret. cbn [MatchLabels MatchExpressions PodSelector Conditions with_conditions].
    by rewrite (denote_slice_mono h1 _ _ c); [|in_union|].
Qed.

#[export] Instance tunnel_laws : CopierLaws C (mem_tunnel O) (v_tunnel VReq VCond VO).
Proof.
  split.
  - intros h h' x v Hsub. cbn [denote tunnel_copier]. destruct (denote h (ObjectMeta x)) as [m|] eqn:Em; [|done].
    destruct (denote h (Spec x)) as [sp|] eqn:Es; [|done]. destruct (denote h (Status x)) as [st|] eqn:Et; [|done].
    by rewrite (denote_mono _ _ _ _ Hsub Em), (denote_mono _ _ _ _ Hsub Es), (denote_mono _ _ _ _ Hsub Et).
  - intros h x v Hx. apply (runs_fresh copyInto denote). revert Hx. cbn [denote copyInto tunnel_copier]. destruct (denote h (ObjectMeta x)) as [m|] eqn:Em; [|done].
    destruct (denote h (Spec x)) as [sp|] eqn:Es; [|done]. destruct (denote h (Status x)) as [st|] eqn:Et; [|done].
    intros [= <-].
    runs_step. apply (runs_copy _ _ _ m); [done|]. intros m' h1 D1 E1.
    runs_step. refine (runs_copy (H := spec_laws) _ _ (Spec x) sp _ _ _); [done|]. intros sp' h2 D2 E2.
    runs_step. refine (runs_copy (H := status_laws) _ _ (Status x) st _ _ _); [done|]. intros st' h3 D3 E3. apply runs_ret.
    cbn [Target ActiveDeadlineSeconds ObjectMeta Spec Status ListMeta Items]. rewrite (denote_mono h1 _ m' m); [|in_union|done].
    rewrite (denote_mono h2 _ sp' sp); [|in_union|done]. by rewrite (denote_mono h3 _ st' st); [|in_union|].
Qed.

#[export] Instance list_laws : CopierLaws C (mem_list L) (v_list VReq VCond VO VL).
Proof.
  split.
  - intros h h' x v Hsub. cbn [denote list_copier]. destruct (denote h (ListMeta x)) as [m|] eqn:Em; [|done].
    destruct (denote_slice h _) as [items|] eqn:Ei; [|done].
    by rewrite (denote_mono _ _ _ _ Hsub Em), (denote_slice_mono _ _ _ _ Hsub Ei).
  - intros h x v Hx. apply (runs_fresh copyInto denote). revert Hx. cbn [denote copyInto list_copier]. destruct (denote h (ListMeta x)) as [m|] eqn:Em; [|done].
    destruct (denote_slice h _) as [items|] eqn:Ei; [|done].
    intros [= <-].
    runs_step. apply (runs_copy _ _ _ m); [done|]. intros m' h1 D1 E1.
    runs_step. apply (runs_copy_slice _ _ _ items); [done|]. intros i' h2 D2 E2. apply runs_ret.
    cbn [Target ActiveDeadlineSeconds ObjectMeta Spec Status ListMeta Items]. rewrite (denote_mono h1 _ m' m); [|in_union|done].
    by rewrite (denote_slice_mono h2 _ _ items); [|in_union|].
Qed.

Lemma copy_pointer_independent `{InCell C T, !Zero T, CopierLaws C T V} :
  independent_copy (copy_pointer (T := T)) (denote_pointer (T := T) (V := V)).
Proof.
  intros h p v Hp. destruct (runs_copy_pointer (T := T) h ∅ p v
    (fun p' hn => (p = None <-> p' = None) /\ denote_pointer (T := T) hn p' = Some v) Hp) as (p' & hn & E & Hd & Hnil & Hp').
  { intros p' hn _ ??. by rewrite (left_id_L ∅ (∪)). }
  { apply map_disjoint_empty_r. }
  rewrite (right_id_L ∅ (∪)) in E. exists p', (h ∪ hn). split_and!; [done|done| | |].
  - apply (denote_pointer_mono hn); [by apply map_union_subseteq_r|done].
  - intros h2 Hold. apply (denote_pointer_mono h); [|done]. apply map_subseteq_spec. intros l c Hl.
    rewrite Hold by (by apply elem_of_dom_2 in Hl). by apply lookup_union_Some_l.
  - intros h2 Hnew. apply (denote_pointer_mono hn); [|done]. apply map_subseteq_spec. intros l c Hl.
    assert (h !! l = None) as Hh by (by apply (map_disjoint_Some_r h hn l c)).
    rewrite Hnew by (by apply not_elem_of_dom). by rewrite lookup_union_r.
Qed.

(** C27: deep copies are equal and independent.  For each of the six resource types
    and whatever the object refers to, DeepCopy returns, nil exactly for nil, a
    pointer to an object with the same value, and the two share no memory: whatever is
    written later to cells that existed before the call leaves the copy's value as it
    is, and whatever is written to other cells leaves the original's.  DeepCopyObject
    is the nil interface exactly for nil. *)
Theorem DeepCopy_independent :
  independent_copy (C := C) (V := v_selector VReq) TunnelTargetPodSelector_DeepCopy (denote_pointer (T := mem_selector)) /\
  independent_copy (C := C) (V := v_target VReq) TunnelTarget_DeepCopy (denote_pointer (T := mem_target)) /\
  independent_copy (C := C) (V := v_spec VReq) TunnelSpec_DeepCopy (denote_pointer (T := mem_spec)) /\
  independent_copy (C := C) (V := v_status VCond) TunnelStatus_DeepCopy (denote_pointer (T := mem_status)) /\
  independent_copy (C := C) (V := v_tunnel VReq VCond VO) Tunnel_DeepCopy (denote_pointer (T := mem_tunnel O)) /\
  independent_copy (C := C) (V := v_list VReq VCond VO VL) TunnelList_DeepCopy (denote_pointer (T := mem_list L)) /\
  (forall (h h' : gmap loc C) p o, Tunnel_DeepCopyObject p h = Some (o, h') -> (o = None <-> p = None)) /\
  (forall (h h' : gmap loc C) p o, TunnelList_DeepCopyObject p h = Some (o, h') -> (o = None <-> p = None)).
Proof.
  split_and!; [apply copy_pointer_independent..| |].
  - intros h h' p o E. exact (copy_object_nil (T := mem_tunnel O) TunnelObject h p o h' E).
  - intros h h' p o E. exact (copy_object_nil (T := mem_list L) TunnelListObject h p o h' E).
Qed.
End laws.

(** *** Witness

    Small stand-ins for the apimachinery types: a requirement with its values in a
    slice, metadata with a map of labels, conditions and list metadata without
    references. *)
Record ex_requirement (S : Type) := mkExReq { ex_key : string; ex_operator : string; ex_values : S }.
Arguments mkExReq {_}.
Arguments ex_key {_}.
Arguments ex_operator {_}.
Arguments ex_values {_}.
Record ex_metadata (M : Type) := mkExMeta { ex_name : string; ex_labels : M }.
Arguments mkExMeta {_}.
Arguments ex_name {_}.
Arguments ex_labels {_}.

Abbreviation ex_cell := (cell (list string) (ex_requirement (option slice)) string (ex_metadata (option loc)) string).

#[local] Instance ex_in_values : InCell ex_cell (list string) :=
  {| into := CLib; outof c := match c with CLib x => Some x | _ => None end; outof_into _ := eq_refl |}.
#[local] Instance ex_zero_string : Zero string := "".
#[local] Instance ex_zero_requirement : Zero (ex_requirement (option slice)) := mkExReq "" "" None.
#[local] Instance ex_zero_metadata : Zero (ex_metadata (option loc)) := mkExMeta "" None.
#[local] Instance ex_string_copier : Copier ex_cell string string := plain.
#[local] Instance ex_requirement_copier : Copier ex_cell (ex_requirement (option slice)) (ex_requirement (option (list string))) := {|
  copyInto r := vs ← copy_slice (T := string) (ex_values r); mret (mkExReq (ex_key r) (ex_operator r) vs);
  denote h r := match denote_slice (T := string) h (ex_values r) with
                | Some vs => Some (mkExReq (ex_key r) (ex_operator r) vs) | None => None end |}.
#[local] Instance ex_metadata_copier : Copier ex_cell (ex_metadata (option loc)) (ex_metadata (option (gmap string string))) := {|
  copyInto m := ls ← copy_map (ex_labels m); mret (mkExMeta (ex_name m) ls);
  denote h m := match denote_map h (ex_labels m) with Some ls => Some (mkExMeta (ex_name m) ls) | None => None end |}.

#[local] Instance ex_string_laws : CopierLaws ex_cell string string.
Proof.
  split; [done|]. intros h x v [= <-]. exists x, ∅. split_and!; [|apply map_disjoint_empty_r|done].
  by rewrite (right_id_L ∅ (∪)).
Qed.
#[local] Instance ex_requirement_laws :
  CopierLaws ex_cell (ex_requirement (option slice)) (ex_requirement (option (list string))).
Proof.
  split.
  - intros h h' x v Hsub. simpl. destruct (denote_slice (T := string) h _) as [c|] eqn:Ec; [|done].
    by rewrite (denote_slice_mono (T := string) _ _ _ _ Hsub Ec).
  - intros h x v Hx. apply (runs_fresh copyInto denote). revert Hx. simpl.
    destruct (denote_slice (T := string) h _) as [c|] eqn:Ec; [|done]. intros [= <-].
    runs_step. apply (runs_copy_slice (T := string) _ _ _ c); [done|]. intros p1 h1 D1 E1. apply runs_ret. simpl.
    by rewrite (denote_slice_mono (T := string) h1 _ _ c); [|in_union|].
Qed.
#[local] Instance ex_metadata_laws :
  CopierLaws ex_cell (ex_metadata (option loc)) (ex_metadata (option (gmap string string))).
Proof.
  split.
  - intros h h' x v Hsub. simpl. destruct (denote_map h _) as [c|] eqn:Ec; [|done].
    by rewrite (denote_map_mono _ _ _ _ Hsub Ec).
  - intros h x v Hx. apply (runs_fresh copyInto denote). revert Hx. simpl.
    destruct (denote_map h _) as [c|] eqn:Ec; [|done]. intros [= <-].
    runs_step. apply (runs_copy_map _ _ _ c); [done|]. intros p1 h1 D1 E1. apply runs_ret. simpl.
    by rewrite (denote_map_mono h1 _ _ c); [|in_union|].
Qed.

(** A tunnel at 1 with a selector at 2 whose labels are at 3 and expressions at 4. *)
Definition ex_heap : gmap loc ex_cell :=
  {[ 1%positive := CTunnel (mkTunnel (mkTypeMeta "Tunnel" "nais.io/v1alpha1") (mkExMeta "db" None)
        (mkSpec "team" (mkTarget "db" 5432 "" (Some 2%positive)) "key" (Some 6%positive))
        (mkStatus "Ready" "gk" 51821 "vip:51821" "pod" "uid" "10.0.0.5" 2 "" None));
     2%positive := CSelector (mkPodSelector (Some 3%positive) (Some (mkSlice 4%positive 1 1)));
     3%positive := CLabels {[ "app" := "db" ]};
     4%positive := CRequirements [mkExReq "hidden" "In" None; mkExReq "tier" "In" (Some (mkSlice 5%positive 0 2))];
     5%positive := CLib ["gold"; "silver"];
     6%positive := CInt64 3600 ]}.
Definition ex_value : v_tunnel (ex_requirement (option (list string))) string (ex_metadata (option (gmap string string))) :=
  mkTunnel (mkTypeMeta "Tunnel" "nais.io/v1alpha1") (mkExMeta "db" None)
    (mkSpec "team" (mkTarget "db" 5432 "" (Some (mkPodSelector (Some {[ "app" := "db" ]})
       (Some [mkExReq "tier" "In" (Some ["gold"; "silver"])])))) "key" (Some 3600))
    (mkStatus "Ready" "gk" 51821 "vip:51821" "pod" "uid" "10.0.0.5" 2 "" None).

(** Clearing the labels of the original after the copy does not change the copy. *)
Lemma DeepCopy_independent_witness :
  exists p' h', Tunnel_DeepCopy (Some 1%positive) ex_heap = Some (p', h') /\
    denote_pointer (T := mem_tunnel (ex_metadata (option loc))) (<[3%positive := CLabels ∅]> h') p' = Some (Some ex_value).
Proof.
  destruct (DeepCopy_independent (X := list string) (Req := ex_requirement (option slice)) (Cond := string)
    (O := ex_metadata (option loc)) (L := string)) as (_ & _ & _ & _ & Hcopy & _).
  destruct (Hcopy ex_heap (Some 1%positive) (Some ex_value)) as (p' & h' & E & _ & _ & _ & Hkeep).
  - vm_compute. reflexivity.
  - exists p', h'. split; [exact E|]. apply Hkeep. intros l Hl. apply lookup_insert_ne. intros <-.
    apply Hl. apply elem_of_dom. eexists. vm_compute. reflexivity.
Defined.
