(* ===== verification/Portalloc.v ===== *)
(** * The forwarder port allocator (pkg/portalloc/allocator.go)

    [PortAllocator] is the struct without its mutex: every method holds the
    mutex from its first to its last line, so a concurrent run is a sequence of
    the calls below.  The random source is an interface ([RandSource]): the
    allocator only relies on [Intn(n)] being in [[0, n)].

    The theorems: the two maps stay inverse to each other and in range whatever
    sequence of calls runs ([allocator_reachable_wf]), the allocator refines an
    abstract table of distinct ports ([allocator_refines_spec]), and each method
    has the behaviour its branches say. *)

From S2P Require Import Prelude.

(** ** The random source: [math/rand.Rand] *)

(** [intn r n] is [r.Intn(n)] with the source's next state; [None] is the
    panic of [Intn] on a non-positive argument. *)
Class RandSource (R : Type) := {
  intn : R -> Z -> option (Z * R);
  intn_panics : forall r n, n <= 0 -> intn r n = None;
  intn_range : forall r n, 0 < n -> exists v r', intn r n = Some (v, r') /\ 0 <= v < n;
}.

(** A source for evaluation: a linear congruential generator. *)
Definition lcg_intn (r n : Z) : option (Z * Z) :=
  if bool_decide (n <= 0) then None
  else Some (r `mod` n, (r * 1103515245 + 12345) `mod` 2147483648).

#[export, refine] Instance lcg_source : RandSource Z := {| intn := lcg_intn |}.
Proof.
  - intros r n Hn. unfold lcg_intn. by rewrite bool_decide_true.
  - intros r n Hn. unfold lcg_intn. rewrite bool_decide_false by lia.
    eexists _, _. split; [done|]. by apply Z.mod_pos_bound.
Defined.

Definition defaultMinPort : Z := 10000.
Definition defaultMaxPort : Z := 60000.
Definition errRangeExhausted : error := ErrNew "port range exhausted".

Record PortAllocator {R : Type} := mkAllocator {
  minPort : Z;
  maxPort : Z;
  allocated : gmap string Z;
  used : gmap Z string;
  rng : R;
}.
Arguments PortAllocator : clear implicits.

Inductive alloc_result := AllocPort (p : Z) | AllocErr (e : error) | AllocPanic.

Section allocator.
Context {R : Type} `{RandSource R}.
Implicit Types (a : PortAllocator R) (k : string) (p : Z).

(** ** Operations *)

Definition New (minPort maxPort : Z) (rng : R) : PortAllocator R :=
  let minPort := if bool_decide (minPort <= 0) then defaultMinPort else minPort in
  let maxPort := if bool_decide (maxPort <= 0) then defaultMaxPort else maxPort in
  if bool_decide (maxPort < minPort)
  then mkAllocator R defaultMinPort defaultMaxPort ∅ ∅ rng
  else mkAllocator R minPort maxPort ∅ ∅ rng.

(** [int(a.maxPort-a.minPort) + 1]: the difference is taken at 32 bits. *)
Definition rangeSize a : Z := wrap64 (wrap32 (maxPort a - minPort a) + 1).

(** [a.minPort + int32((start+offset)%rangeSize)]; Go's [%] truncates. *)
Definition candidate a (start offset : Z) : Z :=
  wrap32 (minPort a + wrap32 (wrap64 (start + offset) `rem` rangeSize a)).

(** The loop [for offset := range rangeSize]: [n] iterations are left. *)
Fixpoint scan a (start offset : Z) (n : nat) : option Z :=
  match n with
  | O => None
  | S n =>
      let port := candidate a start offset in
      match used a !! port with
      | Some _ => scan a start (offset + 1) n
      | None => Some port
      end
  end.

Definition Allocate k a : alloc_result * PortAllocator R :=
  match allocated a !! k with
  | Some port => (AllocPort port, a)
  | None =>
      match intn (rng a) (rangeSize a) with
      | None => (AllocPanic, a)
      | Some (start, rng') =>
          let a := mkAllocator R (minPort a) (maxPort a) (allocated a) (used a) rng' in
          match scan a start 0 (Z.to_nat (rangeSize a)) with
          | Some port =>
              (AllocPort port,
                mkAllocator R (minPort a) (maxPort a) (<[k := port]> (allocated a))
                  (<[port := k]> (used a)) (rng a))
          | None => (AllocErr errRangeExhausted, a)
          end
      end
  end.

Definition Release k a : PortAllocator R :=
  match allocated a !! k with
  | None => a
  | Some port =>
      mkAllocator R (minPort a) (maxPort a) (delete k (allocated a)) (delete port (used a)) (rng a)
  end.

Definition IsAllocated p a : bool := bool_decide (is_Some (used a !! p)).

Definition GetPort k a : option Z := allocated a !! k.

Definition LoadExisting k p a : PortAllocator R :=
  if bool_decide (p < minPort a) || bool_decide (p > maxPort a) then a
  else if (match used a !! p with
           | Some currentKey => bool_decide (currentKey <> k)
           | None => false
           end) then a
  else
    let used1 :=
      match allocated a !! k with
      | Some existingPort =>
          if bool_decide (existingPort <> p) then delete existingPort (used a) else used a
      | None => used a
      end in
    mkAllocator R (minPort a) (maxPort a) (<[k := p]> (allocated a)) (<[p := k]> used1) (rng a).

(** ** Invariant *)

Record wf a : Prop := {
  wf_min : 0 < minPort a;
  wf_le : minPort a <= maxPort a;
  wf_max : maxPort a <= 2147483647;
  wf_inverse : forall k p, allocated a !! k = Some p <-> used a !! p = Some k;
  wf_range : forall k p, allocated a !! k = Some p -> minPort a <= p <= maxPort a;
}.

(** Free ports of the range. *)
Definition free_port a p : Prop := minPort a <= p <= maxPort a /\ used a !! p = None.

Lemma rangeSize_eq a : wf a -> rangeSize a = maxPort a - minPort a + 1.
Proof.
  intros []. unfold rangeSize. rewrite wrap32_id by (unfold int32_ok; lia).
  apply wrap64_id. unfold int64_ok. lia.
Qed.

Lemma candidate_eq a start offset :
  wf a -> 0 <= start < rangeSize a -> 0 <= offset < rangeSize a ->
  candidate a start offset = minPort a + (start + offset) `mod` rangeSize a.
Proof.
  intros Hwf Hs Ho. unfold candidate. pose proof (rangeSize_eq a Hwf). destruct Hwf.
  rewrite (wrap64_id (start + offset)) by (unfold int64_ok; lia).
  rewrite Z.rem_mod_nonneg by lia.
  pose proof (Z.mod_pos_bound (start + offset) (rangeSize a)).
  rewrite (wrap32_id (_ `mod` _)) by (unfold int32_ok; lia).
  apply wrap32_id. unfold int32_ok. lia.
Qed.

(** Every port of the range is the candidate of exactly the offset that
    leads there from [start]. *)
Lemma candidate_onto a start p :
  wf a -> 0 <= start < rangeSize a -> minPort a <= p <= maxPort a ->
  exists offset, 0 <= offset < rangeSize a /\ candidate a start offset = p.
Proof.
  intros Hwf Hs Hp. pose proof (rangeSize_eq a Hwf) as HR.
  exists ((p - minPort a - start) `mod` rangeSize a).
  assert (0 < rangeSize a) by lia.
  pose proof (Z.mod_pos_bound (p - minPort a - start) (rangeSize a)).
  split; [lia|]. rewrite candidate_eq by (done || lia).
  rewrite Zplus_mod_idemp_r.
  replace (start + (p - minPort a - start)) with (p - minPort a) by lia.
  rewrite Z.mod_small by lia. lia.
Qed.

Lemma scan_Some a start offset n p :
  wf a -> 0 <= start < rangeSize a -> 0 <= offset -> offset + Z.of_nat n = rangeSize a ->
  scan a start offset n = Some p -> free_port a p.
Proof.
  intros Hwf Hs. revert offset. induction n as [|n IH]; intros offset Ho Hn; simpl; [done|].
  case_match eqn:Hu; intros Hp.
  - apply (IH (offset + 1)); (done || lia).
  - injection Hp as <-. split; [|done].
    rewrite candidate_eq by (done || lia). rewrite (rangeSize_eq a Hwf).
    pose proof (Z.mod_pos_bound (start + offset) (maxPort a - minPort a + 1)).
    destruct Hwf. lia.
Qed.

Lemma scan_None a start offset n :
  scan a start offset n = None ->
  forall o, offset <= o < offset + Z.of_nat n -> is_Some (used a !! candidate a start o).
Proof.
  revert offset. induction n as [|n IH]; intros offset; simpl; [lia|].
  case_match eqn:Hu; intros Hsc o Ho; [|done].
  destruct (decide (o = offset)) as [->|]; [eauto|].
  apply (IH (offset + 1)); (done || lia).
Qed.

(** The scan misses no free port: it fails only on a full range. *)
Lemma scan_exhausted a start :
  wf a -> 0 <= start < rangeSize a ->
  scan a start 0 (Z.to_nat (rangeSize a)) = None ->
  forall p, ~ free_port a p.
Proof.
  intros Hwf Hs Hsc p [Hp Hfree].
  destruct (candidate_onto a start p Hwf Hs Hp) as (o & Ho & <-).
  destruct (scan_None _ _ _ _ Hsc o) as [k Hk]; [lia|]. congruence.
Qed.

(** ** Preservation of the invariant *)

Lemma New_wf lo hi r : int32_ok lo -> int32_ok hi -> wf (New lo hi r).
Proof.
  unfold int32_ok, New, defaultMinPort, defaultMaxPort. intros Hlo Hhi.
  repeat case_bool_decide; constructor; simpl; try lia; intros k p; by rewrite !lookup_empty.
Qed.

Lemma used_None_not_allocated a p :
  wf a -> used a !! p = None -> forall k, allocated a !! k <> Some p.
Proof. intros Hwf Hp k Hk. apply (wf_inverse a Hwf) in Hk. congruence. Qed.

(** Binding a free port to a key that has none keeps the maps inverse. *)
Lemma wf_bind a k p r :
  wf a -> allocated a !! k = None -> free_port a p ->
  wf (mkAllocator R (minPort a) (maxPort a) (<[k := p]> (allocated a)) (<[p := k]> (used a)) r).
Proof.
  intros Hwf Hk [Hp Hfree]. pose proof (used_None_not_allocated a p Hwf Hfree) as Hno.
  constructor; simpl; [by destruct Hwf..| |]; intros k' p'; rewrite !lookup_insert.
  - pose proof (wf_inverse a Hwf k' p'). specialize (Hno k').
    repeat case_decide; naive_solver congruence.
  - case_decide; [by intros [= <-]|]. apply (wf_range a Hwf).
Qed.

(** Unbinding the port of a key. *)
Lemma wf_unbind a k p r :
  wf a -> allocated a !! k = Some p ->
  wf (mkAllocator R (minPort a) (maxPort a) (delete k (allocated a)) (delete p (used a)) r).
Proof.
  intros Hwf Hk. constructor; simpl; [by destruct Hwf..| |]; intros k' p'; rewrite !lookup_delete.
  - pose proof (wf_inverse a Hwf k p) as Hkp. pose proof (wf_inverse a Hwf k' p') as Hk'p'.
    pose proof (wf_inverse a Hwf k' p). repeat case_decide; simplify_eq; naive_solver.
  - case_decide; [done|]. apply (wf_range a Hwf).
Qed.

Lemma wf_rng a r :
  wf a -> wf (mkAllocator R (minPort a) (maxPort a) (allocated a) (used a) r).
Proof. by intros []. Qed.

Lemma Release_wf k a : wf a -> wf (Release k a).
Proof. intros Hwf. unfold Release. case_match; [by apply wf_unbind|done]. Qed.

(** The three ways [Allocate] ends. *)
Lemma Allocate_cases k a :
  wf a ->
  (exists p, allocated a !! k = Some p /\ Allocate k a = (AllocPort p, a)) \/
  (allocated a !! k = None /\ exists p r, free_port a p /\
     Allocate k a = (AllocPort p,
       mkAllocator R (minPort a) (maxPort a) (<[k := p]> (allocated a)) (<[p := k]> (used a)) r)) \/
  (allocated a !! k = None /\ (forall p, ~ free_port a p) /\ exists r,
     Allocate k a = (AllocErr errRangeExhausted,
       mkAllocator R (minPort a) (maxPort a) (allocated a) (used a) r)).
Proof.
  intros Hwf. unfold Allocate. destruct (allocated a !! k) as [p|] eqn:Hk; [eauto|right].
  assert (0 < rangeSize a) as HR by (rewrite (rangeSize_eq a Hwf); destruct Hwf; lia).
  destruct (intn_range (rng a) (rangeSize a) HR) as (start & r & -> & Hstart).
  set (a' := mkAllocator R (minPort a) (maxPort a) (allocated a) (used a) r).
  assert (wf a') as Hwf' by by apply wf_rng.
  change (rangeSize a) with (rangeSize a') in *.
  destruct (scan a' start 0 _) as [p|] eqn:Hsc.
  - left. split; [done|]. exists p, r. split; [|done].
    apply scan_Some in Hsc; [done..|lia].
  - right. split; [done|]. split; [|by exists r].
    exact (scan_exhausted a' start Hwf' Hstart Hsc).
Qed.

Lemma Allocate_wf k a : wf a -> wf (Allocate k a).2.
Proof.
  intros Hwf. destruct (Allocate_cases k a Hwf)
    as [(p & _ & ->)|[(Hk & p & r & Hp & ->)|(_ & _ & r & ->)]]; simpl.
  - done.
  - by apply wf_bind.
  - by apply wf_rng.
Qed.

Lemma LoadExisting_ignored k p a :
  (p < minPort a \/ p > maxPort a \/ exists k', used a !! p = Some k' /\ k' <> k) ->
  LoadExisting k p a = a.
Proof.
  intros Hign. unfold LoadExisting. repeat case_bool_decide; simpl; [done..|].
  destruct Hign as [?|[?|(k' & -> & Hne)]]; [done..|]. by rewrite bool_decide_true.
Qed.

(** A load that is not ignored is: drop the key's old port, bind the new one. *)
Lemma LoadExisting_applied k p a :
  wf a -> minPort a <= p <= maxPort a -> (forall k', used a !! p = Some k' -> k' = k) ->
  LoadExisting k p a =
    mkAllocator R (minPort a) (maxPort a) (<[k := p]> (allocated (Release k a)))
      (<[p := k]> (used (Release k a))) (rng a).
Proof.
  intros Hwf Hp Hown. unfold LoadExisting, Release.
  rewrite !bool_decide_false by lia. simpl.
  replace (match used a !! p with Some _ => _ | None => _ end) with false.
  2: { case_match eqn:Hu; [|done]. rewrite bool_decide_false; [done|]. naive_solver. }
  destruct (allocated a !! k) as [q|] eqn:Hk; simpl; [|done].
  rewrite insert_delete_eq. case_bool_decide as Hq; [done|].
  assert (q = p) as -> by (destruct (decide (q = p)); [done|by destruct Hq]).
  by rewrite insert_delete_eq.
Qed.

Lemma Release_allocated k a : allocated (Release k a) = delete k (allocated a).
Proof.
  unfold Release. destruct (allocated a !! k) eqn:Hk; simpl; [done|]. by rewrite delete_id.
Qed.

Lemma Release_frees k p a :
  wf a -> (forall k', used a !! p = Some k' -> k' = k) -> used (Release k a) !! p = None.
Proof.
  intros Hwf Hown. unfold Release. destruct (allocated a !! k) as [q|] eqn:Hk; simpl.
  - rewrite lookup_delete. case_decide; [done|].
    destruct (used a !! p) as [k'|] eqn:Hu; [|done].
    rewrite (Hown k' eq_refl) in Hu. apply (wf_inverse a Hwf) in Hu. congruence.
  - destruct (used a !! p) as [k'|] eqn:Hu; [|done].
    rewrite (Hown k' eq_refl) in Hu. apply (wf_inverse a Hwf) in Hu. congruence.
Qed.

Lemma Release_range k a :
  minPort (Release k a) = minPort a /\ maxPort (Release k a) = maxPort a.
Proof. unfold Release. by case_match. Qed.

(** Whether a load is ignored is decidable. *)
Lemma LoadExisting_cases k p a :
  wf a ->
  ((p < minPort a \/ p > maxPort a \/ exists k', used a !! p = Some k' /\ k' <> k) /\ LoadExisting k p a = a) \/
  (minPort a <= p <= maxPort a /\ (forall k', used a !! p = Some k' -> k' = k)).
Proof.
  intros Hwf. destruct (decide (p < minPort a)); [left; split; [|apply LoadExisting_ignored]; tauto|].
  destruct (decide (p > maxPort a)); [left; split; [|apply LoadExisting_ignored]; tauto|].
  destruct (used a !! p) as [k'|] eqn:Hu; [|right; split; [lia|congruence]].
  destruct (decide (k' = k)) as [->|Hne]; [right; split; [lia|congruence]|].
  left. split; [|apply LoadExisting_ignored]; eauto.
Qed.

Lemma LoadExisting_wf k p a : wf a -> wf (LoadExisting k p a).
Proof.
  intros Hwf. destruct (LoadExisting_cases k p a Hwf) as [[_ ->]|[Hp Hown]]; [done|].
  rewrite LoadExisting_applied by done.
  pose proof (Release_range k a) as [Hmin Hmax]. rewrite <- Hmin, <- Hmax.
  apply wf_bind.
  - by apply Release_wf.
  - rewrite Release_allocated. apply lookup_delete_eq.
  - split; [lia|]. by apply Release_frees.
Qed.
End allocator.

#[export] Hint Resolve New_wf Release_wf Allocate_wf LoadExisting_wf : golib.

(** ** Sequences of calls and the abstract table *)

Inductive alloc_op :=
| OpAllocate (k : string)
| OpRelease (k : string)
| OpLoadExisting (k : string) (p : Z)
| OpGetPort (k : string)
| OpIsAllocated (p : Z).

Inductive alloc_ret := RetAlloc (r : alloc_result) | RetUnit | RetPort (o : option Z) | RetBool (b : bool).

(** What the allocator promises: a table of distinct ports of a range.
    [Allocate] keeps a key's port, else takes any free one, and fails exactly
    when there is none. *)
Inductive spec_step (lo hi : Z) (m : gmap string Z) : alloc_op -> alloc_ret -> gmap string Z -> Prop :=
| spec_hit k p :
    m !! k = Some p -> spec_step lo hi m (OpAllocate k) (RetAlloc (AllocPort p)) m
| spec_fresh k p :
    m !! k = None -> lo <= p <= hi -> (forall k', m !! k' <> Some p) ->
    spec_step lo hi m (OpAllocate k) (RetAlloc (AllocPort p)) (<[k := p]> m)
| spec_exhausted k :
    m !! k = None -> (forall p, lo <= p <= hi -> exists k', m !! k' = Some p) ->
    spec_step lo hi m (OpAllocate k) (RetAlloc (AllocErr errRangeExhausted)) m
| spec_release k :
    spec_step lo hi m (OpRelease k) RetUnit (delete k m)
| spec_load k p :
    lo <= p <= hi -> (forall k', m !! k' = Some p -> k' = k) ->
    spec_step lo hi m (OpLoadExisting k p) RetUnit (<[k := p]> m)
| spec_load_ignored k p :
    (p < lo \/ p > hi \/ exists k', m !! k' = Some p /\ k' <> k) ->
    spec_step lo hi m (OpLoadExisting k p) RetUnit m
| spec_get k :
    spec_step lo hi m (OpGetPort k) (RetPort (m !! k)) m
| spec_is p b :
    (b = true <-> exists k, m !! k = Some p) ->
    spec_step lo hi m (OpIsAllocated p) (RetBool b) m.

(** Traces of the abstract table. *)
Inductive spec_run (lo hi : Z) : gmap string Z -> list (alloc_op * alloc_ret) -> gmap string Z -> Prop :=
| spec_run_nil m : spec_run lo hi m [] m
| spec_run_cons m o r m' l m'' :
    spec_step lo hi m o r m' -> spec_run lo hi m' l m'' -> spec_run lo hi m ((o, r) :: l) m''.

Section calls.
Context {R : Type} `{RandSource R}.
Implicit Types (a : PortAllocator R).

Definition exec (o : alloc_op) a : alloc_ret * PortAllocator R :=
  match o with
  | OpAllocate k => let '(r, a') := Allocate k a in (RetAlloc r, a')
  | OpRelease k => (RetUnit, Release k a)
  | OpLoadExisting k p => (RetUnit, LoadExisting k p a)
  | OpGetPort k => (RetPort (GetPort k a), a)
  | OpIsAllocated p => (RetBool (IsAllocated p a), a)
  end.

Fixpoint run (ops : list alloc_op) a : list (alloc_op * alloc_ret) * PortAllocator R :=
  match ops with
  | [] => ([], a)
  | o :: ops =>
      let '(r, a1) := exec o a in
      let '(l, a2) := run ops a1 in ((o, r) :: l, a2)
  end.

Lemma exec_wf o a : wf a -> wf (exec o a).2.
Proof.
  destruct o; simpl; auto with golib. intros Hwf.
  pose proof (Allocate_wf k a Hwf). by destruct (Allocate k a).
Qed.

Lemma run_wf ops a : wf a -> wf (run ops a).2.
Proof.
  revert a. induction ops as [|o ops IH]; intros a Hwf; simpl; [done|].
  pose proof (exec_wf o a Hwf). destruct (exec o a) as [r a1].
  specialize (IH a1). destruct (run ops a1). by apply IH.
Qed.

Lemma exec_range o a : wf a -> minPort (exec o a).2 = minPort a /\ maxPort (exec o a).2 = maxPort a.
Proof.
  intros Hwf. destruct o; simpl; try done.
  - by destruct (Allocate_cases k a Hwf) as [(p & _ & ->)|[(_ & p & r & _ & ->)|(_ & _ & r & ->)]].
  - apply Release_range.
  - unfold LoadExisting. by repeat case_match.
Qed.

(** One call is one step of the abstract table. *)
Lemma exec_refines o a :
  wf a -> spec_step (minPort a) (maxPort a) (allocated a) o (exec o a).1 (allocated (exec o a).2).
Proof.
  intros Hwf. destruct o as [k|k|k p|k|p]; simpl.
  - destruct (Allocate_cases k a Hwf)
      as [(p & Hk & ->)|[(Hk & p & r & [Hp Hfree] & ->)|(Hk & Hfull & r & ->)]]; simpl.
    + by constructor.
    + constructor; [done..|]. by apply used_None_not_allocated.
    + constructor; [done|]. intros p Hp. destruct (used a !! p) as [k'|] eqn:Hu.
      * exists k'. by apply (wf_inverse a Hwf).
      * by destruct (Hfull p).
  - rewrite Release_allocated. constructor.
  - destruct (LoadExisting_cases k p a Hwf) as [[Hign ->]|[Hp Hown]].
    + apply spec_load_ignored. destruct Hign as [?|[?|(k' & Hu & Hne)]]; [tauto..|].
      right; right. exists k'. split; [|done]. by apply (wf_inverse a Hwf).
    + rewrite LoadExisting_applied by done. simpl. rewrite Release_allocated, insert_delete_eq.
      apply spec_load; [done|]. intros k' Hk'. apply Hown. by apply (wf_inverse a Hwf).
  - constructor.
  - constructor. unfold IsAllocated. rewrite bool_decide_eq_true.
    split; intros [k Hk]; exists k; by apply (wf_inverse a Hwf).
Qed.

Lemma run_refines ops a :
  wf a -> spec_run (minPort a) (maxPort a) (allocated a) (run ops a).1 (allocated (run ops a).2).
Proof.
  revert a. induction ops as [|o ops IH]; intros a Hwf; simpl; [constructor|].
  pose proof (exec_refines o a Hwf) as Hstep. pose proof (exec_wf o a Hwf) as Hwf'.
  pose proof (exec_range o a Hwf) as [Hmin Hmax].
  destruct (exec o a) as [r a1]. simpl in *. specialize (IH a1 Hwf').
  rewrite Hmin, Hmax in IH. destruct (run ops a1) as [l a2]. by econstructor.
Qed.

Lemma New_allocated lo hi r : allocated (New lo hi r : PortAllocator R) = ∅.
Proof. unfold New. by repeat case_bool_decide. Qed.

(** *** Restoring allocations after a restart *)

(** [loadExistingAllocations] calls [LoadExisting] for each recorded pair. *)
Fixpoint load_all (l : list (string * Z)) a : PortAllocator R :=
  match l with
  | [] => a
  | (k, p) :: l => load_all l (LoadExisting k p a)
  end.

Lemma load_all_wf l a : wf a -> wf (load_all l a).
Proof. revert a. induction l as [|[k p] l IH]; simpl; auto with golib. Qed.

Lemma LoadExisting_new_key k p a :
  wf a -> minPort a <= p <= maxPort a -> allocated a !! k = None -> (forall k', allocated a !! k' <> Some p) ->
  allocated (LoadExisting k p a) = <[k := p]> (allocated a).
Proof.
  intros Hwf Hp Hk Hno. rewrite LoadExisting_applied; [|done..|].
  - simpl. by rewrite Release_allocated, insert_delete_eq.
  - intros k' Hu. apply (wf_inverse a Hwf) in Hu. by destruct (Hno k').
Qed.

Lemma LoadExisting_range k p a :
  minPort (LoadExisting k p a) = minPort a /\ maxPort (LoadExisting k p a) = maxPort a.
Proof. unfold LoadExisting. by repeat case_match. Qed.

(** Loading pairs with distinct keys and distinct in-range ports adds them all. *)
Lemma load_all_allocated l a :
  wf a -> NoDup l.*1 -> NoDup l.*2 ->
  (forall k p, (k, p) ∈ l -> minPort a <= p <= maxPort a /\ allocated a !! k = None /\
                       forall k', allocated a !! k' <> Some p) ->
  allocated (load_all l a) = list_to_map l ∪ allocated a.
Proof.
  revert a. induction l as [|[k p] l IH]; intros a Hwf Hk Hp Hl; simpl.
  { by rewrite (left_id_L ∅ (∪)). }
  apply NoDup_cons in Hk as [Hk1 Hk2], Hp as [Hp1 Hp2]. simpl in *.
  destruct (Hl k p) as (Hr & Hn & Hno); [set_solver|].
  pose proof (LoadExisting_new_key k p a Hwf Hr Hn Hno) as Hal.
  pose proof (LoadExisting_range k p a) as [Hmin Hmax].
  rewrite IH; [|auto with golib|done..|].
  - rewrite Hal, <- insert_union_r, insert_union_l; [done|].
    by apply not_elem_of_list_to_map.
  - intros k' p' Hin. rewrite Hmin, Hmax, Hal.
    destruct (Hl k' p') as (? & ? & Hno'); [set_solver|]. split; [done|].
    assert (k <> k') by (intros ->; apply Hk1, (list_elem_of_fmap_2' fst _ (k', p') _ Hin); done).
    assert (p <> p') by (intros ->; apply Hp1, (list_elem_of_fmap_2' snd _ (k', p') _ Hin); done).
    split; [by rewrite lookup_insert_ne|]. intros k''. rewrite lookup_insert. case_decide; naive_solver.
Qed.
End calls.

(** ** Properties *)

Section properties.
Context {R : Type} `{RandSource R}.
Implicit Types (a : PortAllocator R).

(** C6: every run of calls on a fresh allocator is a run of the abstract
    table: no call panics, [Allocate] returns the key's port, else a free port
    of the range, else the exhaustion error exactly when the range is full, and
    the other calls act on the table as documented. *)
Theorem allocator_refines_spec lo hi (r : R) ops :
  int32_ok lo -> int32_ok hi ->
  spec_run (minPort (New lo hi r)) (maxPort (New lo hi r)) ∅
    (run ops (New lo hi r)).1 (allocated (run ops (New lo hi r)).2).
Proof.
  intros Hlo Hhi. rewrite <- (New_allocated lo hi r). apply run_refines. auto with golib.
Qed.

(** After any sequence of calls two tunnels never hold the same port, a
    held port is in the range, positive, and reported by [IsAllocated], and
    [IsAllocated] reports only held ports. *)
Theorem allocated_ports_distinct lo hi (r : R) ops :
  int32_ok lo -> int32_ok hi ->
  let a := (run ops (New lo hi r)).2 in
  (forall k1 k2 p, GetPort k1 a = Some p -> GetPort k2 a = Some p -> k1 = k2) /\
  (forall k p, GetPort k a = Some p -> 0 < p <= 2147483647 /\ minPort a <= p <= maxPort a) /\
  (forall p, IsAllocated p a = true <-> exists k, GetPort k a = Some p).
Proof.
  intros Hlo Hhi a. assert (wf a) as Hwf by (apply run_wf; auto with golib).
  unfold GetPort, IsAllocated. split_and!.
  - intros k1 k2 p H1 H2. apply (wf_inverse a Hwf) in H1, H2. congruence.
  - intros k p Hk. apply (wf_range a Hwf) in Hk. destruct Hwf. lia.
  - intros p. rewrite bool_decide_eq_true. split; intros [k Hk]; exists k; by apply (wf_inverse a Hwf).
Qed.

Definition port_range a : gset Z := list_to_set (seqZ (minPort a) (rangeSize a)).

Lemma elem_of_port_range a p : wf a -> p ∈ port_range a <-> minPort a <= p <= maxPort a.
Proof.
  intros Hwf. unfold port_range. rewrite elem_of_list_to_set, elem_of_seqZ, (rangeSize_eq a Hwf). lia.
Qed.

Lemma size_port_range a : size (port_range a) = Z.to_nat (rangeSize a).
Proof.
  unfold port_range. rewrite size_list_to_set by apply NoDup_seqZ. apply length_seqZ.
Qed.

Lemma used_subseteq_range a : wf a -> dom (used a) ⊆ port_range a.
Proof.
  intros Hwf p. rewrite elem_of_dom, (elem_of_port_range a p Hwf). intros [k Hk].
  apply (wf_inverse a Hwf) in Hk. by apply (wf_range a Hwf) in Hk.
Qed.

(** A full table has no free port, and conversely. *)
Lemma no_free_port_iff a :
  wf a -> (forall p, ~ free_port a p) <-> size (used a) = Z.to_nat (rangeSize a).
Proof.
  intros Hwf. rewrite <- size_dom, <- size_port_range.
  pose proof (used_subseteq_range a Hwf) as Hsub. split.
  - intros Hfull. f_equal. apply set_eq. intros p. split; [apply Hsub|]. intros Hp.
    rewrite elem_of_dom. destruct (used a !! p) eqn:Hu; [eauto|].
    destruct (Hfull p). split; [|done]. by apply elem_of_port_range.
  - intros Hsize p [Hp Hfree]. apply (elem_of_port_range a p Hwf) in Hp.
    rewrite <- (set_subseteq_size_eq _ _ Hsub) in Hp by lia.
    apply elem_of_dom in Hp as [k Hk]. congruence.
Qed.

(** [Allocate] for a tunnel without a port fails exactly when as many
    ports are in use as the range has; otherwise it returns a port, whatever
    number the random source draws. *)
Theorem allocate_fails_iff_full k a :
  wf a -> allocated a !! k = None ->
  ((Allocate k a).1 = AllocErr errRangeExhausted <-> size (used a) = Z.to_nat (maxPort a - minPort a + 1)) /\
  (size (used a) <> Z.to_nat (maxPort a - minPort a + 1) -> exists p, (Allocate k a).1 = AllocPort p).
Proof.
  intros Hwf Hk. rewrite <- (rangeSize_eq a Hwf), <- (no_free_port_iff a Hwf).
  destruct (Allocate_cases k a Hwf)
    as [(p & Hk' & _)|[(_ & p & r & Hp & ->)|(_ & Hfull & r & ->)]]; simpl.
  - congruence.
  - split; [|eauto]. split; [done|]. intros Hfull. by destruct (Hfull p).
  - split; [done|]. tauto.
Qed.

(** ** A reference definition of the choice

    The order in which a drawn number makes [Allocate] try the ports: from that place of
    the range to its end, then from its beginning. *)
Definition probe_order a (start : Z) : list Z :=
  seqZ (minPort a + start) (rangeSize a - start) ++ seqZ (minPort a) start.

Definition first_free a (start : Z) : option Z :=
  head (filter (fun p => used a !! p = None) (probe_order a start)).

(** [Allocate] by the reference choice. *)
Definition Allocate_reference k a : alloc_result * PortAllocator R :=
  match allocated a !! k with
  | Some port => (AllocPort port, a)
  | None =>
      match intn (rng a) (rangeSize a) with
      | None => (AllocPanic, a)
      | Some (start, rng') =>
          match first_free a start with
          | Some port =>
              (AllocPort port, mkAllocator R (minPort a) (maxPort a) (<[k := port]> (allocated a)) (<[port := k]> (used a)) rng')
          | None => (AllocErr errRangeExhausted, mkAllocator R (minPort a) (maxPort a) (allocated a) (used a) rng')
          end
      end
  end.

Lemma scan_filter a start offset n :
  scan a start offset n =
  head (filter (fun p => used a !! p = None) (candidate a start <$> seqZ offset (Z.of_nat n))).
Proof.
  revert offset. induction n as [|n IH]; intros offset; simpl; [done|].
  rewrite seqZ_cons by lia. rewrite fmap_cons, filter_cons.
  replace (Z.pred (Z.of_nat (S n))) with (Z.of_nat n) by lia.
  destruct (used a !! candidate a start offset) eqn:Hu; case_decide; try congruence; [|done].
  rewrite IH. by replace (Z.succ offset) with (offset + 1) by lia.
Qed.

Lemma candidates_probe_order a start :
  wf a -> 0 <= start < rangeSize a -> candidate a start <$> seqZ 0 (rangeSize a) = probe_order a start.
Proof.
  intros Hwf Hs. unfold probe_order.
  replace (seqZ 0 (rangeSize a)) with (seqZ 0 (rangeSize a - start) ++ seqZ (rangeSize a - start) start)
    by (rewrite <- seqZ_app by lia; f_equal; lia).
  rewrite fmap_app. f_equal.
  - rewrite <- (Z.add_0_r (minPort a + start)), <- fmap_add_seqZ. apply list_fmap_ext. intros i o Ho.
    apply lookup_seqZ in Ho as [-> Hi]. rewrite candidate_eq by (done || lia). rewrite Z.mod_small; lia.
  - replace (minPort a) with (minPort a + start - rangeSize a + (rangeSize a - start)) at 1 by lia.
    rewrite <- fmap_add_seqZ. apply list_fmap_ext. intros i o Ho. apply lookup_seqZ in Ho as [-> Hi].
    rewrite candidate_eq by (done || lia).
    replace (start + (rangeSize a - start + Z.of_nat i)) with (Z.of_nat i + 1 * rangeSize a) by lia.
    rewrite Z_mod_plus_full, Z.mod_small; lia.
Qed.

(** C28: [Allocate] is the first-free choice.  The scan with its 32-bit and 64-bit
    arithmetic and its wrap at the end of the range does exactly what the reference
    does: a key with a port keeps it, otherwise the first port that is not in use, going
    from the drawn place of the range to its end and on from its beginning, is recorded;
    it fails exactly if as many ports are in use as the range has, and never panics. *)
Theorem allocate_is_first_free k a :
  wf a ->
  Allocate k a = Allocate_reference k a /\ (Allocate k a).1 <> AllocPanic /\
  (allocated a !! k = None ->
   (Allocate k a).1 = AllocErr errRangeExhausted <-> size (used a) = Z.to_nat (maxPort a - minPort a + 1)).
Proof.
  intros Hwf. split_and!.
  - unfold Allocate, Allocate_reference. destruct (allocated a !! k) as [p|]; [done|].
    assert (0 < rangeSize a) as HR by (rewrite (rangeSize_eq a Hwf); destruct Hwf; lia).
    destruct (intn_range (rng a) (rangeSize a) HR) as (start & r & -> & Hstart).
    set (a' := mkAllocator R (minPort a) (maxPort a) (allocated a) (used a) r).
    assert (wf a') as Hwf' by by apply wf_rng. change (rangeSize a) with (rangeSize a') in *.
    rewrite scan_filter, Z2Nat.id, (candidates_probe_order a' start Hwf' Hstart) by lia. done.
  - destruct (Allocate_cases k a Hwf) as [(p & _ & ->)|[(_ & p & r & _ & ->)|(_ & _ & r & ->)]]; done.
  - intros Hk. by apply allocate_fails_iff_full.
Qed.

Lemma wf_used_determined a a' : wf a -> wf a' -> allocated a = allocated a' -> used a = used a'.
Proof.
  intros Hwf Hwf' Heq. apply map_eq. intros p. apply option_eq. intros k.
  by rewrite <- (wf_inverse a Hwf), <- (wf_inverse a' Hwf'), Heq.
Qed.

Lemma NoDup_allocated_ports a : wf a -> NoDup (map_to_list (allocated a)).*2.
Proof.
  intros Hwf. apply NoDup_fmap_2_strong; [|apply NoDup_map_to_list].
  intros [k1 p1] [k2 p2] H1 H2. simpl. intros ->. apply elem_of_map_to_list in H1, H2.
  apply (wf_inverse a Hwf) in H1, H2. congruence.
Qed.

(** C39: restart recovery.  Loading the recorded (tunnel, port) pairs of an
    allocator into a fresh one with the same range, in any order, gives back
    the same two maps. *)
Theorem restart_restores_allocations a l (r : R) :
  wf a -> l ≡ₚ map_to_list (allocated a) ->
  let a' := load_all l (New (minPort a) (maxPort a) r) in
  allocated a' = allocated a /\ used a' = used a.
Proof.
  intros Hwf Hl a'. pose proof Hwf as [Hmin Hle Hmax _ _].
  assert (New (minPort a) (maxPort a) r = mkAllocator R (minPort a) (maxPort a) ∅ ∅ r) as Hnew.
  { unfold New. repeat case_bool_decide; (lia || done). }
  assert (wf (New (minPort a) (maxPort a) r)) as Hwf0 by (apply New_wf; unfold int32_ok; lia).
  assert (allocated a' = allocated a) as Hal.
  { unfold a'. rewrite load_all_allocated; [|done| | |].
    - rewrite New_allocated, (right_id_L ∅ (∪)).
      rewrite (list_to_map_proper _ (map_to_list (allocated a))).
      + apply list_to_map_to_list.
      + rewrite Hl. apply NoDup_fst_map_to_list.
      + done.
    - rewrite Hl. apply NoDup_fst_map_to_list.
    - rewrite Hl. by apply NoDup_allocated_ports.
    - intros k p Hin. rewrite Hl, elem_of_map_to_list in Hin.
      rewrite Hnew. simpl. split; [by apply (wf_range a Hwf) in Hin|]. by setoid_rewrite lookup_empty. }
  split; [done|]. apply wf_used_determined; [by apply load_all_wf|done..].
Qed.
End properties.

(** *** Witnesses *)

Definition demo_ops : list alloc_op :=
  [OpLoadExisting "default/a" 10001; OpAllocate "default/b"; OpAllocate "default/c";
   OpIsAllocated 10001; OpRelease "default/a"; OpGetPort "default/a"; OpAllocate "default/c"].

Definition demo_alloc : PortAllocator Z := (run demo_ops (New 10000 10001 7)).2.

Lemma demo_alloc_wf : wf demo_alloc.
Proof. apply run_wf, New_wf; unfold int32_ok; lia. Qed.

Lemma allocator_refines_spec_witness :
  (run demo_ops (New 10000 10001 7)).1 =
    [(OpLoadExisting "default/a" 10001, RetUnit);
     (OpAllocate "default/b", RetAlloc (AllocPort 10000));
     (OpAllocate "default/c", RetAlloc (AllocErr errRangeExhausted));
     (OpIsAllocated 10001, RetBool true);
     (OpRelease "default/a", RetUnit);
     (OpGetPort "default/a", RetPort None);
     (OpAllocate "default/c", RetAlloc (AllocPort 10001))] /\
  spec_run 10000 10001 ∅ (run demo_ops (New 10000 10001 7)).1 (allocated demo_alloc).
Proof.
  split; [vm_compute; reflexivity|].
  apply (allocator_refines_spec 10000 10001 7 demo_ops); unfold int32_ok; lia.
Defined.

Lemma allocated_ports_distinct_witness :
  GetPort "default/b" demo_alloc = Some 10000 /\ GetPort "default/c" demo_alloc = Some 10001 /\
  forall k1 k2 p, GetPort k1 demo_alloc = Some p -> GetPort k2 demo_alloc = Some p -> k1 = k2.
Proof.
  split; [vm_compute; reflexivity|]. split; [vm_compute; reflexivity|].
  apply (allocated_ports_distinct 10000 10001 7 demo_ops); unfold int32_ok; lia.
Defined.

Lemma allocate_fails_iff_full_witness :
  size (used demo_alloc) = 2%nat /\ (Allocate "default/d" demo_alloc).1 = AllocErr errRangeExhausted.
Proof.
  split; [vm_compute; reflexivity|].
  apply (allocate_fails_iff_full "default/d" demo_alloc demo_alloc_wf); vm_compute; reflexivity.
Defined.

(** The place drawn is the end of the range, which is in use: the choice wraps around. *)
Lemma allocate_is_first_free_witness :
  let a := LoadExisting "default/b" 10002 (New 10000 10002 2) in
  (Allocate_reference "default/d" a).1 = AllocPort 10000 /\ Allocate "default/d" a = Allocate_reference "default/d" a.
Proof.
  split; [vm_compute; reflexivity|].
  apply (allocate_is_first_free "default/d" (LoadExisting "default/b" 10002 (New 10000 10002 2))).
  apply LoadExisting_wf, New_wf; unfold int32_ok; lia.
Defined.

Lemma restart_restores_allocations_witness :
  allocated (load_all [("default/c", 10001); ("default/b", 10000)] (New 10000 10001 3)) = allocated demo_alloc.
Proof.
  apply (restart_restores_allocations demo_alloc [("default/c", 10001); ("default/b", 10000)] 3 demo_alloc_wf).
  vm_compute. apply perm_swap || reflexivity.
Defined.
