(* ===== verification/Kube.v ===== *)
(** * The Kubernetes objects and the API client the operator uses

    The API server, controller-runtime's client and controllerutil are not part
    of the repository: they are interfaces here.  [KubeClient W] has the calls
    the operator makes, each a computation over an abstract cluster state [W]
    that may fail and that returns the object the server answered with (the Go
    client overwrites the argument with it).  Nothing is assumed about them, so
    the theorems hold for any cluster, including one that fails any call.
    [ControllerUtil] has the controllerutil and apierrors helpers with their
    documented behaviour as laws.

    [FakeKube] is a small cluster for evaluation. *)

From S2P Require Import Prelude Api.

(** ** Objects (the fields the operator sets or reads) *)

Record ObjectKey := mkKey { key_Namespace : string; key_Name : string }.

#[export] Instance ObjectKey_eq_dec : EqDecision ObjectKey.
Proof. solve_decision. Defined.
#[export, refine] Instance ObjectKey_countable : Countable ObjectKey :=
  inj_countable' (fun k => (key_Namespace k, key_Name k)) (fun p => mkKey p.1 p.2) _.
Proof. by intros []. Defined.

Record OwnerReference := mkOwner { owner_Name : string; owner_Controller : bool }.

Record EnvVar := mkEnv { env_Name : string; env_Value : string }.
Record ContainerPort := mkContainerPort { cp_Name : string; cp_Port : Z; cp_Protocol : string }.
Record HTTPProbe := mkProbe { probe_Path : string; probe_Port : Z; probe_PeriodSeconds : Z }.

Record SecurityContext := mkSecurityContext {
  sc_AllowPrivilegeEscalation : bool;
  sc_RunAsNonRoot : bool;
  sc_RunAsUser : Z;
  sc_ReadOnlyRootFilesystem : bool;
  sc_SeccompProfile : string;
  sc_DropCapabilities : list string;
}.

Record PodSecurityContext := mkPodSecurityContext {
  psc_RunAsNonRoot : bool;
  psc_RunAsUser : Z;
  psc_SeccompProfile : string;
}.

Record Container := mkContainer {
  c_Name : string;
  c_Image : string;
  c_ImagePullPolicy : string;
  c_Ports : list ContainerPort;
  c_Env : list EnvVar;
  c_ReadinessProbe : HTTPProbe;
  c_SecurityContext : SecurityContext;
}.

Record PodSpec := mkPodSpec {
  ps_RestartPolicy : string;
  ps_ActiveDeadlineSeconds : option Z;
  ps_SecurityContext : option PodSecurityContext;
  ps_Containers : list Container;
}.

Record PodCondition := mkCondition { cond_Type : string; cond_Status : string }.

Record Pod := mkPod {
  pod_Key : ObjectKey;
  pod_UID : string;
  pod_Labels : gmap string string;
  pod_Annotations : gmap string string;
  pod_Owners : list OwnerReference;
  pod_Spec : PodSpec;
  pod_Phase : string;
  pod_PodIP : string;
  pod_Conditions : list PodCondition;
}.

(** The constants of k8s.io/api/core/v1 the controller compares with. *)
Definition PodFailed : string := "Failed".
Definition PodSucceeded : string := "Succeeded".
Definition PodReady : string := "Ready".
Definition ConditionTrue : string := "True".
Definition ProtocolTCP : string := "TCP".
Definition ProtocolUDP : string := "UDP".

Inductive IntOrString := IntVal (n : Z) | StrVal (s : string).

Record LabelSelector := mkLabelSelector {
  ls_MatchLabels : gmap string string;
  ls_MatchExpressions : list LabelSelectorRequirement;
}.
Record NetworkPolicyPort := mkNPPort { npp_Protocol : option string; npp_Port : option IntOrString }.
Record NetworkPolicyPeer := mkPeer {
  peer_PodSelector : option LabelSelector;
  peer_NamespaceSelector : option LabelSelector;
  peer_IPBlock : option string;
}.
(** An ingress rule ([From]) or an egress rule ([To]). *)
Record NetworkPolicyRule := mkRule { rule_Peers : list NetworkPolicyPeer; rule_Ports : list NetworkPolicyPort }.
Record NetworkPolicySpec := mkNPSpec {
  nps_PodSelector : LabelSelector;
  nps_PolicyTypes : list string;
  nps_Ingress : list NetworkPolicyRule;
  nps_Egress : list NetworkPolicyRule;
}.
Record NetworkPolicy := mkNetworkPolicy {
  np_Key : ObjectKey;
  np_Labels : gmap string string;
  np_Owners : list OwnerReference;
  np_Spec : NetworkPolicySpec;
}.

(** A load-balancer Service: the IPs of its ingress points. *)
Record Service := mkService { svc_IngressIPs : list string }.

#[export] Instance OwnerReference_eq_dec : EqDecision OwnerReference.
Proof. solve_decision. Defined.

(** ** Interfaces *)

Class KubeClient (W : Type) := {
  kube_get_tunnel : ObjectKey -> ST W Tunnel;
  kube_list_tunnels : ST W (list Tunnel);
  kube_update_tunnel : Tunnel -> ST W Tunnel;
  (** [Status().Patch(ctx, obj, client.MergeFrom(base))] *)
  kube_patch_status : Tunnel -> Tunnel -> ST W Tunnel;
  kube_delete_tunnel : ObjectKey -> ST W unit;
  kube_get_pod : ObjectKey -> ST W Pod;
  kube_create_pod : Pod -> ST W Pod;
  kube_delete_pod : ObjectKey -> ST W unit;
  (** [controllerutil.CreateOrUpdate] with its mutate function *)
  kube_create_or_update_policy : ObjectKey -> (NetworkPolicy -> res NetworkPolicy) -> ST W unit;
  kube_delete_policy : ObjectKey -> ST W unit;
  kube_get_service : ObjectKey -> ST W Service;
}.

Class ControllerUtil := {
  ContainsFinalizer : list string -> string -> bool;
  AddFinalizer : list string -> string -> list string;
  RemoveFinalizer : list string -> string -> list string;
  SetControllerReference : Tunnel -> list OwnerReference -> res (list OwnerReference);
  IsNotFound : error -> bool;
  (** [client.IgnoreNotFound]: [None] is a nil error. *)
  IgnoreNotFound : error -> option error;
}.

Class ControllerUtilLaws `{ControllerUtil} : Prop := {
  contains_finalizer_spec : forall fs f, ContainsFinalizer fs f = true <-> f ∈ fs;
  add_finalizer_spec : forall fs f g, g ∈ AddFinalizer fs f <-> g = f \/ g ∈ fs;
  remove_finalizer_spec : forall fs f g, g ∈ RemoveFinalizer fs f <-> g ∈ fs /\ g <> f;
  ignore_not_found_spec : forall e, IgnoreNotFound e = if IsNotFound e then None else Some e;
  set_controller_reference_spec : forall t os os', SetControllerReference t os = Ok os' -> mkOwner (Name t) true ∈ os';
  set_controller_reference_again : forall t os os', SetControllerReference t os = Ok os' -> SetControllerReference t os' = Ok os';
}.

(** ** A cluster for evaluation *)

Fixpoint chain_not_found (e : error) : bool :=
  match e with ErrNotFound _ => true | ErrWrap _ e => chain_not_found e | _ => false end.

#[export] Instance std_util : ControllerUtil := {|
  ContainsFinalizer fs f := bool_decide (f ∈ fs);
  AddFinalizer fs f := if bool_decide (f ∈ fs) then fs else fs ++ [f];
  RemoveFinalizer fs f := filter (fun g => g <> f) fs;
  SetControllerReference t os :=
    if bool_decide (Exists (fun o => owner_Controller o = true /\ owner_Name o <> Name t) os)
    then Fail (ErrNew "already owned")
    else Ok (mkOwner (Name t) true :: filter (fun o => owner_Name o <> Name t) os);
  IsNotFound := chain_not_found;
  IgnoreNotFound e := if chain_not_found e then None else Some e;
|}.

#[export] Instance std_util_laws : ControllerUtilLaws.
Proof.
  constructor; simpl.
  - intros. apply bool_decide_eq_true.
  - intros fs f g. case_bool_decide; set_solver.
  - intros fs f g. rewrite list_elem_of_filter. naive_solver.
  - done.
  - intros t os os'. case_bool_decide; [done|]. intros [= <-]. apply list_elem_of_here.
  - intros t os os'. case_bool_decide as Hno; [done|]. intros [= <-]. rewrite bool_decide_false.
    + rewrite filter_cons_False by (intros Hx; by apply Hx). by rewrite list_filter_filter_r by done.
    + intros Hex. apply Exists_exists in Hex as (o & Hin & Hc & Hne). apply Hno, Exists_exists. exists o. split; [|done].
      apply elem_of_cons in Hin as [->|Hin]; [done|]. by apply list_elem_of_filter in Hin as [_ Hin].
Qed.

Record FakeKube := mkFake {
  fk_tunnels : gmap ObjectKey Tunnel;
  fk_pods : gmap ObjectKey Pod;
  fk_policies : gmap ObjectKey NetworkPolicy;
  fk_services : gmap ObjectKey Service;
  fk_next_uid : N;
  fk_patch_fails : bool;
  fk_delete_fails : bool;
}.

Definition tunnel_key (t : Tunnel) : ObjectKey := mkKey (Namespace t) (Name t).

Definition fk_set_tunnels ts w :=
  mkFake ts (fk_pods w) (fk_policies w) (fk_services w) (fk_next_uid w) (fk_patch_fails w) (fk_delete_fails w).
Definition fk_set_pods ps w :=
  mkFake (fk_tunnels w) ps (fk_policies w) (fk_services w) (fk_next_uid w) (fk_patch_fails w) (fk_delete_fails w).
Definition fk_set_policies ps w :=
  mkFake (fk_tunnels w) (fk_pods w) ps (fk_services w) (fk_next_uid w) (fk_patch_fails w) (fk_delete_fails w).

Definition fk_get {A} (proj : FakeKube -> gmap ObjectKey A) (k : ObjectKey) : ST FakeKube A := fun w =>
  match proj w !! k with Some a => (Ok a, w) | None => (Fail (ErrNotFound (key_Name k)), w) end.

Definition fk_delete {A} (proj : FakeKube -> gmap ObjectKey A) (put : gmap ObjectKey A -> FakeKube -> FakeKube)
    (k : ObjectKey) : ST FakeKube unit := fun w =>
  match proj w !! k with
  | Some _ => (Ok tt, put (delete k (proj w)) w)
  | None => (Fail (ErrNotFound (key_Name k)), w)
  end.

(** An update keeps the stored status and deletion mark; an object being deleted
    goes away with its last finalizer. *)
Definition fk_update_tunnel (t : Tunnel) : ST FakeKube Tunnel := fun w =>
  match fk_tunnels w !! tunnel_key t with
  | None => (Fail (ErrNotFound (Name t)), w)
  | Some old =>
      let t' := mkTunnel (Name old) (Namespace old) (DeletionTimestamp old) (Finalizers t) (Spec t) (Status old) in
      let gone := bool_decide (is_Some (DeletionTimestamp t')) && bool_decide (Finalizers t' = []) in
      (Ok t', fk_set_tunnels
                (if gone then delete (tunnel_key t) (fk_tunnels w)
                 else <[tunnel_key t := t']> (fk_tunnels w)) w)
  end.

(** A merge patch of the status: the fields in which [new] differs from [base]. *)
Definition merge_field {A} `{EqDecision A} (base new cur : A) : A := if decide (new = base) then cur else new.
Definition merge_status (base new cur : TunnelStatus) : TunnelStatus :=
  mkStatus (merge_field (Phase base) (Phase new) (Phase cur))
    (merge_field (GatewayPublicKey base) (GatewayPublicKey new) (GatewayPublicKey cur))
    (merge_field (ForwarderPort base) (ForwarderPort new) (ForwarderPort cur))
    (merge_field (ForwarderEndpoint base) (ForwarderEndpoint new) (ForwarderEndpoint cur))
    (merge_field (GatewayPodName base) (GatewayPodName new) (GatewayPodName cur))
    (merge_field (GatewayPodUID base) (GatewayPodUID new) (GatewayPodUID cur))
    (merge_field (GatewayPodIP base) (GatewayPodIP new) (GatewayPodIP cur))
    (merge_field (MappingRevision base) (MappingRevision new) (MappingRevision cur))
    (merge_field (Message base) (Message new) (Message cur)).

Definition fk_patch (base t : Tunnel) : ST FakeKube Tunnel := fun w =>
  if fk_patch_fails w then (Fail (ErrNew "api server unavailable"), w)
  else match fk_tunnels w !! tunnel_key t with
       | None => (Fail (ErrNotFound (Name t)), w)
       | Some old =>
           let t' := set_status (merge_status (Status base) (Status t)) old in
           (Ok t', fk_set_tunnels (<[tunnel_key t := t']> (fk_tunnels w)) w)
       end.

Definition fk_create_pod (p : Pod) : ST FakeKube Pod := fun w =>
  let uid := String (Ascii.ascii_of_N (65 + fk_next_uid w)) "uid" in
  let p' := mkPod (pod_Key p) uid (pod_Labels p) (pod_Annotations p) (pod_Owners p) (pod_Spec p) "Pending" "" [] in
  (Ok p', mkFake (fk_tunnels w) (<[pod_Key p := p']> (fk_pods w)) (fk_policies w) (fk_services w)
            (fk_next_uid w + 1) (fk_patch_fails w) (fk_delete_fails w)).

Definition fk_apply_policy (k : ObjectKey) (f : NetworkPolicy -> res NetworkPolicy) : ST FakeKube unit := fun w =>
  let old := default (mkNetworkPolicy k ∅ [] (mkNPSpec (mkLabelSelector ∅ []) [] [] [])) (fk_policies w !! k) in
  match f old with
  | Ok np => (Ok tt, fk_set_policies (<[k := np]> (fk_policies w)) w)
  | Fail e => (Fail e, w)
  end.

(** Deleting an object that has finalizers only marks it. *)
Definition fk_delete_tunnel (k : ObjectKey) : ST FakeKube unit := fun w =>
  if fk_delete_fails w then (Fail (ErrNew "api server unavailable"), w)
  else match fk_tunnels w !! k with
  | None => (Fail (ErrNotFound (key_Name k)), w)
  | Some t =>
      if bool_decide (Finalizers t = []) then (Ok tt, fk_set_tunnels (delete k (fk_tunnels w)) w)
      else (Ok tt, fk_set_tunnels
              (<[k := mkTunnel (Name t) (Namespace t) (Some 1) (Finalizers t) (Spec t) (Status t)]> (fk_tunnels w)) w)
  end.

#[export] Instance fake_kube : KubeClient FakeKube := {|
  kube_get_tunnel := fk_get fk_tunnels;
  kube_list_tunnels w := (Ok (map_to_list (fk_tunnels w)).*2, w);
  kube_update_tunnel := fk_update_tunnel;
  kube_patch_status := fk_patch;
  kube_delete_tunnel := fk_delete_tunnel;
  kube_get_pod := fk_get fk_pods;
  kube_create_pod := fk_create_pod;
  kube_delete_pod := fk_delete fk_pods fk_set_pods;
  kube_create_or_update_policy := fk_apply_policy;
  kube_delete_policy := fk_delete fk_policies fk_set_policies;
  kube_get_service := fk_get fk_services;
|}.

Definition fake_empty : FakeKube := mkFake ∅ ∅ ∅ ∅ 0 false false.
