(* ===== verification/Cluster.v ===== *)
(** * A cluster that behaves

    The theorems on a single reconciliation hold for any answers of the API server.
    Theorems about a run of the operator need to know how the Tunnel objects change:
    [KubeLaws] states the documented behaviour.  [tunnels_of] is the content of the
    cluster.  Around every call of the operator other clients may act
    ([user_step]): they create tunnels, change everything but the status, mark
    tunnels for deletion and remove them.  The status subresource is written by the
    operator only, as a merge patch.  A call that fails may have had its effect or
    not.  [FakeKube] is shown to satisfy the laws.

    An assumption beyond what the program has: a read that succeeds is current.  Only at
    start-up does the operator read from the API server; later it reads from the
    manager's cache, which may lag behind, and the theorems that use these laws (those of
    Fleet and Restart) say nothing about what a stale read brings about. *)

From Stdlib Require Import Ascii.
From S2P Require Import Prelude GoStd Api Kube.

Class ClusterView (W : Type) := tunnels_of : W -> gmap ObjectKey Tunnel.

(** Objects are stored under their own key, and a namespace has no slash. *)
Definition view_ok (m : gmap ObjectKey Tunnel) : Prop :=
  forall k t, m !! k = Some t -> tunnel_key t = k /\ contains_char "/"%char (Namespace t) = false.

(** What the other clients of the API server can do to the tunnels. *)
Inductive user_step (m : gmap ObjectKey Tunnel) : gmap ObjectKey Tunnel -> Prop :=
| us_create t :
    m !! tunnel_key t = None -> contains_char "/"%char (Namespace t) = false ->
    Status t = empty_status -> DeletionTimestamp t = None ->
    user_step m (<[tunnel_key t := t]> m)
| us_edit k t t' :
    m !! k = Some t -> tunnel_key t' = tunnel_key t -> Status t' = Status t ->
    (is_Some (DeletionTimestamp t) -> is_Some (DeletionTimestamp t')) ->
    user_step m (<[k := t']> m)
| us_remove k : user_step m (delete k m).

Abbreviation user_steps := (rtc user_step).

Lemma user_step_ok m m' : user_step m m' -> view_ok m -> view_ok m'.
Proof.
  intros Hstep Hok k t. destruct Hstep as [t0 _ Hns _ _|k0 t0 t1 Hk Hkey _ _|k0].
  - rewrite lookup_insert_Some. intros [[<- <-]|[_ Hk]]; [done|by apply Hok].
  - rewrite lookup_insert_Some. intros [[<- <-]|[_ Hk']]; [|by apply Hok].
    destruct (Hok _ _ Hk) as [Hk0 Hns]. split; [congruence|].
    unfold tunnel_key in Hkey. by injection Hkey as -> _.
  - rewrite lookup_delete_Some. intros [_ Hk]. by apply Hok.
Qed.

Lemma user_steps_ok m m' : user_steps m m' -> view_ok m -> view_ok m'.
Proof. induction 1; eauto using user_step_ok. Qed.

(** Nobody else writes the status: the status of an object is the one it had, or
    that of an object created since. *)
Definition tracks (st : TunnelStatus) (k : ObjectKey) (m : gmap ObjectKey Tunnel) : Prop :=
  forall t, m !! k = Some t -> Status t = st \/ Status t = empty_status.

Lemma user_step_tracks st k m m' : user_step m m' -> tracks st k m -> tracks st k m'.
Proof.
  intros Hstep Htr t. destruct Hstep as [t0 _ _ He _|k0 t0 t1 Hk _ Hst _|k0].
  - rewrite lookup_insert_Some. intros [[_ <-]|[_ Hk]]; [by right|by apply Htr].
  - rewrite lookup_insert_Some. intros [[<- <-]|[_ Hk']]; [|by apply Htr]. rewrite Hst. by apply Htr.
  - rewrite lookup_delete_Some. intros [_ Hk]. by apply Htr.
Qed.

Lemma user_steps_tracks st k m m' : user_steps m m' -> tracks st k m -> tracks st k m'.
Proof. induction 1; eauto using user_step_tracks. Qed.

Class KubeLaws (W : Type) `{KubeClient W} `{ClusterView W} : Prop := {
  get_tunnel_law : forall k w r w', view_ok (tunnels_of w) -> kube_get_tunnel k w = (r, w') ->
    user_steps (tunnels_of w) (tunnels_of w') /\ (forall t, r = Ok t -> tunnels_of w' !! k = Some t);
  list_tunnels_law : forall w r w', view_ok (tunnels_of w) -> kube_list_tunnels w = (r, w') ->
    user_steps (tunnels_of w) (tunnels_of w') /\
    (forall items, r = Ok items -> items ≡ₚ (map_to_list (tunnels_of w')).*2);
  update_tunnel_law : forall t w r w', view_ok (tunnels_of w) -> kube_update_tunnel t w = (r, w') ->
    exists m, user_steps (tunnels_of w) m /\ user_steps m (tunnels_of w') /\
    (forall t', r = Ok t' -> tunnel_key t' = tunnel_key t /\
       (exists cur, m !! tunnel_key t = Some cur /\ Status t' = Status cur) /\
       (tunnels_of w' !! tunnel_key t = Some t' \/ tunnels_of w' !! tunnel_key t = None));
  patch_status_law : forall base t w r w', view_ok (tunnels_of w) -> kube_patch_status base t w = (r, w') ->
    exists m, user_steps (tunnels_of w) m /\
      ((tunnels_of w' = m /\ is_ok r = false) \/
       exists cur, m !! tunnel_key t = Some cur /\
         let t' := set_status (merge_status (Status base) (Status t)) cur in
         tunnels_of w' = <[tunnel_key t := t']> m /\ (forall x, r = Ok x -> x = t'));
  delete_tunnel_law : forall k w r w', view_ok (tunnels_of w) -> kube_delete_tunnel k w = (r, w') ->
    user_steps (tunnels_of w) (tunnels_of w');
  get_pod_law : forall k w r w', view_ok (tunnels_of w) -> kube_get_pod k w = (r, w') ->
    user_steps (tunnels_of w) (tunnels_of w');
  create_pod_law : forall p w r w', view_ok (tunnels_of w) -> kube_create_pod p w = (r, w') ->
    user_steps (tunnels_of w) (tunnels_of w');
  delete_pod_law : forall k w r w', view_ok (tunnels_of w) -> kube_delete_pod k w = (r, w') ->
    user_steps (tunnels_of w) (tunnels_of w');
  apply_policy_law : forall k f w r w', view_ok (tunnels_of w) -> kube_create_or_update_policy k f w = (r, w') ->
    user_steps (tunnels_of w) (tunnels_of w');
  delete_policy_law : forall k w r w', view_ok (tunnels_of w) -> kube_delete_policy k w = (r, w') ->
    user_steps (tunnels_of w) (tunnels_of w');
  get_service_law : forall k w r w', view_ok (tunnels_of w) -> kube_get_service k w = (r, w') ->
    user_steps (tunnels_of w) (tunnels_of w');
}.

(** ** The cluster for evaluation satisfies the laws *)

#[export] Instance fake_view : ClusterView FakeKube := fk_tunnels.

Lemma fk_get_view {A} (proj : FakeKube -> gmap ObjectKey A) k w r w' :
  fk_get proj k w = (r, w') -> w' = w /\ (forall a, r = Ok a -> proj w !! k = Some a).
Proof. unfold fk_get. destruct (proj w !! k); intros [= <- <-]; (split; [done|]); congruence. Qed.

Lemma fk_update_view t w r w' :
  view_ok (fk_tunnels w) -> fk_update_tunnel t w = (r, w') ->
  exists m, user_steps (fk_tunnels w) m /\ user_steps m (fk_tunnels w') /\
  (forall t', r = Ok t' -> tunnel_key t' = tunnel_key t /\
     (exists cur, m !! tunnel_key t = Some cur /\ Status t' = Status cur) /\
     (fk_tunnels w' !! tunnel_key t = Some t' \/ fk_tunnels w' !! tunnel_key t = None)).
Proof.
  intros Hok. exists (fk_tunnels w). split; [reflexivity|]. revert H. unfold fk_update_tunnel.
  destruct (fk_tunnels w !! tunnel_key t) as [old|] eqn:Hk.
  2: { intros [= <- <-]. split; [reflexivity|discriminate]. }
  destruct (Hok _ _ Hk) as [Hkey _]. set (t1 := mkTunnel _ _ _ _ _ _). intros [= <- <-]. split.
  - apply rtc_once. simpl. destruct (_ && _); [apply us_remove|]. by apply (us_edit _ _ old).
  - intros t' [= <-]. split_and!; [done|by eauto|]. simpl.
    destruct (_ && _); [right; apply lookup_delete_eq|left; apply lookup_insert_eq].
Qed.

Lemma fk_delete_view k w r w' :
  fk_delete_tunnel k w = (r, w') -> user_steps (fk_tunnels w) (fk_tunnels w').
Proof.
  unfold fk_delete_tunnel. destruct (fk_delete_fails w); [by intros [= <- <-]|].
  destruct (fk_tunnels w !! k) as [t|] eqn:Hk; [|by intros [= <- <-]].
  case_bool_decide; intros [= <- <-]; apply rtc_once; [apply us_remove|].
  apply (us_edit _ _ t); done.
Qed.

#[export] Instance fake_laws : KubeLaws FakeKube.
Proof.
  split; unfold tunnels_of, fake_view; simpl.
  - intros k w r w' _ Hget. apply fk_get_view in Hget as [-> ?]. by split.
  - intros w r w' _ [= <- <-]. split; [reflexivity|]. by intros items [= <-].
  - intros. by apply fk_update_view.
  - intros base t w r w' Hok. unfold fk_patch. exists (fk_tunnels w). split; [reflexivity|]. revert H.
    destruct (fk_patch_fails w); [intros [= <- <-]; by left|].
    destruct (fk_tunnels w !! tunnel_key t) as [old|] eqn:Hk; intros [= <- <-]; [|by left].
    right. exists old. split; [done|]. split; [done|]. by intros x [= <-].
  - intros k w r w' _. apply fk_delete_view.
  - intros k w r w' _ Hget. apply fk_get_view in Hget as [-> _]. reflexivity.
  - intros p w r w' _ [= <- <-]. reflexivity.
  - intros k w r w' _. unfold fk_delete. destruct (_ !! _); intros [= <- <-]; reflexivity.
  - intros k f w r w' _. unfold fk_apply_policy. destruct (f _); intros [= <- <-]; reflexivity.
  - intros k w r w' _. unfold fk_delete. destruct (_ !! _); intros [= <- <-]; reflexivity.
  - intros k w r w' _ Hget. apply fk_get_view in Hget as [-> _]. reflexivity.
Qed.
