(* ===== verification/Server.v ===== *)
(** * The operator's gRPC server (internal/grpc/server.go)

    [ForwarderServer] is the struct: the registered streams, keyed by pointer,
    each with its buffered update channel and its overflow signal, the recorded
    acknowledgements, and the counter of identities given to old forwarders.
    The methods that hold [mu] are functions on it.  [StreamUpdates] runs for the
    life of a connection, so it is the part of the step relation [server_step]
    that concerns one stream: registration and SYNC, then one step per iteration
    of its [select].  The relation interleaves any number of streams with
    [NotifyUpdate] and [Ack] calls.  Map iteration order does not matter to any
    caller and is that of [map_to_list].

    [GetConfig] runs over the cluster interface and the shared allocator. *)

From S2P Require Import Prelude GoStd Proto Api Kube Portalloc.

Definition gatewayPort : Z := 51820.
Definition updates_capacity : nat := 64.

Definition tunnelKey (namespace name : string) : string := namespace +:+ "/" +:+ name.

(** ** Snapshots *)

Section get_config.
Context {W : Type} `{KubeClient W} `{ControllerUtil} {R : Type} `{RandSource R}.

Definition tunnelMapping (tunnel : Tunnel) : ST W TunnelMapping :=
  let st := Status tunnel in
  let gatewayAddress := JoinHostPort (GatewayPodIP st) (Itoa gatewayPort) in
  let gatewayAddress :=
    if bool_decide (GatewayPodIP st = "") then JoinHostPort (GatewayPodName st) (Itoa gatewayPort)
    else gatewayAddress in
  gatewayAddress ←
    (if bool_decide (GatewayPodName st <> "") && bool_decide (GatewayPodIP st = "") then
       r ← try (kube_get_pod (mkKey (Namespace tunnel) (GatewayPodName st)));
       match r with
       | Ok pod =>
           if bool_decide (pod_PodIP pod <> "") then mret (JoinHostPort (pod_PodIP pod) (Itoa gatewayPort))
           else mret gatewayAddress
       | Fail err =>
           if IsNotFound err then mret gatewayAddress
           else throw (ErrWrap ("getting gateway pod " +:+ Namespace tunnel +:+ "/" +:+ GatewayPodName st) err)
       end
     else mret gatewayAddress);
  mret (mkTunnelMapping (Some (Name tunnel)) (Some (Namespace tunnel)) (Some (ForwarderPort st))
          (Some gatewayAddress) (Some (MappingRevision st)) (Some (GatewayPodUID st)) (Some (GatewayPodIP st))).

(** The tunnels the snapshot loop does not [continue] over. *)
Definition in_snapshot (tunnel : Tunnel) : bool :=
  let st := Status tunnel in
  negb (bool_decide (is_Some (DeletionTimestamp tunnel)) ||
        bool_decide (Phase st = TunnelPhaseTerminated) || bool_decide (Phase st = TunnelPhaseFailed) ||
        bool_decide (ForwarderPort st <= 0) || bool_decide (GatewayPodIP st = "") ||
        bool_decide (GatewayPublicKey st = "")).

(** The state [GetConfig] touches: the cluster and the shared allocator,
    which may be nil. *)
Definition on_cluster {A} (m : ST W A) : ST (W * option (PortAllocator R)) A := fun s =>
  let '(r, w) := m s.1 in (r, (w, s.2)).

Fixpoint config_loop (items : list Tunnel) (mappings : list (option TunnelMapping)) :
    ST (W * option (PortAllocator R)) (list (option TunnelMapping)) :=
  match items with
  | [] => mret mappings
  | tunnel :: items =>
      if negb (in_snapshot tunnel) then config_loop items mappings
      else
        modify (fun s =>
          (s.1, LoadExisting (tunnelKey (Namespace tunnel) (Name tunnel)) (ForwarderPort (Status tunnel)) <$> s.2)) ;;
        mapping ← on_cluster (tunnelMapping tunnel);
        config_loop items (mappings ++ [Some mapping])
  end.

Fixpoint first_ip (ips : list string) : option string :=
  match ips with
  | [] => None
  | ip :: ips => if bool_decide (ip <> "") then Some ip else first_ip ips
  end.

Definition resolveVIP (forwarderServiceKey : ObjectKey) : ST W string :=
  if bool_decide (key_Name forwarderServiceKey = "") then mret ""
  else
    r ← try (kube_get_service forwarderServiceKey);
    match r with
    | Fail _ => mret ""
    | Ok svc => mret (default "" (first_ip (svc_IngressIPs svc)))
    end.

Definition GetConfig (forwarderServiceKey : ObjectKey) : ST (W * option (PortAllocator R)) ForwarderConfig :=
  items ← wrap_err "listing tunnels" (on_cluster kube_list_tunnels);
  mappings ← config_loop items [];
  vip ← on_cluster (resolveVIP forwarderServiceKey);
  mret (mkForwarderConfig (if bool_decide (vip <> "") then Some vip else None) mappings).
End get_config.

(** ** Streams and acknowledgements *)

Record forwarderStream := mkStream {
  id : string;
  updates : list TunnelUpdate;
  overflow : bool;
}.

Record ForwarderServer := mkServer {
  streams : gmap nat forwarderStream;
  acks : gmap string (gmap string Z);
  legacyForwarderSeq : Z;
}.

Definition NewForwarderServer : ForwarderServer := mkServer ∅ ∅ 0.

Definition streamID (reqID : string) (s : ForwarderServer) : string * ForwarderServer :=
  if bool_decide (reqID <> "") then (reqID, s)
  else
    let seq := (legacyForwarderSeq s + 1) `mod` 2 ^ 64 in
    ("legacy-" +:+ Itoa seq, mkServer (streams s) (acks s) seq).

Definition addStream (ptr : nat) (st : forwarderStream) (s : ForwarderServer) : ForwarderServer :=
  mkServer (<[ptr := st]> (streams s)) (acks s) (legacyForwarderSeq s).

Definition connectedLocked (fid : string) (s : ForwarderServer) : bool :=
  existsb (fun p => bool_decide (id p.2 = fid)) (map_to_list (streams s)).

(** [removeStream(stream)] for the stream at [ptr] with the given identity. *)
Definition removeStream (ptr : nat) (sid : string) (s : ForwarderServer) : ForwarderServer :=
  let s := mkServer (delete ptr (streams s)) (acks s) (legacyForwarderSeq s) in
  if negb (connectedLocked sid s)
  then mkServer (streams s) (delete sid (acks s)) (legacyForwarderSeq s)
  else s.

(** [s.acks[id][key]]: reading a missing map or entry gives 0. *)
Definition acked (s : ForwarderServer) (fid key : string) : Z :=
  default 0 (acks s !! fid ≫= fun m => m !! key).

Definition Ack (request : option AckRequest) (s : ForwarderServer) : res unit * ForwarderServer :=
  let fid := GetAckForwarderId request in
  if bool_decide (fid = "") || bool_decide (GetAckTunnelName request = "") ||
     bool_decide (GetAckTunnelNamespace request = "")
  then (Fail (ErrStatus InvalidArgument "forwarder_id, tunnel_name, and tunnel_namespace are required"), s)
  else if negb (connectedLocked fid s)
  then (Fail (ErrStatus FailedPrecondition "forwarder is not connected"), s)
  else
    let acks1 := match acks s !! fid with None => <[fid := ∅]> (acks s) | Some _ => acks s end in
    let s1 := mkServer (streams s) acks1 (legacyForwarderSeq s) in
    let key := tunnelKey (GetAckTunnelNamespace request) (GetAckTunnelName request) in
    if bool_decide (GetAckRevision request > acked s1 fid key)
    then (Ok tt, mkServer (streams s1)
                   (alter (fun m => <[key := GetAckRevision request]> m) fid acks1) (legacyForwarderSeq s1))
    else (Ok tt, s1).

Definition connected_ids (s : ForwarderServer) : gset string :=
  list_to_set ((fun p => id p.2) <$> map_to_list (streams s)).

Definition MissingAcks (namespace name : string) (revision : Z) (s : ForwarderServer) : list string :=
  let key := tunnelKey namespace name in
  filter (fun fid => acked s fid key < revision) (elements (connected_ids s)).

(** [select { case updates <- u: default: close(overflow) }] *)
Definition offer (u : TunnelUpdate) (st : forwarderStream) : forwarderStream :=
  if bool_decide (length (updates st) < updates_capacity)%nat
  then mkStream (id st) (updates st ++ [u]) (overflow st)
  else mkStream (id st) (updates st) true.

Definition NotifyUpdate (update : option TunnelUpdate) (s : ForwarderServer) : ForwarderServer :=
  match update with
  | None => s
  | Some u => mkServer (offer u <$> streams s) (acks s) (legacyForwarderSeq s)
  end.

(** ** The server with its connections

    [delivered ptr] is what [stream.Send] accepted on the stream at [ptr], and
    [published ptr] what [NotifyUpdate] was called with since the stream was
    registered. *)

Record server_sys := mkSys {
  srv : ForwarderServer;
  delivered : gmap nat (list TunnelUpdate);
  published : gmap nat (list TunnelUpdate);
}.

Definition sys_init : server_sys := mkSys NewForwarderServer ∅ ∅.

Definition drop_stream (ptr : nat) (st : forwarderStream) (x : server_sys) : server_sys :=
  mkSys (removeStream ptr (id st) (srv x)) (delivered x) (published x).

Definition set_stream (ptr : nat) (st : forwarderStream) (s : ForwarderServer) : ForwarderServer :=
  mkServer (<[ptr := st]> (streams s)) (acks s) (legacyForwarderSeq s).

(** [make] gives a pointer no stream has had. *)
Definition open_stream (ptr : nat) (request : option StreamUpdatesRequest) (x : server_sys) : server_sys :=
  let '(sid, s) := streamID (GetStreamForwarderId request) (srv x) in
  mkSys (addStream ptr (mkStream sid [] false) s)
    (<[ptr := []]> (delivered x)) (<[ptr := []]> (published x)).

Definition notify (update : option TunnelUpdate) (x : server_sys) : server_sys :=
  mkSys (NotifyUpdate update (srv x)) (delivered x)
    (match update with
     | None => published x
     | Some u => map_imap (fun ptr l => Some (if bool_decide (is_Some (streams (srv x) !! ptr)) then l ++ [u] else l))
                   (published x)
     end).

Inductive server_step (x : server_sys) : server_sys -> Prop :=
| step_open ptr request :
    delivered x !! ptr = None -> server_step x (open_stream ptr request x)
| step_sync ptr st :
    streams (srv x) !! ptr = Some st -> delivered x !! ptr = Some [] ->
    server_step x (mkSys (srv x) (<[ptr := [sync_update]]> (delivered x)) (published x))
| step_sync_fails ptr st :
    streams (srv x) !! ptr = Some st -> delivered x !! ptr = Some [] ->
    server_step x (drop_stream ptr st x)
| step_send ptr st u q d :
    streams (srv x) !! ptr = Some st -> updates st = u :: q ->
    delivered x !! ptr = Some d -> d <> [] ->
    server_step x (mkSys (set_stream ptr (mkStream (id st) q (overflow st)) (srv x))
                     (<[ptr := d ++ [u]]> (delivered x)) (published x))
| step_send_fails ptr st u q d :
    streams (srv x) !! ptr = Some st -> updates st = u :: q ->
    delivered x !! ptr = Some d -> d <> [] ->
    server_step x (drop_stream ptr st x)
| step_context_done ptr st d :
    streams (srv x) !! ptr = Some st -> delivered x !! ptr = Some d -> d <> [] ->
    server_step x (drop_stream ptr st x)
| step_overflow ptr st d :
    streams (srv x) !! ptr = Some st -> delivered x !! ptr = Some d -> d <> [] -> overflow st = true ->
    server_step x (drop_stream ptr st x)
| step_notify update :
    server_step x (notify update x)
| step_ack request :
    server_step x (mkSys (Ack request (srv x)).2 (delivered x) (published x)).

Definition server_reachable (x : server_sys) : Prop := rtc server_step sys_init x.

(** What holds of one registered stream: the channel is within its capacity,
    the first thing sent is SYNC, what was sent and what is queued comes from
    the published updates in order, and none is missing unless the overflow
    signal is up. *)
Record stream_inv (st : forwarderStream) (d p : list TunnelUpdate) : Prop := {
  si_capacity : (length (updates st) <= updates_capacity)%nat;
  si_sync : d = [] \/ head d = Some sync_update;
  si_order : sublist (tail d ++ updates st) p;
  si_complete : overflow st = false -> tail d ++ updates st = p;
}.

Record server_inv (x : server_sys) : Prop := {
  sinv_streams : forall ptr st, streams (srv x) !! ptr = Some st ->
    exists d p, delivered x !! ptr = Some d /\ published x !! ptr = Some p /\ stream_inv st d p;
  sinv_acks : forall fid, is_Some (acks (srv x) !! fid) -> connectedLocked fid (srv x) = true;
}.

Lemma connectedLocked_spec fid s :
  connectedLocked fid s = true <-> exists ptr st, streams s !! ptr = Some st /\ id st = fid.
Proof.
  unfold connectedLocked. rewrite existsb_exists. split.
  - intros ([ptr st] & Hin & Hid). apply list_elem_of_In, elem_of_map_to_list in Hin.
    apply bool_decide_eq_true in Hid. eauto.
  - intros (ptr & st & Hst & Hid). exists (ptr, st).
    rewrite <- list_elem_of_In, elem_of_map_to_list. by rewrite bool_decide_eq_true.
Qed.

(** A change of the streams that keeps every identity connected. *)
Lemma connected_mono s s' fid :
  (forall ptr st, streams s !! ptr = Some st -> exists st', streams s' !! ptr = Some st' /\ id st' = id st) ->
  connectedLocked fid s = true -> connectedLocked fid s' = true.
Proof. rewrite !connectedLocked_spec. naive_solver. Qed.

Lemma Ack_streams request s : streams (Ack request s).2 = streams s.
Proof. unfold Ack. by repeat case_match. Qed.

Lemma Ack_acks_dom request s fid :
  is_Some (acks (Ack request s).2 !! fid) ->
  is_Some (acks s !! fid) \/ connectedLocked fid s = true.
Proof.
  unfold Ack. destruct (_ || _ || _); [tauto|].
  destruct (connectedLocked (GetAckForwarderId request) s) eqn:Hc; simpl; [|tauto].
  set (f := GetAckForwarderId request) in *.
  set (acks1 := match acks s !! f with None => _ | Some _ => _ end).
  assert (is_Some (acks1 !! fid) -> is_Some (acks s !! fid) \/ connectedLocked fid s = true) as H1.
  { unfold acks1. case_match; [tauto|]. rewrite lookup_insert. case_decide; [by subst; right|tauto]. }
  case_bool_decide; simpl; [by rewrite lookup_alter_is_Some|done].
Qed.

Lemma removeStream_acks_connected ptr st s :
  streams s !! ptr = Some st ->
  (forall fid, is_Some (acks s !! fid) -> connectedLocked fid s = true) ->
  forall fid, is_Some (acks (removeStream ptr (id st) s) !! fid) ->
         connectedLocked fid (removeStream ptr (id st) s) = true.
Proof.
  intros Hst Hinv fid. unfold removeStream.
  set (s1 := mkServer (delete ptr (streams s)) (acks s) (legacyForwarderSeq s)).
  destruct (connectedLocked (id st) s1) eqn:Hc; simpl; intros Hack.
  - apply Hinv, connectedLocked_spec in Hack as (ptr' & st' & Hst' & <-).
    destruct (decide (ptr = ptr')) as [->|Hne]; [by simplify_eq|].
    apply connectedLocked_spec. exists ptr', st'. simpl. by rewrite lookup_delete_ne.
  - rewrite lookup_delete in Hack. case_decide as Hne; [by destruct Hack|].
    apply Hinv, connectedLocked_spec in Hack as (ptr' & st' & Hst' & <-).
    destruct (decide (ptr = ptr')) as [->|Hne']; [by simplify_eq|].
    apply connectedLocked_spec. exists ptr', st'. simpl. by rewrite lookup_delete_ne.
Qed.

Lemma removeStream_streams ptr sid s : streams (removeStream ptr sid s) = delete ptr (streams s).
Proof. unfold removeStream. by case_match. Qed.

Lemma drop_stream_inv ptr st x :
  streams (srv x) !! ptr = Some st -> server_inv x -> server_inv (drop_stream ptr st x).
Proof.
  intros Hst [Hs Ha]. split.
  - simpl. rewrite removeStream_streams. intros ptr' st' Hst'.
    apply lookup_delete_Some in Hst' as [_ Hst']. by apply Hs.
  - by apply removeStream_acks_connected.
Qed.

Lemma stream_inv_init sid : stream_inv (mkStream sid [] false) [] [].
Proof. split; simpl; [unfold updates_capacity; lia|by left|constructor|done]. Qed.

Lemma stream_inv_sync st p : stream_inv st [] p -> stream_inv st [sync_update] p.
Proof. intros []. split; simpl in *; auto. Qed.

Lemma stream_inv_send st u q d p :
  updates st = u :: q -> d <> [] -> stream_inv st d p ->
  stream_inv (mkStream (id st) q (overflow st)) (d ++ [u]) p.
Proof.
  intros Hq Hd [Hcap Hsync Hord Hcomp]. rewrite Hq in *. destruct d as [|x d]; [done|]. simpl in *.
  assert ((d ++ [u]) ++ q = d ++ u :: q) as E by by rewrite <- app_assoc.
  split; simpl; rewrite ?E; auto; [lia|]. right. by destruct Hsync.
Qed.

Lemma stream_inv_offer st u d p : stream_inv st d p -> stream_inv (offer u st) d (p ++ [u]).
Proof.
  intros [Hcap Hsync Hord Hcomp]. unfold offer. case_bool_decide; split; simpl; auto.
  - rewrite length_app. simpl. lia.
  - rewrite app_assoc. by apply sublist_app.
  - intros Ho. by rewrite app_assoc, Hcomp.
  - by apply sublist_inserts_r.
  - done.
Qed.

#[export] Hint Resolve stream_inv_init stream_inv_sync stream_inv_offer : golib.

Lemma open_stream_inv ptr request x :
  delivered x !! ptr = None -> server_inv x -> server_inv (open_stream ptr request x).
Proof.
  intros Hd [Hs Ha]. unfold open_stream.
  assert (streams (streamID (GetStreamForwarderId request) (srv x)).2 = streams (srv x) /\
          acks (streamID (GetStreamForwarderId request) (srv x)).2 = acks (srv x)) as [Est Eac]
    by (unfold streamID; by case_match).
  destruct (streamID _ _) as [sid s]; simpl in *. split; simpl.
  - rewrite Est. intros ptr' st'. rewrite !lookup_insert. case_decide as Hp.
    + intros [= <-]. eauto with golib.
    + apply Hs.
  - intros fid. rewrite Eac. intros Hack. eapply connected_mono; [|by apply Ha].
    simpl. rewrite Est. intros ptr' st' Hst'. exists st'. rewrite lookup_insert_ne; [done|].
    intros <-. destruct (Hs _ _ Hst') as (d & p & Hd' & _). congruence.
Qed.

Lemma notify_inv update x : server_inv x -> server_inv (notify update x).
Proof.
  intros [Hs Ha]. destruct update as [u|]; [|by split]. split; simpl.
  - intros ptr st'. rewrite lookup_fmap, map_lookup_imap. intros Hst'.
    destruct (streams (srv x) !! ptr) as [st|] eqn:Hst; simplify_eq/=.
    destruct (Hs _ _ Hst) as (d & p & -> & -> & Hinv). simpl.
    exists d, (p ++ [u]). auto with golib.
  - intros fid Hack. eapply connected_mono; [|by apply Ha].
    simpl. intros ptr st Hst. exists (offer u st). rewrite lookup_fmap, Hst. split; [done|].
    unfold offer. by case_match.
Qed.

(** Replacing a stream by one with the same identity. *)
Lemma set_stream_inv ptr st st' d d' x :
  streams (srv x) !! ptr = Some st -> id st' = id st -> delivered x !! ptr = Some d ->
  (forall p, stream_inv st d p -> stream_inv st' d' p) ->
  server_inv x -> server_inv (mkSys (set_stream ptr st' (srv x)) (<[ptr := d']> (delivered x)) (published x)).
Proof.
  intros Hst Hid Hd Hstep [Hs Ha]. split; simpl.
  - intros ptr' st1. rewrite !lookup_insert. case_decide as Hp; [subst|by apply Hs].
    intros [= <-]. destruct (Hs _ _ Hst) as (d1 & p & Hd1 & Hp & Hinv).
    simplify_eq. exists d', p. auto.
  - intros fid Hack. eapply connected_mono; [|by apply Ha].
    simpl. intros ptr' st1 Hst1. rewrite lookup_insert. case_decide; naive_solver.
Qed.

Lemma server_step_inv x x' : server_step x x' -> server_inv x -> server_inv x'.
Proof.
  destruct 1 as [ptr rq Hd|ptr st Hst Hd|ptr st Hst _|ptr st u q d Hst Hq Hd Hne|ptr st u q d Hst
                |ptr st d Hst|ptr st d Hst|u|rq]; intros Hinv;
    [by apply open_stream_inv| |by apply drop_stream_inv| |by apply drop_stream_inv
    |by apply drop_stream_inv|by apply drop_stream_inv|by apply notify_inv|].
  - replace (srv x) with (set_stream ptr st (srv x)) at 1.
    + eapply set_stream_inv; eauto with golib.
    + unfold set_stream. rewrite insert_id by done. by destruct (srv x).
  - eapply set_stream_inv; eauto using stream_inv_send.
  - destruct Hinv as [Hs Ha]. split; simpl; [by rewrite Ack_streams|].
    intros fid Hack. apply Ack_acks_dom in Hack.
    eapply (connected_mono (srv x)); [rewrite Ack_streams; eauto|].
    destruct Hack; auto.
Qed.

Lemma server_reachable_inv x : server_reachable x -> server_inv x.
Proof.
  apply (rtc_ind_r server_inv); [|by eauto using server_step_inv].
  split; simpl; [by intros ptr st; rewrite lookup_empty|intros fid; rewrite lookup_empty; by intros []].
Qed.

(** ** Properties *)

(** C7: no update is silently lost.  In every reachable state of the server, on
    every registered stream: what was sent after SYNC followed by what is queued
    is a subsequence, in order, of the updates published since the stream was
    registered; it is all of them unless the overflow signal (which ends the
    stream with ResourceExhausted) is up; the queue holds at most 64 updates; and
    the first message sent is SYNC. *)
Theorem no_update_silently_lost x ptr st :
  server_reachable x -> streams (srv x) !! ptr = Some st ->
  exists d p, delivered x !! ptr = Some d /\ published x !! ptr = Some p /\
    sublist (tail d ++ updates st) p /\
    (overflow st = false -> tail d ++ updates st = p) /\
    (length (updates st) <= 64)%nat /\ (d = [] \/ head d = Some sync_update).
Proof.
  intros Hx Hst. destruct (sinv_streams x (server_reachable_inv x Hx) ptr st Hst) as (d & p & Hd & Hp & []).
  exists d, p. auto 10.
Qed.

(** C26: an acknowledgement counts only while its forwarder is connected: in
    every reachable state a forwarder without a stream has no recorded
    acknowledgement, so after it reconnects every tunnel with a positive
    revision waits for it again. *)
Theorem disconnected_forwarder_has_no_acks x fid :
  server_reachable x -> connectedLocked fid (srv x) = false ->
  (forall key, acked (srv x) fid key = 0) /\
  (forall ptr ns name rev, delivered x !! ptr = None -> fid <> "" -> 0 < rev ->
    fid ∈ MissingAcks ns name rev
            (srv (open_stream ptr (Some (mkStreamUpdatesRequest (Some fid))) x))).
Proof.
  intros Hx Hc. pose proof (sinv_acks x (server_reachable_inv x Hx) fid) as Hack.
  assert (acks (srv x) !! fid = None) as Hnone.
  { destruct (acks (srv x) !! fid) eqn:E; [|done]. rewrite Hack in Hc by eauto. done. }
  split; [intros key; unfold acked; by rewrite Hnone|].
  intros ptr ns name rev _ Hfid Hrev. unfold open_stream, streamID, GetStreamForwarderId, getter. simpl.
  rewrite bool_decide_true by done. unfold MissingAcks. rewrite list_elem_of_filter. split.
  - unfold acked. simpl. rewrite Hnone. simpl. lia.
  - apply elem_of_elements. unfold connected_ids. simpl. rewrite elem_of_list_to_set, list_elem_of_fmap.
    exists (ptr, mkStream fid [] false). split; [done|]. apply elem_of_map_to_list, lookup_insert_eq.
Qed.

Lemma elem_of_connected_ids fid s : fid ∈ connected_ids s <-> connectedLocked fid s = true.
Proof.
  unfold connected_ids. rewrite elem_of_list_to_set, list_elem_of_fmap, connectedLocked_spec.
  split; [intros ([ptr st] & -> & Hin)|intros (ptr & st & Hst & <-)].
  - apply elem_of_map_to_list in Hin. eauto.
  - exists (ptr, st). by rewrite elem_of_map_to_list.
Qed.

Lemma elem_of_MissingAcks fid ns name rev s :
  fid ∈ MissingAcks ns name rev s <->
  connectedLocked fid s = true /\ acked s fid (tunnelKey ns name) < rev.
Proof.
  unfold MissingAcks. rewrite list_elem_of_filter, elem_of_elements, elem_of_connected_ids. tauto.
Qed.

(** C37: [MissingAcks] lists, without repetition, exactly the connected
    forwarders whose recorded revision for the tunnel is below the asked one; it
    is empty exactly when every forwarder connected now has acknowledged at
    least that revision. *)
Theorem MissingAcks_correct ns name rev s :
  NoDup (MissingAcks ns name rev s) /\
  (forall fid, fid ∈ MissingAcks ns name rev s <->
     connectedLocked fid s = true /\ acked s fid (tunnelKey ns name) < rev) /\
  (MissingAcks ns name rev s = [] <->
     forall ptr st, streams s !! ptr = Some st -> rev <= acked s (id st) (tunnelKey ns name)).
Proof.
  split; [apply NoDup_filter, NoDup_elements|]. split; [intros; apply elem_of_MissingAcks|]. split.
  - intros Hnil ptr st Hst. destruct (decide (rev <= acked s (id st) (tunnelKey ns name))); [done|].
    assert (id st ∈ MissingAcks ns name rev s) as Hin.
    { apply elem_of_MissingAcks. split; [apply connectedLocked_spec; eauto|lia]. }
    rewrite Hnil in Hin. by apply elem_of_nil in Hin.
  - intros Hall. destruct (MissingAcks ns name rev s) as [|fid l] eqn:E; [done|].
    assert (fid ∈ MissingAcks ns name rev s) as Hin by (rewrite E; left).
    apply elem_of_MissingAcks in Hin as [Hc Hlt].
    apply connectedLocked_spec in Hc as (ptr & st & Hst & <-). specialize (Hall _ _ Hst). lia.
Qed.

(** The map [Ack] looks revisions up in: an entry exists for the forwarder. *)
Lemma acked_init_entry s fid fid' key :
  acked (mkServer (streams s) (match acks s !! fid with None => <[fid := ∅]> (acks s) | Some _ => acks s end)
           (legacyForwarderSeq s)) fid' key = acked s fid' key.
Proof.
  unfold acked. simpl. destruct (acks s !! fid) eqn:E; [done|].
  rewrite lookup_insert. case_decide; [subst; by rewrite E|done].
Qed.

Lemma acked_alter s fid key v fid' key' m :
  acks s !! fid = Some m ->
  acked (mkServer (streams s) (alter (fun m => <[key := v]> m) fid (acks s)) (legacyForwarderSeq s)) fid' key' =
  if bool_decide (fid' = fid /\ key' = key) then v else acked s fid' key'.
Proof.
  intros Hm. unfold acked. simpl. destruct (decide (fid' = fid)) as [->|Hne].
  - rewrite lookup_alter_eq, Hm. simpl. rewrite lookup_insert.
    case_decide; case_bool_decide; naive_solver.
  - rewrite lookup_alter_ne by done. by rewrite bool_decide_false by tauto.
Qed.

(** The three outcomes of [Ack]. *)
Lemma Ack_spec request s :
  let fid := GetAckForwarderId request in
  let key := tunnelKey (GetAckTunnelNamespace request) (GetAckTunnelName request) in
  ((fid = "" \/ GetAckTunnelName request = "" \/ GetAckTunnelNamespace request = "") ->
     exists msg, Ack request s = (Fail (ErrStatus InvalidArgument msg), s)) /\
  (fid <> "" -> GetAckTunnelName request <> "" -> GetAckTunnelNamespace request <> "" ->
     (connectedLocked fid s = false ->
        exists msg, Ack request s = (Fail (ErrStatus FailedPrecondition msg), s)) /\
     (connectedLocked fid s = true ->
        (Ack request s).1 = Ok tt /\ streams (Ack request s).2 = streams s /\
        forall fid' key', acked (Ack request s).2 fid' key' =
          if bool_decide (fid' = fid /\ key' = key) then Z.max (acked s fid key) (GetAckRevision request)
          else acked s fid' key')).
Proof.
  intros fid key. unfold Ack. fold fid key. split.
  - intros Hbad. repeat case_bool_decide; simpl; first [by eexists|tauto].
  - intros H1 H2 H3. rewrite !bool_decide_false by done. simpl.
    split; intros ->; simpl; [eexists; done|]. rewrite acked_init_entry.
    set (acks1 := match acks s !! fid with None => _ | Some _ => _ end).
    assert (exists m, acks1 !! fid = Some m) as [m Hm].
    { unfold acks1. destruct (acks s !! fid) eqn:E; [eauto|]. rewrite lookup_insert_eq. eauto. }
    set (s1 := mkServer (streams s) acks1 (legacyForwarderSeq s)).
    assert (forall f k, acked s1 f k = acked s f k) as E1 by (intros; apply acked_init_entry).
    case_bool_decide as Hrev; simpl; (split; [done|]; split; [done|]); intros f k.
    + change (acked (mkServer (streams s1) (alter (fun m => <[key := GetAckRevision request]> m) fid (acks s1))
                       (legacyForwarderSeq s1)) f k = if bool_decide (f = fid /\ k = key)
                       then Z.max (acked s fid key) (GetAckRevision request) else acked s f k).
      rewrite (acked_alter s1 _ _ _ _ _ m Hm), E1. case_bool_decide; [lia|done].
    + rewrite E1. case_bool_decide; [|done]. destruct_and?; subst. lia.
Qed.

(** C24: [Ack] refuses an incomplete request and one from a forwarder that is
    not connected, without any effect; an accepted one raises the forwarder's
    recorded revision of that tunnel to the acknowledged one if it is higher,
    and changes no other record. *)
Theorem Ack_correct request s :
  let fid := GetAckForwarderId request in
  let key := tunnelKey (GetAckTunnelNamespace request) (GetAckTunnelName request) in
  ((fid = "" \/ GetAckTunnelName request = "" \/ GetAckTunnelNamespace request = "") ->
     exists msg, Ack request s = (Fail (ErrStatus InvalidArgument msg), s)) /\
  (fid <> "" -> GetAckTunnelName request <> "" -> GetAckTunnelNamespace request <> "" ->
     (connectedLocked fid s = false ->
        exists msg, Ack request s = (Fail (ErrStatus FailedPrecondition msg), s)) /\
     (connectedLocked fid s = true ->
        (Ack request s).1 = Ok tt /\ streams (Ack request s).2 = streams s /\
        forall fid' key', acked (Ack request s).2 fid' key' =
          if bool_decide (fid' = fid /\ key' = key) then Z.max (acked s fid key) (GetAckRevision request)
          else acked s fid' key')).
Proof. apply Ack_spec. Qed.

(** The identities [streamID] gives to forwarders that send none. *)
Fixpoint legacy_ids (n : nat) (s : ForwarderServer) : list string :=
  match n with
  | O => []
  | S n => let '(fid, s') := streamID "" s in fid :: legacy_ids n s'
  end.

Lemma legacy_ids_lookup n s i fid :
  0 <= legacyForwarderSeq s -> legacyForwarderSeq s + Z.of_nat n < 2 ^ 64 ->
  legacy_ids n s !! i = Some fid -> fid = "legacy-" +:+ Itoa (legacyForwarderSeq s + Z.of_nat i + 1).
Proof.
  revert s i. induction n as [|n IH]; intros s i H0 Hn; simpl; [done|].
  rewrite Z.mod_small by lia. destruct i as [|i]; simpl.
  - intros [= <-]. do 2 f_equal. lia.
  - intros Hi. apply IH in Hi; simpl in *; [|lia..]. rewrite Hi. do 2 f_equal. lia.
Qed.

(** A forwarder that sends an identity keeps it; the ones that send none
    get pairwise different identities for the first 2^64 of them. *)
Theorem stream_identities n :
  Z.of_nat n < 2 ^ 64 ->
  (forall fid s, fid <> "" -> streamID fid s = (fid, s)) /\ NoDup (legacy_ids n NewForwarderServer).
Proof.
  intros Hn. split; [intros fid s Hfid; unfold streamID; by rewrite bool_decide_true|].
  apply NoDup_alt. intros i j fid Hi Hj.
  apply legacy_ids_lookup in Hi, Hj; simpl in *; [|lia..]. rewrite Hi in Hj.
  apply (inj (String.append _)), (inj Itoa) in Hj. lia.
Qed.

(** *** Snapshots *)

Section get_config_properties.
Context {W : Type} `{KubeClient W} `{ControllerUtil} {R : Type} `{RandSource R}.

(** The mapping of a tunnel whose gateway has an address. *)
Definition mapping_of (t : Tunnel) : TunnelMapping :=
  mkTunnelMapping (Some (Name t)) (Some (Namespace t)) (Some (ForwarderPort (Status t)))
    (Some (JoinHostPort (GatewayPodIP (Status t)) (Itoa gatewayPort)))
    (Some (MappingRevision (Status t))) (Some (GatewayPodUID (Status t))) (Some (GatewayPodIP (Status t))).

Definition recorded_port (t : Tunnel) : string * Z :=
  (tunnelKey (Namespace t) (Name t), ForwarderPort (Status t)).

Lemma in_snapshot_addr t : in_snapshot t = true -> GatewayPodIP (Status t) <> "".
Proof. unfold in_snapshot. rewrite negb_true_iff, !orb_false_iff, !bool_decide_eq_false. tauto. Qed.

Lemma tunnelMapping_eq t w :
  GatewayPodIP (Status t) <> "" -> tunnelMapping t w = (Ok (mapping_of t), w).
Proof.
  intros Hip. unfold tunnelMapping. rewrite !(bool_decide_false (GatewayPodIP _ = "")) by done.
  by rewrite andb_false_r.
Qed.

Lemma load_all_option (l : list (string * Z)) k p (o : option (PortAllocator R)) :
  load_all l <$> (LoadExisting k p <$> o) = load_all ((k, p) :: l) <$> o.
Proof. by destruct o. Qed.

Lemma config_loop_eq items acc (s : W * option (PortAllocator R)) :
  config_loop items acc s =
    (Ok (acc ++ (Some ∘ mapping_of <$> filter (fun t => in_snapshot t = true) items)),
     (s.1, load_all (recorded_port <$> filter (fun t => in_snapshot t = true) items) <$> s.2)).
Proof.
  revert acc s. induction items as [|t items IH]; intros acc [w o]; simpl.
  { rewrite app_nil_r. by destruct o. }
  destruct (in_snapshot t) eqn:Ht; simpl.
  - unfold mbind, ST_bind, modify, on_cluster. simpl.
    rewrite tunnelMapping_eq by by apply in_snapshot_addr. simpl.
    rewrite IH, filter_cons_True by done. simpl. rewrite <- app_assoc. simpl.
    by rewrite load_all_option.
  - rewrite IH, filter_cons_False by congruence. done.
Qed.

(** The address a snapshot advertises: the first one of the forwarder service that is
    not empty. *)
Definition advertised_vip (svc : ObjectKey) (w : W) : option string :=
  if bool_decide (key_Name svc = "") then None
  else match (kube_get_service svc w).1 with
       | Ok service => head (filter (fun ip => ip <> "") (svc_IngressIPs service))
       | Fail _ => None
       end.

Lemma first_ip_filter ips : first_ip ips = head (filter (fun ip => ip <> "") ips).
Proof.
  induction ips as [|ip ips IH]; simpl; [done|]. case_bool_decide as Hip; [by rewrite filter_cons_True|].
  rewrite filter_cons_False; [exact IH|by intros []].
Qed.

Lemma first_ip_nonempty ips : first_ip ips <> Some "".
Proof. induction ips as [|ip ips IH]; simpl; [done|]. case_bool_decide; [|done]. congruence. Qed.

(** The tunnels forwarders should serve. *)
Definition servable (t : Tunnel) : Prop :=
  DeletionTimestamp t = None /\ Phase (Status t) <> "Terminated" /\ Phase (Status t) <> "Failed" /\
  0 < ForwarderPort (Status t) /\ GatewayPodIP (Status t) <> "" /\ GatewayPublicKey (Status t) <> "".

#[export] Instance servable_dec t : Decision (servable t) := ltac:(unfold servable; apply _).

Lemma in_snapshot_servable t : in_snapshot t = true <-> servable t.
Proof.
  unfold in_snapshot, servable. rewrite negb_true_iff, !orb_false_iff, !bool_decide_eq_false, <- eq_None_not_Some.
  unfold TunnelPhaseTerminated, TunnelPhaseFailed. rewrite Z.nle_gt. tauto.
Qed.

(** What [GetConfig] computes. *)
Lemma GetConfig_result svc w (o : option (PortAllocator R)) :
  match kube_list_tunnels w with
  | (Fail e, w') => GetConfig svc (w, o) = (Fail (ErrWrap "listing tunnels" e), (w', o))
  | (Ok items, w') =>
      let ready := filter (fun t => in_snapshot t = true) items in
      GetConfig svc (w, o) =
        (Ok (mkForwarderConfig (advertised_vip svc w') (Some ∘ mapping_of <$> ready)),
         ((resolveVIP svc w').2, load_all (recorded_port <$> ready) <$> o))
  end.
Proof.
  unfold GetConfig, wrap_err, mbind, ST_bind, on_cluster. simpl.
  destruct (kube_list_tunnels w) as [[items|e] w']; [|done].
  rewrite config_loop_eq. simpl. unfold resolveVIP, advertised_vip.
  case_bool_decide; simpl; [done|]. unfold mbind, ST_bind, try.
  destruct (kube_get_service svc w') as [[service|e] w'']; simpl; [|done].
  rewrite <- first_ip_filter. pose proof (first_ip_nonempty (svc_IngressIPs service)) as Hne.
  destruct (first_ip (svc_IngressIPs service)) as [ip|]; simpl; [|done].
  by rewrite bool_decide_true by congruence.
Qed.

(** C25: a snapshot lists, in the order the API server lists the tunnels, the
    mapping of exactly the servable tunnels: those that are not being deleted, are in
    neither the Terminated nor the Failed phase, and have a positive port, a gateway
    address and a verified gateway key.  Each mapping has the tunnel's name, namespace,
    port, revision, pod identity and pod address, and as gateway address the pod's
    address with port 51820.  The snapshot advertises the first non-empty address of the
    forwarder service if it can be read; building it fails only when listing the tunnels
    fails; and it loads exactly the ports of the listed tunnels into the allocator. *)
Theorem GetConfig_snapshot svc w (o : option (PortAllocator R)) :
  match kube_list_tunnels w with
  | (Fail e, w') => GetConfig svc (w, o) = (Fail (ErrWrap "listing tunnels" e), (w', o))
  | (Ok items, w') =>
      let ready := filter servable items in
      GetConfig svc (w, o) =
        (Ok (mkForwarderConfig (advertised_vip svc w')
               ((fun t => Some (mkTunnelMapping (Some (Name t)) (Some (Namespace t)) (Some (ForwarderPort (Status t)))
                   (Some (JoinHostPort (GatewayPodIP (Status t)) "51820"))
                   (Some (MappingRevision (Status t))) (Some (GatewayPodUID (Status t))) (Some (GatewayPodIP (Status t))))) <$> ready)),
         ((resolveVIP svc w').2,
          (fun a => foldl (fun a t => LoadExisting (Namespace t +:+ "/" +:+ Name t) (ForwarderPort (Status t)) a) a ready) <$> o))
  end.
Proof.
  pose proof (GetConfig_result svc w o) as Hres. destruct (kube_list_tunnels w) as [[items|e] w']; [|done].
  cbv zeta in *. rewrite Hres.
  rewrite (list_filter_iff (fun t => in_snapshot t = true) servable) by apply in_snapshot_servable.
  f_equal. f_equal. destruct o as [a|]; [|done]. simpl. f_equal.
  generalize (filter servable items). intros l. clear. revert a. induction l as [|t l IH]; intros a; [done|]. apply IH.
Qed.
End get_config_properties.

(** *** Witnesses *)

Definition demo_request : option StreamUpdatesRequest := Some (mkStreamUpdatesRequest (Some "forwarder-a")).
Definition demo_update : TunnelUpdate :=
  mkTunnelUpdate (Some ADDED)
    (Some (mkTunnelMapping (Some "db") (Some "team") (Some 51821) (Some "10.0.0.5:51820") (Some 2) None None)).
Definition demo_ack : option AckRequest := Some (mkAckRequest (Some "forwarder-a") (Some "db") (Some "team") (Some 2)).

(** A forwarder connects, gets SYNC, an update is published and sent, another
    one is queued, and the first is acknowledged. *)
Definition demo_sys1 : server_sys := open_stream 0 demo_request sys_init.
Definition demo_sys2 : server_sys := mkSys (srv demo_sys1) (<[0%nat := [sync_update]]> (delivered demo_sys1)) (published demo_sys1).
Definition demo_sys3 : server_sys := notify (Some demo_update) demo_sys2.
Definition demo_sys4 : server_sys :=
  mkSys (set_stream 0 (mkStream "forwarder-a" [] false) (srv demo_sys3))
    (<[0%nat := [sync_update; demo_update]]> (delivered demo_sys3)) (published demo_sys3).
Definition demo_sys5 : server_sys := notify (Some demo_update) demo_sys4.
Definition demo_sys6 : server_sys := mkSys (Ack demo_ack (srv demo_sys5)).2 (delivered demo_sys5) (published demo_sys5).
Definition demo_sys7 : server_sys := drop_stream 0 (mkStream "forwarder-a" [demo_update] false) demo_sys6.

Lemma demo_sys6_reachable : server_reachable demo_sys6.
Proof.
  unfold server_reachable.
  apply (rtc_l _ _ demo_sys1); [by apply step_open|].
  apply (rtc_l _ _ demo_sys2); [by eapply step_sync|].
  apply (rtc_l _ _ demo_sys3); [apply step_notify|].
  apply (rtc_l _ _ demo_sys4).
  { by eapply (step_send demo_sys3 0 (mkStream "forwarder-a" [demo_update] false) demo_update [] [sync_update]). }
  apply (rtc_l _ _ demo_sys5); [apply step_notify|].
  apply (rtc_l _ _ demo_sys6); [apply step_ack|]. done.
Qed.

Lemma demo_sys7_reachable : server_reachable demo_sys7.
Proof.
  eapply rtc_r; [apply demo_sys6_reachable|].
  by apply (step_context_done demo_sys6 0 (mkStream "forwarder-a" [demo_update] false) [sync_update; demo_update]).
Qed.

Lemma no_update_silently_lost_witness :
  streams (srv demo_sys6) !! 0%nat = Some (mkStream "forwarder-a" [demo_update] false) /\
  exists d p, delivered demo_sys6 !! 0%nat = Some d /\ published demo_sys6 !! 0%nat = Some p /\
    tail d ++ [demo_update] = p.
Proof.
  split; [reflexivity|].
  destruct (no_update_silently_lost demo_sys6 0 (mkStream "forwarder-a" [demo_update] false)
              demo_sys6_reachable eq_refl) as (d & p & Hd & Hp & _ & Hall & _).
  exists d, p. split; [exact Hd|]. split; [exact Hp|]. exact (Hall eq_refl).
Defined.

Lemma disconnected_forwarder_has_no_acks_witness :
  acked (srv demo_sys6) "forwarder-a" (tunnelKey "team" "db") = 2 /\
  "forwarder-a" ∈ MissingAcks "team" "db" 2 (srv (open_stream 1 demo_request demo_sys7)).
Proof.
  split; [vm_compute; reflexivity|].
  apply (disconnected_forwarder_has_no_acks demo_sys7 "forwarder-a" demo_sys7_reachable);
    [vm_compute; reflexivity|reflexivity|discriminate|lia].
Defined.

Lemma stream_identities_witness : NoDup (legacy_ids 3 NewForwarderServer).
Proof. apply (stream_identities 3). lia. Defined.

Lemma Ack_correct_witness :
  (Ack demo_ack (srv demo_sys5)).1 = Ok tt /\
  forall fid key, acked (Ack demo_ack (srv demo_sys5)).2 fid key =
    if bool_decide (fid = "forwarder-a" /\ key = "team/db") then 2 else acked (srv demo_sys5) fid key.
Proof.
  destruct (Ack_correct demo_ack (srv demo_sys5)) as [_ H].
  destruct H as [_ H]; [discriminate..|].
  destruct H as (H1 & _ & H2); [vm_compute; reflexivity|]. split; [exact H1|exact H2].
Defined.
