(* ===== verification/Session.v ===== *)
(** * UDP sessions (pkg/forwarder/session.go)

    Sessions and sockets are shared by pointer between the packet loop, the
    response goroutines and the cleanup, so they live in a store ([Heap]):
    [SessionMap] maps a client address to the pointer of its session, and a
    session holds the handle of its upstream socket.  Each method holds its lock
    throughout, so it is one function.  Times are in nanoseconds; the clock is
    an argument. *)

From S2P Require Import Prelude.

(** A UDP socket of the process: listening on a given local port, listening on a port
    the operating system chose, or connected to a gateway address. *)
Inductive ConnKind := Listening (port : Z) | ListeningAny | Dialed (addr : string).
Record Conn := mkConn { c_kind : ConnKind; c_open : bool }.

Record Session := mkSession {
  clientAddr : string;
  upstreamConn : nat;
  lastActivity : Z;
}.

(** [next] is a pointer and handle not used yet. *)
Record Heap := mkHeap {
  conns : gmap nat Conn;
  sess : gmap nat Session;
  next : nat;
}.

Abbreviation SessionMap := (gmap string nat) (only parsing).

Definition NewSessionMap : SessionMap := ∅.

(** [conn.Close()]; closing twice is an error the callers ignore. *)
Definition close_conn (h : nat) (hp : Heap) : Heap :=
  mkHeap (alter (fun c => mkConn (c_kind c) false) h (conns hp)) (sess hp) (next hp).

Definition conn_open (h : nat) (hp : Heap) : bool :=
  match conns hp !! h with Some c => c_open c | None => false end.

Definition Get (key : string) (m : SessionMap) : option nat := m !! key.
Definition Set_ (key : string) (s : nat) (m : SessionMap) : SessionMap := <[key := s]> m.
Definition Delete (key : string) (m : SessionMap) : SessionMap := delete key m.

Definition NewSession (clientAddr : string) (upstreamConn : nat) (now : Z) (hp : Heap) : nat * Heap :=
  (next hp, mkHeap (conns hp) (<[next hp := mkSession clientAddr upstreamConn now]> (sess hp)) (S (next hp))).

Definition Touch (ptr : nat) (now : Z) (hp : Heap) : Heap :=
  mkHeap (conns hp) (alter (fun s => mkSession (clientAddr s) (upstreamConn s) now) ptr (sess hp)) (next hp).

Definition LastActivity (ptr : nat) (hp : Heap) : option Z := lastActivity <$> sess hp !! ptr.

(** [session.upstreamConn.Close()] *)
Definition close_session (ptr : nat) (hp : Heap) : Heap :=
  match sess hp !! ptr with Some s => close_conn (upstreamConn s) hp | None => hp end.

(** [session.LastActivity().After(cutoff)] *)
Definition active_after (cutoff : Z) (hp : Heap) (ptr : nat) : bool :=
  match LastActivity ptr hp with Some t => bool_decide (t > cutoff) | None => false end.

(** The body of the cleanup loop for one entry. *)
Definition cleanup_entry (cutoff : Z) (e : string * nat) (st : SessionMap * Heap) : SessionMap * Heap :=
  if active_after cutoff st.2 e.2 then st
  else (delete e.1 st.1, close_session e.2 st.2).

(** The loops range over the map's entries; [entries] is the order taken. *)
Definition cleanup_loop (cutoff : Z) (entries : list (string * nat)) (st : SessionMap * Heap) : SessionMap * Heap :=
  fold_left (fun st e => cleanup_entry cutoff e st) entries st.

Definition CleanupIdle (timeout now : Z) (m : SessionMap) (hp : Heap) : SessionMap * Heap :=
  let cutoff := now - timeout in
  cleanup_loop cutoff (map_to_list m) (m, hp).

Definition close_loop (entries : list (string * nat)) (st : SessionMap * Heap) : SessionMap * Heap :=
  fold_left (fun st e => (delete e.1 st.1, close_session e.2 st.2)) entries st.

Definition CloseAll (m : SessionMap) (hp : Heap) : SessionMap * Heap :=
  close_loop (map_to_list m) (m, hp).

(** ** Lemmas *)

Lemma close_conn_sess h hp : sess (close_conn h hp) = sess hp.
Proof. done. Qed.

Lemma close_session_sess ptr hp : sess (close_session ptr hp) = sess hp.
Proof. unfold close_session. by case_match. Qed.

Lemma close_session_next ptr hp : next (close_session ptr hp) = next hp.
Proof. unfold close_session. by case_match. Qed.

Lemma close_conn_lookup h h' hp :
  conns (close_conn h hp) !! h' =
    if bool_decide (h = h') then (fun c => mkConn (c_kind c) false) <$> conns hp !! h' else conns hp !! h'.
Proof. simpl. rewrite lookup_alter. case_decide; case_bool_decide; by subst. Qed.

(** Whether the socket [h] is the upstream socket of the session at [ptr]. *)
Definition owns (hp : Heap) (ptr h : nat) : Prop :=
  exists s, sess hp !! ptr = Some s /\ upstreamConn s = h.

#[export] Instance owns_dec hp ptr h : Decision (owns hp ptr h).
Proof.
  destruct (sess hp !! ptr) as [s|] eqn:E.
  - destruct (decide (upstreamConn s = h)); [left; by exists s|right; intros (s' & ? & ?); congruence].
  - right. intros (s' & ? & ?). congruence.
Defined.

Lemma conn_open_close_session ptr h hp :
  conn_open h (close_session ptr hp) = conn_open h hp && negb (bool_decide (owns hp ptr h)).
Proof.
  unfold close_session. destruct (sess hp !! ptr) as [s|] eqn:E.
  - unfold conn_open. rewrite close_conn_lookup. repeat case_bool_decide; subst; simpl.
    + destruct (conns hp !! upstreamConn s); simpl; by rewrite ?andb_false_r.
    + by destruct H0; exists s.
    + destruct H0 as (s' & ? & ?). congruence.
    + by rewrite andb_true_r.
  - rewrite bool_decide_false, andb_true_r; [done|]. intros (s' & ? & ?). congruence.
Qed.

Lemma cleanup_loop_cons cutoff e l st :
  cleanup_loop cutoff (e :: l) st = cleanup_loop cutoff l (cleanup_entry cutoff e st).
Proof. done. Qed.

(** Closing sessions changes no session record. *)
Lemma cleanup_loop_sess cutoff l st : sess (cleanup_loop cutoff l st).2 = sess st.2.
Proof.
  revert st. induction l as [|e l IH]; intros [m hp]; [done|]. rewrite cleanup_loop_cons, IH.
  unfold cleanup_entry. case_match; [done|]. apply close_session_sess.
Qed.

Lemma active_after_sess cutoff hp hp' ptr :
  sess hp = sess hp' -> active_after cutoff hp ptr = active_after cutoff hp' ptr.
Proof. intros E. unfold active_after, LastActivity. by rewrite E. Qed.

Lemma owns_sess hp hp' ptr h : sess hp = sess hp' -> owns hp ptr h <-> owns hp' ptr h.
Proof. intros E. unfold owns. by rewrite E. Qed.

Lemma cleanup_loop_map cutoff l m hp key ptr :
  (cleanup_loop cutoff l (m, hp)).1 !! key = Some ptr <->
  m !! key = Some ptr /\ (forall p, (key, p) ∈ l -> active_after cutoff hp p = true).
Proof.
  revert m hp. induction l as [|[k p] l IH]; intros m hp.
  { simpl. split; [|tauto]. intros Hm. split; [done|]. intros p Hp. by apply elem_of_nil in Hp. }
  rewrite cleanup_loop_cons. unfold cleanup_entry. simpl.
  destruct (active_after cutoff hp p) eqn:Ha; rewrite IH.
  - setoid_rewrite elem_of_cons. naive_solver.
  - rewrite lookup_delete_Some.
    setoid_rewrite (active_after_sess cutoff _ hp); [|apply close_session_sess].
    setoid_rewrite elem_of_cons. split; [|naive_solver congruence].
    intros [[Hne Hm] Hall]. split; [done|]. intros q [?|?]; [congruence|auto].
Qed.

Lemma cleanup_loop_conns cutoff l m hp h :
  conn_open h (cleanup_loop cutoff l (m, hp)).2 = true <->
  conn_open h hp = true /\ (forall k p, (k, p) ∈ l -> owns hp p h -> active_after cutoff hp p = true).
Proof.
  revert m hp. induction l as [|[k p] l IH]; intros m hp.
  { simpl. split; [|tauto]. intros Ho. split; [done|]. intros ? ? Hp. by apply elem_of_nil in Hp. }
  rewrite cleanup_loop_cons. unfold cleanup_entry. simpl.
  destruct (active_after cutoff hp p) eqn:Ha; rewrite IH.
  - setoid_rewrite elem_of_cons. naive_solver.
  - setoid_rewrite (active_after_sess cutoff _ hp); [|apply close_session_sess].
    setoid_rewrite (owns_sess _ hp); [|apply close_session_sess].
    rewrite conn_open_close_session, andb_true_iff, negb_true_iff, bool_decide_eq_false.
    setoid_rewrite elem_of_cons. split; [|naive_solver congruence].
    intros [[Ho Hno] Hall]. split; [done|]. intros k' p' [?|?] Hown; [by simplify_eq|eauto].
Qed.

(** Closing everything is cleaning up with a cutoff no session survives. *)
Lemma close_loop_spec l m hp :
  (forall key, (forall p, (key, p) ∉ l) -> (close_loop l (m, hp)).1 !! key = m !! key) /\
  (forall key p, (key, p) ∈ l -> (close_loop l (m, hp)).1 !! key = None) /\
  (forall h, conn_open h (close_loop l (m, hp)).2 = true <->
        conn_open h hp = true /\ forall k p, (k, p) ∈ l -> ~ owns hp p h) /\
  sess (close_loop l (m, hp)).2 = sess hp.
Proof.
  revert m hp. induction l as [|[k p] l IH]; intros m hp.
  { split_and!; [done|by intros ? ? ?%elem_of_nil| |done].
    intros h. split; [|tauto]. intros Ho. split; [done|]. by intros ? ? ?%elem_of_nil. }
  change (close_loop ((k, p) :: l) (m, hp)) with (close_loop l (delete k m, close_session p hp)).
  destruct (IH (delete k m) (close_session p hp)) as (H1 & H2 & H3 & H4). split_and!.
  - intros key Hno. rewrite H1 by (intros q Hq; apply (Hno q); by right).
    rewrite lookup_delete_ne; [done|]. intros ->. apply (Hno p). by left.
  - intros key q Hin. destruct (decide (key ∈ l.*1)) as [Hk|Hno].
    + apply list_elem_of_fmap in Hk as ([key' q'] & -> & Hq'). by eapply H2.
    + assert (forall q', (key, q') ∉ l) as Hno'.
      { intros q' Hq'. apply Hno, list_elem_of_fmap. by exists (key, q'). }
      rewrite H1 by done. apply elem_of_cons in Hin as [Hin|Hin]; [|by destruct (Hno' q)].
      injection Hin as -> ->. apply lookup_delete_eq.
  - intros h. rewrite H3, conn_open_close_session, andb_true_iff, negb_true_iff, bool_decide_eq_false.
    setoid_rewrite (owns_sess _ hp); [|apply close_session_sess].
    setoid_rewrite elem_of_cons. split; [|naive_solver].
    intros [[Ho Hno] Hall]. split; [done|]. intros k' p' [?|?] Hown; [by simplify_eq|naive_solver].
  - by rewrite H4, close_session_sess.
Qed.

(** ** Properties *)

(** Idle at the cutoff: the last activity is not after it. *)
Lemma active_after_true cutoff hp ptr :
  active_after cutoff hp ptr = true <-> exists t, LastActivity ptr hp = Some t /\ cutoff < t.
Proof.
  unfold active_after. destruct (LastActivity ptr hp) as [t|]; [|naive_solver].
  rewrite bool_decide_eq_true. split; [intros; exists t; split; [done|lia]|].
  intros (t' & [= <-] & ?). lia.
Qed.

(** [CleanupIdle] removes from the map exactly the sessions with no activity
    within the timeout, closes the upstream sockets of exactly those, and leaves
    every other session, socket and timestamp as it was; a session touched
    within the timeout survives. *)
Theorem CleanupIdle_correct timeout now (m : gmap string nat) hp :
  let '(m', hp') := CleanupIdle timeout now m hp in
  (forall key ptr, m' !! key = Some ptr <->
     m !! key = Some ptr /\ exists t, LastActivity ptr hp = Some t /\ now - timeout < t) /\
  (forall h, conn_open h hp' = true <->
     conn_open h hp = true /\
     forall key ptr, m !! key = Some ptr -> owns hp ptr h ->
       exists t, LastActivity ptr hp = Some t /\ now - timeout < t) /\
  sess hp' = sess hp.
Proof.
  destruct (CleanupIdle timeout now m hp) as [m' hp'] eqn:E. unfold CleanupIdle in E.
  set (cutoff := now - timeout) in *. split_and!.
  - intros key ptr. change m' with (m', hp').1. rewrite <- E, cleanup_loop_map.
    setoid_rewrite elem_of_map_to_list. setoid_rewrite active_after_true.
    split; [naive_solver|]. intros [Hm Ht]. split; [done|]. intros p Hp. by simplify_eq.
  - intros h. change hp' with (m', hp').2. rewrite <- E, cleanup_loop_conns.
    setoid_rewrite elem_of_map_to_list. by setoid_rewrite active_after_true.
  - change hp' with (m', hp').2. by rewrite <- E, cleanup_loop_sess.
Qed.

Lemma CloseAll_empty (m : gmap string nat) hp : (CloseAll m hp).1 = ∅.
Proof.
  apply map_eq. intros key. rewrite lookup_empty. unfold CloseAll.
  destruct (close_loop_spec (map_to_list m) m hp) as (H1 & H2 & _ & _).
  destruct (m !! key) as [ptr|] eqn:E.
  - apply (H2 key ptr). by apply elem_of_map_to_list.
  - rewrite H1; [done|]. intros p Hp. apply elem_of_map_to_list in Hp. congruence.
Qed.

Lemma CloseAll_conns (m : gmap string nat) hp h :
  conn_open h (CloseAll m hp).2 = true <->
  conn_open h hp = true /\ forall key ptr, m !! key = Some ptr -> ~ owns hp ptr h.
Proof.
  destruct (close_loop_spec (map_to_list m) m hp) as (_ & _ & H3 & _).
  unfold CloseAll. rewrite H3. by setoid_rewrite elem_of_map_to_list.
Qed.

Lemma CloseAll_sess (m : gmap string nat) hp : sess (CloseAll m hp).2 = sess hp.
Proof. apply close_loop_spec. Qed.

(** Closing keeps the kind of every socket. *)
Definition kind_of (hp : Heap) (h : nat) : option ConnKind := c_kind <$> conns hp !! h.

Lemma kind_of_close_conn h h' hp : kind_of (close_conn h hp) h' = kind_of hp h'.
Proof. unfold kind_of. rewrite close_conn_lookup. case_bool_decide; [|done]. by destruct (conns hp !! h'). Qed.

Lemma conn_open_close_conn h h' hp : conn_open h' (close_conn h hp) = conn_open h' hp && negb (bool_decide (h = h')).
Proof.
  unfold conn_open. rewrite close_conn_lookup. case_bool_decide; simpl; [|by rewrite andb_true_r].
  destruct (conns hp !! h'); simpl; by rewrite ?andb_false_r.
Qed.

Lemma kind_of_close_session ptr h hp : kind_of (close_session ptr hp) h = kind_of hp h.
Proof. unfold close_session. case_match; [apply kind_of_close_conn|done]. Qed.

Lemma kind_of_CloseAll (m : gmap string nat) hp h : kind_of (CloseAll m hp).2 h = kind_of hp h.
Proof.
  unfold CloseAll. generalize (map_to_list m). intros l. revert m hp.
  induction l as [|[k p] l IH]; intros m hp; [done|]. simpl.
  unfold close_loop in IH. rewrite IH. apply kind_of_close_session.
Qed.

Lemma next_CloseAll (m : gmap string nat) hp : next (CloseAll m hp).2 = next hp.
Proof.
  unfold CloseAll. generalize (map_to_list m). intros l. revert m hp.
  induction l as [|[k p] l IH]; intros m hp; [done|]. simpl.
  unfold close_loop in IH. rewrite IH. apply close_session_next.
Qed.

(** The socket [net.ListenUDP] opens for [port]: with port 0 the system chooses one. *)
Definition listen_kind (port : Z) : ConnKind := if bool_decide (port = 0) then ListeningAny else Listening port.

Lemma listen_kind_inj port port' : listen_kind port = listen_kind port' -> port = port'.
Proof. unfold listen_kind. repeat case_bool_decide; congruence. Qed.

(** The socket [h] is open and was opened for [port]. *)
Definition listening (hp : Heap) (h : nat) (port : Z) : Prop :=
  kind_of hp h = Some (listen_kind port) /\ conn_open h hp = true.
