(* ===== verification/Proxy.v ===== *)
(** * The UDP reverse proxy's mapping table (pkg/forwarder/proxy.go)

    [UDPProxy] maps a forwarder port to the pointer of its [portListener].
    Listeners, sessions and sockets live in a store shared with the goroutines
    the proxy starts (modelled in DataPath.v).  [mappings] is protected by a
    lock that [addMapping] takes several times; each critical section is a
    definition of its own, and [addMapping] composes them for the one goroutine
    that applies updates.

    The operating system may refuse any [ListenUDP]: [os_refuses n] says whether
    it refuses the n-th call. *)

From S2P Require Import Prelude GoStd Proto Session.

Record portListener := mkListener {
  conn : nat;
  gateway : string;
  revision : Z;
  tunnelName : string;
  tunnelNamespace : string;
  sessions : gmap string nat;
  cancelled : bool;
}.

Record UDPProxy := mkProxy {
  mappings : gmap Z nat;
  listeners : gmap nat portListener;
  heap : Heap;
  idleTimeout : Z;
  vip : string;
  listen_calls : nat;
  (** listeners whose [servePort] and [cleanupIdleSessions] were started *)
  started : gset nat;
}.

Definition NewUDPProxy (idleTimeout : Z) : UDPProxy :=
  mkProxy ∅ ∅ (mkHeap ∅ ∅ 0) idleTimeout "" 0 ∅.

Definition set_mappings v p := mkProxy v (listeners p) (heap p) (idleTimeout p) (vip p) (listen_calls p) (started p).
Definition set_listeners v p := mkProxy (mappings p) v (heap p) (idleTimeout p) (vip p) (listen_calls p) (started p).
Definition set_heap v p := mkProxy (mappings p) (listeners p) v (idleTimeout p) (vip p) (listen_calls p) (started p).

Definition SetVIP (v : string) (p : UDPProxy) : UDPProxy :=
  mkProxy (mappings p) (listeners p) (heap p) (idleTimeout p) v (listen_calls p) (started p).

(** ** Removal *)

(** [pl.cancel(); pl.conn.Close(); pl.sessions.CloseAll()] *)
Definition shutdown_listener (ptr : nat) (p : UDPProxy) : UDPProxy :=
  match listeners p !! ptr with
  | None => p
  | Some pl =>
      let '(ss, hp) := CloseAll (sessions pl) (close_conn (conn pl) (heap p)) in
      set_listeners
        (<[ptr := mkListener (conn pl) (gateway pl) (revision pl) (tunnelName pl) (tunnelNamespace pl) ss true]>
           (listeners p))
        (set_heap hp p)
  end.

Definition RemoveMapping (port : Z) (p : UDPProxy) : UDPProxy :=
  match mappings p !! port with
  | None => p
  | Some ptr => shutdown_listener ptr (set_mappings (delete port (mappings p)) p)
  end.

Definition Ports (p : UDPProxy) : list Z := (map_to_list (mappings p)).*1.

Fixpoint remove_ports (ports : list Z) (p : UDPProxy) : UDPProxy :=
  match ports with [] => p | port :: ports => remove_ports ports (RemoveMapping port p) end.

Definition Close (p : UDPProxy) : UDPProxy := remove_ports (Ports p) p.

(** [Stop(ctx)]: [ctx_err] is [ctx.Err()]. *)
Definition Stop (ctx_err : option error) : ST UDPProxy unit := fun p =>
  match ctx_err with Some e => (Fail e, p) | None => (Ok tt, Close p) end.

(** ** Installing a mapping *)

Section install.
Context (os_refuses : nat -> bool).

(** Some open socket of the process listens on the port. *)
Definition port_bound (port : Z) (hp : Heap) : bool :=
  existsb (fun e => c_open e.2 && match c_kind e.2 with Listening q => bool_decide (q = port) | ListeningAny | Dialed _ => false end)
    (map_to_list (conns hp)).

Definition errAddrInUse : error := ErrNew "bind: address already in use".

(** [net.ListenUDP("udp4", &net.UDPAddr{Port: port})]: a number that is no port, or one
    that is in use, is refused, and for 0 the system chooses a port. *)
Definition ListenUDP (port : Z) : ST UDPProxy nat := fun p =>
  let p' := mkProxy (mappings p) (listeners p) (heap p) (idleTimeout p) (vip p) (S (listen_calls p)) (started p) in
  if os_refuses (listen_calls p) || bool_decide (port < 0) || bool_decide (65535 < port) ||
     (bool_decide (port <> 0) && port_bound port (heap p))
  then (Fail errAddrInUse, p')
  else
    let h := next (heap p) in
    (Ok h, set_heap (mkHeap (<[h := mkConn (listen_kind port) true]> (conns (heap p))) (sess (heap p)) (S h)) p').

(** The locked section that refreshes the revision of an unchanged mapping. *)
Definition refresh_revision (port : Z) (existing : nat) (rev : Z) (p : UDPProxy) : UDPProxy :=
  match mappings p !! port with
  | Some current =>
      if bool_decide (current = existing) then
        set_listeners
          (alter (fun pl => if bool_decide (revision pl < rev)
                            then mkListener (conn pl) (gateway pl) rev (tunnelName pl) (tunnelNamespace pl) (sessions pl) (cancelled pl)
                            else pl) current (listeners p)) p
      else p
  | None => p
  end.

(** The locked section that publishes a listener for a bound socket, and the
    start of its goroutines. *)
Definition publish_listener (port : Z) (gatewayAddr name namespace : string) (rev : Z) (conn : nat) :
    ST UDPProxy unit := fun p =>
  match mappings p !! port with
  | Some _ =>
      (Fail (ErrNew ("mapping already exists for port " +:+ Itoa port)), set_heap (close_conn conn (heap p)) p)
  | None =>
      let ptr := next (heap p) in
      let pl := mkListener conn gatewayAddr rev name namespace NewSessionMap false in
      (Ok tt, mkProxy (<[port := ptr]> (mappings p)) (<[ptr := pl]> (listeners p))
                (mkHeap (conns (heap p)) (sess (heap p)) (S ptr))
                (idleTimeout p) (vip p) (listen_calls p) ({[ptr]} ∪ started p))
  end.

(** From [net.ListenUDP] to the end of [addMapping]. *)
Definition install (port : Z) (gatewayAddr name namespace : string) (rev : Z) : ST UDPProxy unit :=
  conn ← wrap_err ("listen udp on port " +:+ Itoa port) (ListenUDP port);
  publish_listener port gatewayAddr name namespace rev conn.

Definition same_tunnel (pl : portListener) (name namespace : string) : bool :=
  bool_decide (tunnelName pl = name) && bool_decide (tunnelNamespace pl = namespace).

Definition addMapping (port : Z) (gatewayAddr name namespace : string) (rev : Z) : ST UDPProxy unit := fun p =>
  match mappings p !! port ≫= fun ptr => (fun pl => (ptr, pl)) <$> listeners p !! ptr with
  | None => install port gatewayAddr name namespace rev p
  | Some (ptr, pl) =>
      if same_tunnel pl name namespace && bool_decide (revision pl > rev) then (Ok tt, p)
      else if same_tunnel pl name namespace && bool_decide (gateway pl = gatewayAddr)
      then (Ok tt, refresh_revision port ptr rev p)
      else install port gatewayAddr name namespace rev (RemoveMapping port p)
  end.

Definition AddMapping (port : Z) (gatewayAddr name namespace : string) : ST UDPProxy unit :=
  addMapping port gatewayAddr name namespace 0.

Definition valid_mapping (mapping : option TunnelMapping) : bool :=
  bool_decide (is_Some mapping) && bool_decide (0 < GetForwarderPort mapping) &&
  bool_decide (GetGatewayAddress mapping <> "").

Definition ApplyMapping (mapping : option TunnelMapping) : ST UDPProxy unit :=
  if negb (valid_mapping mapping) then throw (ErrNew "invalid tunnel mapping")
  else addMapping (GetForwarderPort mapping) (GetGatewayAddress mapping) (GetTunnelName mapping)
         (GetTunnelNamespace mapping) (GetRevision mapping).

(** The first loop of [ReconcileMappings]; [desired] collects the ports. *)
Fixpoint apply_snapshot (ms : list (option TunnelMapping)) (desired : gset Z) : ST UDPProxy (gset Z) :=
  match ms with
  | [] => mret desired
  | mapping :: ms =>
      if negb (valid_mapping mapping) then apply_snapshot ms desired
      else
        wrap_err ("apply mapping for port " +:+ Itoa (GetForwarderPort mapping)) (ApplyMapping mapping) ;;
        apply_snapshot ms ({[GetForwarderPort mapping]} ∪ desired)
  end.

Definition ReconcileMappings (ms : list (option TunnelMapping)) : ST UDPProxy unit :=
  desired ← apply_snapshot ms ∅;
  modify (fun p => remove_ports (filter (fun port => port ∉ desired) (Ports p)) p).
End install.

(** ** Invariant *)

Record proxy_inv (p : UDPProxy) : Prop := {
  (** a mapped port has a live listener whose open socket is bound to it *)
  pi_live : forall port ptr, mappings p !! port = Some ptr ->
    exists pl, listeners p !! ptr = Some pl /\ cancelled pl = false /\ ptr ∈ started p /\
          listening (heap p) (conn pl) port;
  (** no socket is bound but for a mapping *)
  pi_bound : forall h port, listening (heap p) h port ->
    exists ptr pl, mappings p !! port = Some ptr /\ listeners p !! ptr = Some pl /\ conn pl = h;
  (** sessions own dialed sockets *)
  pi_sess : forall sp s port, sess (heap p) !! sp = Some s -> kind_of (heap p) (upstreamConn s) <> Some (listen_kind port);
  (** the next pointer is fresh *)
  pi_fresh : forall i, (next (heap p) <= i)%nat -> conns (heap p) !! i = None /\ listeners p !! i = None /\
    sess (heap p) !! i = None;
  (** sessions refer to allocated sockets *)
  pi_sess_conn : forall sp s, sess (heap p) !! sp = Some s -> (upstreamConn s < next (heap p))%nat;
}.

Lemma NewUDPProxy_inv t : proxy_inv (NewUDPProxy t).
Proof.
  split; simpl; try (intros *; by rewrite lookup_empty).
  unfold listening, kind_of. simpl. intros h port [Hk _]. by rewrite lookup_empty in Hk.
Qed.

Lemma port_bound_spec port hp : port <> 0 -> port_bound port hp = true <-> exists h, listening hp h port.
Proof.
  intros Hp. unfold port_bound, listening, listen_kind, kind_of, conn_open. rewrite existsb_exists, bool_decide_false by done. split.
  - intros ([h c] & Hin & Hc). apply list_elem_of_In, elem_of_map_to_list in Hin.
    exists h. rewrite Hin. simpl in *. apply andb_true_iff in Hc as [Ho Hk].
    destruct (c_kind c); [|done|done]. apply bool_decide_eq_true in Hk as ->. done.
  - intros (h & Hk & Ho). destruct (conns hp !! h) as [c|] eqn:E; simpl in *; [|done].
    exists (h, c). rewrite <- list_elem_of_In, elem_of_map_to_list. split; [done|]. simpl.
    rewrite Ho. injection Hk as ->. by rewrite bool_decide_true.
Qed.

(** Two ports never share a listener. *)
Lemma mappings_inj p port port' ptr :
  proxy_inv p -> mappings p !! port = Some ptr -> mappings p !! port' = Some ptr -> port = port'.
Proof.
  intros Hinv H1 H2. destruct (pi_live p Hinv _ _ H1) as (pl & Hpl & _ & _ & [Hk _]).
  destruct (pi_live p Hinv _ _ H2) as (pl' & Hpl' & _ & _ & [Hk' _]).
  apply listen_kind_inj. congruence.
Qed.

Lemma shutdown_mappings ptr p : mappings (shutdown_listener ptr p) = mappings p.
Proof. unfold shutdown_listener. repeat case_match; done. Qed.

(** The effect of shutting a listener down on sockets: its own is closed, no
    other listening socket is. *)
Lemma shutdown_listening ptr pl p h port :
  (forall sp s port, sess (heap p) !! sp = Some s -> kind_of (heap p) (upstreamConn s) <> Some (listen_kind port)) ->
  listeners p !! ptr = Some pl ->
  listening (heap (shutdown_listener ptr p)) h port <-> listening (heap p) h port /\ h <> conn pl.
Proof.
  intros Hsess Hpl. unfold shutdown_listener. rewrite Hpl.
  destruct (CloseAll _ _) as [ss hp] eqn:E. simpl. unfold listening.
  change hp with (ss, hp).2. rewrite <- E, kind_of_CloseAll, CloseAll_conns, kind_of_close_conn, conn_open_close_conn.
  rewrite andb_true_iff, negb_true_iff, bool_decide_eq_false. split; [naive_solver|].
  intros [[Hk Ho] Hne]. split; [done|]. split; [split; congruence|].
  intros key sp _ (s & Hs & <-). rewrite close_conn_sess in Hs. by eapply Hsess.
Qed.

Lemma shutdown_heap ptr p :
  sess (heap (shutdown_listener ptr p)) = sess (heap p) /\
  next (heap (shutdown_listener ptr p)) = next (heap p) /\
  (forall h, kind_of (heap (shutdown_listener ptr p)) h = kind_of (heap p) h) /\
  started (shutdown_listener ptr p) = started p.
Proof.
  unfold shutdown_listener. destruct (listeners p !! ptr) as [pl|]; [|done].
  destruct (CloseAll _ _) as [ss hp] eqn:E. simpl. change hp with (ss, hp).2. rewrite <- E.
  split_and!; [by rewrite CloseAll_sess|by rewrite next_CloseAll| |done].
  intros h. by rewrite kind_of_CloseAll, kind_of_close_conn.
Qed.

Lemma shutdown_listeners ptr pl p i :
  listeners p !! ptr = Some pl ->
  listeners (shutdown_listener ptr p) !! i =
    if bool_decide (i = ptr)
    then Some (mkListener (conn pl) (gateway pl) (revision pl) (tunnelName pl) (tunnelNamespace pl) ∅ true)
    else listeners p !! i.
Proof.
  intros Hpl. unfold shutdown_listener. rewrite Hpl.
  destruct (CloseAll _ _) as [ss hp] eqn:E. simpl.
  assert (ss = ∅) as -> by (change ss with (ss, hp).1; rewrite <- E; apply CloseAll_empty).
  rewrite lookup_insert. case_decide; case_bool_decide; congruence.
Qed.

Lemma kind_of_None hp h : kind_of hp h = None <-> conns hp !! h = None.
Proof. unfold kind_of. by rewrite fmap_None. Qed.

Lemma RemoveMapping_inv port p : proxy_inv p -> proxy_inv (RemoveMapping port p).
Proof.
  intros Hinv. unfold RemoveMapping. destruct (mappings p !! port) as [ptr|] eqn:Hm; [|done].
  destruct (pi_live p Hinv _ _ Hm) as (pl & Hpl & _ & _ & Hlis).
  set (p1 := set_mappings (delete port (mappings p)) p).
  destruct (shutdown_heap ptr p1) as (Hsess & Hnext & Hkind & Hstart).
  pose proof (shutdown_listeners ptr pl p1) as Hls.
  pose proof (fun h q => shutdown_listening ptr pl p1 h q (pi_sess p Hinv) Hpl) as Hlst.
  split; rewrite ?shutdown_mappings, ?Hsess, ?Hnext, ?Hstart.
  - simpl. intros port' ptr' Hm'. apply lookup_delete_Some in Hm' as [Hne Hm'].
    destruct (pi_live p Hinv _ _ Hm') as (pl' & Hpl' & Hc' & Hst' & Hlis').
    assert (ptr' <> ptr) by (intros ->; destruct Hne; by eapply mappings_inj).
    exists pl'. rewrite Hls, bool_decide_false by done. split_and!; [done..|].
    apply Hlst. split; [done|]. destruct Hlis as [Hk _], Hlis' as [Hk' _]. intros E. destruct Hne. apply listen_kind_inj. congruence.
  - intros h q Hq. apply Hlst in Hq as [Hq Hne].
    destruct (pi_bound p Hinv h q Hq) as (ptr' & pl' & Hm' & Hpl' & <-).
    assert (ptr' <> ptr) by (intros ->; congruence).
    exists ptr', pl'. simpl. rewrite Hls, bool_decide_false by done. split_and!; [|done..].
    rewrite lookup_delete_ne; [done|]. intros <-. congruence.
  - intros sp s q Hs. rewrite Hkind. by eapply (pi_sess p Hinv).
  - intros i Hi. destruct (pi_fresh p Hinv i Hi) as (Hc & Hl & Hs).
    rewrite <- kind_of_None, Hkind, kind_of_None, Hls by done.
    case_bool_decide as Hp; [subst; congruence|]. done.
  - apply (pi_sess_conn p Hinv).
Qed.

Lemma RemoveMapping_mappings port p : mappings (RemoveMapping port p) = delete port (mappings p).
Proof.
  unfold RemoveMapping. destruct (mappings p !! port) eqn:Hm; [by rewrite shutdown_mappings|].
  by rewrite delete_id.
Qed.

(** Removing a mapping leaves the listeners of the other ports alone. *)
Lemma RemoveMapping_other port port' ptr p :
  proxy_inv p -> port <> port' -> mappings p !! port' = Some ptr ->
  listeners (RemoveMapping port p) !! ptr = listeners p !! ptr.
Proof.
  intros Hinv Hne Hm'. unfold RemoveMapping. destruct (mappings p !! port) as [q|] eqn:Hm; [|done].
  destruct (pi_live p Hinv _ _ Hm) as (pl & Hpl & _).
  rewrite (shutdown_listeners q pl _ ptr) by done. rewrite bool_decide_false; [done|].
  intros ->. destruct Hne. by eapply mappings_inj.
Qed.

(** After a removal the port is free again. *)
Lemma RemoveMapping_unbinds port p :
  proxy_inv p -> port <> 0 -> port_bound port (heap (RemoveMapping port p)) = false.
Proof.
  intros Hinv Hp. apply not_true_iff_false. rewrite port_bound_spec by done. intros [h Hh].
  destruct (pi_bound _ (RemoveMapping_inv port p Hinv) h port Hh) as (ptr & pl & Hm & _).
  by rewrite RemoveMapping_mappings, lookup_delete_eq in Hm.
Qed.

Lemma RemoveMapping_listen_calls port p : listen_calls (RemoveMapping port p) = listen_calls p.
Proof.
  unfold RemoveMapping, shutdown_listener. destruct (mappings p !! port); [|done]. simpl.
  repeat case_match; done.
Qed.

#[export] Hint Resolve NewUDPProxy_inv RemoveMapping_inv : golib.

(** ** The routing table the proxy implements *)

Record route := mkRoute { r_name : string; r_namespace : string; r_gateway : string; r_revision : Z }.

Definition route_of (pl : portListener) : route :=
  mkRoute (tunnelName pl) (tunnelNamespace pl) (gateway pl) (revision pl).

(** The table an observer of the proxy sees: who is served on which port. *)
Definition routes (p : UDPProxy) : gmap Z route :=
  omap (fun ptr => route_of <$> listeners p !! ptr) (mappings p).

Definition mapping_route (m : option TunnelMapping) : route :=
  mkRoute (GetTunnelName m) (GetTunnelNamespace m) (GetGatewayAddress m) (GetRevision m).

Definition same_owner (a b : route) : bool :=
  bool_decide (r_name a = r_name b) && bool_decide (r_namespace a = r_namespace b).

(** Keep a strictly newer route of the same tunnel; otherwise serve the new
    route, which needs a new socket unless only the revision changed; a refused
    socket leaves the port unserved. *)
Definition table_apply (refused : bool) (port : Z) (r : route) (t : gmap Z route) : res unit * gmap Z route :=
  let needs_socket :=
    match t !! port with
    | Some old => negb (same_owner old r && bool_decide (r_gateway old = r_gateway r))
    | None => true
    end in
  match t !! port with
  | Some old =>
      if same_owner old r && bool_decide (r_revision old > r_revision r) then (Ok tt, t)
      else if needs_socket && refused
      then (Fail (ErrWrap ("listen udp on port " +:+ Itoa port) errAddrInUse), delete port t)
      else (Ok tt, <[port := r]> t)
  | None =>
      if refused then (Fail (ErrWrap ("listen udp on port " +:+ Itoa port) errAddrInUse), t)
      else (Ok tt, <[port := r]> t)
  end.

Section refinement.
Context (os_refuses : nat -> bool).

(** The next [ListenUDP] on a port the process does not hold fails. *)
Definition refused (port : Z) (p : UDPProxy) : bool :=
  os_refuses (listen_calls p) || bool_decide (port < 0) || bool_decide (65535 < port).

Lemma routes_lookup p port :
  routes p !! port = route_of <$> (mappings p !! port ≫= fun ptr => listeners p !! ptr).
Proof. unfold routes. rewrite lookup_omap. by destruct (mappings p !! port). Qed.

(** What [addMapping] reads is the table. *)
Lemma routes_Some p port ptr :
  proxy_inv p -> mappings p !! port = Some ptr ->
  exists pl, listeners p !! ptr = Some pl /\ routes p !! port = Some (route_of pl).
Proof.
  intros Hinv Hm. destruct (pi_live p Hinv _ _ Hm) as (pl & Hpl & _).
  exists pl. rewrite routes_lookup, Hm. simpl. by rewrite Hpl.
Qed.

Lemma routes_None p port : proxy_inv p -> routes p !! port = None <-> mappings p !! port = None.
Proof.
  intros Hinv. destruct (mappings p !! port) as [ptr|] eqn:Hm.
  - destruct (routes_Some p port ptr Hinv Hm) as (pl & _ & ->). done.
  - by rewrite routes_lookup, Hm.
Qed.

Lemma RemoveMapping_routes port p : proxy_inv p -> routes (RemoveMapping port p) = delete port (routes p).
Proof.
  intros Hinv. apply map_eq. intros port'. rewrite lookup_delete, !routes_lookup, RemoveMapping_mappings.
  rewrite lookup_delete. case_decide as Hp; [done|].
  destruct (mappings p !! port') as [ptr|] eqn:Hm; [|done]. simpl. by erewrite RemoveMapping_other.
Qed.

(** The state after a successful [install]: a new socket and a new listener. *)
Definition installed (port : Z) (gw name ns : string) (rev : Z) (p : UDPProxy) : UDPProxy :=
  let h := next (heap p) in
  mkProxy (<[port := S h]> (mappings p)) (<[S h := mkListener h gw rev name ns ∅ false]> (listeners p))
    (mkHeap (<[h := mkConn (listen_kind port) true]> (conns (heap p))) (sess (heap p)) (S (S h)))
    (idleTimeout p) (vip p) (S (listen_calls p)) ({[S h]} ∪ started p).

Lemma installed_listening port gw name ns rev p i q :
  proxy_inv p ->
  listening (heap (installed port gw name ns rev p)) i q <->
  (i = next (heap p) /\ q = port) \/ (i <> next (heap p) /\ listening (heap p) i q).
Proof.
  intros Hinv. unfold listening, kind_of, conn_open. simpl. rewrite lookup_insert.
  case_decide; subst; simpl; [|naive_solver]. split.
  - intros [[= <-%listen_kind_inj] _]. by left.
  - by intros [[_ ->]|[? _]].
Qed.

Lemma installed_inv port gw name ns rev p :
  proxy_inv p -> mappings p !! port = None -> proxy_inv (installed port gw name ns rev p).
Proof.
  intros Hinv Hm. pose proof (fun i q => installed_listening port gw name ns rev p i q Hinv) as Hlst.
  set (h := next (heap p)) in *. pose proof (pi_fresh p Hinv h (Nat.le_refl _)) as (Hc & _ & _).
  pose proof (pi_fresh p Hinv (S h) (Nat.le_succ_diag_r _)) as (_ & Hl & _).
  split; simpl; fold h.
  - intros port' ptr'. rewrite !lookup_insert. case_decide as Hp; subst.
    + intros [= <-]. rewrite decide_True by done. eexists. split_and!; [done..|set_solver|]. apply Hlst. by left.
    + intros Hm'. destruct (pi_live p Hinv _ _ Hm') as (pl & Hpl & Hcn & Hst & Hlis).
      exists pl. rewrite decide_False by congruence. split_and!; [done..|set_solver|].
      apply Hlst. right. split; [|done]. intros E. destruct Hlis as [Hk _].
      unfold kind_of in Hk. rewrite E in Hk. fold h in Hk. by rewrite Hc in Hk.
  - intros i q [[-> ->]|[Hne Hi]]%Hlst.
    + eexists _, _. by rewrite !lookup_insert_eq.
    + destruct (pi_bound p Hinv i q Hi) as (ptr & pl & Hm' & Hpl & Hi').
      exists ptr, pl. rewrite !lookup_insert_ne; [done|congruence|congruence].
  - intros sp s q Hsp. pose proof (pi_sess_conn p Hinv sp s Hsp) as Hlt.
    unfold kind_of. simpl. rewrite lookup_insert_ne by lia. by apply (pi_sess p Hinv sp s).
  - intros i Hi. destruct (pi_fresh p Hinv i) as (? & ? & ?); [unfold h in *; lia|].
    rewrite !lookup_insert_ne by lia. done.
  - intros sp s Hsp. pose proof (pi_sess_conn p Hinv sp s Hsp). unfold h. lia.
Qed.

Lemma installed_routes port gw name ns rev p :
  proxy_inv p -> routes (installed port gw name ns rev p) = <[port := mkRoute name ns gw rev]> (routes p).
Proof.
  intros Hinv. apply map_eq. intros port'. rewrite lookup_insert, !routes_lookup. simpl. rewrite lookup_insert.
  case_decide; simpl; [by rewrite lookup_insert_eq|].
  destruct (mappings p !! port') as [ptr|] eqn:Hm'; [|done]. simpl.
  rewrite lookup_insert_ne; [done|]. intros <-.
  destruct (pi_live p Hinv _ _ Hm') as (pl & Hpl & _).
  pose proof (pi_fresh p Hinv (S (next (heap p))) (Nat.le_succ_diag_r _)) as (_ & Hl & _). congruence.
Qed.

(** A port that is not mapped is not bound by this process. *)
Lemma unmapped_unbound port p :
  proxy_inv p -> mappings p !! port = None -> bool_decide (port <> 0) && port_bound port (heap p) = false.
Proof.
  intros Hinv Hm. apply not_true_iff_false. rewrite andb_true_iff, bool_decide_eq_true. intros [Hp Hb].
  apply port_bound_spec in Hb as [h Hh]; [|done].
  destruct (pi_bound p Hinv h port Hh) as (ptr & pl & Hm' & _). congruence.
Qed.

(** Installing on a port that is not mapped. *)
Lemma install_refines port gw name ns rev p :
  proxy_inv p -> mappings p !! port = None ->
  let '(r, p') := install os_refuses port gw name ns rev p in
  proxy_inv p' /\
  if refused port p
  then r = Fail (ErrWrap ("listen udp on port " +:+ Itoa port) errAddrInUse) /\ routes p' = routes p
  else r = Ok tt /\ routes p' = <[port := mkRoute name ns gw rev]> (routes p).
Proof.
  intros Hinv Hm. unfold install, mbind, ST_bind, wrap_err, ListenUDP, refused.
  rewrite (unmapped_unbound port p Hinv Hm), orb_false_r.
  destruct (_ || bool_decide (65535 < port)); simpl; [split; [by destruct Hinv|done]|].
  unfold publish_listener. simpl. rewrite Hm.
  split; [by apply installed_inv|]. split; [done|]. by apply installed_routes.
Qed.

(** Refreshing the revision of the listener of a port. *)
Lemma refresh_refines port ptr pl rev p :
  proxy_inv p -> mappings p !! port = Some ptr -> listeners p !! ptr = Some pl -> revision pl <= rev ->
  proxy_inv (refresh_revision port ptr rev p) /\
  routes (refresh_revision port ptr rev p) =
    <[port := mkRoute (tunnelName pl) (tunnelNamespace pl) (gateway pl) rev]> (routes p).
Proof.
  intros Hinv Hm Hpl Hrev. unfold refresh_revision. rewrite Hm, bool_decide_true by done.
  set (f := fun pl0 : portListener => if bool_decide (revision pl0 < rev) then _ else pl0).
  assert (forall x, conn (f x) = conn x /\ cancelled (f x) = cancelled x) as Hf by (intros x; unfold f; by case_match).
  split.
  - destruct Hinv as [H1 H2 H3 H4 H5]. split; simpl; [| |done| |done].
    + intros port' ptr' Hm'. destruct (H1 _ _ Hm') as (pl' & Hpl' & ? & ? & ?). rewrite lookup_alter.
      case_decide; subst; [|eauto]. exists (f pl'). rewrite Hpl'. destruct (Hf pl') as [-> ->]. done.
    + intros h q Hq. destruct (H2 h q Hq) as (ptr' & pl' & Hm' & Hpl' & <-). exists ptr'. rewrite lookup_alter.
      case_decide; subst; [|eauto]. exists (f pl'). rewrite Hpl'. by destruct (Hf pl') as [-> _].
    + intros i Hi. destruct (H4 i Hi) as (? & Hl & ?). rewrite lookup_alter. case_decide; subst; [|done].
      by rewrite Hl.
  - apply map_eq. intros port'. rewrite lookup_insert, !routes_lookup. simpl.
    case_decide as Hp; subst.
    + rewrite Hm. simpl. rewrite lookup_alter_eq, Hpl. simpl. unfold f. case_bool_decide; [done|].
      unfold route_of. repeat f_equal. lia.
    + destruct (mappings p !! port') as [ptr'|] eqn:Hm'; [|done]. simpl. rewrite lookup_alter_ne; [done|].
      intros <-. destruct Hp. by eapply mappings_inj.
Qed.

Lemma RemoveMapping_refused port q p : refused q (RemoveMapping port p) = refused q p.
Proof. unfold refused. by rewrite RemoveMapping_listen_calls. Qed.

(** Replacing a mapping: remove, then install. *)
Lemma replace_refines port gw name ns rev p :
  proxy_inv p ->
  let '(r, p') := install os_refuses port gw name ns rev (RemoveMapping port p) in
  proxy_inv p' /\
  (r, routes p') =
    if refused port p
    then (Fail (ErrWrap ("listen udp on port " +:+ Itoa port) errAddrInUse), delete port (routes p))
    else (Ok tt, <[port := mkRoute name ns gw rev]> (routes p)).
Proof.
  intros Hinv.
  pose proof (install_refines port gw name ns rev (RemoveMapping port p) (RemoveMapping_inv _ _ Hinv)) as Hins.
  rewrite RemoveMapping_mappings, lookup_delete_eq in Hins. specialize (Hins eq_refl).
  destruct (install _ _ _ _ _ _ _) as [r p']. destruct Hins as [Hi Hr]. split; [done|].
  rewrite RemoveMapping_refused, RemoveMapping_routes, insert_delete_eq in Hr by done.
  destruct (refused port p); by destruct Hr as [-> ->].
Qed.

(** [addMapping] is [table_apply] on the routing table. *)
Lemma addMapping_refines port gw name ns rev p :
  proxy_inv p ->
  let '(r, p') := addMapping os_refuses port gw name ns rev p in
  proxy_inv p' /\ (r, routes p') = table_apply (refused port p) port (mkRoute name ns gw rev) (routes p).
Proof.
  intros Hinv. pose proof (replace_refines port gw name ns rev p Hinv) as Hrep.
  unfold addMapping, table_apply. destruct (mappings p !! port) as [ptr|] eqn:Hm; simpl.
  - destruct (routes_Some p port ptr Hinv Hm) as (pl & Hpl & ->). rewrite Hpl. simpl.
    change (same_tunnel pl name ns) with (same_owner (route_of pl) (mkRoute name ns gw rev)).
    destruct (same_owner _ _) eqn:Hown; simpl; [|done].
    case_bool_decide as Hnew; [done|]. case_bool_decide as Hgw; simpl; [|done].
    destruct (refresh_refines port ptr pl rev p Hinv Hm Hpl) as [Hi ->]; [lia|]. split; [done|].
    apply andb_true_iff in Hown as [H1%bool_decide_eq_true H2%bool_decide_eq_true]. simpl in *. by subst.
  - rewrite (proj2 (routes_None p port Hinv) Hm).
    pose proof (install_refines port gw name ns rev p Hinv Hm) as Hins.
    destruct (install os_refuses port gw name ns rev p) as [r p']. destruct Hins as [Hi Hr]. split; [done|].
    destruct (refused port p); by destruct Hr as [-> ->].
Qed.

Lemma ApplyMapping_refines m p :
  proxy_inv p -> valid_mapping m = true ->
  let '(r, p') := ApplyMapping os_refuses m p in
  proxy_inv p' /\
  (r, routes p') = table_apply (refused (GetForwarderPort m) p) (GetForwarderPort m) (mapping_route m) (routes p).
Proof. intros Hinv Hv. unfold ApplyMapping. rewrite Hv. simpl. by apply addMapping_refines. Qed.

Lemma remove_ports_refines ports p :
  proxy_inv p ->
  proxy_inv (remove_ports ports p) /\
  routes (remove_ports ports p) = filter (fun e => e.1 ∉ ports) (routes p).
Proof.
  revert p. induction ports as [|port ports IH]; intros p Hinv; simpl.
  - split; [done|]. rewrite map_filter_id; [done|]. set_solver.
  - destruct (IH (RemoveMapping port p)) as [Hi ->]; [by apply RemoveMapping_inv|]. split; [done|].
    rewrite RemoveMapping_routes by done. apply map_eq. intros q. apply option_eq. intros r.
    rewrite !map_lookup_filter_Some, lookup_delete_Some. simpl. set_solver.
Qed.

(** Ports and the table's domain. *)
Lemma elem_of_Ports port p : proxy_inv p -> port ∈ Ports p <-> is_Some (routes p !! port).
Proof.
  intros Hinv. unfold Ports. rewrite list_elem_of_fmap, <- not_eq_None_Some, (routes_None p port Hinv). split.
  - intros ([q ptr] & -> & Hin). apply elem_of_map_to_list in Hin. simpl. congruence.
  - destruct (mappings p !! port) as [ptr|] eqn:Hm; [|done]. intros _. exists (port, ptr).
    by rewrite elem_of_map_to_list.
Qed.
End refinement.

(** ** Snapshots on the routing table *)

(** The route that stays when [r] is applied over [old]. *)
Definition newest (old : option route) (r : route) : route :=
  match old with
  | Some o => if same_owner o r && bool_decide (r_revision o > r_revision r) then o else r
  | None => r
  end.

Lemma table_apply_ok rf port r t :
  (table_apply rf port r t).1 = Ok tt ->
  (table_apply rf port r t).2 = <[port := newest (t !! port) r]> t.
Proof.
  unfold table_apply, newest. destruct (t !! port) as [old|] eqn:E.
  - destruct (same_owner old r && _); simpl; [by rewrite insert_id|]. by case_match.
  - by destruct rf.
Qed.

Lemma table_apply_other rf port r t q : port <> q -> (table_apply rf port r t).2 !! q = t !! q.
Proof.
  intros Hne. unfold table_apply. repeat case_match; simpl; rewrite ?lookup_insert_ne, ?lookup_delete_ne; done.
Qed.

Lemma table_apply_fails rf port r t e :
  (table_apply rf port r t).1 = Fail e -> (table_apply rf port r t).2 !! port = None /\ rf = true.
Proof.
  unfold table_apply. repeat case_match; simplify_eq/=; try done; intros _;
    rewrite ?lookup_delete_eq; try done.
  split; [done|]. by match goal with H : _ && rf = true |- _ => apply andb_true_iff in H as [_ ->] end.
Qed.

Definition snapshot_ports (ms : list (option TunnelMapping)) : list Z :=
  GetForwarderPort <$> filter (fun m => valid_mapping m = true) ms.

Fixpoint table_snapshot (ms : list (option TunnelMapping)) (t : gmap Z route) : gmap Z route :=
  match ms with
  | [] => t
  | m :: ms =>
      if valid_mapping m
      then table_snapshot ms (<[GetForwarderPort m := newest (t !! GetForwarderPort m) (mapping_route m)]> t)
      else table_snapshot ms t
  end.

Lemma snapshot_ports_cons m ms :
  snapshot_ports (m :: ms) = if valid_mapping m then GetForwarderPort m :: snapshot_ports ms else snapshot_ports ms.
Proof.
  unfold snapshot_ports. destruct (valid_mapping m) eqn:E.
  - by rewrite filter_cons_True.
  - by rewrite filter_cons_False by congruence.
Qed.

Lemma table_snapshot_other ms t q : q ∉ snapshot_ports ms -> table_snapshot ms t !! q = t !! q.
Proof.
  revert t. induction ms as [|m ms IH]; intros t; simpl; [done|]. rewrite snapshot_ports_cons.
  destruct (valid_mapping m); [|apply IH]. intros Hq. rewrite IH by set_solver.
  rewrite lookup_insert_ne; [done|set_solver].
Qed.

(** With one mapping per port, each port ends with the newest of its route and
    the snapshot's. *)
Lemma table_snapshot_at ms t m :
  NoDup (snapshot_ports ms) -> m ∈ ms -> valid_mapping m = true ->
  table_snapshot ms t !! GetForwarderPort m = Some (newest (t !! GetForwarderPort m) (mapping_route m)).
Proof.
  revert t. induction ms as [|m' ms IH]; intros t Hnd Hin Hv; [by apply elem_of_nil in Hin|].
  rewrite snapshot_ports_cons in Hnd. simpl. apply elem_of_cons in Hin as [<-|Hin].
  - rewrite Hv in *. apply NoDup_cons in Hnd as [Hno _]. by rewrite table_snapshot_other, lookup_insert_eq.
  - destruct (valid_mapping m') eqn:Hv'; [|by apply IH]. apply NoDup_cons in Hnd as [Hno Hnd].
    rewrite IH by done. rewrite lookup_insert_ne; [done|]. intros E. apply Hno. rewrite E.
    apply list_elem_of_fmap. exists m. split; [done|]. by apply list_elem_of_filter.
Qed.

Lemma table_snapshot_dom ms t q :
  is_Some (table_snapshot ms t !! q) <-> q ∈ snapshot_ports ms \/ is_Some (t !! q).
Proof.
  revert t. induction ms as [|m ms IH]; intros t; simpl; [set_solver|]. rewrite snapshot_ports_cons.
  destruct (valid_mapping m); [|apply IH]. rewrite IH, lookup_insert_is_Some, elem_of_cons.
  destruct (decide (GetForwarderPort m = q)); naive_solver.
Qed.

Section snapshots.
Context (os_refuses : nat -> bool).

Lemma apply_snapshot_refines ms desired p :
  proxy_inv p ->
  let '(r, p') := apply_snapshot os_refuses ms desired p in
  proxy_inv p' /\ (forall q, q ∉ snapshot_ports ms -> routes p' !! q = routes p !! q) /\
  match r with
  | Ok d => d = list_to_set (snapshot_ports ms) ∪ desired /\ routes p' = table_snapshot ms (routes p)
  | Fail _ => exists q, q ∈ snapshot_ports ms /\ routes p' !! q = None
  end.
Proof.
  revert desired p. induction ms as [|m ms IH]; intros desired p Hinv; simpl.
  { split_and!; [done|done|set_solver|done]. }
  rewrite snapshot_ports_cons. destruct (valid_mapping m) eqn:Hv; simpl; [|by apply IH].
  unfold mbind, ST_bind, wrap_err. pose proof (ApplyMapping_refines os_refuses m p Hinv Hv) as Ha.
  destruct (ApplyMapping os_refuses m p) as [[[]|e] p1]; destruct Ha as [Hinv1 Heq];
    pose proof (f_equal fst Heq) as H1; pose proof (f_equal snd Heq) as H2; simpl in H1, H2.
  - specialize (IH ({[GetForwarderPort m]} ∪ desired) p1 Hinv1).
    destruct (apply_snapshot os_refuses ms _ p1) as [r p2]. destruct IH as (Hinv2 & Hoth & Hr).
    rewrite table_apply_ok in H2 by done. rewrite H2 in *. split_and!; [done| |].
    + intros q Hq. rewrite Hoth, lookup_insert_ne; [done|set_solver..].
    + destruct r as [d|e]; [|set_solver]. destruct Hr as [-> ->]. split; [set_solver|done].
  - split_and!; [done| |].
    + intros q Hq. rewrite H2. apply table_apply_other. set_solver.
    + exists (GetForwarderPort m). split; [set_solver|]. rewrite H2. by eapply table_apply_fails.
Qed.

Lemma ReconcileMappings_inv ms p : proxy_inv p -> proxy_inv (ReconcileMappings os_refuses ms p).2.
Proof.
  intros Hinv. unfold ReconcileMappings, mbind, ST_bind.
  pose proof (apply_snapshot_refines ms ∅ p Hinv) as Ha.
  destruct (apply_snapshot os_refuses ms ∅ p) as [[d|e] p1]; [|apply Ha].
  simpl. apply remove_ports_refines, Ha.
Qed.

(** The table after a snapshot was applied. *)
Lemma ReconcileMappings_ok ms p p' :
  proxy_inv p -> ReconcileMappings os_refuses ms p = (Ok tt, p') ->
  proxy_inv p' /\
  (forall port, is_Some (routes p' !! port) <-> port ∈ snapshot_ports ms) /\
  (NoDup (snapshot_ports ms) -> forall m, m ∈ ms -> valid_mapping m = true ->
     routes p' !! GetForwarderPort m =
       Some (newest (routes p !! GetForwarderPort m) (mapping_route m))).
Proof.
  intros Hinv Hrec. assert (proxy_inv p') as Hinv'.
  { replace p' with (ReconcileMappings os_refuses ms p).2 by by rewrite Hrec. by apply ReconcileMappings_inv. }
  unfold ReconcileMappings, mbind, ST_bind in Hrec.
  pose proof (apply_snapshot_refines ms ∅ p Hinv) as Ha.
  destruct (apply_snapshot os_refuses ms ∅ p) as [[d|e] p1]; [|done].
  destruct Ha as (Hinv1 & _ & -> & Ht). injection Hrec as <-.
  set (stale := filter _ (Ports p1)).
  destruct (remove_ports_refines stale p1 Hinv1) as [_ Hr].
  assert (forall port, port ∉ stale <-> (is_Some (routes p1 !! port) -> port ∈ snapshot_ports ms)) as Hstale.
  { intros port. unfold stale. rewrite list_elem_of_filter, (elem_of_Ports port p1 Hinv1).
    rewrite elem_of_union, elem_of_list_to_set.
    destruct (decide (port ∈ snapshot_ports ms)); set_solver. }
  split_and!; [done| |].
  - intros port. rewrite Hr. split.
    + intros [r Hp]. apply map_lookup_filter_Some in Hp as [Hp Hns]. apply Hstale; [done|by rewrite Hp].
    + intros Hp. destruct (table_snapshot_dom ms (routes p) port) as [_ [r Hs]]; [by left|].
      exists r. apply map_lookup_filter_Some. rewrite Ht. split; [done|]. simpl. by apply Hstale.
  - intros Hnd m Hin Hv. rewrite Hr. apply map_lookup_filter_Some. rewrite Ht.
    split; [by apply table_snapshot_at|]. simpl. apply Hstale. intros _.
    apply list_elem_of_fmap. exists m. split; [done|]. by apply list_elem_of_filter.
Qed.

(** C8: reconciling with a snapshot.  When it succeeds, the served ports are
    exactly those of the snapshot's valid mappings, and (for a snapshot with one
    mapping per port) each port serves the snapshot's route, except that a
    strictly newer route of the same tunnel is kept. *)
Theorem ReconcileMappings_exact ms p p' :
  proxy_inv p -> ReconcileMappings os_refuses ms p = (Ok tt, p') ->
  proxy_inv p' /\
  (forall port, is_Some (routes p' !! port) <-> port ∈ snapshot_ports ms) /\
  (NoDup (snapshot_ports ms) -> forall m, m ∈ ms -> valid_mapping m = true ->
     routes p' !! GetForwarderPort m =
       Some (newest (routes p !! GetForwarderPort m) (mapping_route m))).
Proof. apply ReconcileMappings_ok. Qed.

(** C34: when reconciling fails it removes nothing outside the snapshot: every
    port the snapshot does not mention keeps its route, and the proxy stays
    well formed (no socket without a mapping, no mapping without a socket). *)
Theorem ReconcileMappings_error ms p e p' :
  proxy_inv p -> ReconcileMappings os_refuses ms p = (Fail e, p') ->
  proxy_inv p' /\ (forall port, port ∉ snapshot_ports ms -> routes p' !! port = routes p !! port) /\
  exists port, port ∈ snapshot_ports ms /\ routes p' !! port = None.
Proof.
  intros Hinv Hrec. unfold ReconcileMappings, mbind, ST_bind in Hrec.
  pose proof (apply_snapshot_refines ms ∅ p Hinv) as Ha.
  destruct (apply_snapshot os_refuses ms ∅ p) as [[d|e'] p1]; [done|].
  injection Hrec as <- <-. tauto.
Qed.
End snapshots.

(** ** Runs of the proxy *)

Inductive proxy_op :=
| PAdd (port : Z) (gatewayAddr name namespace : string)
| PApply (m : option TunnelMapping)
| PReconcile (ms : list (option TunnelMapping))
| PRemove (port : Z)
| PSetVIP (v : string)
| PStop (ctx_err : option error).

Section runs.
Context (os_refuses : nat -> bool).

Definition proxy_exec (o : proxy_op) (p : UDPProxy) : UDPProxy :=
  match o with
  | PAdd port gw name ns => (AddMapping os_refuses port gw name ns p).2
  | PApply m => (ApplyMapping os_refuses m p).2
  | PReconcile ms => (ReconcileMappings os_refuses ms p).2
  | PRemove port => RemoveMapping port p
  | PSetVIP v => SetVIP v p
  | PStop e => (Stop e p).2
  end.

Definition proxy_run (ops : list proxy_op) (p : UDPProxy) : UDPProxy :=
  fold_left (fun p o => proxy_exec o p) ops p.

Lemma addMapping_inv port gw name ns rev p :
  proxy_inv p -> proxy_inv (addMapping os_refuses port gw name ns rev p).2.
Proof.
  intros Hinv. pose proof (addMapping_refines os_refuses port gw name ns rev p Hinv) as H.
  destruct (addMapping os_refuses port gw name ns rev p). apply H.
Qed.

Lemma proxy_exec_inv o p : proxy_inv p -> proxy_inv (proxy_exec o p).
Proof.
  intros Hinv. destruct o as [port gw name ns|m|ms|port|v|e]; simpl.
  - by apply addMapping_inv.
  - unfold ApplyMapping. case_match; [done|by apply addMapping_inv].
  - by apply ReconcileMappings_inv.
  - auto with golib.
  - by destruct Hinv.
  - unfold Stop. destruct e; simpl; [done|]. by apply remove_ports_refines.
Qed.

Lemma proxy_run_inv ops p : proxy_inv p -> proxy_inv (proxy_run ops p).
Proof.
  revert p. induction ops as [|o ops IH]; intros p Hinv; simpl; [done|]. by apply IH, proxy_exec_inv.
Qed.

(** The call names its port: [AddMapping] is not called with 0. *)
Definition names_port (o : proxy_op) : Prop := match o with PAdd port _ _ _ => port <> 0 | _ => True end.

(** Only real ports are served. *)
Definition ports_real (p : UDPProxy) : Prop := forall port, is_Some (routes p !! port) -> 0 < port <= 65535.

Lemma table_apply_dom rf port r t q :
  is_Some ((table_apply rf port r t).2 !! q) -> is_Some (t !! q) \/ (q = port /\ rf = false).
Proof.
  destruct (decide (port = q)) as [<-|Hne]; [|rewrite table_apply_other by done; by left].
  unfold table_apply. destruct (t !! port) as [old|] eqn:E; [left; by eexists|].
  destruct rf; simpl; [left; by rewrite <- E|auto].
Qed.

Lemma addMapping_real port gw name ns rev p :
  proxy_inv p -> port <> 0 -> ports_real p -> ports_real (addMapping os_refuses port gw name ns rev p).2.
Proof.
  intros Hinv Hp Hr q. pose proof (addMapping_refines os_refuses port gw name ns rev p Hinv) as Href.
  destruct (addMapping os_refuses port gw name ns rev p) as [r p']. destruct Href as [_ Heq].
  apply (f_equal snd) in Heq. simpl in *. rewrite Heq. intros [Hq|[-> Hrf]]%table_apply_dom; [by apply Hr|].
  unfold refused in Hrf. rewrite !orb_false_iff, !bool_decide_eq_false in Hrf. lia.
Qed.

Lemma ApplyMapping_real m p : proxy_inv p -> ports_real p -> ports_real (ApplyMapping os_refuses m p).2.
Proof.
  intros Hinv Hr. unfold ApplyMapping. destruct (valid_mapping m) eqn:Hv; [|done]. apply addMapping_real; [done| |done].
  unfold valid_mapping in Hv. rewrite !andb_true_iff, !bool_decide_eq_true in Hv. lia.
Qed.

Lemma remove_ports_real ports p : proxy_inv p -> ports_real p -> ports_real (remove_ports ports p).
Proof.
  intros Hinv Hr q. rewrite (proj2 (remove_ports_refines ports p Hinv)). intros [r Hq].
  apply map_lookup_filter_Some in Hq as [Hq _]. apply Hr. by eexists.
Qed.

Lemma apply_snapshot_real ms d p : proxy_inv p -> ports_real p -> ports_real (apply_snapshot os_refuses ms d p).2.
Proof.
  revert d p. induction ms as [|m ms IH]; intros d p Hinv Hr; simpl; [done|].
  destruct (valid_mapping m) eqn:Hv; simpl; [|by apply IH]. unfold mbind, ST_bind, wrap_err.
  pose proof (ApplyMapping_refines os_refuses m p Hinv Hv) as Hi. pose proof (ApplyMapping_real m p Hinv Hr) as Ha.
  destruct (ApplyMapping os_refuses m p) as [[[]|e] p1]; simpl in *; [|done]. apply IH; [apply Hi|done].
Qed.

Lemma proxy_exec_real o p : proxy_inv p -> names_port o -> ports_real p -> ports_real (proxy_exec o p).
Proof.
  intros Hinv Hn Hr. destruct o as [port gw name ns|m|ms|port|v|e]; simpl.
  - by apply addMapping_real.
  - by apply ApplyMapping_real.
  - unfold ReconcileMappings, mbind, ST_bind. pose proof (apply_snapshot_refines os_refuses ms ∅ p Hinv) as Hi.
    pose proof (apply_snapshot_real ms ∅ p Hinv Hr) as Ha.
    destruct (apply_snapshot os_refuses ms ∅ p) as [[d|e] p1]; simpl in *; [|done]. apply remove_ports_real; [apply Hi|done].
  - intros q. rewrite RemoveMapping_routes by done. intros [r [_ Hq]%lookup_delete_Some]. apply Hr. by eexists.
  - exact Hr.
  - unfold Stop. destruct e; simpl; [done|]. by apply remove_ports_real.
Qed.

Lemma proxy_run_real ops p :
  proxy_inv p -> Forall names_port ops -> ports_real p -> ports_real (proxy_run ops p).
Proof.
  intros Hinv Hops. revert p Hinv. induction Hops as [|o ops Ho _ IH]; intros p Hinv Hr; simpl; [done|].
  apply IH; [by apply proxy_exec_inv|by apply proxy_exec_real].
Qed.

(** C33: after any sequence of calls that name their ports (only [AddMapping], which the
    program itself does not call, takes a port as it is given, and with 0 the system would
    choose one), and whatever sockets the operating system refuses: the mapped ports are
    real ports, 1 to 65535; a port is bound by a listening socket of the process exactly
    when it has a mapping, and then by exactly one; and no socket listens on a port the
    system chose.  So nothing leaks and no mapping is dead. *)
Theorem ports_bound_iff_mapped ops timeout port :
  Forall names_port ops ->
  let p := proxy_run ops (NewUDPProxy timeout) in
  (is_Some (mappings p !! port) -> 0 < port <= 65535) /\
  (port_bound port (heap p) = true /\ port <> 0 <-> is_Some (mappings p !! port)) /\
  (forall h h', listening (heap p) h port -> listening (heap p) h' port -> h = h') /\
  (forall h, conn_open h (heap p) = true -> kind_of (heap p) h <> Some ListeningAny).
Proof.
  intros Hops p. assert (proxy_inv p) as Hinv by (apply proxy_run_inv; auto with golib).
  assert (ports_real p) as Hreal by (apply proxy_run_real; [auto with golib|done|intros q Hq; vm_compute in Hq; by destruct Hq]).
  assert (forall q, is_Some (mappings p !! q) -> 0 < q <= 65535) as Hmapped.
  { intros q Hq. apply Hreal. destruct (routes p !! q) eqn:E; [by eexists|].
    apply (routes_None p q Hinv) in E. rewrite E in Hq. by destruct Hq. }
  split_and!; [apply Hmapped| | |].
  - split.
    + intros [Hb Hp]. apply port_bound_spec in Hb as [h Hh]; [|done].
      destruct (pi_bound p Hinv h port Hh) as (ptr & pl & -> & _). eauto.
    + intros Hm. pose proof (Hmapped _ Hm). destruct Hm as [ptr Hm]. split; [|lia].
      apply port_bound_spec; [lia|]. destruct (pi_live p Hinv _ _ Hm) as (pl & _ & _ & _ & Hl). eauto.
  - intros h h' Hh Hh'. destruct (pi_bound p Hinv h port Hh) as (ptr & pl & Hm & Hpl & <-).
    destruct (pi_bound p Hinv h' port Hh') as (ptr' & pl' & Hm' & Hpl' & <-). congruence.
  - intros h Ho Hk. destruct (pi_bound p Hinv h 0) as (ptr & pl & Hm & _); [by split|].
    assert (0 < 0 <= 65535); [|lia]. apply Hmapped. by eexists.
Qed.

(** With port 0 the socket is bound to a port that has no mapping. *)
Lemma zero_port_is_not_bound :
  let p := (AddMapping (fun _ => false) 0 "10.0.0.1:51820" "a" "team" (NewUDPProxy 300)).2 in
  is_Some (mappings p !! 0) /\ port_bound 0 (heap p) = false /\ kind_of (heap p) 0 = Some ListeningAny.
Proof. vm_compute. split_and!; [by eexists|done..]. Qed.

(** Applying a mapping is the routing-table update: an invalid mapping is
    refused without effect, a strictly newer route of the same tunnel stays, a
    route of another tunnel is replaced whatever its revision, and a port whose
    new socket is refused is left unserved with the error returned. *)
Theorem ApplyMapping_table m p :
  proxy_inv p ->
  if valid_mapping m then
    ((ApplyMapping os_refuses m p).1, routes (ApplyMapping os_refuses m p).2) =
      table_apply (refused os_refuses (GetForwarderPort m) p) (GetForwarderPort m) (mapping_route m) (routes p)
  else ApplyMapping os_refuses m p = (Fail (ErrNew "invalid tunnel mapping"), p).
Proof.
  intros Hinv. destruct (valid_mapping m) eqn:Hv.
  - pose proof (ApplyMapping_refines os_refuses m p Hinv Hv) as H.
    destruct (ApplyMapping os_refuses m p). apply H.
  - unfold ApplyMapping. by rewrite Hv.
Qed.

Lemma same_owner_refl r : same_owner r r = true.
Proof. unfold same_owner. by rewrite !bool_decide_true. Qed.

(** Replays are harmless.  After a mapping was applied, applying it again,
    or applying an older revision of the same tunnel on the same port, succeeds
    without needing a socket and leaves every route as it is. *)
Theorem replay_is_noop m m' p p' :
  proxy_inv p -> valid_mapping m = true -> ApplyMapping os_refuses m p = (Ok tt, p') ->
  (m' = m \/
   (valid_mapping m' = true /\ GetForwarderPort m' = GetForwarderPort m /\
    same_owner (mapping_route m) (mapping_route m') = true /\ GetRevision m' < GetRevision m)) ->
  (ApplyMapping os_refuses m' p').1 = Ok tt /\ routes (ApplyMapping os_refuses m' p').2 = routes p'.
Proof.
  intros Hinv Hv Happ Hm'.
  assert (valid_mapping m' = true /\ GetForwarderPort m' = GetForwarderPort m) as [Hv' Hport]
    by (destruct Hm' as [->|(? & ? & _)]; done).
  pose proof (ApplyMapping_refines os_refuses m p Hinv Hv) as H. rewrite Happ in H. destruct H as [Hinv' Heq].
  assert (routes p' = <[GetForwarderPort m := newest (routes p !! GetForwarderPort m) (mapping_route m)]> (routes p)) as Hr.
  { rewrite <- (table_apply_ok (refused os_refuses (GetForwarderPort m) p)); by rewrite <- Heq. }
  pose proof (ApplyMapping_refines os_refuses m' p' Hinv' Hv') as H.
  destruct (ApplyMapping os_refuses m' p') as [r p'']. destruct H as [_ H]. simpl.
  rewrite Hport in H. set (k := newest _ _) in Hr.
  assert (routes p' !! GetForwarderPort m = Some k) as Hk by by rewrite Hr, lookup_insert_eq.
  assert (k = mapping_route m \/ (same_owner k (mapping_route m) = true /\ r_revision k > GetRevision m)) as Hkc.
  { unfold k, newest. destruct (routes p !! _) as [o|]; [|by left].
    destruct (same_owner o (mapping_route m) && _) eqn:E; [right|by left].
    apply andb_true_iff in E as [E1 E2%bool_decide_eq_true]. done. }
  unfold table_apply in H. rewrite Hk in H.
  destruct Hm' as [->|(_ & _ & Hown & Hrev)]; destruct Hkc as [Hke|[Hko Hkr]].
  - rewrite Hke, same_owner_refl, bool_decide_false, bool_decide_true in H by (simpl; lia || done).
    simpl in H. injection H as -> ->. by rewrite <- Hke, insert_id.
  - rewrite Hko, bool_decide_true in H by (simpl; lia). simpl in H. by injection H as -> ->.
  - rewrite Hke, Hown, bool_decide_true in H by (simpl; lia). simpl in H. by injection H as -> ->.
  - assert (same_owner k (mapping_route m') = true) as Hko'.
    { unfold same_owner in *. rewrite !andb_true_iff, !bool_decide_eq_true in *. naive_solver congruence. }
    rewrite Hko', bool_decide_true in H by (simpl; lia). simpl in H. by injection H as -> ->.
Qed.

(** A failed replacement loses the old route.  When the snapshot changes
    the gateway or the owner of a served port and the new socket is refused,
    [ReconcileMappings] returns the error with the port no longer served: the
    old listener was closed before the new one was opened. *)
Theorem failed_replacement_loses_route m p old :
  proxy_inv p -> valid_mapping m = true ->
  routes p !! GetForwarderPort m = Some old ->
  newest (Some old) (mapping_route m) = mapping_route m ->
  (same_owner old (mapping_route m) = false \/ r_gateway old <> GetGatewayAddress m) ->
  refused os_refuses (GetForwarderPort m) p = true ->
  exists e p', ReconcileMappings os_refuses [m] p = (Fail e, p') /\
    routes p' = delete (GetForwarderPort m) (routes p).
Proof.
  intros Hinv Hv Hold Hnew Hdiff Href. unfold ReconcileMappings, mbind, ST_bind. simpl. rewrite Hv. simpl.
  unfold mbind, ST_bind, wrap_err. pose proof (ApplyMapping_refines os_refuses m p Hinv Hv) as H.
  destruct (ApplyMapping os_refuses m p) as [r p']. destruct H as [_ H].
  assert (table_apply true (GetForwarderPort m) (mapping_route m) (routes p) =
    (Fail (ErrWrap ("listen udp on port " +:+ Itoa (GetForwarderPort m)) errAddrInUse),
     delete (GetForwarderPort m) (routes p))) as E.
  { unfold table_apply, newest in *. rewrite Hold.
    destruct (same_owner old (mapping_route m)) eqn:Ho; simpl in *; [|done].
    destruct Hdiff as [?|Hg]; [done|].
    rewrite (bool_decide_false (r_gateway old = _)) by done. simpl.
    case_bool_decide; [|done]. subst old. simpl in *. lia. }
  rewrite Href, E in H. injection H as -> Hr. eexists _, p'. split; [reflexivity|done].
Qed.
End runs.

(** Removing a mapping stops all of it: the port's route is gone and the
    port is unbound, the listener's socket and the upstream sockets of all its
    sessions are closed, its context is cancelled and its session map empty;
    other ports keep their listeners. *)
Theorem RemoveMapping_stops port ptr pl p :
  proxy_inv p -> mappings p !! port = Some ptr -> listeners p !! ptr = Some pl ->
  let p' := RemoveMapping port p in
  routes p' = delete port (routes p) /\ (port <> 0 -> port_bound port (heap p') = false) /\
  conn_open (conn pl) (heap p') = false /\
  (forall key sp s, sessions pl !! key = Some sp -> sess (heap p) !! sp = Some s ->
     conn_open (upstreamConn s) (heap p') = false) /\
  (exists pl', listeners p' !! ptr = Some pl' /\ cancelled pl' = true /\ sessions pl' = ∅) /\
  (forall port' ptr', port' <> port -> mappings p !! port' = Some ptr' ->
     mappings p' !! port' = Some ptr' /\ listeners p' !! ptr' = listeners p !! ptr').
Proof.
  intros Hinv Hm Hpl p'.
  assert (heap p' = (CloseAll (sessions pl) (close_conn (conn pl) (heap p))).2) as Hheap.
  { unfold p', RemoveMapping, shutdown_listener. rewrite Hm. simpl. rewrite Hpl. by destruct (CloseAll _ _). }
  split_and!.
  - by apply RemoveMapping_routes.
  - by apply RemoveMapping_unbinds.
  - rewrite Hheap. apply not_true_iff_false. rewrite CloseAll_conns, conn_open_close_conn, andb_true_iff, negb_true_iff, bool_decide_eq_false.
    tauto.
  - intros key sp s Hk Hs. rewrite Hheap. apply not_true_iff_false. rewrite CloseAll_conns.
    intros [_ Hno]. apply (Hno key sp Hk). by exists s.
  - eexists. unfold p', RemoveMapping. rewrite Hm. rewrite (shutdown_listeners ptr pl) by done.
    rewrite bool_decide_true by done. by split_and!.
  - intros port' ptr' Hne Hm'. split.
    + unfold p'. by rewrite RemoveMapping_mappings, lookup_delete_ne.
    + by eapply RemoveMapping_other.
Qed.

(** *** Witnesses *)

Definition demo_mapping (name gw : string) (port rev : Z) : option TunnelMapping :=
  Some (mkTunnelMapping (Some name) (Some "team") (Some port) (Some gw) (Some rev) None None).

(** The operating system grants every socket, or refuses the second request. *)
Definition os_ok : nat -> bool := fun _ => false.
Definition os_second_fails : nat -> bool := fun n => Nat.eqb n 1.

Definition demo_proxy : UDPProxy :=
  proxy_run os_ok [PApply (demo_mapping "a" "10.0.0.1:51820" 51820 2)] (NewUDPProxy 300).

Lemma demo_proxy_inv : proxy_inv demo_proxy.
Proof. apply proxy_run_inv. auto with golib. Qed.

Lemma ReconcileMappings_exact_witness :
  exists p', ReconcileMappings os_ok [demo_mapping "b" "10.0.0.2:51820" 51821 1; None] demo_proxy = (Ok tt, p') /\
    proxy_inv p' /\ routes p' !! 51821 = Some (mkRoute "b" "team" "10.0.0.2:51820" 1) /\ ~ is_Some (routes p' !! 51820).
Proof.
  eexists. split; [vm_compute; reflexivity|].
  destruct (ReconcileMappings_exact os_ok [demo_mapping "b" "10.0.0.2:51820" 51821 1; None] demo_proxy _
              demo_proxy_inv eq_refl) as (Hinv & Hdom & Hat).
  split; [exact Hinv|]. split.
  - apply (Hat ltac:(vm_compute; repeat constructor; set_solver) (demo_mapping "b" "10.0.0.2:51820" 51821 1));
      [left|vm_compute; reflexivity].
  - intros Hs. apply (proj1 (Hdom 51820)) in Hs. revert Hs. vm_compute. set_solver.
Defined.

Lemma ReconcileMappings_error_witness :
  exists e p', ReconcileMappings os_second_fails [demo_mapping "b" "10.0.0.2:51820" 51821 1] demo_proxy = (Fail e, p') /\
    routes p' !! 51820 = routes demo_proxy !! 51820.
Proof.
  eexists _, _. split; [vm_compute; reflexivity|].
  apply (ReconcileMappings_error os_second_fails [demo_mapping "b" "10.0.0.2:51820" 51821 1] demo_proxy _ _
           demo_proxy_inv eq_refl). vm_compute. set_solver.
Defined.

Lemma ApplyMapping_table_witness :
  routes (ApplyMapping os_ok (demo_mapping "b" "10.0.0.2:51820" 51820 1) demo_proxy).2 !! 51820 =
    Some (mkRoute "b" "team" "10.0.0.2:51820" 1).
Proof.
  pose proof (ApplyMapping_table os_ok (demo_mapping "b" "10.0.0.2:51820" 51820 1) demo_proxy demo_proxy_inv) as H.
  apply (f_equal snd) in H. simpl in H. rewrite H. vm_compute. reflexivity.
Defined.

Lemma replay_is_noop_witness :
  exists p', ApplyMapping os_ok (demo_mapping "a" "10.0.0.9:51820" 51820 3) demo_proxy = (Ok tt, p') /\
    (ApplyMapping os_ok (demo_mapping "a" "10.0.0.1:51820" 51820 2) p').1 = Ok tt /\
    routes (ApplyMapping os_ok (demo_mapping "a" "10.0.0.1:51820" 51820 2) p').2 = routes p'.
Proof.
  eexists. split; [vm_compute; reflexivity|].
  apply (replay_is_noop os_ok (demo_mapping "a" "10.0.0.9:51820" 51820 3) (demo_mapping "a" "10.0.0.1:51820" 51820 2)
           demo_proxy _ demo_proxy_inv eq_refl eq_refl).
  right. split_and!; vm_compute; reflexivity.
Defined.

Lemma failed_replacement_loses_route_witness :
  routes demo_proxy !! 51820 = Some (mkRoute "a" "team" "10.0.0.1:51820" 2) /\
  exists e p', ReconcileMappings os_second_fails [demo_mapping "a" "10.0.0.9:51820" 51820 3] demo_proxy = (Fail e, p') /\
    routes p' = delete 51820 (routes demo_proxy).
Proof.
  split; [vm_compute; reflexivity|].
  apply (failed_replacement_loses_route os_second_fails (demo_mapping "a" "10.0.0.9:51820" 51820 3) demo_proxy
           (mkRoute "a" "team" "10.0.0.1:51820" 2) demo_proxy_inv); [reflexivity..| |reflexivity].
  right. vm_compute. discriminate.
Defined.

Lemma ports_bound_iff_mapped_witness :
  let p := proxy_run os_ok [PAdd 51820 "10.0.0.1:51820" "a" "team"; PApply (demo_mapping "b" "10.0.0.2:51820" 51821 1); PRemove 51820]
             (NewUDPProxy 300) in
  port_bound 51821 (heap p) = true /\ is_Some (mappings p !! 51821) /\ ~ is_Some (mappings p !! 51820).
Proof.
  intros p.
  destruct (ports_bound_iff_mapped os_ok [PAdd 51820 "10.0.0.1:51820" "a" "team";
    PApply (demo_mapping "b" "10.0.0.2:51820" 51821 1); PRemove 51820] 300 51821) as (_ & Hb & _).
  { repeat constructor. discriminate. }
  destruct (ports_bound_iff_mapped os_ok [PAdd 51820 "10.0.0.1:51820" "a" "team";
    PApply (demo_mapping "b" "10.0.0.2:51820" 51821 1); PRemove 51820] 300 51820) as (_ & Hb' & _).
  { repeat constructor. discriminate. }
  split; [vm_compute; reflexivity|]. split.
  - apply Hb. split; [vm_compute; reflexivity|discriminate].
  - intros Hm. apply Hb' in Hm as [Hm _]. vm_compute in Hm. discriminate Hm.
Defined.

Lemma RemoveMapping_stops_witness :
  port_bound 51820 (heap demo_proxy) = true /\ port_bound 51820 (heap (RemoveMapping 51820 demo_proxy)) = false.
Proof.
  split; [vm_compute; reflexivity|].
  eapply (RemoveMapping_stops 51820 _ _ demo_proxy demo_proxy_inv); [vm_compute; reflexivity|reflexivity|discriminate].
Defined.
