(* ===== verification/DataPath.v ===== *)
(** * The packet path of the forwarder (pkg/forwarder/proxy.go: servePort,
      getOrCreateSession, pipeResponses, cleanupIdleSessions)

    Every mapping has a [servePort] goroutine and a cleanup ticker, every session
    a [pipeResponses] goroutine; they share the session map, the sessions and the
    sockets with the goroutine that changes mappings.  [fw_step] interleaves
    them.  A goroutine's step is what it does between two points where another
    one can run: [servePort] has a program counter ([pc]) for the points inside
    an iteration (the packet was read and its session must be created; the
    session is in hand and the packet must be written), the other goroutines run
    one iteration per step.  The network may fail any resolve, dial, read or
    write. *)

From S2P Require Import Prelude GoStd Proto Session Proxy.

(** Where a [servePort] goroutine is. *)
Inductive pc :=
| PcRead                                   (** blocked in [ReadFromUDP] *)
| PcCreate (client : string) (n : Z)       (** no session yet: resolve and dial *)
| PcForward (sp : nat) (client : string) (n : Z)  (** session in hand *)
| PcDone.

Definition DirectionClientToGateway : string := "client_to_gateway".
Definition DirectionGatewayToClient : string := "gateway_to_client".

Record fw := mkFw {
  px : UDPProxy;
  clock : Z;
  pcs : gmap nat pc;
  (** live [pipeResponses] goroutines: session, listener and session key *)
  pipes : gmap nat (nat * string);
  ActiveSessions : gmap (string * string) Z;
  PacketsTotal : gmap (string * string * string) Z;
  BytesTotal : gmap (string * string * string) Z;
}.

Definition set_px v x := mkFw v (clock x) (pcs x) (pipes x) (ActiveSessions x) (PacketsTotal x) (BytesTotal x).
Definition set_pc l v x := mkFw (px x) (clock x) (<[l := v]> (pcs x)) (pipes x) (ActiveSessions x) (PacketsTotal x) (BytesTotal x).

Definition add_metric {K} `{Countable K} (k : K) (d : Z) (g : gmap K Z) : gmap K Z :=
  <[k := default 0 (g !! k) + d]> g.

Definition labels (pl : portListener) : string * string := (tunnelName pl, tunnelNamespace pl).

(** Update the listener at [l]. *)
Definition with_sessions (l : nat) (f : gmap string nat -> gmap string nat) (p : UDPProxy) : UDPProxy :=
  set_listeners
    (alter (fun pl => mkListener (conn pl) (gateway pl) (revision pl) (tunnelName pl) (tunnelNamespace pl)
                        (f (sessions pl)) (cancelled pl)) l (listeners p)) p.

Definition count_packet (pl : portListener) (dir : string) (n : Z) (x : fw) : fw :=
  mkFw (px x) (clock x) (pcs x) (pipes x) (ActiveSessions x)
    (add_metric (tunnelName pl, tunnelNamespace pl, dir) 1 (PacketsTotal x))
    (add_metric (tunnelName pl, tunnelNamespace pl, dir) n (BytesTotal x)).

(** ** servePort *)

(** [ReadFromUDP] returned a packet: look the session up. *)
Definition serve_read (l : nat) (client : string) (n : Z) (pl : portListener) (x : fw) : fw :=
  match Get client (sessions pl) with
  | Some sp => set_pc l (PcForward sp client n) x
  | None => set_pc l (PcCreate client n) x
  end.

(** The rest of [getOrCreateSession] when resolve and dial succeed: a socket to
    the gateway, a session, its map entry, the gauge and its goroutine. *)
Definition serve_create (l : nat) (client : string) (n : Z) (pl : portListener) (x : fw) : fw :=
  let hp := heap (px x) in
  let h := next hp in
  let hp1 := mkHeap (<[h := mkConn (Dialed (gateway pl)) true]> (conns hp)) (sess hp) (S h) in
  let '(sp, hp2) := NewSession client h (clock x) hp1 in
  mkFw (with_sessions l (Set_ client sp) (set_heap hp2 (px x))) (clock x)
    (<[l := PcForward sp client n]> (pcs x)) (<[sp := (l, client)]> (pipes x))
    (add_metric (labels pl) 1 (ActiveSessions x)) (PacketsTotal x) (BytesTotal x).

(** [session.Touch(); session.upstreamConn.Write] succeeded *)
Definition serve_forward (l sp : nat) (n : Z) (pl : portListener) (x : fw) : fw :=
  set_pc l PcRead (count_packet pl DirectionClientToGateway n
    (set_px (set_heap (Touch sp (clock x) (heap (px x))) (px x)) x)).

(** [Write] failed: drop the session and close its socket *)
Definition serve_forward_fails (l sp : nat) (client : string) (x : fw) : fw :=
  let p := set_heap (Touch sp (clock x) (heap (px x))) (px x) in
  let p := with_sessions l (Delete client) p in
  set_pc l PcRead (set_px (set_heap (close_session sp (heap p)) p) x).

(** ** pipeResponses *)

Definition pipe_forward (sp : nat) (n : Z) (pl : portListener) (x : fw) : fw :=
  count_packet pl DirectionGatewayToClient n
    (set_px (set_heap (Touch sp (clock x) (heap (px x))) (px x)) x).

(** A read or write error ends the goroutine: the key is deleted, the socket
    closed, the gauge decremented.  [touched]: the error was the write's, after
    [Touch]. *)
Definition pipe_end (sp l : nat) (key : string) (pl : portListener) (touched : bool) (x : fw) : fw :=
  let p := if touched then set_heap (Touch sp (clock x) (heap (px x))) (px x) else px x in
  let p := with_sessions l (Delete key) p in
  mkFw (set_heap (close_session sp (heap p)) p) (clock x) (pcs x) (delete sp (pipes x))
    (add_metric (labels pl) (-1) (ActiveSessions x)) (PacketsTotal x) (BytesTotal x).

(** ** cleanupIdleSessions: one tick *)

Definition cleanup_tick (l : nat) (pl : portListener) (x : fw) : fw :=
  let '(ss, hp) := CleanupIdle (idleTimeout (px x)) (clock x) (sessions pl) (heap (px x)) in
  set_px (with_sessions l (fun _ => ss) (set_heap hp (px x))) x.

(** ** Steps *)

(** [go p.servePort(ctx, pl)] for the listeners a change of mappings started. *)
Definition spawn (x : fw) : fw :=
  mkFw (px x) (clock x) (pcs x ∪ set_to_map (fun l => (l, PcRead)) (started (px x))) (pipes x)
    (ActiveSessions x) (PacketsTotal x) (BytesTotal x).

Inductive fw_step (os_refuses : nat -> bool) (x : fw) : fw -> Prop :=
| fs_read l client n pl :
    pcs x !! l = Some PcRead -> listeners (px x) !! l = Some pl -> conn_open (conn pl) (heap (px x)) = true ->
    fw_step os_refuses x (serve_read l client n pl x)
| fs_read_exit l pl :
    pcs x !! l = Some PcRead -> listeners (px x) !! l = Some pl ->
    cancelled pl = true \/ conn_open (conn pl) (heap (px x)) = false ->
    fw_step os_refuses x (set_pc l PcDone x)
| fs_create l client n pl :
    pcs x !! l = Some (PcCreate client n) -> listeners (px x) !! l = Some pl ->
    fw_step os_refuses x (serve_create l client n pl x)
| fs_create_fails l client n :
    pcs x !! l = Some (PcCreate client n) ->
    fw_step os_refuses x (set_pc l PcRead x)
| fs_forward l sp client n pl s :
    pcs x !! l = Some (PcForward sp client n) -> listeners (px x) !! l = Some pl ->
    sess (heap (px x)) !! sp = Some s -> conn_open (upstreamConn s) (heap (px x)) = true ->
    fw_step os_refuses x (serve_forward l sp n pl x)
| fs_forward_fails l sp client n :
    pcs x !! l = Some (PcForward sp client n) ->
    fw_step os_refuses x (serve_forward_fails l sp client x)
| fs_pipe sp l key pl s n :
    pipes x !! sp = Some (l, key) -> listeners (px x) !! l = Some pl -> sess (heap (px x)) !! sp = Some s ->
    conn_open (upstreamConn s) (heap (px x)) = true -> conn_open (conn pl) (heap (px x)) = true ->
    fw_step os_refuses x (pipe_forward sp n pl x)
| fs_pipe_end sp l key pl touched :
    pipes x !! sp = Some (l, key) -> listeners (px x) !! l = Some pl ->
    fw_step os_refuses x (pipe_end sp l key pl touched x)
| fs_cleanup l pl :
    listeners (px x) !! l = Some pl -> cancelled pl = false ->
    fw_step os_refuses x (cleanup_tick l pl x)
| fs_time d :
    0 <= d ->
    fw_step os_refuses x (mkFw (px x) (clock x + d) (pcs x) (pipes x) (ActiveSessions x) (PacketsTotal x) (BytesTotal x))
| fs_control o :
    fw_step os_refuses x (spawn (set_px (proxy_exec os_refuses o (px x)) x)).

Definition fw_init (timeout now : Z) : fw := mkFw (NewUDPProxy timeout) now ∅ ∅ ∅ ∅ ∅.

Definition fw_reachable (os_refuses : nat -> bool) (x : fw) : Prop :=
  exists timeout now, rtc (fw_step os_refuses) (fw_init timeout now) x.

(** ** What a change of mappings does to the packet path *)

Definition same_static (pl pl' : portListener) : Prop :=
  conn pl' = conn pl /\ gateway pl' = gateway pl /\ labels pl' = labels pl.

(** [p'] is [p] after mapping changes: sessions are the same, listeners keep
    their gateway and only lose sessions, new ones have none, and upstream
    sockets are at most closed. *)
Record px_ext (p p' : UDPProxy) : Prop := {
  pe_sess : sess (heap p') = sess (heap p);
  pe_kind : forall h k, kind_of (heap p) h = Some k -> kind_of (heap p') h = Some k;
  pe_dialed : forall h a, kind_of (heap p') h = Some (Dialed a) ->
    kind_of (heap p) h = Some (Dialed a) /\ (conn_open h (heap p') = true -> conn_open h (heap p) = true);
  pe_keep : forall l pl, listeners p !! l = Some pl ->
    exists pl', listeners p' !! l = Some pl' /\ same_static pl pl';
  pe_sessions : forall l pl' key sp, listeners p' !! l = Some pl' -> sessions pl' !! key = Some sp ->
    exists pl, listeners p !! l = Some pl /\ sessions pl !! key = Some sp;
}.

#[export] Instance px_ext_preorder : PreOrder px_ext.
Proof.
  split.
  - intros p. split; eauto. intros l pl Hl. exists pl. by split_and!.
  - intros p q r [A1 A2 A3 A4 A5] [B1 B2 B3 B4 B5]. split.
    + congruence.
    + eauto.
    + intros h a Hr. destruct (B3 h a Hr) as [Hq Ho]. destruct (A3 h a Hq) as [Hp Ho']. auto.
    + intros l pl Hl. destruct (A4 l pl Hl) as (pl1 & H1 & E1). destruct (B4 l pl1 H1) as (pl2 & H2 & E2).
      exists pl2. split; [done|]. destruct E1 as (?&?&?), E2 as (?&?&?). split_and!; congruence.
    + intros l pl' key sp Hl Hs. destruct (B5 l pl' key sp Hl Hs) as (pl1 & H1 & E1). eauto.
Qed.

Lemma RemoveMapping_ext port p : proxy_inv p -> px_ext p (RemoveMapping port p).
Proof.
  intros Hinv. unfold RemoveMapping. destruct (mappings p !! port) as [ptr|] eqn:Hm; [|reflexivity].
  destruct (pi_live p Hinv _ _ Hm) as (pl & Hpl & _).
  set (p1 := set_mappings (delete port (mappings p)) p).
  destruct (shutdown_heap ptr p1) as (Hsess & _ & Hkind & _).
  pose proof (fun i => shutdown_listeners ptr pl p1 i Hpl) as Hls. split.
  - done.
  - intros h k. by rewrite Hkind.
  - intros h a. rewrite Hkind. split; [done|]. unfold shutdown_listener. simpl. rewrite Hpl.
    destruct (CloseAll _ _) as [ss hp] eqn:E. simpl. change hp with (ss, hp).2. rewrite <- E, CloseAll_conns, conn_open_close_conn.
    rewrite andb_true_iff. tauto.
  - intros l pl0 Hl. rewrite Hls. case_bool_decide; [subst|by eexists].
    eexists. split; [done|]. simpl in Hl. by simplify_eq.
  - intros l pl' key sp. rewrite Hls. case_bool_decide.
    + intros [= <-]. simpl. by rewrite lookup_empty.
    + simpl. eauto.
Qed.

Lemma installed_ext port gw name ns rev p : proxy_inv p -> px_ext p (installed port gw name ns rev p).
Proof.
  intros Hinv. set (h := next (heap p)).
  pose proof (pi_fresh p Hinv h (Nat.le_refl _)) as (Hc & _ & _).
  pose proof (pi_fresh p Hinv (S h) (Nat.le_succ_diag_r _)) as (_ & Hl & _).
  split; unfold kind_of, conn_open; simpl; fold h.
  - done.
  - intros i k Hk. rewrite lookup_insert_ne; [done|]. intros <-. by rewrite Hc in Hk.
  - intros i a. rewrite lookup_insert. case_decide; [|done]. simpl. unfold listen_kind. by case_bool_decide.
  - intros l pl Hpl. exists pl. rewrite lookup_insert_ne by congruence. by split_and!.
  - intros l pl' key sp. rewrite lookup_insert. case_decide; [|eauto].
    intros [= <-]. simpl. by rewrite lookup_empty.
Qed.

Section ext.
Context (os_refuses : nat -> bool).

Lemma install_ext port gw name ns rev p :
  proxy_inv p -> mappings p !! port = None -> px_ext p (install os_refuses port gw name ns rev p).2.
Proof.
  intros Hinv Hm. unfold install, mbind, ST_bind, wrap_err, ListenUDP.
  rewrite (unmapped_unbound port p Hinv Hm), orb_false_r.
  destruct (_ || bool_decide (65535 < port)); simpl.
  - split; simpl; eauto. intros l pl Hl. exists pl. by split_and!.
  - unfold publish_listener. simpl. rewrite Hm. by apply installed_ext.
Qed.

Lemma refresh_ext port ptr rev p : px_ext p (refresh_revision port ptr rev p).
Proof.
  unfold refresh_revision. destruct (mappings p !! port) as [q|]; [|reflexivity].
  case_bool_decide; [|reflexivity]. split; simpl; eauto.
  - intros l pl Hl. rewrite lookup_alter. case_decide; subst; [|by exists pl].
    rewrite Hl. simpl. eexists. split; [done|]. by case_match.
  - intros l pl' key sp. rewrite lookup_alter. case_decide; subst; [|eauto].
    destruct (listeners p !! l) as [pl|]; [|done]. simpl. intros [= <-] Hs. exists pl. split; [done|].
    by case_bool_decide.
Qed.

Lemma addMapping_ext port gw name ns rev p :
  proxy_inv p -> px_ext p (addMapping os_refuses port gw name ns rev p).2.
Proof.
  intros Hinv. unfold addMapping. destruct (mappings p !! port) as [ptr|] eqn:Hm; simpl.
  - destruct (listeners p !! ptr) as [pl|] eqn:Hpl; simpl.
    + case_match; simpl; [reflexivity|]. case_match; simpl; [apply refresh_ext|].
      etrans; [by apply RemoveMapping_ext|]. apply install_ext; [by apply RemoveMapping_inv|].
      by rewrite RemoveMapping_mappings, lookup_delete_eq.
    + destruct (pi_live p Hinv _ _ Hm) as (pl & Hpl' & _). congruence.
  - by apply install_ext.
Qed.

Lemma remove_ports_ext ports p : proxy_inv p -> px_ext p (remove_ports ports p).
Proof.
  revert p. induction ports as [|port ports IH]; intros p Hinv; simpl; [reflexivity|].
  etrans; [by apply RemoveMapping_ext|]. apply IH. auto with golib.
Qed.

Lemma ApplyMapping_ext m p : proxy_inv p -> px_ext p (ApplyMapping os_refuses m p).2.
Proof. intros. unfold ApplyMapping. case_match; [reflexivity|by apply addMapping_ext]. Qed.

Lemma ApplyMapping_inv m p : proxy_inv p -> proxy_inv (ApplyMapping os_refuses m p).2.
Proof. intros. unfold ApplyMapping. case_match; [done|by apply addMapping_inv]. Qed.

Lemma apply_snapshot_ext ms d p : proxy_inv p -> px_ext p (apply_snapshot os_refuses ms d p).2.
Proof.
  revert d p. induction ms as [|m ms IH]; intros d p Hinv; simpl; [reflexivity|].
  case_match; [by apply IH|]. unfold mbind, ST_bind, wrap_err.
  pose proof (ApplyMapping_ext m p Hinv) as He. pose proof (ApplyMapping_inv m p Hinv) as Hi.
  destruct (ApplyMapping os_refuses m p) as [[[]|e] p1]; simpl in *; [|done].
  etrans; [exact He|]. by apply IH.
Qed.

Lemma proxy_exec_ext o p : proxy_inv p -> px_ext p (proxy_exec os_refuses o p).
Proof.
  intros Hinv. destruct o as [port gw name ns|m|ms|port|v|e]; simpl.
  - by apply addMapping_ext.
  - by apply ApplyMapping_ext.
  - unfold ReconcileMappings, mbind, ST_bind.
    pose proof (apply_snapshot_ext ms ∅ p Hinv) as He.
    pose proof (apply_snapshot_refines os_refuses ms ∅ p Hinv) as Hi.
    destruct (apply_snapshot os_refuses ms ∅ p) as [[d|e] p1]; simpl in *; [|done].
    etrans; [exact He|]. apply remove_ports_ext, Hi.
  - by apply RemoveMapping_ext.
  - split; simpl; eauto. intros l pl Hl. exists pl. by split_and!.
  - unfold Stop. destruct e; simpl; [reflexivity|]. by apply remove_ports_ext.
Qed.
End ext.

(** ** Invariant of the packet path *)

(** The session [sp] serves the client [key] of the listener [l]: its socket is
    dialed to the listener's gateway. *)
Definition session_ok (p : UDPProxy) (sp l : nat) (key : string) : Prop :=
  exists pl s, listeners p !! l = Some pl /\ sess (heap p) !! sp = Some s /\ clientAddr s = key /\
    kind_of (heap p) (upstreamConn s) = Some (Dialed (gateway pl)).

Definition session_id (s : Session) : string * nat := (clientAddr s, upstreamConn s).

(** Live response goroutines of a tunnel. *)
Definition live_pipes (x : fw) (lab : string * string) : gmap nat (nat * string) :=
  filter (fun e => labels <$> listeners (px x) !! e.2.1 = Some lab) (pipes x).

Record fw_inv (x : fw) : Prop := {
  fi_px : proxy_inv (px x);
  fi_map : forall l pl key sp, listeners (px x) !! l = Some pl -> sessions pl !! key = Some sp ->
    pipes x !! sp = Some (l, key);
  fi_pipe : forall sp l key, pipes x !! sp = Some (l, key) -> session_ok (px x) sp l key;
  fi_fwd : forall l sp client n, pcs x !! l = Some (PcForward sp client n) -> session_ok (px x) sp l client;
  fi_dialed : forall h a, kind_of (heap (px x)) h = Some (Dialed a) -> conn_open h (heap (px x)) = true ->
    exists sp, owns (heap (px x)) sp h /\ is_Some (pipes x !! sp);
  fi_inj : forall sp sp' h, owns (heap (px x)) sp h -> owns (heap (px x)) sp' h -> sp = sp';
  fi_gauge : forall lab, default 0 (ActiveSessions x !! lab) = Z.of_nat (size (live_pipes x lab));
}.

(** [p'] is [p] after packet handling: timestamps moved, sessions dropped from
    maps, upstream sockets closed; nothing else. *)
Record px_data (p p' : UDPProxy) : Prop := {
  pd_mappings : mappings p' = mappings p;
  pd_started : started p' = started p;
  pd_next : next (heap p') = next (heap p);
  pd_kind : forall h, kind_of (heap p') h = kind_of (heap p) h;
  pd_listening : forall h q, listening (heap p) h q -> conn_open h (heap p') = true;
  pd_open : forall h, conn_open h (heap p') = true -> conn_open h (heap p) = true;
  pd_sess : forall sp, session_id <$> sess (heap p') !! sp = session_id <$> sess (heap p) !! sp;
  pd_listeners : forall l, match listeners p !! l, listeners p' !! l with
    | Some pl, Some pl' => same_static pl pl' /\ cancelled pl' = cancelled pl /\
                           (forall key sp, sessions pl' !! key = Some sp -> sessions pl !! key = Some sp)
    | None, None => True
    | _, _ => False
    end;
}.

#[export] Instance px_data_preorder : PreOrder px_data.
Proof.
  split.
  - intros p. split; try done; [by intros h q []|]. intros l. destruct (listeners p !! l); [|done]. by split_and!.
  - intros p q r [A1 A2 A3 A4 A5 A6 A7 A8] [B1 B2 B3 B4 B5 B6 B7 B8].
    split; [congruence..| | |by eauto| |].
    + intros h. by rewrite B4.
    + intros h port Hl. apply (B5 h port). split; [rewrite A4; apply Hl|by eapply A5].
    + intros sp. by rewrite B7.
    + intros l. specialize (A8 l). specialize (B8 l).
      destruct (listeners p !! l), (listeners q !! l), (listeners r !! l); try done.
      destruct A8 as ((?&?&?) & ? & ?), B8 as ((?&?&?) & ? & ?). unfold same_static. split_and!; try congruence; eauto.
Qed.

Lemma px_data_listener p p' l pl :
  px_data p p' -> listeners p !! l = Some pl -> exists pl', listeners p' !! l = Some pl' /\ same_static pl pl' /\
    cancelled pl' = cancelled pl.
Proof. intros [_ _ _ _ _ _ _ H] Hl. specialize (H l). rewrite Hl in H. destruct (listeners p' !! l); naive_solver. Qed.

Lemma px_data_listener_back p p' l pl' :
  px_data p p' -> listeners p' !! l = Some pl' -> exists pl, listeners p !! l = Some pl /\ same_static pl pl' /\
    (forall key sp, sessions pl' !! key = Some sp -> sessions pl !! key = Some sp).
Proof. intros [_ _ _ _ _ _ _ H] Hl. specialize (H l). rewrite Hl in H. destruct (listeners p !! l); naive_solver. Qed.

Lemma px_data_sess p p' sp s' :
  px_data p p' -> sess (heap p') !! sp = Some s' -> exists s, sess (heap p) !! sp = Some s /\ session_id s' = session_id s.
Proof.
  intros H Hs. pose proof (pd_sess p p' H sp) as E. rewrite Hs in E. simpl in E.
  destruct (sess (heap p) !! sp) as [s|]; [|done]. injection E as ?. exists s. split; [done|]. unfold session_id. congruence.
Qed.

Lemma px_data_sess_fwd p p' sp s :
  px_data p p' -> sess (heap p) !! sp = Some s -> exists s', sess (heap p') !! sp = Some s' /\ session_id s' = session_id s.
Proof.
  intros H Hs. pose proof (pd_sess p p' H sp) as E. rewrite Hs in E. simpl in E.
  destruct (sess (heap p') !! sp) as [s'|]; [|done]. exists s'. injection E as ? ?. unfold session_id. by split; [|congruence].
Qed.

Lemma px_data_owns p p' sp h : px_data p p' -> owns (heap p') sp h <-> owns (heap p) sp h.
Proof.
  intros H. split.
  - intros (s' & Hs' & <-). destruct (px_data_sess p p' sp s' H Hs') as (s & Hs & E).
    exists s. split; [done|]. unfold session_id in E. congruence.
  - intros (s & Hs & <-). destruct (px_data_sess_fwd p p' sp s H Hs) as (s' & Hs' & E).
    exists s'. split; [done|]. unfold session_id in E. congruence.
Qed.

Lemma px_data_session_ok p p' sp l key : px_data p p' -> session_ok p sp l key -> session_ok p' sp l key.
Proof.
  intros H (pl & s & Hl & Hs & Hc & Hk).
  destruct (px_data_listener p p' l pl H Hl) as (pl' & Hl' & (_ & Hg & _) & _).
  destruct (px_data_sess_fwd p p' sp s H Hs) as (s' & Hs' & E). unfold session_id in E.
  exists pl', s'. rewrite (pd_kind p p' H), Hg. split_and!; congruence.
Qed.

Lemma px_data_inv p p' : px_data p p' -> proxy_inv p -> proxy_inv p'.
Proof.
  intros H Hinv.
  assert (forall h q, listening (heap p') h q <-> listening (heap p) h q) as Hlst.
  { intros h q. unfold listening. rewrite (pd_kind p p' H). split; intros [Hk Ho]; split; auto.
    - by apply (pd_open p p' H).
    - by apply (pd_listening p p' H h q). }
  split.
  - rewrite (pd_mappings p p' H). intros port ptr Hm. destruct (pi_live p Hinv _ _ Hm) as (pl & Hl & Hc & Hst & Hlis).
    destruct (px_data_listener p p' ptr pl H Hl) as (pl' & Hl' & (Hcn & _ & _) & Hc').
    exists pl'. rewrite (pd_started p p' H), Hlst, Hcn. split_and!; congruence.
  - intros h port Hh. apply Hlst, (pi_bound p Hinv) in Hh as (ptr & pl & Hm & Hl & <-).
    destruct (px_data_listener p p' ptr pl H Hl) as (pl' & Hl' & (Hcn & _ & _) & _).
    exists ptr, pl'. by rewrite (pd_mappings p p' H).
  - intros sp s' q Hs'. destruct (px_data_sess p p' sp s' H Hs') as (s & Hs & E). rewrite (pd_kind p p' H).
    injection E as _ ->. by eapply (pi_sess p Hinv).
  - rewrite (pd_next p p' H). intros i Hi. destruct (pi_fresh p Hinv i Hi) as (Hc & Hl & Hs).
    rewrite <- kind_of_None, (pd_kind p p' H), kind_of_None. split_and!; [done| |].
    + pose proof (pd_listeners p p' H i) as E. rewrite Hl in E. by destruct (listeners p' !! i).
    + pose proof (pd_sess p p' H i) as E. rewrite Hs in E. by destruct (sess (heap p') !! i).
  - rewrite (pd_next p p' H). intros sp s' Hs'. destruct (px_data_sess p p' sp s' H Hs') as (s & Hs & E).
    injection E as _ ->. by eapply (pi_sess_conn p Hinv).
Qed.

(** The primitive changes of packet handling. *)

Lemma px_data_touch sp now p : px_data p (set_heap (Touch sp now (heap p)) p).
Proof.
  split; simpl; try done; [by intros h q []| |].
  - intros i. rewrite lookup_alter. case_decide; subst; [|done]. by destruct (sess (heap p) !! i).
  - intros l. destruct (listeners p !! l); [|done]. by split_and!.
Qed.

Lemma px_data_sessions l f p :
  (forall pl key sp, listeners p !! l = Some pl -> f (sessions pl) !! key = Some sp -> sessions pl !! key = Some sp) ->
  px_data p (with_sessions l f p).
Proof.
  intros Hf. split; simpl; try done; [by intros h q []|].
  intros i. rewrite lookup_alter. case_decide as E; subst; [|destruct (listeners p !! i); [by split_and!|done]].
  destruct (listeners p !! i) as [pl|] eqn:Hl; [|done]. simpl. split_and!; try done. eauto.
Qed.

Lemma px_data_delete l key p : px_data p (with_sessions l (Delete key) p).
Proof. apply px_data_sessions. unfold Delete. intros pl k sp _ Hk. by apply lookup_delete_Some in Hk as [_ Hk]. Qed.

(** Closing upstream sockets: every closed socket belongs to a session. *)
Lemma px_data_heap hp p :
  proxy_inv p -> next hp = next (heap p) -> sess hp = sess (heap p) ->
  (forall h, kind_of hp h = kind_of (heap p) h) ->
  (forall h, conn_open h hp = true -> conn_open h (heap p) = true) ->
  (forall h, conn_open h (heap p) = true -> conn_open h hp = false -> exists sp, owns (heap p) sp h) ->
  px_data p (set_heap hp p).
Proof.
  intros Hinv Hn Hs Hk Ho Hc. split; simpl; try done.
  - intros h q [Hkq Hop]. destruct (conn_open h hp) eqn:E; [done|].
    destruct (Hc h Hop E) as (sp & s & Hsp & <-). by destruct (pi_sess p Hinv sp s q Hsp).
  - intros sp. by rewrite Hs.
  - intros l. destruct (listeners p !! l); [|done]. by split_and!.
Qed.

Lemma px_data_close_session sp p : proxy_inv p -> px_data p (set_heap (close_session sp (heap p)) p).
Proof.
  intros Hinv. apply px_data_heap; [done|apply close_session_next|apply close_session_sess|..].
  - intros h. apply kind_of_close_session.
  - intros h. rewrite conn_open_close_session, andb_true_iff. tauto.
  - intros h Ho. rewrite conn_open_close_session, Ho. simpl. rewrite negb_false_iff, bool_decide_eq_true. eauto.
Qed.

Lemma CleanupIdle_next timeout now (m : gmap string nat) hp :
  next (CleanupIdle timeout now m hp).2 = next hp /\ forall h, kind_of (CleanupIdle timeout now m hp).2 h = kind_of hp h.
Proof.
  unfold CleanupIdle. generalize (map_to_list m), (now - timeout). intros l c. revert m hp.
  induction l as [|[k sp] l IH]; intros m hp; [done|]. rewrite cleanup_loop_cons.
  unfold cleanup_entry. simpl. case_match; [apply IH|]. destruct (IH (delete k m) (close_session sp hp)) as [E1 E2].
  rewrite E1, close_session_next. split; [done|]. intros h. by rewrite E2, kind_of_close_session.
Qed.

(** A cleanup of the sessions of listener [l]. *)
Lemma px_data_cleanup l pl timeout now p :
  proxy_inv p -> listeners p !! l = Some pl ->
  px_data p (with_sessions l (fun _ => (CleanupIdle timeout now (sessions pl) (heap p)).1)
               (set_heap (CleanupIdle timeout now (sessions pl) (heap p)).2 p)).
Proof.
  intros Hinv Hl. destruct (CleanupIdle_next timeout now (sessions pl) (heap p)) as [Hn Hk].
  assert ((forall key ptr, (CleanupIdle timeout now (sessions pl) (heap p)).1 !! key = Some ptr -> sessions pl !! key = Some ptr) /\
          (forall h, conn_open h (CleanupIdle timeout now (sessions pl) (heap p)).2 = true -> conn_open h (heap p) = true) /\
          (forall h, conn_open h (heap p) = true -> conn_open h (CleanupIdle timeout now (sessions pl) (heap p)).2 = false ->
             exists sp, owns (heap p) sp h) /\
          sess (CleanupIdle timeout now (sessions pl) (heap p)).2 = sess (heap p)) as (H1 & H2 & H3 & H4).
  { unfold CleanupIdle. set (c := now - timeout). split_and!.
    - intros key ptr. rewrite cleanup_loop_map. tauto.
    - intros h. rewrite cleanup_loop_conns. tauto.
    - intros h Ho Hc. apply not_true_iff_false in Hc. rewrite cleanup_loop_conns in Hc.
      destruct (decide (Exists (fun e => owns (heap p) e.2 h) (map_to_list (sessions pl)))) as [He|He].
      + apply Exists_exists in He as (e & _ & He). eauto.
      + destruct Hc. split; [done|]. intros k sp Hin Hown. destruct He. apply Exists_exists. by exists (k, sp).
    - apply cleanup_loop_sess. }
  etrans; [by apply px_data_heap|]. apply px_data_sessions. intros pl' key sp Hl'. simpl in Hl'. simplify_eq. apply H1.
Qed.

(** Packet handling that keeps the goroutines keeps the invariant. *)
Lemma fw_inv_data x p' pcs' clock' pk by_ :
  fw_inv x -> px_data (px x) p' ->
  (forall l sp client n, pcs' !! l = Some (PcForward sp client n) -> session_ok (px x) sp l client) ->
  fw_inv (mkFw p' clock' pcs' (pipes x) (ActiveSessions x) pk by_).
Proof.
  intros Hinv H Hpc. split; simpl.
  - eapply px_data_inv; [done|apply Hinv].
  - intros l pl' key sp Hl Hs. destruct (px_data_listener_back _ _ _ _ H Hl) as (pl & Hl0 & _ & Hsub).
    by eapply (fi_map x Hinv), Hsub.
  - intros sp l key Hp. eapply px_data_session_ok; [done|by apply (fi_pipe x Hinv)].
  - intros l sp client n Hp. eapply px_data_session_ok; [done|by eapply Hpc].
  - intros h a. rewrite (pd_kind _ _ H). intros Hk Ho. apply (pd_open _ _ H) in Ho.
    destruct (fi_dialed x Hinv h a Hk Ho) as (sp & Hown & Hp). exists sp. by rewrite (px_data_owns _ _ _ _ H).
  - intros sp sp' h. rewrite !(px_data_owns _ _ _ _ H). apply (fi_inj x Hinv).
  - intros lab. rewrite (fi_gauge x Hinv). do 2 f_equal. unfold live_pipes. simpl. apply map_filter_ext.
    intros sp [l key] _. simpl. pose proof (pd_listeners _ _ H l) as E.
    destruct (listeners (px x) !! l), (listeners p' !! l); try done. simpl. destruct E as ((_ & _ & ->) & _). done.
Qed.

Lemma pcs_insert_other x l v l' sp client n :
  fw_inv x -> (forall sp client n, v <> PcForward sp client n) ->
  <[l := v]> (pcs x) !! l' = Some (PcForward sp client n) -> session_ok (px x) sp l' client.
Proof.
  intros Hinv Hv. rewrite lookup_insert. case_decide; [intros [= ->]; by destruct (Hv sp client n)|].
  apply (fi_fwd x Hinv).
Qed.

(** *** Creating a session *)

Section create.
Context (x : fw) (l : nat) (client : string) (n : Z) (pl : portListener).
Context (Hinv : fw_inv x) (Hl : listeners (px x) !! l = Some pl).

Let h := next (heap (px x)).
Let p' := px (serve_create l client n pl x).

Lemma create_conns i : conns (heap p') !! i = if decide (h = i) then Some (mkConn (Dialed (gateway pl)) true) else conns (heap (px x)) !! i.
Proof. unfold p', serve_create. simpl. by rewrite lookup_insert. Qed.

Lemma create_sess i : sess (heap p') !! i = if decide (S h = i) then Some (mkSession client h (clock x)) else sess (heap (px x)) !! i.
Proof. unfold p', serve_create. simpl. by rewrite lookup_insert. Qed.

Lemma create_fresh : conns (heap (px x)) !! h = None /\ sess (heap (px x)) !! S h = None.
Proof.
  pose proof (pi_fresh _ (fi_px x Hinv) h (Nat.le_refl _)). pose proof (pi_fresh _ (fi_px x Hinv) (S h) (Nat.le_succ_diag_r _)).
  tauto.
Qed.

Lemma create_listener i : listeners p' !! i =
  (fun pl => mkListener (conn pl) (gateway pl) (revision pl) (tunnelName pl) (tunnelNamespace pl)
     (if decide (l = i) then <[client := S h]> (sessions pl) else sessions pl) (cancelled pl)) <$> listeners (px x) !! i.
Proof.
  unfold p', serve_create. simpl. rewrite lookup_alter. case_decide; [by subst|].
  by destruct (listeners (px x) !! i) as [[]|].
Qed.

Lemma create_session_ok sp i key : session_ok (px x) sp i key -> session_ok p' sp i key.
Proof.
  destruct create_fresh as [Hc Hs]. intros (pl0 & s & Hl0 & Hs0 & <- & Hk).
  unfold session_ok. rewrite create_listener, Hl0, create_sess. simpl.
  rewrite (decide_False (P := S h = sp)) by congruence. eexists _, s. split_and!; [done..|].
  unfold kind_of in *. rewrite create_conns, decide_False; [done|]. intros E. rewrite <- E in Hk. by rewrite Hc in Hk.
Qed.

Lemma create_session_new : session_ok p' (S h) l client.
Proof.
  unfold session_ok. rewrite create_listener, Hl, create_sess, (decide_True (P := S h = S h)) by done. eexists _, _. split_and!; [done..|].
  unfold kind_of. simpl. by rewrite create_conns, decide_True.
Qed.

Lemma create_owns sp i : owns (heap p') sp i <-> (sp = S h /\ i = h) \/ (sp <> S h /\ owns (heap (px x)) sp i).
Proof.
  unfold owns. rewrite create_sess. case_decide; subst; split; intros; naive_solver.
Qed.

Lemma create_proxy_inv : proxy_inv p'.
Proof.
  destruct create_fresh as [Hc Hs]. pose proof (fi_px x Hinv) as Hp.
  assert (forall i q, listening (heap p') i q <-> listening (heap (px x)) i q) as Hlst.
  { intros i q. unfold listening, kind_of, conn_open. rewrite create_conns. case_decide; subst; [|done].
    rewrite Hc. simpl. unfold listen_kind. case_bool_decide; naive_solver. }
  split.
  - intros port ptr Hm. destruct (pi_live _ Hp port ptr Hm) as (pl0 & Hl0 & Hcn & Hst & Hli).
    rewrite create_listener, Hl0. eexists. split_and!; [done..|]. by apply Hlst.
  - intros i q Hi. apply Hlst, (pi_bound _ Hp) in Hi as (ptr & pl0 & Hm & Hl0 & <-).
    exists ptr. rewrite create_listener, Hl0. by eexists.
  - intros sp s q. rewrite create_sess. case_decide; subst.
    + intros [= <-]. unfold kind_of. simpl. rewrite create_conns, decide_True by done. simpl. unfold listen_kind. by case_bool_decide.
    + intros Hsp. pose proof (pi_sess_conn _ Hp sp s Hsp). unfold kind_of. rewrite create_conns.
      rewrite decide_False by (unfold h; lia). by eapply (pi_sess _ Hp).
  - intros i Hi. assert (S (S h) <= i)%nat as Hi' by exact Hi.
    destruct (pi_fresh _ Hp i) as (E1 & E2 & E3); [fold h; lia|].
    rewrite create_conns, create_listener, create_sess, !decide_False, E1, E2, E3 by lia. done.
  - intros sp s Hsp. change (next (heap p')) with (S (S h)). rewrite create_sess in Hsp.
    case_decide; [injection Hsp as <-; simpl; lia|]. pose proof (pi_sess_conn _ Hp sp s Hsp). fold h in H0. lia.
Qed.

Lemma create_live_pipes lab :
  pipes x !! S h = None ->
  live_pipes (serve_create l client n pl x) lab =
    if decide (labels pl = lab) then <[S h := (l, client)]> (live_pipes x lab) else live_pipes x lab.
Proof.
  intros Hnp. unfold live_pipes. fold p'.
  assert (forall i, labels <$> listeners p' !! i = labels <$> listeners (px x) !! i) as E.
  { intros i. rewrite create_listener. by destruct (listeners (px x) !! i). }
  apply map_eq. intros sp. apply option_eq. intros v. rewrite map_lookup_filter_Some, E. simpl.
  rewrite lookup_insert. fold h. destruct (decide (labels pl = lab)) as [Hlab|Hlab].
  - rewrite lookup_insert. case_decide; [|by rewrite map_lookup_filter_Some].
    split; [naive_solver|]. intros [= <-]. simpl. rewrite Hl. simpl. by rewrite Hlab.
  - rewrite map_lookup_filter_Some. case_decide as Hsp; [|done]. split; [|rewrite <- Hsp; naive_solver].
    intros [[= <-] Hv]. simpl in Hv. rewrite Hl in Hv. by injection Hv as Hv.
Qed.

Lemma create_fw_inv : fw_inv (serve_create l client n pl x).
Proof.
  destruct create_fresh as [Hc Hs].
  assert (pipes x !! S h = None) as Hnp.
  { destruct (pipes x !! S h) as [[l0 k0]|] eqn:E; [|done].
    destruct (fi_pipe x Hinv _ _ _ E) as (pl0 & s & _ & Hs0 & _). congruence. }
  split; fold p'.
  - apply create_proxy_inv.
  - intros i pl' key sp. rewrite create_listener. simpl. rewrite lookup_insert.
    destruct (listeners (px x) !! i) as [pl0|] eqn:Hi; [|done]. simpl. intros [= <-]. simpl.
    destruct (decide (l = i)) as [<-|Hne].
    + rewrite lookup_insert. case_decide; [intros [= <-]; subst; by rewrite decide_True|].
      intros Hsp. pose proof (fi_map x Hinv _ _ _ _ Hi Hsp). rewrite decide_False; [done|].
      fold h. congruence.
    + intros Hsp. pose proof (fi_map x Hinv _ _ _ _ Hi Hsp). rewrite decide_False; [done|].
      fold h. congruence.
  - intros sp i key. simpl. rewrite lookup_insert. case_decide as E.
    + intros [= <- <-]. rewrite <- E. apply create_session_new.
    + intros Hp. by apply create_session_ok, (fi_pipe x Hinv).
  - intros i sp c m. simpl. rewrite lookup_insert. case_decide as E.
    + intros [= <- <- <-]. rewrite <- E. apply create_session_new.
    + intros Hp. by eapply create_session_ok, (fi_fwd x Hinv).
  - intros i a. unfold kind_of, conn_open. rewrite create_conns. case_decide as E.
    + intros _ _. exists (S h). rewrite create_owns. split; [naive_solver|]. simpl. rewrite lookup_insert_eq. eauto.
    + intros Hk Ho. destruct (fi_dialed x Hinv i a Hk Ho) as (sp & Hown & Hp). exists sp.
      assert (sp <> S h) by (intros ->; destruct Hp; congruence). rewrite create_owns. split; [naive_solver|].
      simpl. by rewrite lookup_insert_ne.
  - assert (forall sp, ~ owns (heap (px x)) sp h) as Hno.
    { intros sp (s & Hsp & E). pose proof (pi_sess_conn _ (fi_px x Hinv) sp s Hsp). fold h in H. lia. }
    intros sp sp' i. rewrite !create_owns. intros [[-> ->]|[? ?]] [[-> E]|[? ?]]; subst; try done.
    + by destruct (Hno sp').
    + by destruct (Hno sp).
    + by eapply (fi_inj x Hinv).
  - intros lab. rewrite create_live_pipes by done. simpl. unfold add_metric. rewrite lookup_insert.
    case_decide as Hlab; [|apply (fi_gauge x Hinv)]. simpl.
    rewrite map_size_insert_None, (fi_gauge x Hinv), Hlab; [lia|].
    unfold live_pipes. apply map_lookup_filter_None. by left.
Qed.
End create.

(** *** The end of a response goroutine *)

Lemma drop_pipe_inv y sp l key pl :
  fw_inv y -> pipes y !! sp = Some (l, key) -> listeners (px y) !! l = Some pl -> sessions pl !! key = None ->
  (forall h, owns (heap (px y)) sp h -> conn_open h (heap (px y)) = false) ->
  fw_inv (mkFw (px y) (clock y) (pcs y) (delete sp (pipes y)) (add_metric (labels pl) (-1) (ActiveSessions y))
            (PacketsTotal y) (BytesTotal y)).
Proof.
  intros Hinv Hp Hl Hk Hc. pose proof Hinv as [I1 I2 I3 I4 I5 I6 I7]. split; simpl; try done.
  - intros l' pl' key' sp' Hl' Hs. pose proof (I2 _ _ _ _ Hl' Hs) as E. rewrite lookup_delete_ne; [done|].
    intros <-. congruence.
  - intros sp' l' key' Hp'. apply lookup_delete_Some in Hp' as [_ Hp']. by apply I3.
  - intros h a Hkind Ho. destruct (I5 h a Hkind Ho) as (sp' & Hown & Hsome). exists sp'. split; [done|].
    rewrite lookup_delete_ne; [done|]. intros <-. rewrite Hc in Ho; [done..].
  - intros lab. assert (live_pipes (mkFw (px y) (clock y) (pcs y) (delete sp (pipes y))
        (add_metric (labels pl) (-1) (ActiveSessions y)) (PacketsTotal y) (BytesTotal y)) lab = delete sp (live_pipes y lab)) as ->.
    { unfold live_pipes. simpl. by rewrite map_filter_delete. }
    unfold add_metric. rewrite lookup_insert. case_decide as Hlab; simpl; rewrite I7.
    + subst lab. rewrite map_size_delete_Some.
      2: { exists (l, key). unfold live_pipes. rewrite map_lookup_filter_Some. simpl. by rewrite Hl. }
      assert (size (live_pipes y (labels pl)) <> 0%nat); [|lia].
      apply map_size_ne_0_lookup_2 with sp. unfold live_pipes. rewrite map_lookup_filter.
      rewrite Hp. simpl. rewrite option_guard_True; [eauto|]. by rewrite Hl.
    + rewrite delete_id; [done|]. unfold live_pipes. apply map_lookup_filter_None. right.
      intros v Hv. simpl. rewrite Hp in Hv. injection Hv as <-. simpl. rewrite Hl. simpl. congruence.
Qed.

Lemma pipe_end_px_data sp l key touched x :
  proxy_inv (px x) ->
  let p := if touched : bool then set_heap (Touch sp (clock x) (heap (px x))) (px x) else px x in
  let p1 := with_sessions l (Delete key) p in
  px_data (px x) (set_heap (close_session sp (heap p1)) p1).
Proof.
  intros Hinv p p1.
  assert (px_data (px x) p1) as H1.
  { etrans; [|apply px_data_delete]. unfold p. destruct touched; [apply px_data_touch|reflexivity]. }
  etrans; [exact H1|]. apply px_data_close_session. by eapply px_data_inv.
Qed.

Lemma pipe_end_fw_inv sp l key pl touched x :
  fw_inv x -> pipes x !! sp = Some (l, key) -> listeners (px x) !! l = Some pl ->
  fw_inv (pipe_end sp l key pl touched x).
Proof.
  intros Hinv Hp Hl. pose proof (pipe_end_px_data sp l key touched x (fi_px x Hinv)) as Hd. simpl in Hd.
  unfold pipe_end. set (p := if touched then _ else _) in *. set (p1 := with_sessions l (Delete key) p) in *.
  set (p2 := set_heap _ p1) in *.
  pose proof (fw_inv_data x p2 (pcs x) (clock x) (PacketsTotal x) (BytesTotal x) Hinv Hd (fi_fwd x Hinv)) as Hy.
  set (y := mkFw p2 _ _ _ _ _ _) in Hy.
  assert (exists pl', listeners p2 !! l = Some pl' /\ labels pl' = labels pl /\ sessions pl' !! key = None) as (pl' & Hl' & Hlab & Hk).
  { assert (listeners p !! l = Some pl) as Hlp by (unfold p; by destruct touched).
    eexists. unfold p2, p1. simpl. rewrite lookup_alter_eq, Hlp. split_and!; [done..|]. apply lookup_delete_eq. }
  rewrite <- Hlab. apply (drop_pipe_inv y sp l key pl'); [done..|].
  intros h Hown. simpl in *. rewrite conn_open_close_session. apply andb_false_iff. right.
  apply negb_false_iff, bool_decide_eq_true. revert Hown. apply (owns_sess _ _ _ _ (close_session_sess _ _)).
Qed.

(** *** Changes of the mappings *)

Lemma px_ext_session_ok p p' sp l key : px_ext p p' -> session_ok p sp l key -> session_ok p' sp l key.
Proof.
  intros [E1 E2 _ E4 _] (pl & s & Hl & Hs & Hc & Hk). destruct (E4 l pl Hl) as (pl' & Hl' & (_ & Hg & _)).
  exists pl', s. rewrite E1, Hg. eauto.
Qed.

Lemma control_fw_inv os_refuses o x : fw_inv x -> fw_inv (spawn (set_px (proxy_exec os_refuses o (px x)) x)).
Proof.
  intros Hinv. pose proof (proxy_exec_ext os_refuses o _ (fi_px x Hinv)) as He.
  pose proof (proxy_exec_inv os_refuses o _ (fi_px x Hinv)) as Hi.
  set (p' := proxy_exec os_refuses o (px x)) in *. pose proof Hinv as [I1 I2 I3 I4 I5 I6 I7]. split; simpl.
  - done.
  - intros l pl' key sp Hl Hs. destruct (pe_sessions _ _ He l pl' key sp Hl Hs) as (pl & Hl0 & Hs0). eauto.
  - intros sp l key Hp. eapply px_ext_session_ok; eauto.
  - intros l sp client n Hp. apply lookup_union_Some_raw in Hp as [Hp|[_ Hp]]; [eapply px_ext_session_ok; eauto|].
    apply lookup_set_to_map in Hp as (l' & _ & E); [congruence|naive_solver].
  - intros h a Hk Ho. destruct (pe_dialed _ _ He h a Hk) as [Hk0 Ho0]. unfold owns. rewrite (pe_sess _ _ He). eauto.
  - unfold owns. rewrite (pe_sess _ _ He). exact I6.
  - intros lab. rewrite I7. do 2 f_equal. unfold live_pipes. simpl. apply map_filter_ext.
    intros sp [l key] Hp. simpl. destruct (I3 _ _ _ Hp) as (pl & s & Hl & _).
    destruct (pe_keep _ _ He l pl Hl) as (pl' & -> & (_ & _ & Hlab)). rewrite Hl. simpl. by rewrite Hlab.
Qed.

(** *** All steps *)

Lemma fw_step_inv os_refuses x x' : fw_step os_refuses x x' -> fw_inv x -> fw_inv x'.
Proof.
  intros Hstep Hinv. pose proof (fi_px x Hinv) as Hpx.
  assert (px_data (px x) (px x)) as Hid by reflexivity.
  destruct Hstep as [l client n pl Hpc Hl Ho|l pl Hpc Hl Hx|l client n pl Hpc Hl|l client n Hpc
    |l sp client n pl s Hpc Hl Hs Ho|l sp client n Hpc|sp l key pl s n Hp Hl Hs Ho Ho'|sp l key pl touched Hp Hl
    |l pl Hl Hc|d Hd|o].
  - unfold serve_read, Get. destruct (sessions pl !! client) as [sp|] eqn:Es; apply (fw_inv_data x); try done.
    + intros l' sp' c m. rewrite lookup_insert. case_decide; [|apply (fi_fwd x Hinv)].
      intros [= <- <- <-]. subst l'. by eapply (fi_pipe x Hinv), (fi_map x Hinv).
    + intros l' sp' c m. by apply (pcs_insert_other x l).
  - apply (fw_inv_data x); try done. intros l' sp' c m. by apply (pcs_insert_other x l).
  - by apply create_fw_inv.
  - apply (fw_inv_data x); try done. intros l' sp' c m. by apply (pcs_insert_other x l).
  - apply (fw_inv_data x); [done|apply px_data_touch|]. intros l' sp' c m. by apply (pcs_insert_other x l).
  - apply (fw_inv_data x); [done|apply (pipe_end_px_data sp l client true x Hpx)|].
    intros l' sp' c m. by apply (pcs_insert_other x l).
  - apply (fw_inv_data x); [done|apply px_data_touch|apply (fi_fwd x Hinv)].
  - by apply pipe_end_fw_inv.
  - unfold cleanup_tick. pose proof (px_data_cleanup l pl (idleTimeout (px x)) (clock x) (px x) Hpx Hl) as Hd.
    destruct (CleanupIdle _ _ _ _) as [ss hp]. apply (fw_inv_data x); [done|exact Hd|apply (fi_fwd x Hinv)].
  - apply (fw_inv_data x); [done..|apply (fi_fwd x Hinv)].
  - by apply control_fw_inv.
Qed.

Lemma fw_init_inv timeout now : fw_inv (fw_init timeout now).
Proof.
  split; simpl; try (intros *; by rewrite lookup_empty).
  - auto with golib.
  - unfold kind_of. simpl. intros h a. by rewrite lookup_empty.
  - intros sp sp' h (s & Hs & _). simpl in Hs. by rewrite lookup_empty in Hs.
Qed.

Lemma fw_reachable_inv os_refuses x : fw_reachable os_refuses x -> fw_inv x.
Proof.
  intros (timeout & now & Hr). revert x Hr.
  apply (rtc_ind_r fw_inv); [apply fw_init_inv|eauto using fw_step_inv].
Qed.

(** ** Properties *)

(** C10: clients are isolated.  In every reachable state, the session a packet of
    a client is about to be forwarded on belongs to that client and its socket is
    dialed to the gateway of the port the packet came in on; a response goroutine
    answers the client of its session through the same listener; and no two
    sessions share a socket, so a response can only reach the client whose
    packets are sent on that socket. *)
Theorem sessions_isolated os_refuses x :
  fw_reachable os_refuses x ->
  (forall l sp client n, pcs x !! l = Some (PcForward sp client n) -> session_ok (px x) sp l client) /\
  (forall sp l key, pipes x !! sp = Some (l, key) -> session_ok (px x) sp l key) /\
  (forall sp sp' h, owns (heap (px x)) sp h -> owns (heap (px x)) sp' h -> sp = sp').
Proof. intros H%fw_reachable_inv. split_and!; apply H. Qed.

(** C35: sessions and goroutines.  In every reachable state a session that is in
    a session map has its response goroutine running, every open upstream socket
    has one too, and the active-sessions gauge of a tunnel is the number of its
    running response goroutines. *)
Theorem active_sessions_accounted os_refuses x :
  fw_reachable os_refuses x ->
  (forall l pl key sp, listeners (px x) !! l = Some pl -> sessions pl !! key = Some sp -> pipes x !! sp = Some (l, key)) /\
  (forall h a, kind_of (heap (px x)) h = Some (Dialed a) -> conn_open h (heap (px x)) = true ->
     exists sp, owns (heap (px x)) sp h /\ is_Some (pipes x !! sp)) /\
  (forall lab, default 0 (ActiveSessions x !! lab) = Z.of_nat (size (live_pipes x lab))).
Proof. intros H%fw_reachable_inv. split_and!; apply H. Qed.

(** *** A run in which a session outlives its mapping *)

Definition race_mapping : option TunnelMapping := demo_mapping "a" "10.0.0.1:51820" 51820 1.
Definition race_listener (x : fw) : portListener :=
  default (mkListener 0 "" 0 "" "" ∅ false) (listeners (px x) !! 1%nat).

Definition race0 : fw := spawn (set_px (proxy_exec os_ok (PApply race_mapping) (px (fw_init 300 0))) (fw_init 300 0)).
Definition race1 : fw := serve_read 1 "client" 10 (race_listener race0) race0.
Definition race2 : fw := serve_create 1 "client" 10 (race_listener race1) race1.
Definition race3 : fw := serve_forward 1 3 10 (race_listener race2) race2.
(** 400 ticks of silence, and the cleanup removes and closes the session *)
Definition race4 : fw := mkFw (px race3) (clock race3 + 400) (pcs race3) (pipes race3) (ActiveSessions race3) (PacketsTotal race3) (BytesTotal race3).
Definition race5 : fw := cleanup_tick 1 (race_listener race4) race4.
(** the client sends again before the old response goroutine has run *)
Definition race6 : fw := serve_read 1 "client" 10 (race_listener race5) race5.
Definition race7 : fw := serve_create 1 "client" 10 (race_listener race6) race6.
Definition race8 : fw := serve_forward 1 5 10 (race_listener race7) race7.
(** the old goroutine sees its socket closed and deletes the key *)
Definition race9 : fw := pipe_end 3 1 "client" (race_listener race8) false race8.
Definition race10 : fw := spawn (set_px (proxy_exec os_ok (PRemove 51820) (px race9)) race9).

Lemma race4_reachable : fw_reachable os_ok race4.
Proof.
  exists 300, 0.
  apply (rtc_l _ _ race0); [apply fs_control|].
  apply (rtc_l _ _ race1); [by apply fs_read; vm_compute|].
  apply (rtc_l _ _ race2); [by apply fs_create; vm_compute|].
  apply (rtc_l _ _ race3).
  { by apply (fs_forward _ race2 1 3 "client" 10 (race_listener race2) (mkSession "client" 2 0)); vm_compute. }
  apply (rtc_l _ _ race4); [by apply (fs_time _ race3 400)|]. done.
Qed.

Lemma race10_reachable : fw_reachable os_ok race10.
Proof.
  destruct race4_reachable as (timeout & now & Hr). exists timeout, now. etrans; [exact Hr|].
  apply (rtc_l _ _ race5); [by apply fs_cleanup; vm_compute|].
  apply (rtc_l _ _ race6); [by apply fs_read; vm_compute|].
  apply (rtc_l _ _ race7); [by apply fs_create; vm_compute|].
  apply (rtc_l _ _ race8).
  { by apply (fs_forward _ race7 1 5 "client" 10 (race_listener race7) (mkSession "client" 4 400)); vm_compute. }
  apply (rtc_l _ _ race9); [by apply fs_pipe_end; vm_compute|].
  apply (rtc_l _ _ race10); [apply fs_control|]. done.
Qed.

(** An orphaned session.  A response goroutine deletes its key without
    checking that the map entry is still its own session; so when an idle session
    is cleaned up and the client sends again before the old goroutine has
    noticed, the new session drops out of the map.  There is a reachable state in
    which the mapping was removed, no port is served, and an upstream socket and
    its goroutine are still open. *)
Theorem orphaned_session_survives_removal :
  exists x, fw_reachable os_ok x /\ mappings (px x) = ∅ /\
    exists sp h, is_Some (pipes x !! sp) /\ owns (heap (px x)) sp h /\ conn_open h (heap (px x)) = true.
Proof.
  exists race10. split; [apply race10_reachable|]. split; [vm_compute; reflexivity|].
  exists 5%nat, 4%nat. split; [vm_compute; eauto|]. split; [|vm_compute; reflexivity].
  exists (mkSession "client" 4 400). split; vm_compute; reflexivity.
Qed.

(** *** Witnesses *)

Lemma sessions_isolated_witness :
  pcs race2 !! 1%nat = Some (PcForward 3 "client" 10) /\ session_ok (px race10) 5 1 "client".
Proof.
  split; [vm_compute; reflexivity|].
  apply (sessions_isolated os_ok race10 race10_reachable). vm_compute. reflexivity.
Defined.

Lemma active_sessions_accounted_witness :
  default 0 (ActiveSessions race10 !! ("a", "team")) = 1 /\
  Z.of_nat (size (live_pipes race10 ("a", "team"))) = 1.
Proof.
  split; [vm_compute; reflexivity|].
  rewrite <- (proj2 (proj2 (active_sessions_accounted os_ok race10 race10_reachable))). vm_compute. reflexivity.
Defined.
