(* ===== verification/Controller.v ===== *)
(** * The Tunnel reconciler (internal/controller/tunnel_controller.go)

    [Reconcile] and every function it calls, over the interfaces of the things
    the reconciler holds: the cluster ([KubeClient]), the port allocator of
    [Portalloc] (which may be nil), and the forwarder server (the Go interface
    [forwarderServer], here a class; the gRPC server of [Server] is an instance).

    [world] is the state a reconciliation runs over: those three, the Prometheus
    metrics, and [trace], the calls it made to the outside in order with their
    answers.  The trace is not read by any operation: it is what the theorems on
    ordering are stated over.  A Go [*Tunnel] that a function mutates is passed in
    and returned; the client overwrites it with the server's answer on [Update]
    and [Patch], and so do the definitions.

    The HTTP client and JSON decoder of [defaultFetchGatewayStatus] and the
    environment variables are arguments. *)

From S2P Require Import Prelude GoStd Proto Api Kube Portalloc Server.

Definition finalizerName : string := "tunnels.nais.io/cleanup".
Definition gatewayStatusPort : Z := 8080.
Definition forwarderAckRequeue : Z := 2 * Second.

(** ** Interfaces and state *)

Class forwarderServer (F : Type) := {
  fs_NotifyUpdate : option TunnelUpdate -> F -> F;
  fs_MissingAcks : string -> string -> Z -> F -> list string;
}.

#[export] Instance grpc_forwarderServer : forwarderServer ForwarderServer := {|
  fs_NotifyUpdate := NotifyUpdate;
  fs_MissingAcks := MissingAcks;
|}.

(** The fields of the struct that are not state, and its environment. *)
Record TunnelReconciler := mkReconciler {
  r_ClientSet : bool;
  r_ForwarderServiceKey : ObjectKey;
  r_ForwarderVIP : string;
  r_FetchGatewayStatus : option (string -> res string);
  r_Getenv : string -> string;
  r_HttpGet : string -> res (Z * string);
  r_DecodePublicKey : string -> res string;
}.

Record Metrics := mkMetrics {
  reconciliationsTotal : gmap string Z;
  portAllocationsActive : Z;
  tunnelsActive : gmap (string * string) Z;
}.

Inductive event :=
| EvGet (k : ObjectKey) (r : res Tunnel)
| EvUpdate (t : Tunnel) (r : res Tunnel)
| EvPatch (base t : Tunnel) (r : res Tunnel)
| EvDelete (k : ObjectKey) (r : res unit)
| EvGetPod (k : ObjectKey) (r : res Pod)
| EvCreatePod (p : Pod) (r : res Pod)
| EvDeletePod (k : ObjectKey) (r : res unit)
| EvApplyPolicy (k : ObjectKey) (r : res unit)
| EvDeletePolicy (k : ObjectKey) (r : res unit)
| EvGetService (k : ObjectKey) (r : res Service)
| EvAllocate (key : string) (r : alloc_result)
| EvRelease (key : string)
| EvNotify (u : TunnelUpdate).

Record world {W R F : Type} := mkWorld {
  kube : W;
  portAllocator : option (PortAllocator R);
  fwd : option F;
  metrics : Metrics;
  trace : list event;
}.
Arguments world : clear implicits.
Arguments mkWorld {_ _ _} _ _ _ _ _.

(** ** Pure helpers *)

Definition tunnelKeyOf (tunnel : Tunnel) : string := Namespace tunnel +:+ "/" +:+ Name tunnel.

Definition gatewayResourceName (tunnelName : string) : string := "tunnel-gateway-" +:+ tunnelName.

Definition gatewayLabels (tunnelName : string) : gmap string string :=
  list_to_map [("app.kubernetes.io/managed-by", "tunnel-operator");
               ("app.kubernetes.io/component", "tunnel-gateway");
               ("tunnels.nais.io/tunnel", tunnelName)].

Definition gatewayEnv (getenv : string -> string) (tunnel : Tunnel) : list EnvVar :=
  let target := Target (Spec tunnel) in
  let env := [mkEnv "TUNNEL_PEER_PUBLIC_KEY" (ClientPublicKey (Spec tunnel));
              mkEnv "TUNNEL_TARGET_HOST" (Host target);
              mkEnv "TUNNEL_TARGET_PORT" (Itoa (Port target));
              mkEnv "TUNNEL_NAME" (Name tunnel);
              mkEnv "TUNNEL_NAMESPACE" (Namespace tunnel);
              mkEnv "LOG_LEVEL" (getenv "LOG_LEVEL")] in
  if bool_decide (ResolvedIP target <> "") then env ++ [mkEnv "TUNNEL_TARGET_IP" (ResolvedIP target)] else env.

Definition gatewayPodSpec (getenv : string -> string) (tunnel : Tunnel) (image : string) (deadlineSeconds : Z) : PodSpec :=
  mkPodSpec "Never" (Some deadlineSeconds)
    (Some (mkPodSecurityContext true 65532 "RuntimeDefault"))
    [mkContainer "gateway" image "IfNotPresent"
       [mkContainerPort "status" gatewayStatusPort ProtocolTCP; mkContainerPort "metrics" 8090 ProtocolTCP]
       (gatewayEnv getenv tunnel)
       (mkProbe "/status" gatewayStatusPort 1)
       (mkSecurityContext false true 65532 true "RuntimeDefault" ["ALL"])].

(** A nil map and an empty map are the same selector. *)
Definition networkPolicyPodSelector (selector : TunnelTargetPodSelector) : LabelSelector :=
  mkLabelSelector
    (if bool_decide (0 < size (MatchLabels selector))%nat
     then map_fold (fun key value result => <[key := value]> result) ∅ (MatchLabels selector) else ∅)
    (if bool_decide (0 < length (MatchExpressions selector))%nat
     then (fun requirement => mkRequirement (lsr_Key requirement) (lsr_Operator requirement) (lsr_Values requirement))
            <$> MatchExpressions selector
     else []).

Definition intstrPtr (i : Z) : option IntOrString := Some (IntVal i).

Definition targetEgressRule (target : TunnelTarget) : NetworkPolicyRule :=
  let peer :=
    match PodSelector target with
    | Some selector => mkPeer (Some (networkPolicyPodSelector selector)) None None
    | None => mkPeer None None (Some (ResolvedIP target +:+ "/32"))
    end in
  mkRule [peer] [mkNPPort (Some ProtocolTCP) (intstrPtr (Port target))].

(** [None] is a nil error. *)
Definition validateTunnelTarget (target : TunnelTarget) : option error :=
  let hasResolvedIP := bool_decide (TrimSpace (ResolvedIP target) <> "") in
  let hasPodSelector := bool_decide (is_Some (PodSelector target)) in
  if eqb hasResolvedIP hasPodSelector
  then Some (ErrNew "exactly one of resolvedIP or podSelector must be set")
  else match PodSelector target with
       | Some selector =>
           if bool_decide (MatchLabels selector = ∅) && bool_decide (MatchExpressions selector = [])
           then Some (ErrNew "podSelector must not be empty") else None
       | None => None
       end.

Definition networkPolicySpec (tunnel : Tunnel) : NetworkPolicySpec :=
  mkNPSpec
    (mkLabelSelector {["tunnels.nais.io/tunnel" := Name tunnel]} [])
    ["Ingress"; "Egress"]
    [mkRule [] [mkNPPort (Some ProtocolUDP) (intstrPtr 51820);
                mkNPPort (Some ProtocolTCP) (intstrPtr gatewayStatusPort)];
     mkRule [mkPeer (Some (mkLabelSelector {["app.kubernetes.io/name" := "alloy"]} []))
                    (Some (mkLabelSelector {["kubernetes.io/metadata.name" := "nais-system"]} [])) None]
            [mkNPPort (Some ProtocolTCP) (Some (StrVal "metrics"))]]
    [targetEgressRule (Target (Spec tunnel));
     mkRule [] [mkNPPort (Some ProtocolUDP) None]].

(** The first condition of type Ready decides. *)
Fixpoint ready_condition (conditions : list PodCondition) : bool :=
  match conditions with
  | [] => false
  | condition :: conditions =>
      if bool_decide (cond_Type condition = PodReady) then bool_decide (cond_Status condition = ConditionTrue)
      else ready_condition conditions
  end.
Definition isPodReady (pod : Pod) : bool := ready_condition (pod_Conditions pod).

Definition defaultFetchGatewayStatus (r : TunnelReconciler) (podIP : string) : res string :=
  match r_HttpGet r ("http://" +:+ podIP +:+ ":" +:+ Itoa gatewayStatusPort +:+ "/status") with
  | Fail e => Fail e
  | Ok (code, body) =>
      if bool_decide (code <> 200) then Fail (ErrNew ("gateway not ready: HTTP " +:+ Itoa code))
      else match r_DecodePublicKey r body with
           | Fail e => Fail (ErrWrap "decoding gateway status" e)
           | Ok pubKey => Ok pubKey
           end
  end.

Definition fetcher (r : TunnelReconciler) : string -> res string :=
  default (defaultFetchGatewayStatus r) (r_FetchGatewayStatus r).

(** The mapping [notifyTunnelUpdate] builds. *)
Definition publishedMapping (tunnel : Tunnel) : TunnelMapping :=
  let st := Status tunnel in
  mkTunnelMapping (Some (Name tunnel)) (Some (Namespace tunnel)) (Some (ForwarderPort st))
    (Some (JoinHostPort (GatewayPodIP st) (Itoa 51820))) (Some (MappingRevision st))
    (Some (GatewayPodUID st)) (Some (GatewayPodIP st)).

Definition key_string (k : ObjectKey) : string := key_Namespace k +:+ "/" +:+ key_Name k.

(** What becomes of the tunnel in one step of the status computation: the
    object, the [updated] flag and [requeueAfter]. *)
Record outcome := mkOutcome { o_tunnel : Tunnel; o_updated : bool; o_requeue : Z }.

(** [if s.Phase != ph || s.Message != msg { s.Phase = ph; s.Message = msg; updated = true }] *)
Definition set_phase_message (ph : TunnelPhase) (msg : string) (t : Tunnel) (updated : bool) : Tunnel * bool :=
  if bool_decide (Phase (Status t) <> ph) || bool_decide (Message (Status t) <> msg)
  then (set_status (fun s => set_Message msg (set_Phase ph s)) t, true)
  else (t, updated).

Section controller.
Context {W : Type} `{KubeClient W} `{ControllerUtil} {R : Type} `{RandSource R} {F : Type} `{forwarderServer F}.
Implicit Types (s : world W R F) (tunnel : Tunnel).
Abbreviation M := (ST (world W R F)).

(** ** Effects *)

Definition log (e : event) s : world W R F :=
  mkWorld (kube s) (portAllocator s) (fwd s) (metrics s) (trace s ++ [e]).
Definition set_metrics (f : Metrics -> Metrics) s : world W R F :=
  mkWorld (kube s) (portAllocator s) (fwd s) (f (metrics s)) (trace s).

(** A call to the API server. *)
Definition kcall {A} (ev : res A -> event) (m : ST W A) : M A := fun s =>
  let '(r, w) := m (kube s) in
  (r, log (ev r) (mkWorld w (portAllocator s) (fwd s) (metrics s) (trace s))).

(** A panic ends the reconciliation.  Neither it nor the nil allocator occurs: an
    allocator made by [New] has a range that is not empty, and [assignPort] tests
    for nil. *)
Definition allocate (key : string) : M Z := fun s =>
  match portAllocator s with
  | None => (Fail (ErrNew "nil pointer dereference"), s)
  | Some a =>
      let '(r, a') := Allocate key a in
      let s' := log (EvAllocate key r) (mkWorld (kube s) (Some a') (fwd s) (metrics s) (trace s)) in
      match r with
      | AllocPort p => (Ok p, s')
      | AllocErr e => (Fail (ErrWrap "allocating forwarder port" e), s')
      | AllocPanic => (Fail (ErrNew "invalid argument to Intn"), s')
      end
  end.

Definition notify_forwarders (u : TunnelUpdate) : M unit :=
  modify (fun s => log (EvNotify u)
    (mkWorld (kube s) (portAllocator s) (fs_NotifyUpdate (Some u) <$> fwd s) (metrics s) (trace s))).

Definition inc_reconciliations (label : string) (m : Metrics) : Metrics :=
  mkMetrics (partial_alter (fun v => Some (default 0 v + 1)) label (reconciliationsTotal m))
    (portAllocationsActive m) (tunnelsActive m).
Definition add_port_allocations (d : Z) (m : Metrics) : Metrics :=
  mkMetrics (reconciliationsTotal m) (portAllocationsActive m + d) (tunnelsActive m).
Definition inc_tunnels (phase namespace : string) (m : Metrics) : Metrics :=
  mkMetrics (reconciliationsTotal m) (portAllocationsActive m)
    (partial_alter (fun v => Some (default 0 v + 1)) (phase, namespace) (tunnelsActive m)).

(** ** Publication and release *)

Definition notifyTunnelUpdate tunnel (updateType : UpdateType) : M unit :=
  f ← gets fwd;
  if negb (bool_decide (is_Some f)) || bool_decide (ForwarderPort (Status tunnel) <= 0) then mret tt
  else if negb (bool_decide (updateType = DELETED)) &&
          (bool_decide (GatewayPodIP (Status tunnel) = "") || bool_decide (GatewayPublicKey (Status tunnel) = ""))
  then mret tt
  else notify_forwarders (mkTunnelUpdate (Some updateType) (Some (publishedMapping tunnel))).

Definition releaseForwarderPort tunnel : M unit :=
  a ← gets portAllocator;
  match a with
  | None => mret tt
  | Some a =>
      modify (fun s => log (EvRelease (tunnelKeyOf tunnel))
        (mkWorld (kube s) (Some (Release (tunnelKeyOf tunnel) a)) (fwd s) (metrics s) (trace s))) ;;
      modify (set_metrics (add_port_allocations (-1)))
  end.

(** ** Gateway resources *)

Definition ensureGatewayPod (r : TunnelReconciler) tunnel (resourceName : string) (labels : gmap string string) : M Pod :=
  let gatewayImage :=
    if bool_decide (r_Getenv r "GATEWAY_IMAGE" = "")
    then "europe-north1-docker.pkg.dev/nais-io/nais/images/tunnel-operator-gateway:latest"
    else r_Getenv r "GATEWAY_IMAGE" in
  let deadlineSeconds := default 3600 (ActiveDeadlineSeconds (Spec tunnel)) in
  let key := mkKey (Namespace tunnel) resourceName in
  got ← try (kcall (EvGetPod key) (kube_get_pod key));
  match got with
  | Ok pod => mret pod
  | Fail err =>
      if negb (IsNotFound err) then throw (ErrWrap "getting gateway pod" err)
      else
        let annotations := list_to_map [("prometheus.io/scrape", "true"); ("prometheus.io/port", "8090");
                                        ("prometheus.io/path", "/metrics")] in
        match SetControllerReference tunnel [] with
        | Fail err => throw (ErrWrap "setting owner reference on pod" err)
        | Ok owners =>
            let pod := mkPod key "" labels annotations owners
                         (gatewayPodSpec (r_Getenv r) tunnel gatewayImage deadlineSeconds) "" "" [] in
            wrap_err "creating gateway pod" (kcall (EvCreatePod pod) (kube_create_pod pod))
        end
  end.

Definition mutate_policy tunnel (labels : gmap string string) (np : NetworkPolicy) : res NetworkPolicy :=
  match SetControllerReference tunnel (np_Owners np) with
  | Fail err => Fail err
  | Ok owners => Ok (mkNetworkPolicy (np_Key np) labels owners (networkPolicySpec tunnel))
  end.

Definition ensureNetworkPolicy tunnel (resourceName : string) (labels : gmap string string) : M unit :=
  let key := mkKey (Namespace tunnel) resourceName in
  wrap_err "reconciling networkpolicy"
    (kcall (EvApplyPolicy key) (kube_create_or_update_policy key (mutate_policy tunnel labels))).

(** [if err := Delete(obj); err != nil { if !IsNotFound(err) { return Errorf(...) } }] *)
Definition delete_object (msg : string) (m : M unit) : M unit :=
  got ← try m;
  match got with
  | Fail err => if negb (IsNotFound err) then throw (ErrWrap msg err) else mret tt
  | Ok _ => mret tt
  end.

Definition deleteGatewayResources tunnel : M unit :=
  let key := mkKey (Namespace tunnel) (gatewayResourceName (Name tunnel)) in
  delete_object "deleting *v1.Pod" (kcall (EvDeletePod key) (kube_delete_pod key)) ;;
  delete_object "deleting *v1.NetworkPolicy" (kcall (EvDeletePolicy key) (kube_delete_policy key)).

(** ** Deletion and termination *)

Definition removeFinalizer tunnel : M Tunnel :=
  let tunnel := set_Finalizers (RemoveFinalizer (Finalizers tunnel) finalizerName) tunnel in
  wrap_err "removing finalizer" (kcall (EvUpdate tunnel) (kube_update_tunnel tunnel)).

Definition handleDeletion tunnel : M unit :=
  if negb (ContainsFinalizer (Finalizers tunnel) finalizerName) then releaseForwarderPort tunnel
  else
    deleteGatewayResources tunnel ;;
    tunnel ← removeFinalizer tunnel;
    releaseForwarderPort tunnel ;;
    notifyTunnelUpdate tunnel DELETED.

Definition handleTerminated tunnel : M unit :=
  deleteGatewayResources tunnel ;;
  tunnel ← (if ContainsFinalizer (Finalizers tunnel) finalizerName then removeFinalizer tunnel else mret tunnel);
  releaseForwarderPort tunnel ;;
  notifyTunnelUpdate tunnel DELETED ;;
  let key := tunnel_key tunnel in
  got ← try (kcall (EvDelete key) (kube_delete_tunnel key));
  match got with
  | Ok _ => mret tt
  | Fail err => match IgnoreNotFound err with None => mret tt | Some err => throw err end
  end.

(** ** Status computation *)

Definition resolveForwarderVIP (r : TunnelReconciler) : M string :=
  if bool_decide (r_ForwarderVIP r <> "") then mret (r_ForwarderVIP r)
  else
    let key := r_ForwarderServiceKey r in
    if negb (r_ClientSet r) || bool_decide (key_Name key = "")
    then throw (ErrNew "forwarder service not configured")
    else
      svc ← wrap_err ("getting forwarder service " +:+ key_string key)
              (kcall (EvGetService key) (kube_get_service key));
      match first_ip (svc_IngressIPs svc) with
      | Some ip => mret ip
      | None => throw (ErrNew ("forwarder service " +:+ key_string key +:+ " has no load balancer IP"))
      end.

(** The end of [handleReadyPod]: the endpoint the client connects to. *)
Definition publish_endpoint (r : TunnelReconciler) tunnel (updated : bool) (requeueAfter : Z) : M outcome :=
  vip ← try (resolveForwarderVIP r);
  match vip with
  | Ok vip =>
      if bool_decide (vip <> "") then
        let endpoint := JoinHostPort vip (Itoa (ForwarderPort (Status tunnel))) in
        if bool_decide (ForwarderEndpoint (Status tunnel) <> endpoint)
        then mret (mkOutcome (set_status (set_ForwarderEndpoint endpoint) tunnel) true requeueAfter)
        else mret (mkOutcome tunnel updated requeueAfter)
      else mret (mkOutcome tunnel updated requeueAfter)
  | Fail _ => mret (mkOutcome tunnel updated (2 * Second))
  end.

Definition handleReadyPod (r : TunnelReconciler) tunnel (pod : Pod) : M outcome :=
  if bool_decide (pod_PodIP pod <> "") then
    match fetcher r (pod_PodIP pod) with
    | Fail _ => publish_endpoint r tunnel false (2 * Second)
    | Ok pubKey =>
        if bool_decide (pubKey <> "") then
          let '(tunnel, updated) :=
            if bool_decide (GatewayPublicKey (Status tunnel) <> pubKey)
            then (set_status (set_GatewayPublicKey pubKey) tunnel, true) else (tunnel, false) in
          f ← gets fwd;
          let missing :=
            match f with
            | Some f => fs_MissingAcks (Namespace tunnel) (Name tunnel) (MappingRevision (Status tunnel)) f
            | None => []
            end in
          if bool_decide (missing <> []) then
            let '(tunnel, updated) :=
              set_phase_message TunnelPhaseProvisioning "Waiting for forwarder mapping acknowledgement" tunnel updated in
            mret (mkOutcome tunnel updated forwarderAckRequeue)
          else
            let '(tunnel, updated) := set_phase_message TunnelPhaseReady "Gateway ready" tunnel updated in
            publish_endpoint r tunnel updated 0
        else publish_endpoint r tunnel false 0
    end
  else publish_endpoint r tunnel false 0.

Definition evaluatePodPhase (r : TunnelReconciler) tunnel (pod : Pod) : M outcome :=
  if bool_decide (pod_Phase pod = PodFailed) then
    if bool_decide (Phase (Status tunnel) <> TunnelPhaseFailed)
    then mret (mkOutcome (set_status (fun st => set_Message "Gateway pod failed" (set_Phase TunnelPhaseFailed st)) tunnel) true 0)
    else mret (mkOutcome tunnel false 0)
  else if bool_decide (pod_Phase pod = PodSucceeded) then
    if bool_decide (Phase (Status tunnel) <> TunnelPhaseTerminated)
    then mret (mkOutcome (set_status (fun st => set_Message "Gateway terminated" (set_Phase TunnelPhaseTerminated st)) tunnel) true 0)
    else mret (mkOutcome tunnel false 0)
  else if isPodReady pod then handleReadyPod r tunnel pod
  else
    let '(tunnel, updated) := set_phase_message TunnelPhaseProvisioning "Gateway pod starting" tunnel false in
    mret (mkOutcome tunnel updated 0).

(** [Reconcile] from [updated := false] to the revision: the identity of the
    mapping, i.e. the forwarder port and the gateway pod. *)
Record mapping_state := mkMappingState {
  ms_tunnel : Tunnel;
  ms_changed : bool;
  ms_updateType : UpdateType;
}.

(** [if field != v { field = v; updated = true; mappingChanged = true }] *)
Definition set_field (get : TunnelStatus -> string) (set : string -> TunnelStatus -> TunnelStatus) (v : string)
    (m : mapping_state) : mapping_state :=
  if bool_decide (get (Status (ms_tunnel m)) <> v)
  then mkMappingState (set_status (set v) (ms_tunnel m)) true (ms_updateType m) else m.

Definition assignPort tunnel : M mapping_state :=
  a ← gets portAllocator;
  if bool_decide (ForwarderPort (Status tunnel) = 0) && bool_decide (is_Some a) then
    allocatedPort ← allocate (tunnelKeyOf tunnel);
    modify (set_metrics (add_port_allocations 1)) ;;
    mret (mkMappingState (set_status (set_ForwarderPort allocatedPort) tunnel) true ADDED)
  else mret (mkMappingState tunnel false MODIFIED).

Definition recordPod (resourceName : string) (pod : Pod) (m : mapping_state) : mapping_state :=
  let m := set_field GatewayPodName set_GatewayPodName resourceName m in
  let m := set_field GatewayPodUID (fun uid st => set_GatewayPublicKey "" (set_GatewayPodUID uid st)) (pod_UID pod) m in
  set_field GatewayPodIP set_GatewayPodIP (pod_PodIP pod) m.

Definition recordGateway (resourceName : string) (pod : Pod) (m : mapping_state) : mapping_state :=
  let m := recordPod resourceName pod m in
  if ms_changed m
  then mkMappingState (set_status (fun st => set_MappingRevision (wrap64 (MappingRevision st + 1)) st) (ms_tunnel m))
         true (ms_updateType m)
  else m.

(** ** [Reconcile] *)

Definition ensureFinalizer tunnel : M Tunnel :=
  if negb (ContainsFinalizer (Finalizers tunnel) finalizerName) then
    let tunnel := set_Finalizers (AddFinalizer (Finalizers tunnel) finalizerName) tunnel in
    kcall (EvUpdate tunnel) (kube_update_tunnel tunnel)
  else mret tunnel.

(** The republication on a requeue, for forwarders that failed to apply. *)
Definition republish tunnel : M unit :=
  f ← gets fwd;
  let st := Status tunnel in
  if bool_decide (is_Some f) && bool_decide (GatewayPodIP st <> "") && bool_decide (GatewayPublicKey st <> "") &&
     bool_decide (Phase st <> TunnelPhaseReady) && bool_decide (MappingRevision st > 0)
  then notifyTunnelUpdate tunnel MODIFIED else mret tt.

(** From [if updated] to the end: persist, then publish. *)
Definition persistAndPublish (statusBase : Tunnel) (m : mapping_state) (o : outcome) : M Z :=
  let updated := ms_changed m || o_updated o in
  tunnel ←
    (if updated then
       tunnel ← wrap_err "updating tunnel status"
                  (kcall (EvPatch statusBase (o_tunnel o)) (kube_patch_status statusBase (o_tunnel o)));
       modify (set_metrics (inc_tunnels (Phase (Status tunnel)) (Namespace tunnel))) ;;
       (if ms_changed m then notifyTunnelUpdate tunnel (ms_updateType m) else mret tt) ;;
       mret tunnel
     else mret (o_tunnel o));
  republish tunnel ;;
  mret (o_requeue o).

Definition reconcileTunnel (r : TunnelReconciler) tunnel : M Z :=
  match validateTunnelTarget (Target (Spec tunnel)) with
  | Some err => throw (ErrWrap "validating tunnel target" err)
  | None =>
      tunnel ← ensureFinalizer tunnel;
      let resourceName := gatewayResourceName (Name tunnel) in
      let labels := gatewayLabels (Name tunnel) in
      pod ← ensureGatewayPod r tunnel resourceName labels;
      ensureNetworkPolicy tunnel resourceName labels ;;
      m ← assignPort tunnel;
      let m := recordGateway resourceName pod m in
      o ← evaluatePodPhase r (ms_tunnel m) pod;
      persistAndPublish tunnel m o
  end.

Definition reconcileBody (r : TunnelReconciler) (req : ObjectKey) : M Z :=
  got ← try (kcall (EvGet req) (kube_get_tunnel req));
  match got with
  | Fail err => match IgnoreNotFound err with None => mret 0 | Some err => throw err end
  | Ok tunnel =>
      if bool_decide (is_Some (DeletionTimestamp tunnel)) then handleDeletion tunnel ;; mret 0
      else if bool_decide (Phase (Status tunnel) = TunnelPhaseTerminated) then handleTerminated tunnel ;; mret 0
      else reconcileTunnel r tunnel
  end.

(** The result is [RequeueAfter]; the deferred function counts the outcome. *)
Definition Reconcile (r : TunnelReconciler) (req : ObjectKey) : M Z := fun s =>
  let '(retErr, s) := reconcileBody r req s in
  (retErr, set_metrics (inc_reconciliations (if is_ok retErr then "success" else "error")) s).
End controller.
