(* ===== verification/Reconcile.v ===== *)
(** * Correctness of the reconciler

    The order of effects, stated over the trace of a reconciliation: every event
    of a trace is one that the events before it allow.  The cluster is any
    [KubeClient]: every call may fail at any time and may answer anything, so the
    ordering theorems cover partial failures and retries. *)

From S2P Require Import Prelude GoStd Proto Api Kube Portalloc Server Controller.

(** ** Reading a trace *)

(** The Tunnel an API call answered with. *)
Definition tunnel_answer (e : event) : option Tunnel :=
  match e with
  | EvGet _ (Ok t) | EvUpdate _ (Ok t) | EvPatch _ _ (Ok t) => Some t
  | _ => None
  end.

(** The newest answer: what the API server last said the object is. *)
Definition last_object (tr : list event) : option Tunnel := last (omap tunnel_answer tr).

Definition gateway_key (t : Tunnel) : ObjectKey := mkKey (Namespace t) (gatewayResourceName (Name t)).

(** The identity of the mapping: port and gateway pod. *)
Definition mapping_id (t : Tunnel) : Z * string * string * string :=
  (ForwarderPort (Status t), GatewayPodName (Status t), GatewayPodUID (Status t), GatewayPodIP (Status t)).

(** [t'] is [t] but for its status. *)
Definition same_meta (t t' : Tunnel) : Prop :=
  Name t' = Name t /\ Namespace t' = Namespace t /\ Spec t' = Spec t /\ Finalizers t' = Finalizers t /\
  DeletionTimestamp t' = DeletionTimestamp t.

(** [t'] is [t] but for its phase, message, key and endpoint. *)
Definition same_object (t t' : Tunnel) : Prop :=
  same_meta t t' /\ mapping_id t' = mapping_id t /\ MappingRevision (Status t') = MappingRevision (Status t).

Section trace.
Context `{ControllerUtil} {F : Type} `{forwarderServer F} (r : TunnelReconciler) (f0 : option F).

(** What makes a tunnel Ready: its pod is ready and answered with the key the
    status records, and no connected forwarder lacks the status's revision. *)
Definition ready_evidence (pod : Pod) (t : Tunnel) : Prop :=
  isPodReady pod = true /\ pod_PodIP pod <> "" /\
  GatewayPublicKey (Status t) <> "" /\ fetcher r (pod_PodIP pod) = Ok (GatewayPublicKey (Status t)) /\
  forall f, f0 = Some f -> fs_MissingAcks (Namespace t) (Name t) (MappingRevision (Status t)) f = [].

(** The pod the API server has under the key, as read or as created. *)
Definition pod_answer (pre : list event) (k : ObjectKey) (pod : Pod) : Prop :=
  EvGetPod k (Ok pod) ∈ pre \/ exists p, pod_Key p = k /\ EvCreatePod p (Ok pod) ∈ pre.

Definition newly_allocated (pre : list event) (t : Tunnel) : Prop :=
  EvAllocate (tunnelKeyOf t) (AllocPort (ForwarderPort (Status t))) ∈ pre.

(** What a status write may say, given the object [base] it starts from. *)
Record patch_ok (pre : list event) (base t : Tunnel) : Prop := {
  patch_changes : t <> base;
  patch_meta : same_meta base t;
  patch_port : ForwarderPort (Status t) = ForwarderPort (Status base) \/
    (ForwarderPort (Status base) = 0 /\ newly_allocated pre t);
  patch_revision :
    (MappingRevision (Status t) = MappingRevision (Status base) /\ mapping_id t = mapping_id base) \/
    (MappingRevision (Status t) = wrap64 (MappingRevision (Status base) + 1) /\
     (mapping_id t <> mapping_id base \/ newly_allocated pre t));
  patch_pod : exists pod, pod_answer pre (gateway_key base) pod /\
    GatewayPodName (Status t) = gatewayResourceName (Name base) /\
    GatewayPodUID (Status t) = pod_UID pod /\ GatewayPodIP (Status t) = pod_PodIP pod /\
    (Phase (Status t) = TunnelPhaseReady -> Phase (Status base) = TunnelPhaseReady \/ ready_evidence pod t);
}.

(** A delete that left nothing behind: it succeeded or found nothing. *)
Definition gone (r : res unit) : Prop := match r with Ok _ => True | Fail e => IsNotFound e = true end.

Definition gateway_gone (pre : list event) (k : ObjectKey) : Prop :=
  (exists r, EvDeletePod k r ∈ pre /\ gone r) /\ (exists r, EvDeletePolicy k r ∈ pre /\ gone r).

(** The finalizer is on the object, as read or as accepted by the API server. *)
Definition finalizer_persisted (pre : list event) : Prop :=
  exists t, finalizerName ∈ Finalizers t /\
    ((exists k, EvGet k (Ok t) ∈ pre) \/ (exists t', EvUpdate t (Ok t') ∈ pre)).

(** The finalizer is off the object, as read or as accepted by the API server. *)
Definition finalizer_absent (pre : list event) : Prop :=
  exists t, finalizerName ∉ Finalizers t /\
    ((exists k, EvGet k (Ok t) ∈ pre) \/ (exists t', EvUpdate t (Ok t') ∈ pre)).

(** When a reconciliation that made the calls [pre] may make the call [e]. *)
Definition event_allowed (pre : list event) (e : event) : Prop :=
  match e with
  | EvNotify u =>
      exists t ty, last_object pre = Some t /\ u = mkTunnelUpdate (Some ty) (Some (publishedMapping t)) /\
        0 < ForwarderPort (Status t) /\
        (if decide (ty = DELETED) then finalizer_absent pre
         else (ty = ADDED \/ ty = MODIFIED) /\ GatewayPodIP (Status t) <> "" /\ GatewayPublicKey (Status t) <> "")
  | EvCreatePod p _ =>
      finalizer_persisted pre /\ exists t, last_object pre = Some t /\ pod_Key p = gateway_key t /\
        pod_Labels p = gatewayLabels (Name t) /\ SetControllerReference t [] = Ok (pod_Owners p)
  | EvUpdate t _ => finalizerName ∈ Finalizers t \/ gateway_gone pre (gateway_key t)
  | EvPatch base t _ => last_object pre = Some base /\ patch_ok pre base t
  | EvRelease key => finalizer_absent pre /\ exists t, last_object pre = Some t /\ key = tunnelKeyOf t
  | EvDelete k _ => finalizer_absent pre /\ exists t, last_object pre = Some t /\ k = tunnel_key t
  | EvAllocate key _ => exists t, last_object pre = Some t /\ key = tunnelKeyOf t /\ ForwarderPort (Status t) = 0
  | _ => True
  end.

(** Every call of the trace was allowed when it was made. *)
Definition trace_ok (tr : list event) : Prop :=
  forall pre e post, tr = pre ++ e :: post -> event_allowed pre e.

Lemma trace_ok_nil : trace_ok [].
Proof. intros pre e post Heq. by destruct pre. Qed.

Lemma trace_ok_snoc tr e : trace_ok tr -> event_allowed tr e -> trace_ok (tr ++ [e]).
Proof.
  intros Htr He pre e' post Heq.
  destruct post as [|x post' _] using rev_ind.
  - apply app_inj_tail in Heq as [-> ->]. done.
  - rewrite app_comm_cons, app_assoc in Heq. apply app_inj_tail in Heq as [-> _]. by eapply Htr.
Qed.

Lemma last_object_snoc tr e :
  last_object (tr ++ [e]) = match tunnel_answer e with Some t => Some t | None => last_object tr end.
Proof.
  unfold last_object. rewrite omap_app. simpl. destruct (tunnel_answer e); simpl.
  - by rewrite last_snoc.
  - by rewrite app_nil_r.
Qed.
End trace.

Section reconcile_trace.
Context {W : Type} `{KubeClient W} `{!ControllerUtil} `{!ControllerUtilLaws} {R : Type} `{RandSource R}
  {F : Type} `{forwarderServer F} (rc : TunnelReconciler) (f0 : option F).
Implicit Types (s : world W R F) (t : Tunnel).
Abbreviation event_allowed := (event_allowed rc f0).
Abbreviation trace_ok := (trace_ok rc f0).

(** The call may answer anything. *)
Lemma wp_kcall {A} (ev : res A -> event) (m : ST W A) Q s :
  (forall r w, m (kube s) = (r, w) ->
     Q r (mkWorld w (portAllocator s) (fwd s) (metrics s) (trace s ++ [ev r]))) ->
  wp (kcall ev m) Q s.
Proof. intros HQ. unfold wp, kcall. destruct (m (kube s)) as [r w] eqn:Hm. exact (HQ r w eq_refl). Qed.

(** The trace is well ordered and [t] is what the API server last answered. *)
Definition current t s : Prop := trace_ok (trace s) /\ last_object (trace s) = Some t.

(** [current], and the finalizer is known to be off the object. *)
Definition released t s : Prop := current t s /\ finalizer_absent (trace s).

Lemma finalizer_absent_snoc tr e : finalizer_absent tr -> finalizer_absent (tr ++ [e]).
Proof. intros (t & Ht & Hin). exists t. set_solver. Qed.

Lemma finalizer_persisted_snoc tr e : finalizer_persisted tr -> finalizer_persisted (tr ++ [e]).
Proof. intros (t & Ht & Hin). exists t. set_solver. Qed.

(** A call that answers no Tunnel leaves the object current. *)
Lemma current_snoc t s e w a f m :
  current t s -> event_allowed (trace s) e -> tunnel_answer e = None ->
  current t (mkWorld w a f m (trace s ++ [e])).
Proof.
  intros [Hok Hl] He Hn. split; simpl; [by apply trace_ok_snoc|]. by rewrite last_object_snoc, Hn.
Qed.

(** A call that answers [t'] makes it current. *)
Lemma current_answer t' s e w a f m :
  trace_ok (trace s) -> event_allowed (trace s) e -> tunnel_answer e = Some t' ->
  current t' (mkWorld w a f m (trace s ++ [e])).
Proof. intros Hok He Ht. split; simpl; [by apply trace_ok_snoc|]. by rewrite last_object_snoc, Ht. Qed.

Lemma current_ok t s : current t s -> trace_ok (trace s).
Proof. by intros []. Qed.

Lemma released_snoc t s e w a f m :
  released t s -> event_allowed (trace s) e -> tunnel_answer e = None ->
  released t (mkWorld w a f m (trace s ++ [e])).
Proof. intros [Hc Ha] He Hn. split; [by apply current_snoc|]. by apply finalizer_absent_snoc. Qed.

(** *** Publication and release *)

Lemma notify_released t s :
  released t s -> wp (notifyTunnelUpdate t DELETED) (fun r s' => r = Ok tt /\ released t s') s.
Proof.
  intros Hrel. unfold notifyTunnelUpdate, notify_forwarders. wp_steps.
  destruct (bool_decide (is_Some (fwd s))); simpl; [|by wp_steps].
  case_bool_decide; simpl; wp_steps; [done|].
  split; [done|]. unfold log. simpl. apply (released_snoc t s); [done| |done].
  destruct Hrel as [[_ Hl] Ha]. exists t, DELETED. rewrite decide_True by done. split_and!; [done..|lia|done].
Qed.

Lemma notify_current t ty s :
  ty = ADDED \/ ty = MODIFIED -> current t s -> wp (notifyTunnelUpdate t ty) (fun r s' => r = Ok tt /\ current t s') s.
Proof.
  intros Hty Hc. assert (ty <> DELETED) by (by destruct Hty as [->| ->]). unfold notifyTunnelUpdate, notify_forwarders. wp_steps.
  destruct (bool_decide (is_Some (fwd s))); simpl; [|by wp_steps].
  case_bool_decide; simpl; [by wp_steps|]. rewrite (bool_decide_false (ty = DELETED)) by done. simpl.
  repeat case_bool_decide; simpl; wp_steps; try done.
  split; [done|]. unfold log. simpl. apply (current_snoc t s); [done| |done].
  exists t, ty. rewrite decide_False by done. split_and!; try done; [apply Hc|lia].
Qed.

Lemma release_released t s :
  released t s -> wp (releaseForwarderPort t) (fun r s' => r = Ok tt /\ released t s') s.
Proof.
  intros Hrel. unfold releaseForwarderPort. wp_steps. destruct (portAllocator s) as [a|]; wp_steps; [|done].
  split; [done|]. unfold log, set_metrics. simpl. apply (released_snoc t s); [done| |done].
  destruct Hrel as [[_ Hl] Ha]. simpl. eauto.
Qed.

(** *** Deleting the gateway *)

Lemma delete_object_trace (ev : res unit -> event) (m : ST W unit) msg t s :
  (forall d tr, event_allowed tr (ev d)) -> (forall d, tunnel_answer (ev d) = None) -> current t s ->
  wp (delete_object msg (kcall ev m)) (fun r s' =>
    exists d, trace s' = trace s ++ [ev d] /\ current t s' /\ (r = Ok tt -> gone d)) s.
Proof.
  intros Hall Hans Hc. unfold delete_object. wp_steps. apply wp_kcall. intros d w _.
  assert (current t (mkWorld w (portAllocator s) (fwd s) (metrics s) (trace s ++ [ev d]))) as Hc' by by apply current_snoc.
  destruct d as [[]|e]; [|destruct (IsNotFound e) eqn:He]; simpl; wp_steps; eexists; split_and!; done.
Qed.

Lemma deleteGatewayResources_trace t s :
  current t s ->
  wp (deleteGatewayResources t) (fun r s' =>
    current t s' /\ (forall e, e ∈ trace s -> e ∈ trace s') /\ (r = Ok tt -> gateway_gone (trace s') (gateway_key t))) s.
Proof.
  intros Hc. unfold deleteGatewayResources. fold (gateway_key t). apply wp_bind.
  eapply wp_mono; [by apply delete_object_trace|]. intros [[]|e] s1 (d1 & Htr1 & Hc1 & Hg1).
  - eapply wp_mono; [by apply delete_object_trace|]. intros r s2 (d2 & Htr2 & Hc2 & Hg2).
    rewrite Htr2, Htr1. split_and!; [done|set_solver|].
    intros Hr. split; [exists d1|exists d2]; (split; [set_solver|by auto]).
  - rewrite Htr1. split_and!; [done|set_solver|done].
Qed.

Lemma removeFinalizer_trace t s :
  current t s -> gateway_gone (trace s) (gateway_key t) ->
  wp (removeFinalizer t) (fun r s' =>
    match r with Ok t' => released t' s' | Fail _ => trace_ok (trace s') end) s.
Proof.
  intros Hc Hg. unfold removeFinalizer. set (t1 := set_Finalizers _ t). wp_steps.
  assert (finalizerName ∉ Finalizers t1) as Hno.
  { simpl. rewrite remove_finalizer_spec. tauto. }
  apply wp_kcall. intros [t'|e] w _.
  - split; [apply (current_answer t' s); [apply Hc|by right|done]|].
    exists t1. split; [done|]. right. exists t'. set_solver.
  - simpl. apply trace_ok_snoc; [apply Hc|by right].
Qed.

(** *** The status computation *)

(** Only reads of the Service happened between [s] and [s']. *)
Definition only_service_reads s s' : Prop :=
  portAllocator s' = portAllocator s /\ fwd s' = fwd s /\ metrics s' = metrics s /\
  exists l, trace s' = trace s ++ l /\ Forall (fun e => exists k r, e = EvGetService k r) l.

Lemma only_service_reads_refl s : only_service_reads s s.
Proof. split_and!; [done..|]. exists []. by rewrite app_nil_r. Qed.

Lemma current_reads t s s' : only_service_reads s s' -> current t s -> current t s'.
Proof.
  intros (_ & _ & _ & l & Htr & Hl) [Hok Hlast]. unfold current. rewrite Htr. clear Htr.
  induction l as [|e l IH] using rev_ind; [by rewrite app_nil_r|].
  apply Forall_app in Hl as [Hl He]. apply Forall_singleton in He as (k & r & ->).
  destruct (IH Hl) as [IH1 IH2].
  rewrite app_assoc. split; [by apply trace_ok_snoc|]. by rewrite last_object_snoc.
Qed.

Record status_step (t : Tunnel) (o : outcome) : Prop := {
  step_same : same_object t (o_tunnel o);
  step_flag : o_updated o = true <-> o_tunnel o <> t;
}.

Lemma resolveForwarderVIP_reads s :
  wp (resolveForwarderVIP rc) (fun _ s' => only_service_reads s s') s.
Proof.
  unfold resolveForwarderVIP.
  repeat case_bool_decide; simpl; wp_steps; try apply only_service_reads_refl;
    destruct (r_ClientSet rc); simpl; wp_steps; try apply only_service_reads_refl.
  apply wp_kcall. intros [svc|e] w _.
  - assert (only_service_reads s (mkWorld w (portAllocator s) (fwd s) (metrics s)
      (trace s ++ [EvGetService (r_ForwarderServiceKey rc) (Ok svc)]))) by (split_and!; [done..|]; eexists; split; [done|]; repeat constructor; eauto).
    case_match; by wp_steps.
  - split_and!; [done..|]. eexists; split; [done|]. repeat constructor; eauto.
Qed.

Lemma publish_endpoint_spec t t' u q s :
  same_object t t' -> (u = true <-> t' <> t) ->
  ForwarderEndpoint (Status t') = ForwarderEndpoint (Status t) ->
  wp (publish_endpoint rc t' u q) (fun res s' => exists o, res = Ok o /\ only_service_reads s s' /\
    status_step t o /\ Phase (Status (o_tunnel o)) = Phase (Status t') /\
    GatewayPublicKey (Status (o_tunnel o)) = GatewayPublicKey (Status t')) s.
Proof.
  intros Hsame Hu Hep. unfold publish_endpoint. wp_steps.
  eapply wp_mono; [apply resolveForwarderVIP_reads|]. intros [vip|e] s' Hr; wp_steps.
  - repeat case_bool_decide; wp_steps; eexists; (split_and!; try done); try (by split).
    split; [done|]. split; [|done]. simpl. intros _ Heq.
    apply (f_equal (fun t => ForwarderEndpoint (Status t))) in Heq. simpl in Heq. congruence.
  - eexists; split_and!; try done; by split.
Qed.

Lemma set_phase_message_spec ph msg t0 t u :
  (u = true <-> t <> t0) -> Phase (Status t) = Phase (Status t0) -> Message (Status t) = Message (Status t0) ->
  let '(t', u') := set_phase_message ph msg t u in
  (u' = true <-> t' <> t0) /\ Phase (Status t') = ph /\ same_object t t' /\
  GatewayPublicKey (Status t') = GatewayPublicKey (Status t) /\
  ForwarderEndpoint (Status t') = ForwarderEndpoint (Status t).
Proof.
  intros Hu Hph Hmsg. unfold set_phase_message.
  destruct (bool_decide (Phase (Status t) <> ph) || bool_decide (Message (Status t) <> msg)) eqn:E.
  - split_and!; try done. split; [|done]. intros _ Heq.
    apply orb_true_iff in E as [E|E]; apply bool_decide_eq_true in E;
      [apply (f_equal (fun t => Phase (Status t))) in Heq|apply (f_equal (fun t => Message (Status t))) in Heq];
      simpl in Heq; congruence.
  - apply orb_false_iff in E as [E _]. rewrite bool_decide_eq_false in E.
    split_and!; try done. destruct (decide (Phase (Status t) = ph)); [done|by destruct E].
Qed.

Lemma same_object_trans t1 t2 t3 : same_object t1 t2 -> same_object t2 t3 -> same_object t1 t3.
Proof. unfold same_object, same_meta. intros; destruct_and!; split_and!; congruence. Qed.

Definition phase_outcome (f : option F) (pod : Pod) t (o : outcome) : Prop :=
  status_step t o /\
  (Phase (Status (o_tunnel o)) = TunnelPhaseReady ->
   Phase (Status t) = TunnelPhaseReady \/ ready_evidence rc f pod (o_tunnel o)).

Lemma flag_refl t : false = true <-> t <> t.
Proof. split; [done|]. by intros []. Qed.

(** The endpoint step of a run that did not touch the phase. *)
Lemma endpoint_phase_outcome pod t q s :
  wp (publish_endpoint rc t false q) (fun res s' =>
    exists o, res = Ok o /\ only_service_reads s s' /\ phase_outcome (fwd s) pod t o) s.
Proof.
  eapply wp_mono; [apply (publish_endpoint_spec t t); [done|apply flag_refl|done]|].
  intros res s' (o & -> & Hreads & Hstep & Hph & _). exists o. split_and!; [done..|].
  split; [done|]. rewrite Hph. by left.
Qed.

Lemma handleReadyPod_spec t pod s :
  isPodReady pod = true ->
  wp (handleReadyPod rc t pod) (fun res s' =>
    exists o, res = Ok o /\ only_service_reads s s' /\ phase_outcome (fwd s) pod t o) s.
Proof.
  intros Hready. unfold handleReadyPod. case_bool_decide as Hip; [|apply endpoint_phase_outcome].
  destruct (fetcher rc (pod_PodIP pod)) as [pubKey|e] eqn:Hfetch; [|apply endpoint_phase_outcome].
  case_bool_decide as Hkey; [|apply endpoint_phase_outcome].
  set (tu := if bool_decide (GatewayPublicKey (Status t) <> pubKey) then _ else _).
  assert ((tu.2 = true <-> tu.1 <> t) /\ same_object t tu.1 /\ GatewayPublicKey (Status tu.1) = pubKey /\
          Phase (Status tu.1) = Phase (Status t) /\ Message (Status tu.1) = Message (Status t) /\
          ForwarderEndpoint (Status tu.1) = ForwarderEndpoint (Status t)) as Htu.
  { unfold tu. case_bool_decide as Hk; simpl; (split_and!; try done).
    - split; [|done]. intros _ Heq. apply (f_equal (fun t => GatewayPublicKey (Status t))) in Heq. simpl in Heq. congruence. }
  destruct tu as [t1 u1]. simpl in Htu. destruct Htu as (Hu1 & Hsame1 & Hkey1 & Hph1 & Hmsg1 & Hep1).
  wp_steps. set (missing := match fwd s with Some f => _ | None => [] end).
  case_bool_decide as Hmiss.
  - pose proof (set_phase_message_spec TunnelPhaseProvisioning "Waiting for forwarder mapping acknowledgement"
      t t1 u1 Hu1 Hph1 Hmsg1) as Hp.
    destruct (set_phase_message _ _ t1 u1) as [t2 u2]. destruct Hp as (Hu2 & Hph2 & Hsame2 & _).
    wp_steps. eexists. split_and!; [done|apply only_service_reads_refl|].
    split; [split; [by eapply same_object_trans|done]|]. simpl. by rewrite Hph2.
  - pose proof (set_phase_message_spec TunnelPhaseReady "Gateway ready" t t1 u1 Hu1 Hph1 Hmsg1) as Hp.
    destruct (set_phase_message _ _ t1 u1) as [t2 u2]. destruct Hp as (Hu2 & Hph2 & Hsame2 & Hkey2 & Hep2).
    assert (same_object t t2) as Hsame by by eapply same_object_trans.
    eapply wp_mono; [apply (publish_endpoint_spec t t2); [done..|congruence]|].
    intros res s' (o & -> & Hreads & Hstep & Hpho & Hkeyo). exists o. split_and!; [done..|]. split; [done|].
    intros _. right. unfold ready_evidence. rewrite Hkeyo, Hkey2, Hkey1. split_and!; [done..|].
    intros f Hf. unfold missing in Hmiss. rewrite Hf in Hmiss.
    destruct Hstep as [Hso _]. unfold same_object, same_meta in *. destruct_and!.
    replace (Namespace (o_tunnel o)) with (Namespace t1) by congruence.
    replace (Name (o_tunnel o)) with (Name t1) by congruence.
    replace (MappingRevision (Status (o_tunnel o))) with (MappingRevision (Status t1)) by congruence.
    exact Hmiss.
Qed.

Lemma evaluatePodPhase_spec t pod s :
  wp (evaluatePodPhase rc t pod) (fun res s' =>
    exists o, res = Ok o /\ only_service_reads s s' /\ phase_outcome (fwd s) pod t o) s.
Proof.
  assert (forall q, status_step t (mkOutcome t false q)) as Hrefl by (intros q; split; [done|apply flag_refl]).
  assert (forall ph msg q, Phase (Status t) <> ph ->
    status_step t (mkOutcome (set_status (fun st => set_Message msg (set_Phase ph st)) t) true q)) as Hset.
  { intros ph msg q Hne. split; [done|]. split; [|done]. intros _ Heq.
    apply (f_equal (fun t => Phase (Status t))) in Heq. simpl in Heq. congruence. }
  unfold evaluatePodPhase. case_bool_decide; [|case_bool_decide; [|destruct (isPodReady pod) eqn:Hr]].
  - case_bool_decide; wp_steps; (eexists; split_and!; [done|apply only_service_reads_refl|]);
      (split; [by auto|]); simpl; intros Heq; first [discriminate Heq | by left].
  - case_bool_decide; wp_steps; (eexists; split_and!; [done|apply only_service_reads_refl|]);
      (split; [by auto|]); simpl; intros Heq; first [discriminate Heq | by left].
  - by apply handleReadyPod_spec.
  - pose proof (set_phase_message_spec TunnelPhaseProvisioning "Gateway pod starting" t t false) as Hp.
    destruct (set_phase_message _ _ t false) as [t2 u2]. destruct Hp as (Hu2 & Hph2 & Hsame2 & _); [apply flag_refl|done|done|].
    wp_steps. eexists. split_and!; [done|apply only_service_reads_refl|].
    split; [by split|]. simpl. by rewrite Hph2.
Qed.

(** *** The mapping *)

Record mapping_step (base : Tunnel) (rn : string) (pod : Pod) (pre : list event) (m : mapping_state) : Prop := {
  mstep_unchanged : ms_changed m = false -> ms_tunnel m = base;
  mstep_meta : same_meta base (ms_tunnel m);
  mstep_type : ms_updateType m = ADDED \/ ms_updateType m = MODIFIED;
  mstep_pod : GatewayPodName (Status (ms_tunnel m)) = rn /\ GatewayPodUID (Status (ms_tunnel m)) = pod_UID pod /\
    GatewayPodIP (Status (ms_tunnel m)) = pod_PodIP pod;
  mstep_phase : Phase (Status (ms_tunnel m)) = Phase (Status base);
  mstep_port : ForwarderPort (Status (ms_tunnel m)) = ForwarderPort (Status base) \/
    (ForwarderPort (Status base) = 0 /\ newly_allocated pre (ms_tunnel m));
  mstep_revision : ms_changed m = true ->
    MappingRevision (Status (ms_tunnel m)) = wrap64 (MappingRevision (Status base) + 1) /\
    (mapping_id (ms_tunnel m) <> mapping_id base \/ newly_allocated pre (ms_tunnel m));
}.

(** What [assignPort] leaves for [recordGateway]. *)
Definition port_step (base : Tunnel) (pre : list event) (m : mapping_state) : Prop :=
  (m = mkMappingState base false MODIFIED) \/
  (ForwarderPort (Status base) = 0 /\ exists p, m = mkMappingState (set_status (set_ForwarderPort p) base) true ADDED /\
     newly_allocated pre (ms_tunnel m)).

Lemma assignPort_spec t s :
  current t s ->
  wp (assignPort t) (fun res s' => current t s' /\ fwd s' = fwd s /\ (forall e, e ∈ trace s -> e ∈ trace s') /\
    match res with Ok m => port_step t (trace s') m | Fail _ => True end) s.
Proof.
  intros Hc. unfold assignPort. wp_steps. case_bool_decide as Hport; simpl; [|wp_steps; by split_and!; [..|left]].
  case_bool_decide as Ha; simpl; [|wp_steps; by split_and!; [..|left]].
  wp_steps. unfold wp, allocate. destruct (portAllocator s) as [a|]; [|done].
  destruct (Allocate (tunnelKeyOf t) a) as [res a'].
  assert (forall f m, current t (mkWorld (kube s) (Some a') f m (trace s ++ [EvAllocate (tunnelKeyOf t) res]))) as Hc'.
  { intros f m. apply (current_snoc t s); [done| |done]. exists t. split_and!; [apply Hc|done|done]. }
  destruct res as [p|e|]; simpl; (split_and!; [apply Hc'|done|set_solver|]); try done.
  right. split; [done|]. exists p. split; [done|]. unfold newly_allocated. simpl. set_solver.
Qed.

(** A status field after the three assignments of the gateway's identity. *)
Lemma set_field_status {A} (g : TunnelStatus -> A) get set v m :
  (forall st, g (set v st) = g st) ->
  g (Status (ms_tunnel (set_field get set v m))) = g (Status (ms_tunnel m)).
Proof. intros Hg. unfold set_field. case_bool_decide; simpl; auto. Qed.

Lemma set_field_get get set v m :
  (forall st, get (set v st) = v) -> get (Status (ms_tunnel (set_field get set v m))) = v.
Proof. intros Hg. unfold set_field. case_bool_decide; simpl; auto. Qed.

Lemma set_field_changed get set v m :
  ms_changed (set_field get set v m) = ms_changed m || bool_decide (get (Status (ms_tunnel m)) <> v).
Proof. unfold set_field. case_bool_decide; simpl; [by rewrite orb_true_r|by rewrite orb_false_r]. Qed.

Lemma set_field_unchanged get set v m : ms_changed (set_field get set v m) = false -> set_field get set v m = m.
Proof. unfold set_field. by case_bool_decide. Qed.

Lemma set_field_meta get set v m :
  same_meta (ms_tunnel m) (ms_tunnel (set_field get set v m)) /\
  ms_updateType (set_field get set v m) = ms_updateType m.
Proof. unfold set_field. by case_bool_decide. Qed.

Lemma same_meta_trans t1 t2 t3 : same_meta t1 t2 -> same_meta t2 t3 -> same_meta t1 t3.
Proof. unfold same_meta. intros; destruct_and!; split_and!; congruence. Qed.

Record pod_step (rn : string) (pod : Pod) (m m' : mapping_state) : Prop := {
  pstep_unchanged : ms_changed m' = false -> m' = m;
  pstep_changed : ms_changed m = false -> ms_changed m' = true ->
    (GatewayPodName (Status (ms_tunnel m)), GatewayPodUID (Status (ms_tunnel m)), GatewayPodIP (Status (ms_tunnel m)))
      <> (rn, pod_UID pod, pod_PodIP pod);
  pstep_pod : GatewayPodName (Status (ms_tunnel m')) = rn /\ GatewayPodUID (Status (ms_tunnel m')) = pod_UID pod /\
    GatewayPodIP (Status (ms_tunnel m')) = pod_PodIP pod;
  pstep_meta : same_meta (ms_tunnel m) (ms_tunnel m') /\ ms_updateType m' = ms_updateType m;
  pstep_port : ForwarderPort (Status (ms_tunnel m')) = ForwarderPort (Status (ms_tunnel m));
  pstep_phase : Phase (Status (ms_tunnel m')) = Phase (Status (ms_tunnel m));
  pstep_revision : MappingRevision (Status (ms_tunnel m')) = MappingRevision (Status (ms_tunnel m));
}.

Lemma recordPod_spec rn pod m : pod_step rn pod m (recordPod rn pod m).
Proof.
  unfold recordPod. set (m1 := set_field GatewayPodName _ _ m). set (m2 := set_field GatewayPodUID _ _ m1).
  set (m3 := set_field GatewayPodIP _ _ m2). split.
  - intros Hch. assert (m3 = m2) as E3 by by apply set_field_unchanged. rewrite E3 in Hch |- *.
    assert (m2 = m1) as E2 by by apply set_field_unchanged. rewrite E2 in Hch |- *. by apply set_field_unchanged.
  - intros Hch. unfold m3, m2, m1. rewrite !set_field_changed, Hch, !set_field_status by done.
    intros Hor Heq. injection Heq as E1 E2 E3. rewrite E1, E2, E3, !bool_decide_false in Hor; try done; by intros [].
  - unfold m3. rewrite (set_field_get GatewayPodIP) by done. rewrite !set_field_status by done.
    unfold m2. rewrite (set_field_get GatewayPodUID) by done. rewrite !set_field_status by done.
    unfold m1. by rewrite set_field_get.
  - unfold m3, m2, m1. split; [|by rewrite !(proj2 (set_field_meta _ _ _ _))].
    do 3 (eapply same_meta_trans; [|apply set_field_meta]). done.
  - unfold m3, m2, m1. by rewrite !set_field_status.
  - unfold m3, m2, m1. by rewrite !set_field_status.
  - unfold m3, m2, m1. by rewrite !set_field_status.
Qed.

Lemma recordGateway_spec base rn pod pre m :
  port_step base pre m -> mapping_step base rn pod pre (recordGateway rn pod m).
Proof.
  intros Hm. unfold recordGateway. destruct (recordPod_spec rn pod m) as [Hsame Hdiff Hpod [Hmeta Hty] Hport Hph Hrev].
  generalize dependent (recordPod rn pod m). intros m3 Hsame Hdiff Hpod Hmeta Hty Hport Hph Hrev.
  assert (same_meta base (ms_tunnel m) /\ Phase (Status (ms_tunnel m)) = Phase (Status base) /\
    MappingRevision (Status (ms_tunnel m)) = MappingRevision (Status base) /\ (ms_updateType m = ADDED \/ ms_updateType m = MODIFIED)) as (Hm1 & Hm2 & Hm3 & Hm4).
  { destruct Hm as [->|(_ & p & -> & _)]; (split_and!; [done..|simpl; auto]). }
  assert (ForwarderPort (Status (ms_tunnel m)) = ForwarderPort (Status base) \/
    ForwarderPort (Status base) = 0 /\ newly_allocated pre (ms_tunnel m)) as Hm5.
  { destruct Hm as [->|(Hz & p & -> & Hn)]; auto. }
  assert (forall t', same_meta (ms_tunnel m) t' -> ForwarderPort (Status t') = ForwarderPort (Status (ms_tunnel m)) ->
    newly_allocated pre (ms_tunnel m) -> newly_allocated pre t') as Hnew.
  { intros t' (E1 & E2 & _) E. unfold newly_allocated, tunnelKeyOf. by rewrite E, E1, E2. }
  destruct (ms_changed m3) eqn:Hch.
  2: { specialize (Hsame eq_refl). subst m3. destruct Hm as [->|(_ & p & -> & _)]; [|done]. split; auto; done. }
  split; simpl; [done|by eapply same_meta_trans|by rewrite Hty|done|by rewrite Hph| |].
  - rewrite Hport. destruct Hm5 as [?|[? ?]]; [by left|right; split; [done|]; by apply Hnew].
  - intros _. rewrite Hrev, Hm3. split; [done|].
    destruct Hm as [->|(Hz & p & -> & Hn)]; [left|right; by apply Hnew].
    intros Heq. unfold mapping_id in Heq. simpl in Heq. destruct Hpod as (P1 & P2 & P3). rewrite P1, P2, P3 in Heq.
    injection Heq as _ E1 E2 E3. apply (Hdiff eq_refl eq_refl). by rewrite E1, E2, E3.
Qed.

(** *** The handlers *)

(** The tunnel of the request, just read. *)
Definition just_read req t s : Prop := current t s /\ EvGet req (Ok t) ∈ trace s.

Lemma just_read_absent req t s : just_read req t s -> finalizerName ∉ Finalizers t -> released t s.
Proof. intros [Hc Hin] Hno. split; [done|]. exists t. eauto. Qed.

Lemma contains_false t : ContainsFinalizer (Finalizers t) finalizerName = false -> finalizerName ∉ Finalizers t.
Proof. intros Hf Hin. apply contains_finalizer_spec in Hin. congruence. Qed.

(** The common end of deletion and termination. *)
Lemma release_notify_released t s :
  released t s ->
  wp (releaseForwarderPort t ;; notifyTunnelUpdate t DELETED) (fun r s' => r = Ok tt /\ released t s') s.
Proof.
  intros Hr. apply wp_bind. eapply wp_mono; [by apply release_released|]. intros r s' [-> Hr'].
  by apply notify_released.
Qed.

Lemma handleDeletion_trace req t s :
  just_read req t s -> wp (handleDeletion t) (fun _ s' => trace_ok (trace s')) s.
Proof.
  intros Hjr. unfold handleDeletion. destruct (ContainsFinalizer _ _) eqn:Hf; simpl.
  - apply wp_bind. eapply wp_mono; [by apply deleteGatewayResources_trace, Hjr|].
    intros [[]|e] s1 (Hc1 & _ & Hg1); [|by apply Hc1].
    apply wp_bind. eapply wp_mono; [by apply removeFinalizer_trace; [|apply Hg1]|].
    intros [t2|e] s2; [|done]. intros Hrel.
    eapply wp_mono; [by apply release_notify_released|]. intros r s3 [_ [Hc3 _]]. apply Hc3.
  - eapply wp_mono; [apply release_released; eapply just_read_absent; [done|by apply contains_false]|].
    intros r s' [_ [Hc _]]. apply Hc.
Qed.

Lemma handleTerminated_trace req t s :
  just_read req t s -> wp (handleTerminated t) (fun _ s' => trace_ok (trace s')) s.
Proof.
  intros Hjr. unfold handleTerminated. apply wp_bind.
  eapply wp_mono; [by apply deleteGatewayResources_trace, Hjr|]. intros [[]|e] s1 (Hc1 & Hsub & Hg1); [|by apply Hc1].
  apply wp_bind. apply wp_mono with (Q' := fun r s2 => match r with Ok t2 => released t2 s2 | Fail _ => trace_ok (trace s2) end).
  { destruct (ContainsFinalizer _ _) eqn:Hf; [by apply removeFinalizer_trace; [|apply Hg1]|]. wp_steps.
    eapply just_read_absent; [split; [done|apply Hsub, Hjr]|]. by apply contains_false. }
  intros [t2|e] s2; [|done]. intros Hrel.
  apply wp_bind. eapply wp_mono; [by apply release_released|]. intros r s3 [-> Hr3].
  apply wp_bind. eapply wp_mono; [by apply notify_released|]. intros r s4 [-> Hr4].
  wp_steps. apply wp_kcall. intros d w _.
  assert (trace_ok (trace s4 ++ [EvDelete (tunnel_key t2) d])) as Hok.
  { apply trace_ok_snoc; [apply Hr4|]. destruct Hr4 as [[_ Hl] Ha]. simpl. eauto. }
  destruct d as [|e]; [|destruct (IgnoreNotFound e)]; by wp_steps.
Qed.

Lemma ensureFinalizer_trace req t s :
  just_read req t s -> fwd s = f0 ->
  wp (ensureFinalizer t) (fun r s' => trace_ok (trace s') /\ fwd s' = f0 /\
    match r with Ok t' => current t' s' /\ finalizer_persisted (trace s') | Fail _ => True end) s.
Proof.
  intros [Hc Hin] Hf0. unfold ensureFinalizer. destruct (ContainsFinalizer _ _) eqn:Hf; simpl; wp_steps.
  - split_and!; [apply Hc|done|done|]. exists t. split; [by apply contains_finalizer_spec|]. eauto.
  - set (t1 := set_Finalizers _ t). assert (finalizerName ∈ Finalizers t1) as Hin1.
    { simpl. rewrite add_finalizer_spec. by left. }
    apply wp_kcall. intros d w _.
    assert (trace_ok (trace s ++ [EvUpdate t1 d])) as Hok by (apply trace_ok_snoc; [apply Hc|by left]).
    split_and!; [done..|]. destruct d as [t'|e]; [|done]. split.
    + apply (current_answer t' s); [apply Hc|by left|done].
    + exists t1. split; [done|]. right. exists t'. set_solver.
Qed.

Lemma ensureGatewayPod_trace t s :
  current t s -> finalizer_persisted (trace s) -> fwd s = f0 ->
  wp (ensureGatewayPod rc t (gatewayResourceName (Name t)) (gatewayLabels (Name t))) (fun r s' =>
    trace_ok (trace s') /\ fwd s' = f0 /\
    match r with Ok pod => current t s' /\ pod_answer (trace s') (gateway_key t) pod | Fail _ => True end) s.
Proof.
  intros Hc Hfin Hf0. unfold ensureGatewayPod. fold (gateway_key t). wp_steps. apply wp_kcall. intros d w _.
  pose proof (current_snoc t s (EvGetPod (gateway_key t) d) w (portAllocator s) (fwd s) (metrics s) Hc I eq_refl) as Hc1.
  destruct d as [pod|e]; wp_steps.
  { split_and!; [apply Hc1|done|done|]. left. simpl. set_solver. }
  destruct (IsNotFound e); simpl; [|wp_steps; split_and!; [apply Hc1|done|done]].
  destruct (SetControllerReference t []) as [owners|e'] eqn:Eown; [|wp_steps; split_and!; [apply Hc1|done|done]].
  wp_steps. apply wp_kcall. intros d w' _. set (p := mkPod _ _ _ _ _ _ _ _ _).
  assert (event_allowed (trace s ++ [EvGetPod (gateway_key t) (Fail e)]) (EvCreatePod p d)) as Hall.
  { split; [by apply finalizer_persisted_snoc|]. exists t. split_and!; [apply Hc1|done..]. }
  pose proof (current_snoc t _ (EvCreatePod p d) w' (portAllocator s) (fwd s) (metrics s) Hc1 Hall eq_refl) as Hc2.
  destruct d as [pod|e']; [|by split_and!; [apply Hc2|..]].
  split_and!; [apply Hc2|done|done|]. right. exists p. split; [done|]. simpl. set_solver.
Qed.

Lemma ensureNetworkPolicy_trace t s :
  current t s ->
  wp (ensureNetworkPolicy t (gatewayResourceName (Name t)) (gatewayLabels (Name t))) (fun r s' =>
    current t s' /\ fwd s' = fwd s /\ forall e, e ∈ trace s -> e ∈ trace s') s.
Proof.
  intros Hc. unfold ensureNetworkPolicy. wp_steps. apply wp_kcall. intros d w _.
  destruct d as [[]|e]; (split_and!; [by apply (current_snoc t s)|done|set_solver]).
Qed.

Lemma newly_allocated_same pre t t' :
  same_meta t t' -> ForwarderPort (Status t') = ForwarderPort (Status t) -> newly_allocated pre t -> newly_allocated pre t'.
Proof. intros (E1 & E2 & _) E. unfold newly_allocated, tunnelKeyOf. by rewrite E, E1, E2. Qed.

(** The status computed from a mapping step and a phase step may be written. *)
Lemma computed_patch_ok pre base pod m o :
  mapping_step base (gatewayResourceName (Name base)) pod pre m -> phase_outcome f0 pod (ms_tunnel m) o ->
  pod_answer pre (gateway_key base) pod -> ms_changed m || o_updated o = true ->
  patch_ok rc f0 pre base (o_tunnel o).
Proof.
  intros [Hun Hmeta _ (Pn & Pu & Pi) Hph Hport Hrev] [[[Hmeta' [Hid Hr]] Hflag] Hready] Hpod Hupd.
  injection Hid as Eport En Eu Ei.
  assert (ms_changed m = true -> MappingRevision (Status (o_tunnel o)) = wrap64 (MappingRevision (Status base) + 1)) as Hbump.
  { intros Hch. rewrite Hr. by apply Hrev. }
  assert (newly_allocated pre (ms_tunnel m) -> newly_allocated pre (o_tunnel o)) as Hnew by by apply newly_allocated_same.
  split.
  - destruct (ms_changed m) eqn:Hch; simpl in Hupd.
    + intros Heq. specialize (Hbump eq_refl). rewrite Heq in Hbump. by apply (wrap64_succ_ne (MappingRevision (Status base))).
    + rewrite Hun in Hflag by done. by apply Hflag.
  - by eapply same_meta_trans.
  - rewrite Eport. destruct Hport as [?|[? ?]]; auto.
  - destruct (ms_changed m) eqn:Hch.
    + right. split; [by apply Hbump|]. destruct (Hrev eq_refl) as [_ [Hne|Hn]]; [left|auto].
      intros Heq. apply Hne. rewrite <- Heq. unfold mapping_id. by rewrite Eport, En, Eu, Ei.
    + left. rewrite Hr, Hun by done. split; [done|].
      unfold mapping_id. rewrite Eport, En, Eu, Ei. by rewrite Hun.
  - exists pod. rewrite En, Eu, Ei. split_and!; try done. rewrite <- Hph. exact Hready.
Qed.

(** Republishing the current object. *)
Lemma republish_trace t s : current t s -> wp (republish t) (fun r s' => r = Ok tt /\ current t s') s.
Proof.
  intros Hc. unfold republish. apply wp_bind, wp_gets. cbv zeta.
  destruct (_ && _); [apply notify_current; auto|by apply wp_ret].
Qed.

Lemma publish_end_trace t (q : Z) s :
  current t s -> wp (republish t ;; mret q) (fun _ s' => trace_ok (trace s')) s.
Proof.
  intros Hc. apply wp_bind. eapply wp_mono; [by apply republish_trace|]. intros r s' [-> Hc']. apply wp_ret, Hc'.
Qed.

Lemma persistAndPublish_trace base pod m o s :
  current base s -> mapping_step base (gatewayResourceName (Name base)) pod (trace s) m ->
  phase_outcome f0 pod (ms_tunnel m) o -> pod_answer (trace s) (gateway_key base) pod ->
  wp (persistAndPublish base m o) (fun _ s' => trace_ok (trace s')) s.
Proof.
  intros Hc Hm Ho Hpod. unfold persistAndPublish. cbv zeta. apply wp_bind.
  destruct (ms_changed m || o_updated o) eqn:Hupd.
  - assert (forall d, event_allowed (trace s) (EvPatch base (o_tunnel o) d)) as Hall.
    { intros d. split; [apply Hc|]. by eapply computed_patch_ok. }
    apply wp_bind, wp_wrap_err, wp_kcall. intros [t'|e] w _; [|apply trace_ok_snoc; [apply Hc|apply Hall]].
    pose proof (current_answer t' s (EvPatch base (o_tunnel o) (Ok t')) w (portAllocator s) (fwd s)
      (inc_tunnels (Phase (Status t')) (Namespace t') (metrics s)) (current_ok _ _ Hc) (Hall _) eq_refl) as Hc'.
    apply wp_bind, wp_modify. unfold set_metrics. cbn [kube portAllocator fwd metrics trace].
    apply wp_bind. destruct (ms_changed m).
    + eapply wp_mono; [apply notify_current; [apply Hm|exact Hc']|]. intros r s' [-> Hc2].
      apply wp_ret. by apply publish_end_trace.
    + apply wp_ret, wp_ret. by apply publish_end_trace.
  - apply orb_false_iff in Hupd as [Hch Hu]. apply wp_ret, publish_end_trace.
    replace (o_tunnel o) with base; [done|]. destruct Hm as [Hun _ _ _ _ _ _]. destruct Ho as [[_ Hflag] _].
    rewrite Hun in Hflag by done. destruct (decide (o_tunnel o = base)) as [|Hne]; [done|]. apply Hflag in Hne. congruence.
Qed.

Lemma reconcileTunnel_trace req t s :
  just_read req t s -> fwd s = f0 -> wp (reconcileTunnel rc t) (fun _ s' => trace_ok (trace s')) s.
Proof.
  intros Hjr Hf0. unfold reconcileTunnel. destruct (validateTunnelTarget _); [apply wp_throw, Hjr|].
  apply wp_bind. eapply wp_mono; [by eapply ensureFinalizer_trace|].
  intros [t1|e] s1 (Hok1 & Hf1 & Hr1); [destruct Hr1 as [Hc1 Hfin1]|done]. cbv zeta.
  apply wp_bind. eapply wp_mono; [by apply ensureGatewayPod_trace|].
  intros [pod|e] s2 (Hok2 & Hf2 & Hr2); [destruct Hr2 as [Hc2 Hpod2]|done].
  apply wp_bind. eapply wp_mono; [by apply ensureNetworkPolicy_trace|].
  intros [[]|e] s3 (Hc3 & Hf3 & Hsub3); [|apply Hc3].
  apply wp_bind. eapply wp_mono; [by apply assignPort_spec|].
  intros [m|e] s4 (Hc4 & Hf4 & Hsub4 & Hm); [|apply Hc4].
  apply wp_bind. eapply wp_mono; [apply evaluatePodPhase_spec|].
  intros res s5 (o & -> & Hreads & Ho). rewrite Hf4, Hf3, Hf2 in Ho.
  pose proof (current_reads _ _ _ Hreads Hc4) as Hc5. destruct Hreads as (_ & _ & _ & l & Htr & _).
  assert (forall e, e ∈ trace s2 -> e ∈ trace s5) as Hsub by (intros e He; rewrite Htr; apply elem_of_app; auto).
  apply (persistAndPublish_trace _ pod); [done| |done|].
  - apply recordGateway_spec. destruct Hm as [->|(Hz & p & -> & Hn)]; [by left|right].
    split; [done|]. exists p. split; [done|]. unfold newly_allocated. rewrite Htr. apply elem_of_app. by left.
  - destruct Hpod2 as [?|(p & ? & ?)]; [left|right]; eauto.
Qed.

Lemma Reconcile_trace_ok req s :
  trace s = [] -> fwd s = f0 -> trace_ok (trace (Reconcile rc req s).2).
Proof.
  intros Htr Hf0. unfold Reconcile.
  enough (wp (reconcileBody rc req) (fun _ s' => trace_ok (trace s')) s) as Hwp.
  { unfold wp in Hwp. destruct (reconcileBody rc req s). exact Hwp. }
  unfold reconcileBody. apply wp_bind, wp_try, wp_kcall. intros d w _. rewrite Htr. simpl.
  assert (forall d, trace_ok [EvGet req d]) as Hok by (intros d'; apply (trace_ok_snoc _ _ []); [apply trace_ok_nil|done]).
  destruct d as [t|e]; [|destruct (IgnoreNotFound e); wp_steps; apply Hok].
  assert (just_read req t (mkWorld w (portAllocator s) (fwd s) (metrics s) [EvGet req (Ok t)])) as Hjr.
  { split; [split; [apply Hok|done]|]. simpl. set_solver. }
  case_bool_decide; [|case_bool_decide].
  - apply wp_bind. eapply wp_mono; [by eapply handleDeletion_trace|]. by intros [[]|e] s'.
  - apply wp_bind. eapply wp_mono; [by eapply handleTerminated_trace|]. by intros [[]|e] s'.
  - by eapply reconcileTunnel_trace.
Qed.
End reconcile_trace.

(** ** Properties of a reconciliation *)

Section reconcile_properties.
Context {W : Type} `{KubeClient W} `{!ControllerUtil} `{!ControllerUtilLaws} {R : Type} `{RandSource R}
  {F : Type} `{forwarderServer F}.
Implicit Types (s : world W R F) (rc : TunnelReconciler).

Lemma Reconcile_allowed rc req s pre e post :
  trace s = [] -> trace (Reconcile rc req s).2 = pre ++ e :: post -> event_allowed rc (fwd s) pre e.
Proof. intros Htr. by apply (Reconcile_trace_ok rc (fwd s)). Qed.

(** C1: persist before publish.  Whatever the API server answers and whichever
    calls fail, every update a reconciliation publishes carries the mapping of the
    object the API server last answered with, has a positive port, and unless it is
    a deletion it has a gateway address and a verified key and is, field by field,
    the mapping [GetConfig] puts into a snapshot for that object.  So a forwarder
    that fetches a snapshot of that object sees nothing older than what was
    published. *)
Theorem published_mapping_is_persisted rc req s pre u post (w : W) :
  trace s = [] -> trace (Reconcile rc req s).2 = pre ++ EvNotify u :: post ->
  exists t, last_object pre = Some t /\ 0 < ForwarderPort (Status t) /\
    tu_Tunnel u = Some (publishedMapping t) /\
    (tu_Type u = Some DELETED \/
     (GatewayPodIP (Status t) <> "" /\ GatewayPublicKey (Status t) <> "" /\
      tunnelMapping t w = (Ok (publishedMapping t), w))).
Proof.
  intros Htr Heq. destruct (Reconcile_allowed _ _ _ _ _ _ Htr Heq) as (t & ty & Hl & -> & Hp & Hty).
  exists t. split_and!; [done..|]. simpl. case_decide as Hd; [left; by subst|right].
  destruct Hty as (_ & Hip & Hkey). split_and!; [done..|]. by apply tunnelMapping_eq.
Qed.

(** C3: gateway resources are never leaked.  A gateway pod is created only once
    the API server has the cleanup finalizer on the tunnel; and an update that
    takes the finalizer off is sent only after the deletes of the gateway pod and
    of the network policy have both succeeded or found nothing. *)
Theorem finalizer_guards_gateway rc req s pre e post :
  trace s = [] -> trace (Reconcile rc req s).2 = pre ++ e :: post ->
  (forall p d, e = EvCreatePod p d -> finalizer_persisted pre) /\
  (forall t d, e = EvUpdate t d -> finalizerName ∉ Finalizers t -> gateway_gone pre (gateway_key t)).
Proof.
  intros Htr Heq. pose proof (Reconcile_allowed _ _ _ _ _ _ Htr Heq) as Hall. split.
  - intros p d ->. apply Hall.
  - intros t d -> Hno. by destruct Hall.
Qed.

(** C13: a port is given back, a deletion is published and a terminated tunnel is
    deleted only once the finalizer is off the object as the API server has it, and
    always for the tunnel last answered; a port is asked for only when the tunnel
    has none. *)
Theorem port_released_after_finalizer rc req s pre e post :
  trace s = [] -> trace (Reconcile rc req s).2 = pre ++ e :: post ->
  match e with
  | EvRelease key => finalizer_absent pre /\ exists t, last_object pre = Some t /\ key = tunnelKeyOf t
  | EvNotify u => tu_Type u = Some DELETED -> finalizer_absent pre
  | EvDelete k _ => finalizer_absent pre /\ exists t, last_object pre = Some t /\ k = tunnel_key t
  | EvAllocate key _ => exists t, last_object pre = Some t /\ key = tunnelKeyOf t /\ ForwarderPort (Status t) = 0
  | _ => True
  end.
Proof.
  intros Htr Heq. pose proof (Reconcile_allowed _ _ _ _ _ _ Htr Heq) as Hall. destruct e; try exact Hall; try done.
  destruct Hall as (t & ty & _ & -> & _ & Hd). intros [= ->]. by rewrite decide_True in Hd.
Qed.

(** C12: every status write starts from the object last answered, changes
    something, and leaves name, spec, finalizers and deletion mark alone.  The
    gateway name, UID and address it records are those of the pod the API server
    has.  The revision moves by exactly one, and moves if and only if the
    port or the gateway changes or a port was just allocated, so one revision never
    stands for two mappings of a tunnel. *)
Theorem status_write_revision rc req s pre base t d post :
  trace s = [] -> trace (Reconcile rc req s).2 = pre ++ EvPatch base t d :: post ->
  last_object pre = Some base /\ t <> base /\ same_meta base t /\
  (exists pod, pod_answer pre (gateway_key base) pod /\ GatewayPodName (Status t) = gatewayResourceName (Name base) /\
     GatewayPodUID (Status t) = pod_UID pod /\ GatewayPodIP (Status t) = pod_PodIP pod) /\
  (ForwarderPort (Status t) = ForwarderPort (Status base) \/ ForwarderPort (Status base) = 0 /\ newly_allocated pre t) /\
  ((MappingRevision (Status t) = MappingRevision (Status base) /\ mapping_id t = mapping_id base) \/
   (MappingRevision (Status t) = wrap64 (MappingRevision (Status base) + 1) /\
    (mapping_id t <> mapping_id base \/ newly_allocated pre t))).
Proof.
  intros Htr Heq. destruct (Reconcile_allowed _ _ _ _ _ _ Htr Heq) as [Hl [Hch Hmeta Hport Hrev (pod & Hpod)]].
  split_and!; try done. exists pod. destruct_and! Hpod. by split_and!.
Qed.

(** C2: a tunnel becomes Ready only on evidence.  A status write that turns a
    tunnel Ready happens only when the gateway pod is ready and has an address, the
    gateway answered with the non-empty public key the status records, and no
    forwarder connected to the operator has yet to acknowledge the revision the
    status records. *)
Theorem ready_only_on_evidence rc req s pre base t d post :
  trace s = [] -> trace (Reconcile rc req s).2 = pre ++ EvPatch base t d :: post ->
  Phase (Status base) <> TunnelPhaseReady -> Phase (Status t) = TunnelPhaseReady ->
  exists pod, pod_answer pre (gateway_key base) pod /\
    isPodReady pod = true /\ GatewayPodIP (Status t) = pod_PodIP pod /\ pod_PodIP pod <> "" /\
    GatewayPublicKey (Status t) <> "" /\ fetcher rc (pod_PodIP pod) = Ok (GatewayPublicKey (Status t)) /\
    forall f, fwd s = Some f -> fs_MissingAcks (Namespace t) (Name t) (MappingRevision (Status t)) f = [].
Proof.
  intros Htr Heq Hb Ht. destruct (Reconcile_allowed _ _ _ _ _ _ Htr Heq) as [_ [_ _ _ _ (pod & Hp & _ & _ & Hip & Hr)]].
  destruct (Hr Ht) as [?|(? & ? & ? & ? & ?)]; [done|]. exists pod. by split_and!.
Qed.
End reconcile_properties.
