(* ===== verification/Calm.v ===== *)
(** * What a reconciliation leaves alone

    Most calls of a reconciliation read, or write other objects than Tunnels.  Around
    each of them other clients may act on the Tunnels, in the way a relation [U] allows,
    but the operator itself changes neither a Tunnel nor its allocator nor what the
    forwarders were told: [quiet].  The lemmas are about any [U] the cluster keeps to
    ([PlainCalls]), so that they serve clusters on which more or less can happen. *)

From S2P Require Import Prelude GoStd Proto Api Kube Cluster Portalloc Server Controller Reconcile.

(** The updates published in a trace. *)
Definition published_in (e : event) : option TunnelUpdate := match e with EvNotify u => Some u | _ => None end.
Definition notes (tr : list event) : list TunnelUpdate := omap published_in tr.

Lemma notes_snoc tr e : notes (tr ++ [e]) = notes tr ++ match published_in e with Some u => [u] | None => [] end.
Proof. unfold notes. rewrite omap_app. simpl. by destruct (published_in e). Qed.

Class PlainCalls (W : Type) `{KubeClient W} `{ClusterView W} (U : relation (gmap ObjectKey Tunnel)) : Prop := {
  plain_refl m : U m m;
  plain_trans m1 m2 m3 : U m1 m2 -> U m2 m3 -> U m1 m3;
  plain_ok m m' : U m m' -> view_ok m -> view_ok m';
  plain_get_pod k w r w' : view_ok (tunnels_of w) -> kube_get_pod k w = (r, w') -> U (tunnels_of w) (tunnels_of w');
  plain_create_pod p w r w' : view_ok (tunnels_of w) -> kube_create_pod p w = (r, w') -> U (tunnels_of w) (tunnels_of w');
  plain_delete_pod k w r w' : view_ok (tunnels_of w) -> kube_delete_pod k w = (r, w') -> U (tunnels_of w) (tunnels_of w');
  plain_apply_policy k f w r w' : view_ok (tunnels_of w) -> kube_create_or_update_policy k f w = (r, w') ->
    U (tunnels_of w) (tunnels_of w');
  plain_delete_policy k w r w' : view_ok (tunnels_of w) -> kube_delete_policy k w = (r, w') -> U (tunnels_of w) (tunnels_of w');
  plain_get_service k w r w' : view_ok (tunnels_of w) -> kube_get_service k w = (r, w') -> U (tunnels_of w) (tunnels_of w');
}.

#[export] Instance laws_plain {W : Type} `{KubeLaws W} : PlainCalls W user_steps.
Proof.
  split.
  - reflexivity.
  - intros m1 m2 m3 Hu Hu'. by etrans.
  - apply user_steps_ok.
  - apply get_pod_law.
  - apply create_pod_law.
  - apply delete_pod_law.
  - apply apply_policy_law.
  - apply delete_policy_law.
  - apply get_service_law.
Qed.

Section quiet.
Context {W : Type} `{KubeClient W} `{!ClusterView W} `{!ControllerUtil} {R : Type} `{RandSource R}
  {F : Type} `{forwarderServer F} (U : relation (gmap ObjectKey Tunnel)) `{!PlainCalls W U}.
Implicit Types (s : world W R F) (t : Tunnel) (rc : TunnelReconciler).

Abbreviation view s := (tunnels_of (kube s)).

Record quiet s s' : Prop := {
  quiet_view : U (view s) (view s');
  quiet_alloc : portAllocator s' = portAllocator s;
  quiet_fwd : fwd s' = fwd s;
  quiet_notes : notes (trace s') = notes (trace s);
}.

Lemma quiet_refl s : quiet s s.
Proof. split; [apply (plain_refl (U := U))|done..]. Qed.

Lemma quiet_trans s1 s2 s3 : quiet s1 s2 -> quiet s2 s3 -> quiet s1 s3.
Proof. intros [] []. split; [by eapply (plain_trans (U := U))|congruence..]. Qed.

Lemma quiet_view_ok s s' : quiet s s' -> view_ok (view s) -> view_ok (view s').
Proof. intros []. by apply (plain_ok (U := U)). Qed.

Lemma wp_kcall_quiet {A} (ev : res A -> event) (m : ST W A) s :
  (forall r, published_in (ev r) = None) ->
  (forall r w, m (kube s) = (r, w) -> U (view s) (tunnels_of w)) ->
  wp (kcall ev m) (fun _ s' => quiet s s') s.
Proof.
  intros Hev Hm. apply wp_kcall. intros r w Hw. split; [by eapply Hm|done..|].
  simpl. by rewrite notes_snoc, Hev, app_nil_r.
Qed.

Lemma wp_bind_quiet {A B} (m : ST (world W R F) A) (f : A -> ST (world W R F) B) s :
  view_ok (view s) -> wp m (fun _ s' => quiet s s') s ->
  (forall a s', view_ok (view s') -> wp (f a) (fun _ s'' => quiet s' s'') s') ->
  wp (mbind f m) (fun _ s' => quiet s s') s.
Proof.
  intros Hv Hm Hf. apply wp_bind. eapply wp_mono; [exact Hm|]. intros [a|e] s1 Hc; [|done].
  eapply wp_mono; [by apply Hf, (quiet_view_ok _ _ Hc)|]. intros r s2. by apply quiet_trans.
Qed.

Lemma delete_object_quiet (ev : res unit -> event) (m : ST W unit) msg s :
  (forall r, published_in (ev r) = None) ->
  (forall r w, m (kube s) = (r, w) -> U (view s) (tunnels_of w)) ->
  wp (delete_object msg (kcall ev m)) (fun _ s' => quiet s s') s.
Proof.
  intros Hev Hm. unfold delete_object. apply wp_bind, wp_try. eapply wp_mono; [by apply wp_kcall_quiet|].
  intros [[]|e] s' Hc; [|destruct (IsNotFound e)]; by wp_steps.
Qed.

Lemma deleteGatewayResources_quiet t s :
  view_ok (view s) -> wp (deleteGatewayResources t) (fun _ s' => quiet s s') s.
Proof.
  intros Hv. unfold deleteGatewayResources. apply wp_bind_quiet; [done| |intros _ s' Hv'];
    apply delete_object_quiet; [done| |done|]; intros r w; [by apply (plain_delete_pod (U := U))|by apply (plain_delete_policy (U := U))].
Qed.

Lemma ensureGatewayPod_quiet rc t rn labels s :
  view_ok (view s) -> wp (ensureGatewayPod rc t rn labels) (fun _ s' => quiet s s') s.
Proof.
  intros Hv. unfold ensureGatewayPod. apply wp_bind_quiet; [done| |].
  { apply wp_try, wp_kcall_quiet; [done|]. intros r w. by apply (plain_get_pod (U := U)). }
  intros [pod|e] s1 Hv1; [apply wp_ret, quiet_refl|]. destruct (IsNotFound e); simpl; [|apply wp_throw, quiet_refl].
  destruct (SetControllerReference t []); [|apply wp_throw, quiet_refl].
  apply wp_wrap_err. eapply wp_mono; [apply wp_kcall_quiet; [done|]; intros r w; by apply (plain_create_pod (U := U))|]. by intros [|].
Qed.

Lemma ensureNetworkPolicy_quiet t rn labels s :
  view_ok (view s) -> wp (ensureNetworkPolicy t rn labels) (fun _ s' => quiet s s') s.
Proof.
  intros Hv. unfold ensureNetworkPolicy. apply wp_wrap_err.
  eapply wp_mono; [apply wp_kcall_quiet; [done|]; intros r w; by apply (plain_apply_policy (U := U))|]. by intros [|].
Qed.

Lemma resolveForwarderVIP_quiet rc s :
  view_ok (view s) -> wp (resolveForwarderVIP rc) (fun _ s' => quiet s s') s.
Proof.
  intros Hv. unfold resolveForwarderVIP. case_bool_decide; [apply wp_ret, quiet_refl|]. cbv zeta.
  destruct (_ || _); [apply wp_throw, quiet_refl|]. apply wp_bind_quiet; [done| |].
  - apply wp_wrap_err. eapply wp_mono; [apply wp_kcall_quiet; [done|]; intros r w; by apply (plain_get_service (U := U))|]. by intros [|].
  - intros svc s1 _. destruct (first_ip _); wp_steps; apply quiet_refl.
Qed.

Lemma publish_endpoint_quiet_view rc t u q s :
  view_ok (view s) -> wp (publish_endpoint rc t u q) (fun _ s' => quiet s s') s.
Proof.
  intros Hv. unfold publish_endpoint. apply wp_bind_quiet; [done| |].
  - by apply wp_try, resolveForwarderVIP_quiet.
  - intros [vip|e] s1 _; repeat case_bool_decide; cbv zeta; repeat case_bool_decide; wp_steps; apply quiet_refl.
Qed.

Lemma evaluatePodPhase_quiet rc t pod s :
  view_ok (view s) -> wp (evaluatePodPhase rc t pod) (fun _ s' => quiet s s') s.
Proof.
  intros Hv. unfold evaluatePodPhase.
  case_bool_decide; [case_bool_decide; apply wp_ret, quiet_refl|].
  case_bool_decide; [case_bool_decide; apply wp_ret, quiet_refl|].
  destruct (isPodReady pod); [|destruct (set_phase_message _ _ _ _); apply wp_ret, quiet_refl].
  unfold handleReadyPod. case_bool_decide; [|by apply publish_endpoint_quiet_view].
  destruct (fetcher rc (pod_PodIP pod)) as [key|]; [|by apply publish_endpoint_quiet_view].
  case_bool_decide; [|by apply publish_endpoint_quiet_view].
  destruct (if bool_decide (GatewayPublicKey (Status t) <> key) then _ else _) as [t1 u1].
  apply wp_bind, wp_gets. cbv zeta. case_bool_decide; destruct (set_phase_message _ _ _ _);
    [apply wp_ret, quiet_refl|by apply publish_endpoint_quiet_view].
Qed.
End quiet.
