(* ===== verification/Lifecycle.v ===== *)
(** * The life of a tunnel under the reconciler

    What deletion does on every branch, that a converged tunnel is left alone,
    that an interrupted allocation is resumed with the same port, that the status
    computation reaches a fixed point, and what the network policy of a gateway
    admits.  The witnesses are the concrete runs of Scenarios.v. *)

From Stdlib Require Import Ascii.
From S2P Require Import Prelude GoStd Proto Api Kube Portalloc Server Controller Reconcile.

(** ** Names *)

(** Distinct tunnels never share a port key, a gateway pod or a network
    policy, as long as namespaces contain no slash (which Kubernetes guarantees). *)
Theorem resource_names_distinct (t t' : Tunnel) :
  contains_char "/"%char (Namespace t) = false -> contains_char "/"%char (Namespace t') = false ->
  tunnel_key t <> tunnel_key t' ->
  tunnelKeyOf t <> tunnelKeyOf t' /\ gateway_key t <> gateway_key t' /\
  tunnelKeyOf t = Server.tunnelKey (Namespace t) (Name t).
Proof.
  intros Hn Hn' Hne. split_and!; [| |done].
  - intros Heq. apply Hne. unfold tunnelKeyOf in Heq. apply (append_sep_inj "/"%char) in Heq as [E1 E2]; [|done..].
    unfold tunnel_key. by rewrite E1, E2.
  - intros Heq. apply Hne. unfold gateway_key, gatewayResourceName in Heq. injection Heq as Hns Hname.
    unfold tunnel_key. rewrite Hns. f_equal. exact Hname.
Qed.

(** ** The network policy of a gateway *)

(** A label selector that restricts something. *)
Definition restricts (s : LabelSelector) : Prop := ls_MatchLabels s <> ∅ \/ ls_MatchExpressions s <> [].

Lemma networkPolicyPodSelector_eq sel :
  networkPolicyPodSelector sel = mkLabelSelector (MatchLabels sel) (MatchExpressions sel).
Proof.
  destruct sel as [ml me]. unfold networkPolicyPodSelector. simpl. f_equal.
  - case_bool_decide as Hs.
    + apply (map_fold_weak_ind (fun r m => r = m)); [done|]. intros k v m r _ ->. done.
    + symmetry. apply map_size_empty_inv. lia.
  - case_bool_decide as Hs; [|destruct me; [done|simpl in Hs; lia]].
    rewrite <- (list_fmap_id me) at 2. apply list_fmap_ext. by intros i [].
Qed.

(** The reconciler acts on a tunnel exactly when its target names one
    destination: a non-blank address or a non-empty pod selector but not both. *)
Theorem validateTunnelTarget_spec target :
  validateTunnelTarget target = None <->
  (TrimSpace (ResolvedIP target) <> "" /\ PodSelector target = None) \/
  (TrimSpace (ResolvedIP target) = "" /\ exists sel, PodSelector target = Some sel /\
     (MatchLabels sel <> ∅ \/ MatchExpressions sel <> [])).
Proof.
  unfold validateTunnelTarget. destruct (PodSelector target) as [sel|].
  - rewrite (bool_decide_true (is_Some (Some sel))) by done. case_bool_decide as Hip; simpl.
    + split; [done|]. intros [[_ ?]|[Hx _]]; [done|]. by rewrite Hx in Hip.
    + repeat case_bool_decide; simpl; (split; [|naive_solver]); intros Hx; try done;
        right; (split; [done|]); exists sel; auto.
  - rewrite (bool_decide_false (is_Some None)) by by intros []. case_bool_decide as Hip; simpl.
    + split; [|done]. by left.
    + split; [done|]. by intros [[Hx _]|(_ & sel & ? & _)].
Qed.

(** A rule that lets TCP through: an empty port list admits everything. *)
Definition admits_tcp (rule : NetworkPolicyRule) : Prop :=
  rule_Ports rule = [] \/ exists np, np ∈ rule_Ports rule /\ (npp_Protocol np = None \/ npp_Protocol np = Some ProtocolTCP).


(** Validation trims the address and the policy does not: a padded address is accepted
    and its block is not one. *)
Theorem padded_address_has_no_block :
  let target := mkTarget "db" 5432 " 10.1.2.3" None in
  validateTunnelTarget target = None /\ ParseIPv4 (TrimSpace (ResolvedIP target)) = Some 167838211 /\
  exists cidr, rule_Peers (targetEgressRule target) = [mkPeer None None (Some cidr)] /\ ParseCIDRv4 cidr = None.
Proof. split_and!; [vm_compute; reflexivity..|]. eexists. by split. Qed.

(** ** Deletion and termination *)

Section lifecycle.
Context {W : Type} `{KubeClient W} `{!ControllerUtil} `{!ControllerUtilLaws} {R : Type} `{RandSource R}
  {F : Type} `{forwarderServer F}.
Implicit Types (s : world W R F) (rc : TunnelReconciler) (t : Tunnel).

(** What tearing a tunnel down does to the allocator and the forwarders. *)
Definition torn_down t s s' : Prop :=
  portAllocator s' = Release (tunnelKeyOf t) <$> portAllocator s /\
  fwd s' = (if bool_decide (0 < ForwarderPort (Status t))
            then fs_NotifyUpdate (Some (mkTunnelUpdate (Some DELETED) (Some (publishedMapping t)))) <$> fwd s
            else fwd s).

Definition untouched s s' : Prop := portAllocator s' = portAllocator s /\ fwd s' = fwd s.

Lemma delete_object_untouched (ev : res unit -> event) (m : ST W unit) msg s :
  wp (delete_object msg (kcall ev m)) (fun r s' => untouched s s') s.
Proof.
  unfold delete_object. wp_steps. apply wp_kcall. intros [[]|e] w _; [|destruct (IsNotFound e)]; wp_steps; done.
Qed.

Lemma deleteGatewayResources_untouched t s : wp (deleteGatewayResources t) (fun r s' => untouched s s') s.
Proof.
  unfold deleteGatewayResources. apply wp_bind. eapply wp_mono; [apply delete_object_untouched|].
  intros [[]|e] s1 Hu; [|done]. eapply wp_mono; [apply delete_object_untouched|].
  intros r s2 [E1 E2]. unfold untouched in *. by rewrite E1, E2.
Qed.

Lemma release_effect t s :
  wp (releaseForwarderPort t) (fun r s' =>
    r = Ok tt /\ portAllocator s' = Release (tunnelKeyOf t) <$> portAllocator s /\ fwd s' = fwd s) s.
Proof. unfold releaseForwarderPort. wp_steps. destruct (portAllocator s) eqn:Ha; wp_steps; by simpl; rewrite ?Ha. Qed.

Lemma notify_deleted_effect t s :
  wp (notifyTunnelUpdate t DELETED) (fun r s' => r = Ok tt /\ portAllocator s' = portAllocator s /\
    fwd s' = (if bool_decide (0 < ForwarderPort (Status t))
              then fs_NotifyUpdate (Some (mkTunnelUpdate (Some DELETED) (Some (publishedMapping t)))) <$> fwd s
              else fwd s)) s.
Proof.
  unfold notifyTunnelUpdate, notify_forwarders. wp_steps.
  destruct (fwd s) as [f|] eqn:Hf; simpl; repeat case_bool_decide; simpl; wp_steps; simpl; rewrite ?Hf; (done || lia).
Qed.

(** C19: deleting a tunnel is all or nothing.  On a tunnel with the finalizer, when
    [handleDeletion] succeeds the API server accepted the object without it, the port is
    back in the allocator and, if there was a port, every forwarder was told to drop it;
    when it fails, the allocator and the forwarders are as they were, so the port
    is not given away while the tunnel exists.  On a tunnel without the finalizer it
    does not fail: it makes no call, gives the port back and tells the forwarders
    nothing. *)
Theorem deletion_all_or_nothing t s :
  match handleDeletion t s with
  | (Ok _, s') =>
      if ContainsFinalizer (Finalizers t) finalizerName then
        exists t', torn_down t' s s' /\
          exists w w', kube_update_tunnel (set_Finalizers (RemoveFinalizer (Finalizers t) finalizerName) t) w = (Ok t', w')
      else portAllocator s' = Release (tunnelKeyOf t) <$> portAllocator s /\ fwd s' = fwd s /\ kube s' = kube s
  | (Fail e, s') => ContainsFinalizer (Finalizers t) finalizerName = true /\ untouched s s'
  end.
Proof.
  enough (wp (handleDeletion t) (fun r s' => match r with
    | Ok _ => if ContainsFinalizer (Finalizers t) finalizerName then
        exists t', torn_down t' s s' /\
          exists w w', kube_update_tunnel (set_Finalizers (RemoveFinalizer (Finalizers t) finalizerName) t) w = (Ok t', w')
      else portAllocator s' = Release (tunnelKeyOf t) <$> portAllocator s /\ fwd s' = fwd s /\ kube s' = kube s
    | Fail _ => ContainsFinalizer (Finalizers t) finalizerName = true /\ untouched s s' end) s) as Hwp.
  { unfold wp in Hwp. by destruct (handleDeletion t s) as [[]]. }
  unfold handleDeletion. destruct (ContainsFinalizer _ _); simpl.
  - apply wp_bind. eapply wp_mono; [apply deleteGatewayResources_untouched|].
    intros [[]|e] s1 [E1 E2]; [|done]. unfold removeFinalizer. apply wp_bind, wp_wrap_err, wp_kcall.
    intros [t'|e] w Hupd; [|done]. apply wp_bind. eapply wp_mono; [apply release_effect|].
    intros r s2 (-> & Ea & Ef). eapply wp_mono; [apply notify_deleted_effect|]. intros r s3 (-> & Ea' & Ef').
    exists t'. split; [|eauto]. unfold torn_down. rewrite Ea', Ea, Ef', Ef. simpl. by rewrite E1, E2.
  - unfold releaseForwarderPort. wp_steps. destruct (portAllocator s) eqn:Ha; wp_steps; by simpl; rewrite ?Ha.
Qed.

(** The object after the finalizer step of a cleanup: as it was when it had no
    finalizer, else what the API server answered to its removal. *)
Definition after_finalizer_step t t' : Prop :=
  if ContainsFinalizer (Finalizers t) finalizerName
  then exists w w', kube_update_tunnel (set_Finalizers (RemoveFinalizer (Finalizers t) finalizerName) t) w = (Ok t', w')
  else t' = t.

(** A terminated tunnel is torn down before it is deleted: cleaning it up
    leaves the allocator and the forwarders as they were, or releases its port, tells
    the forwarders and deletes the object; it fails after the release only if that
    last delete fails. *)
Theorem termination_tears_down t s :
  match handleTerminated t s with
  | (Ok _, s') => exists t', after_finalizer_step t t' /\ torn_down t' s s'
  | (Fail e, s') => untouched s s' \/
      exists t' w, after_finalizer_step t t' /\ torn_down t' s s' /\ (kube_delete_tunnel (tunnel_key t') w).1 = Fail e
  end.
Proof.
  enough (wp (handleTerminated t) (fun r s' => match r with
    | Ok _ => exists t', after_finalizer_step t t' /\ torn_down t' s s'
    | Fail e => untouched s s' \/
      exists t' w, after_finalizer_step t t' /\ torn_down t' s s' /\ (kube_delete_tunnel (tunnel_key t') w).1 = Fail e
    end) s) as Hwp.
  { unfold wp in Hwp. by destruct (handleTerminated t s) as [[]]. }
  unfold handleTerminated, after_finalizer_step. apply wp_bind.
  eapply wp_mono; [apply deleteGatewayResources_untouched|]. intros [[]|e] s1 [E1 E2]; [|by left].
  apply wp_bind. apply wp_mono with (Q' := fun r s2 => untouched s s2 /\
    match r with Ok t' => after_finalizer_step t t' | Fail _ => True end).
  { unfold after_finalizer_step. destruct (ContainsFinalizer _ _); [|by apply wp_ret].
    unfold removeFinalizer. apply wp_wrap_err, wp_kcall. intros [t'|e] w Hupd; (split; [done|]); eauto. }
  intros [t'|e] s2 [[F1 F2] Hstep]; [|by left].
  apply wp_bind. eapply wp_mono; [apply release_effect|]. intros r s3 (-> & Ea & Ef).
  apply wp_bind. eapply wp_mono; [apply notify_deleted_effect|]. intros r s4 (-> & Ea' & Ef').
  assert (forall w tr, torn_down t' s (mkWorld w (portAllocator s4) (fwd s4) (metrics s4) tr)) as Ht.
  { intros w tr. unfold torn_down. simpl. by rewrite Ea', Ea, Ef', Ef, F1, F2. }
  cbv zeta. apply wp_bind, wp_try, wp_kcall. intros [[]|e] w Hdel; [apply wp_ret; eauto|].
  rewrite ignore_not_found_spec. destruct (IsNotFound e); [apply wp_ret; eauto|].
  apply wp_throw. right. exists t', (kube s4). by rewrite Hdel.
Qed.

(** ** Requeueing *)

Lemma publish_endpoint_requeue rc t u q s :
  wp (publish_endpoint rc t u q) (fun r _ => exists o, r = Ok o /\ (o_requeue o = q \/ o_requeue o = 2 * Second) /\
    Phase (Status (o_tunnel o)) = Phase (Status t) /\
    GatewayPublicKey (Status (o_tunnel o)) = GatewayPublicKey (Status t)) s.
Proof.
  unfold publish_endpoint. apply wp_bind, wp_try. eapply wp_mono; [apply (resolveForwarderVIP_reads (R := R) rc)|].
  intros [vip|e] s' _; [|apply wp_ret; eauto 10].
  repeat case_bool_decide; apply wp_ret; eexists; split_and!; eauto.
Qed.

(** The outcome is a Ready tunnel with the fetched key, or a requeue. *)
Definition ready_or_requeued rc pod (o : outcome) : Prop :=
  o_requeue o = 2 * Second \/
  (Phase (Status (o_tunnel o)) = TunnelPhaseReady /\
   fetcher rc (pod_PodIP pod) = Ok (GatewayPublicKey (Status (o_tunnel o)))).

Lemma handleReadyPod_requeue rc t pod s :
  wp (handleReadyPod rc t pod) (fun r _ => exists o, r = Ok o /\ (o_requeue o = 0 \/ o_requeue o = 2 * Second) /\
    (pod_PodIP pod <> "" -> fetcher rc (pod_PodIP pod) <> Ok "" -> ready_or_requeued rc pod o)) s.
Proof.
  unfold handleReadyPod, ready_or_requeued.
  case_bool_decide as Hip.
  2: { eapply wp_mono; [apply publish_endpoint_requeue|]. intros r s' (o & -> & Hq & _). exists o. by split_and!. }
  destruct (fetcher rc (pod_PodIP pod)) as [k|e].
  2: { eapply wp_mono; [apply publish_endpoint_requeue|]. intros r s' (o & -> & [Hq|Hq] & _); eauto 10. }
  case_bool_decide as Hk.
  2: { eapply wp_mono; [apply publish_endpoint_requeue|]. intros r s' (o & -> & Hq & _). exists o. subst. by split_and!. }
  set (tu := if bool_decide _ then _ else _).
  assert (GatewayPublicKey (Status tu.1) = k) as Hkey by by unfold tu; case_bool_decide.
  destruct tu as [t1 u1]. simpl in Hkey. apply wp_bind, wp_gets. cbv zeta. case_bool_decide.
  - unfold set_phase_message. destruct (_ || _); apply wp_ret; eexists; (split_and!; [done|by right|by left]).
  - assert (Phase (Status (set_phase_message TunnelPhaseReady "Gateway ready" t1 u1).1) = TunnelPhaseReady /\
      GatewayPublicKey (Status (set_phase_message TunnelPhaseReady "Gateway ready" t1 u1).1) = k) as [Hp Hk2].
    { unfold set_phase_message. repeat case_bool_decide; done. }
    destruct (set_phase_message _ _ t1 u1) as [t2 u2]. simpl in Hp, Hk2.
    eapply wp_mono; [apply publish_endpoint_requeue|]. intros r s' (o & -> & Hq & Hph & Hky).
    exists o. rewrite Hph, Hky, Hp, Hk2. split_and!; [done|done|]. intros _ _. by right.
Qed.

(** A tunnel whose gateway is up but which is not Ready is looked at again
    after two seconds: [evaluatePodPhase] always answers, and for a ready pod that
    has an address and does not answer with an empty key, either the resulting
    phase is Ready with the fetched key or the reconciliation is requeued. *)
Theorem unready_tunnel_is_requeued rc t pod s :
  exists o s', evaluatePodPhase rc t pod s = (Ok o, s') /\
    (o_requeue o = 0 \/ o_requeue o = 2 * Second) /\
    (pod_Phase pod <> PodFailed -> pod_Phase pod <> PodSucceeded -> isPodReady pod = true ->
     pod_PodIP pod <> "" -> fetcher rc (pod_PodIP pod) <> Ok "" -> ready_or_requeued rc pod o).
Proof.
  destruct (wp_run (evaluatePodPhase rc t pod) (fun r _ => exists o, r = Ok o /\ (o_requeue o = 0 \/ o_requeue o = 2 * Second) /\
    (pod_Phase pod <> PodFailed -> pod_Phase pod <> PodSucceeded -> isPodReady pod = true ->
     pod_PodIP pod <> "" -> fetcher rc (pod_PodIP pod) <> Ok "" -> ready_or_requeued rc pod o)) s)
    as (r & s' & Hrun & o & -> & Ho); [|eauto].
  unfold evaluatePodPhase. case_bool_decide; [|case_bool_decide; [|destruct (isPodReady pod)]].
  - case_bool_decide; apply wp_ret; eexists; (split_and!; [done|by left|done]).
  - case_bool_decide; apply wp_ret; eexists; (split_and!; [done|by left|done]).
  - eapply wp_mono; [apply handleReadyPod_requeue|]. intros r s' (o & -> & Hq & Ho). eauto 10.
  - destruct (set_phase_message _ _ t false). apply wp_ret. eexists. split_and!; [done|by left|done].
Qed.

(** ** Convergence *)

(** The address is configured, or the Service answers the same whenever it is
    asked. *)
Definition stable_service rc (answer : res Service) : Prop :=
  r_ForwarderVIP rc <> "" \/ forall w, (kube_get_service (r_ForwarderServiceKey rc) w).1 = answer.

(** What [resolveForwarderVIP] answers then. *)
Definition vip_answer rc (answer : res Service) : option string :=
  if bool_decide (r_ForwarderVIP rc <> "") then Some (r_ForwarderVIP rc)
  else if negb (r_ClientSet rc) || bool_decide (key_Name (r_ForwarderServiceKey rc) = "") then None
  else match answer with Ok svc => first_ip (svc_IngressIPs svc) | Fail _ => None end.

Lemma resolveForwarderVIP_stable rc answer s :
  stable_service rc answer ->
  wp (resolveForwarderVIP rc) (fun r s' => only_service_reads s s' /\
    match vip_answer rc answer with Some vip => r = Ok vip | None => exists e, r = Fail e end) s.
Proof.
  intros Hst. unfold resolveForwarderVIP, vip_answer.
  case_bool_decide; [apply wp_ret; split; [apply only_service_reads_refl|done]|]. cbv zeta.
  destruct Hst as [?|Hst]; [done|].
  destruct (_ || _); [apply wp_throw; split; [apply only_service_reads_refl|eauto]|].
  apply wp_bind, wp_wrap_err, wp_kcall. intros r w Hr. specialize (Hst (kube s)). rewrite Hr in Hst. simpl in Hst. subst r.
  assert (forall r, only_service_reads s (mkWorld w (portAllocator s) (fwd s) (metrics s)
    (trace s ++ [EvGetService (r_ForwarderServiceKey rc) r]))) as Hreads.
  { intros r. split_and!; [done..|]. eexists. split; [done|]. repeat constructor. eauto. }
  destruct answer as [svc|e]; [|split; [apply Hreads|eauto]].
  destruct (first_ip (svc_IngressIPs svc)); [apply wp_ret|apply wp_throw]; (split; [apply Hreads|eauto]).
Qed.

(** The endpoint the status converges to. *)
Definition endpoint_settled rc answer t : Prop :=
  match vip_answer rc answer with
  | Some vip => vip <> "" -> ForwarderEndpoint (Status t) = JoinHostPort vip (Itoa (ForwarderPort (Status t)))
  | None => True
  end.

Lemma publish_endpoint_settles rc answer t u q s :
  stable_service rc answer ->
  wp (publish_endpoint rc t u q) (fun r _ => exists o, r = Ok o /\ endpoint_settled rc answer (o_tunnel o) /\
    (o_tunnel o = t \/ exists ep, o_tunnel o = set_status (set_ForwarderEndpoint ep) t)) s.
Proof.
  intros Hst. unfold publish_endpoint, endpoint_settled. apply wp_bind, wp_try.
  eapply wp_mono; [by apply resolveForwarderVIP_stable|]. intros r s' [_ Hr].
  destruct (vip_answer rc answer) as [vip|]; [subst r|destruct Hr as [e ->]; apply wp_ret; eauto].
  repeat case_bool_decide; apply wp_ret; eexists; (split_and!; [done|done|eauto]).
Qed.

Lemma publish_endpoint_quiet rc answer t q s :
  stable_service rc answer -> endpoint_settled rc answer t ->
  wp (publish_endpoint rc t false q) (fun r s' => exists q', r = Ok (mkOutcome t false q') /\ only_service_reads s s' /\
    (is_Some (vip_answer rc answer) -> q' = q)) s.
Proof.
  intros Hst Hset. unfold publish_endpoint, endpoint_settled in *. apply wp_bind, wp_try.
  eapply wp_mono; [by apply resolveForwarderVIP_stable|]. intros r s' [Hreads Hr].
  destruct (vip_answer rc answer) as [vip|].
  - subst r. case_bool_decide as Hv; [rewrite Hset by done; rewrite bool_decide_false by (intros Hx; by apply Hx)|];
      apply wp_ret; eauto.
  - destruct Hr as [e ->]. apply wp_ret. eexists. split_and!; [done|done|]. by intros [].
Qed.

Lemma set_phase_message_settles ph msg t u t' u' :
  set_phase_message ph msg t u = (t', u') -> Phase (Status t') = ph /\ Message (Status t') = msg.
Proof.
  unfold set_phase_message. destruct (_ || _) eqn:E; intros [= <- <-]; [done|].
  apply orb_false_iff in E as [E1 E2]. rewrite bool_decide_eq_false in E1, E2. split; by apply dec_stable.
Qed.

Lemma set_phase_message_quiet ph msg t u :
  Phase (Status t) = ph -> Message (Status t) = msg -> set_phase_message ph msg t u = (t, u).
Proof.
  intros Hp Hm. unfold set_phase_message. by rewrite !bool_decide_false by (intros Hx; by apply Hx).
Qed.

Definition missing_acks (f : option F) t : list string :=
  match f with
  | Some f => fs_MissingAcks (Namespace t) (Name t) (MappingRevision (Status t)) f
  | None => []
  end.

(** The phase and message that fit the forwarders' acknowledgements. *)
Definition ack_settled rc answer (f : option F) t : Prop :=
  if bool_decide (missing_acks f t = [])
  then Phase (Status t) = TunnelPhaseReady /\ Message (Status t) = "Gateway ready" /\ endpoint_settled rc answer t
  else Phase (Status t) = TunnelPhaseProvisioning /\ Message (Status t) = "Waiting for forwarder mapping acknowledgement".

(** A second evaluation of the outcome changes nothing. *)
Definition settled rc pod (f : option F) t : Prop :=
  forall s, fwd s = f -> wp (evaluatePodPhase rc t pod) (fun r s' =>
    exists q, r = Ok (mkOutcome t false q) /\ only_service_reads s s') s.

Lemma handleReadyPod_quiet rc answer pod t s :
  stable_service rc answer ->
  (pod_PodIP pod <> "" -> forall k, fetcher rc (pod_PodIP pod) = Ok k -> k <> "" ->
     GatewayPublicKey (Status t) = k /\ ack_settled rc answer (fwd s) t) ->
  (pod_PodIP pod = "" \/ (exists e, fetcher rc (pod_PodIP pod) = Fail e) \/ fetcher rc (pod_PodIP pod) = Ok "" ->
     endpoint_settled rc answer t) ->
  wp (handleReadyPod rc t pod) (fun r s' => exists q, r = Ok (mkOutcome t false q) /\ only_service_reads s s') s.
Proof.
  intros Hst Hkey Hset. unfold handleReadyPod.
  assert (forall q, endpoint_settled rc answer t -> wp (publish_endpoint rc t false q)
    (fun r s' => exists q, r = Ok (mkOutcome t false q) /\ only_service_reads s s') s) as Hpub.
  { intros q Hs. eapply wp_mono; [by apply (publish_endpoint_quiet rc answer)|]. intros r s' (q' & -> & Hr & _). eauto. }
  case_bool_decide as Hip; [|apply Hpub, Hset; auto].
  destruct (fetcher rc (pod_PodIP pod)) as [k|e]; [|apply Hpub, Hset; eauto].
  case_bool_decide as Hk; [|subst; apply Hpub, Hset; auto].
  destruct (Hkey Hip k eq_refl Hk) as [Hk' Hm]. rewrite bool_decide_false by (intros Hx; by apply Hx).
  apply wp_bind, wp_gets. cbv zeta. fold (missing_acks (fwd s) t). unfold ack_settled in Hm. clear Hkey.
  destruct (decide (missing_acks (fwd s) t = [])) as [Hmiss|Hmiss]; [rewrite bool_decide_false by (intros Hx; by apply Hx)|rewrite bool_decide_true by done].
  2: rewrite bool_decide_false in Hm by done.
  - rewrite bool_decide_true in Hm by done. destruct Hm as (Hp & Hmsg & Hs). rewrite set_phase_message_quiet by done.
    by apply Hpub.
  - destruct Hm as [Hp Hmsg]. rewrite set_phase_message_quiet by done.
    apply wp_ret. eexists. split; [done|apply only_service_reads_refl].
Qed.

Lemma handleReadyPod_settles rc answer pod t s :
  stable_service rc answer ->
  wp (handleReadyPod rc t pod) (fun r _ => exists o, r = Ok o /\ forall s2, fwd s2 = fwd s ->
    wp (handleReadyPod rc (o_tunnel o) pod) (fun r s' =>
      exists q, r = Ok (mkOutcome (o_tunnel o) false q) /\ only_service_reads s2 s') s2) s.
Proof.
  intros Hst.
  assert (forall q, (pod_PodIP pod <> "" -> forall k, fetcher rc (pod_PodIP pod) = Ok k -> k <> "" -> False) ->
    wp (publish_endpoint rc t false q) (fun r _ => exists o, r = Ok o /\ forall s2, fwd s2 = fwd s ->
      wp (handleReadyPod rc (o_tunnel o) pod) (fun r s' =>
        exists q, r = Ok (mkOutcome (o_tunnel o) false q) /\ only_service_reads s2 s') s2) s) as Hpub.
  { intros q Hno. eapply wp_mono; [by apply (publish_endpoint_settles rc answer)|]. intros r s' (o & -> & Hs & _).
    exists o. split; [done|]. intros s2 _. apply (handleReadyPod_quiet rc answer); [done| |done].
    intros Hip k Hk Hne. by destruct (Hno Hip k Hk Hne). }
  unfold handleReadyPod at 1. case_bool_decide as Hip; [|by apply Hpub].
  destruct (fetcher rc (pod_PodIP pod)) as [k|e] eqn:Hf; [|apply Hpub; congruence].
  case_bool_decide as Hk; [|apply Hpub; congruence].
  set (tu := if bool_decide _ then _ else _).
  assert (GatewayPublicKey (Status tu.1) = k) as Hkey by by unfold tu; case_bool_decide.
  destruct tu as [t1 u1]. simpl in Hkey. apply wp_bind, wp_gets. cbv zeta.
  fold (missing_acks (fwd s) t1).
  assert (forall t2, GatewayPublicKey (Status t2) = k -> ack_settled rc answer (fwd s) t2 -> forall s2, fwd s2 = fwd s -> wp (handleReadyPod rc t2 pod)
      (fun r s' => exists q, r = Ok (mkOutcome t2 false q) /\ only_service_reads s2 s') s2) as Hquiet.
  { intros t2 Hk2 Hif s2 Hf2. apply (handleReadyPod_quiet rc answer); [done| |].
    - intros _ k' Hk' _. rewrite Hf in Hk'. injection Hk' as <-. by rewrite Hf2.
    - rewrite Hf. intros [?|[[e ?]|?]]; congruence. }
  unfold ack_settled in Hquiet.
  assert (forall ph msg t2 u2, set_phase_message ph msg t1 u1 = (t2, u2) ->
    missing_acks (fwd s) t2 = missing_acks (fwd s) t1 /\ GatewayPublicKey (Status t2) = k) as Hkeep.
  { unfold set_phase_message. intros ph msg t2 u2. destruct (_ || _); by intros [= <- <-]. }
  destruct (decide (missing_acks (fwd s) t1 = [])) as [Hmiss|Hmiss];
    [rewrite bool_decide_false by (intros Hx; by apply Hx)|rewrite bool_decide_true by done].
  - destruct (set_phase_message _ _ t1 u1) as [t2 u2] eqn:Hset. destruct (Hkeep _ _ _ _ Hset) as [Hm2 Hk2].
    apply set_phase_message_settles in Hset as [Hp Hmsg].
    eapply wp_mono; [by apply (publish_endpoint_settles rc answer)|]. intros r s' (o & -> & Hs & Ho).
    exists o. split; [done|].
    assert (missing_acks (fwd s) (o_tunnel o) = []) as Hmo by (destruct Ho as [->|[ep ->]]; [congruence|rewrite <- Hmiss, <- Hm2; done]).
    apply Hquiet; [by destruct Ho as [->|[ep ->]]|]. rewrite bool_decide_true by done.
    split_and!; [by destruct Ho as [->|[ep ->]]..|done].
  - destruct (set_phase_message _ _ t1 u1) as [t2 u2] eqn:Hset. destruct (Hkeep _ _ _ _ Hset) as [Hm2 Hk2].
    apply wp_ret. eexists. split; [done|]. simpl. apply Hquiet; [done|].
    rewrite bool_decide_false by congruence. by eapply set_phase_message_settles.
Qed.

(** The status computation reaches a fixed point in one step.  While the
    pod, the gateway's answer, the Service and the forwarders' acknowledgements stay
    as they are, evaluating the phase of the computed status again changes nothing
    and reports nothing to write, so reconciling never loops on its own
    writes. *)
Theorem status_is_fixpoint rc answer pod t s o s1 s2 :
  stable_service rc answer ->
  evaluatePodPhase rc t pod s = (Ok o, s1) -> fwd s2 = fwd s ->
  exists q s3, evaluatePodPhase rc (o_tunnel o) pod s2 = (Ok (mkOutcome (o_tunnel o) false q), s3) /\
    only_service_reads s2 s3.
Proof.
  intros Hst Hrun Hf2.
  enough (wp (evaluatePodPhase rc t pod) (fun r _ => forall o, r = Ok o -> settled rc pod (fwd s) (o_tunnel o)) s) as Hwp.
  { unfold wp in Hwp. rewrite Hrun in Hwp. destruct (wp_run _ _ _ (Hwp o eq_refl s2 Hf2)) as (r & s3 & Hr & q & -> & Hq). eauto. }
  unfold settled, evaluatePodPhase.
  case_bool_decide; [|case_bool_decide; [|destruct (isPodReady pod)]].
  - case_bool_decide; apply wp_ret; intros o' [= <-] s' _; cbn [o_tunnel];
      rewrite bool_decide_false by (intros Hx; by apply Hx);
      apply wp_ret; eexists; (split; [done|apply only_service_reads_refl]).
  - case_bool_decide; apply wp_ret; intros o' [= <-] s' _; cbn [o_tunnel];
      rewrite bool_decide_false by (intros Hx; by apply Hx);
      apply wp_ret; eexists; (split; [done|apply only_service_reads_refl]).
  - eapply wp_mono; [by apply (handleReadyPod_settles rc answer)|]. intros r s' (o' & -> & Ho). by intros ? [= <-].
  - destruct (set_phase_message _ _ t false) as [t2 u2] eqn:Hset. apply set_phase_message_settles in Hset as [Hp Hm].
    apply wp_ret. intros o' [= <-] s' _. simpl. rewrite set_phase_message_quiet by done.
    apply wp_ret. eexists. split; [done|apply only_service_reads_refl].
Qed.

Lemma assignPort_has_port t s :
  ForwarderPort (Status t) <> 0 -> assignPort t s = (Ok (mkMappingState t false MODIFIED), s).
Proof.
  intros Hp. unfold assignPort, mbind, ST_bind, gets. simpl. by rewrite bool_decide_false.
Qed.

Lemma recordGateway_same rn pod t ty :
  GatewayPodName (Status t) = rn -> GatewayPodUID (Status t) = pod_UID pod -> GatewayPodIP (Status t) = pod_PodIP pod ->
  recordGateway rn pod (mkMappingState t false ty) = mkMappingState t false ty.
Proof.
  intros Hn Hu Hi. unfold recordGateway, recordPod, set_field. simpl.
  rewrite (bool_decide_false (GatewayPodName _ <> _)) by (intros Hx; by apply Hx). simpl.
  rewrite (bool_decide_false (GatewayPodUID _ <> _)) by (intros Hx; by apply Hx). simpl.
  by rewrite (bool_decide_false (GatewayPodIP _ <> _)) by (intros Hx; by apply Hx).
Qed.

(** A live tunnel with finalizer, port and valid target whose recorded gateway is the
    pod that runs, as the calls before the status computation find it. *)
Record in_place rc req t pod s w1 w2 w3 : Prop := {
  ip_get : kube_get_tunnel req (kube s) = (Ok t, w1);
  ip_pod : kube_get_pod (gateway_key t) w1 = (Ok pod, w2);
  ip_policy : kube_create_or_update_policy (gateway_key t) (mutate_policy t (gatewayLabels (Name t))) w2 = (Ok tt, w3);
  ip_alive : DeletionTimestamp t = None;
  ip_phase : Phase (Status t) <> TunnelPhaseTerminated;
  ip_finalizer : ContainsFinalizer (Finalizers t) finalizerName = true;
  ip_target : validateTunnelTarget (Target (Spec t)) = None;
  ip_port : ForwarderPort (Status t) <> 0;
  ip_name : GatewayPodName (Status t) = gatewayResourceName (Name t);
  ip_uid : GatewayPodUID (Status t) = pod_UID pod;
  ip_ip : GatewayPodIP (Status t) = pod_PodIP pod;
}.

(** The world in which the status of such a tunnel is computed. *)
Definition gathered req t pod s w3 : world W R F :=
  mkWorld w3 (portAllocator s) (fwd s) (metrics s)
    (trace s ++ [EvGet req (Ok t); EvGetPod (gateway_key t) (Ok pod); EvApplyPolicy (gateway_key t) (Ok tt)]).

(** Reconciling such a tunnel is computing and persisting its status. *)
Lemma reconcileBody_in_place rc req t pod s w1 w2 w3 :
  in_place rc req t pod s w1 w2 w3 ->
  reconcileBody rc req s =
    (o ← evaluatePodPhase rc t pod; persistAndPublish t (mkMappingState t false MODIFIED) o) (gathered req t pod s w3).
Proof.
  intros [Hget Hpod Hpol Halive Hph Hfin Htgt Hport Hname Huid Hip].
  unfold reconcileBody, mbind, ST_bind, try, kcall. rewrite Hget.
  rewrite (bool_decide_false (is_Some _)) by (rewrite Halive; by intros []).
  rewrite (bool_decide_false (_ = TunnelPhaseTerminated)) by done.
  unfold reconcileTunnel. rewrite Htgt. unfold ensureFinalizer. rewrite Hfin. simpl.
  unfold mbind, ST_bind. simpl. unfold ensureGatewayPod, mbind, ST_bind, try, kcall. fold (gateway_key t). simpl.
  rewrite Hpod. simpl. unfold ensureNetworkPolicy, wrap_err, kcall. fold (gateway_key t). simpl. rewrite Hpol. simpl.
  rewrite assignPort_has_port by done. rewrite recordGateway_same by done. simpl.
  unfold log, gathered. simpl. by rewrite <- !app_assoc.
Qed.

(** Nothing is left to do for the tunnel: its gateway is ready and answers with the
    recorded key, no forwarder lacks the recorded revision, the tunnel is recorded as
    Ready, and its endpoint is the forwarder's address with the tunnel's port. *)
Record converged rc answer t pod (f : option F) vip : Prop := {
  cv_running : pod_Phase pod <> PodFailed /\ pod_Phase pod <> PodSucceeded;
  cv_ready : isPodReady pod = true;
  cv_address : pod_PodIP pod <> "";
  cv_key : fetcher rc (pod_PodIP pod) = Ok (GatewayPublicKey (Status t)) /\ GatewayPublicKey (Status t) <> "";
  cv_acks : forall f', f = Some f' -> fs_MissingAcks (Namespace t) (Name t) (MappingRevision (Status t)) f' = [];
  cv_phase : Phase (Status t) = TunnelPhaseReady;
  cv_message : Message (Status t) = "Gateway ready";
  cv_service : stable_service rc answer;
  cv_vip : vip_answer rc answer = Some vip;
  cv_endpoint : ForwarderEndpoint (Status t) = JoinHostPort vip (Itoa (ForwarderPort (Status t)));
}.

Lemma converged_evaluates rc answer t pod vip s :
  converged rc answer t pod (fwd s) vip ->
  wp (evaluatePodPhase rc t pod) (fun r s' => r = Ok (mkOutcome t false 0) /\ only_service_reads s s') s.
Proof.
  intros [[Hf Hs] Hrdy Hip [Hkey Hne] Hacks Hph Hmsg Hst Hvip Hep]. unfold evaluatePodPhase.
  rewrite bool_decide_false, bool_decide_false, Hrdy by done. unfold handleReadyPod.
  rewrite bool_decide_true, Hkey, bool_decide_true by done.
  rewrite (bool_decide_false (GatewayPublicKey _ <> _)) by (intros Hx; by apply Hx).
  apply wp_bind, wp_gets. cbv zeta. rewrite (bool_decide_false (_ <> [])); cycle 1.
  { intros Hx. apply Hx. destruct (fwd s) as [f|]; [by apply Hacks|done]. }
  rewrite set_phase_message_quiet by done.
  eapply wp_mono; [apply (publish_endpoint_quiet rc answer); [done|]|].
  - unfold endpoint_settled. by rewrite Hvip.
  - intros r s' (q & -> & Hreads & Hq). split; [|done]. rewrite Hq; [done|]. by rewrite Hvip.
Qed.

Lemma mutate_policy_again t labels np np' : mutate_policy t labels np = Ok np' -> mutate_policy t labels np' = Ok np'.
Proof.
  unfold mutate_policy. destruct (SetControllerReference t (np_Owners np)) as [os|e] eqn:Hos; [|done].
  intros [= <-]. simpl. by rewrite (set_controller_reference_again _ _ _ Hos).
Qed.

(** C20: a converged tunnel is left alone.  When the recorded gateway is the pod that
    runs, is ready and answers with the recorded key, every connected forwarder has
    acknowledged the revision, and phase, message and endpoint are as they should be,
    then a reconciliation reads the tunnel, the pod and possibly the forwarder service,
    makes the CreateOrUpdate call for the network policy, and makes no other call:
    nothing is written or published, allocator and forwarders are as they were, and the
    tunnel is not requeued.  The function given to CreateOrUpdate, which writes only
    what that function changes, leaves the policy as it is when it was applied before. *)
Theorem converged_is_quiet rc req t pod s w1 w2 w3 answer vip :
  in_place rc req t pod s w1 w2 w3 -> converged rc answer t pod (fwd s) vip ->
  (exists s', Reconcile rc req s = (Ok 0, s') /\ untouched s s' /\
    exists l, trace s' = trace s ++
      [EvGet req (Ok t); EvGetPod (gateway_key t) (Ok pod); EvApplyPolicy (gateway_key t) (Ok tt)] ++ l /\
      Forall (fun e => exists k r, e = EvGetService k r) l) /\
  (forall np np', mutate_policy t (gatewayLabels (Name t)) np = Ok np' -> mutate_policy t (gatewayLabels (Name t)) np' = Ok np').
Proof.
  intros Hset Hconv. split; [|by intros np np'; apply mutate_policy_again].
  destruct (wp_run _ _ _ (converged_evaluates rc answer t pod vip (gathered req t pod s w3) Hconv))
    as (r & s4 & Heval & -> & Ea & Ef & _ & l & Htr & Hl). simpl in *.
  assert (reconcileBody rc req s = (Ok 0, s4)) as Hbody.
  { rewrite (reconcileBody_in_place _ _ _ _ _ _ _ _ Hset). unfold mbind at 1, ST_bind at 1. rewrite Heval.
    unfold persistAndPublish, mbind, ST_bind. simpl. unfold republish, mbind, ST_bind, gets. simpl.
    rewrite (bool_decide_false (Phase _ <> _)) by (intros Hx; by apply Hx, Hconv). by rewrite andb_false_r. }
  unfold Reconcile. rewrite Hbody. eexists. split; [done|]. split; [done|]. simpl. rewrite Htr, <- app_assoc. by exists l.
Qed.

(** *** Progress *)

(** What a healthy gateway that every forwarder knows makes of the status. *)
Lemma evaluatePodPhase_ready rc t pod key s :
  pod_Phase pod <> PodFailed -> pod_Phase pod <> PodSucceeded -> isPodReady pod = true -> pod_PodIP pod <> "" ->
  fetcher rc (pod_PodIP pod) = Ok key -> key <> "" -> Phase (Status t) <> TunnelPhaseReady ->
  (forall f, fwd s = Some f -> fs_MissingAcks (Namespace t) (Name t) (MappingRevision (Status t)) f = []) ->
  wp (evaluatePodPhase rc t pod) (fun r s' => exists o, r = Ok o /\ o_updated o = true /\ fwd s' = fwd s /\
    Phase (Status (o_tunnel o)) = TunnelPhaseReady /\ GatewayPublicKey (Status (o_tunnel o)) = key /\
    same_object t (o_tunnel o)) s.
Proof.
  intros Hf Hs Hrdy Hip Hkey Hne Hph Hacks. unfold evaluatePodPhase.
  rewrite bool_decide_false, bool_decide_false, Hrdy by done. unfold handleReadyPod.
  rewrite bool_decide_true, Hkey, bool_decide_true by done.
  set (t1 := if bool_decide (GatewayPublicKey (Status t) <> key) then set_status (set_GatewayPublicKey key) t else t).
  assert (same_object t t1 /\ GatewayPublicKey (Status t1) = key /\ Phase (Status t1) = Phase (Status t) /\
    ForwarderEndpoint (Status t1) = ForwarderEndpoint (Status t)) as (Hobj & Hk1 & Hp1 & He1).
  { unfold t1. case_bool_decide as Hd; split_and!; try done. }
  assert (forall u : bool, (if bool_decide (GatewayPublicKey (Status t) <> key)
    then (set_status (set_GatewayPublicKey key) t, true) else (t, u)) =
    (t1, if bool_decide (GatewayPublicKey (Status t) <> key) then true else u)) as E1
    by (intros u; unfold t1; by case_bool_decide).
  rewrite E1. apply wp_bind, wp_gets. cbv zeta. clear E1. destruct Hobj as [(En & Ens & Hrest) [Hid Hrev]].
  rewrite (bool_decide_false (_ <> [])); cycle 1.
  { intros Hx. apply Hx. destruct (fwd s) as [f|]; [|done]. rewrite En, Ens, Hrev. by apply Hacks. }
  unfold set_phase_message. rewrite (bool_decide_true (Phase (Status t1) <> _)) by (by rewrite Hp1). simpl.
  eapply wp_mono; [apply (publish_endpoint_spec rc t)|].
  - by split.
  - split; [|done]. intros _ Heq. apply (f_equal (fun t => Phase (Status t))) in Heq. simpl in Heq. congruence.
  - done.
  - intros r s' (o & -> & (_ & Ef & _) & [Hobj Hflag] & Hpo & Hko). exists o. simpl in *.
    split_and!; try done; [|by rewrite Hko]. apply Hflag. intros Heq. by rewrite <- Heq, Hpo in Hph.
Qed.

(** Publishing never fails and only adds to the trace. *)
Definition appends {A} (s : world W R F) (r : res A) (s' : world W R F) : Prop :=
  is_ok r = true /\ exists l, trace s' = trace s ++ l.

Lemma notify_appends t ty s : wp (notifyTunnelUpdate t ty) (appends s) s.
Proof.
  assert (appends s (Ok tt) s) as Hrefl by (split; [done|]; exists []; by rewrite app_nil_r).
  unfold notifyTunnelUpdate. apply wp_bind, wp_gets. destruct (_ || _); [by apply wp_ret|].
  destruct (_ && _); [by apply wp_ret|]. apply wp_modify. split; [done|]. by eexists.
Qed.

Lemma republish_appends t s : wp (republish t) (appends s) s.
Proof.
  unfold republish. apply wp_bind, wp_gets. cbv zeta. destruct (_ && _); [apply notify_appends|].
  apply wp_ret. split; [done|]. exists []. by rewrite app_nil_r.
Qed.

(** A changed status is written, and what follows the write does not fail. *)
Lemma persistAndPublish_writes t m o s :
  ms_changed m || o_updated o = true ->
  wp (persistAndPublish t m o) (fun r s' => exists d,
    EvPatch t (o_tunnel o) d ∈ trace s' /\ (is_ok d = true -> is_ok r = true)) s.
Proof.
  intros Hupd. unfold persistAndPublish. rewrite Hupd. apply wp_bind, wp_bind, wp_wrap_err, wp_kcall. intros d w _.
  destruct d as [t2|e]; [|exists (Fail e); split; [simpl; set_solver|done]].
  apply wp_bind, wp_modify, wp_bind. set (s1 := set_metrics _ _).
  assert (EvPatch t (o_tunnel o) (Ok t2) ∈ trace s1) as Hin by (simpl; set_solver).
  assert (wp (if ms_changed m then notifyTunnelUpdate t2 (ms_updateType m) else mret tt) (appends s1) s1) as Hn.
  { destruct (ms_changed m); [apply notify_appends|]. apply wp_ret. split; [done|]. exists []. by rewrite app_nil_r. }
  eapply wp_mono; [exact Hn|]. intros [[]|e] s2 [Hok [l2 E2]]; [|done]. apply wp_ret, wp_bind.
  eapply wp_mono; [apply republish_appends|]. intros [[]|e] s3 [Hok3 [l3 E3]]; [|done]. apply wp_ret.
  exists (Ok t2). split; [|done]. rewrite E3, E2. set_solver.
Qed.

(** A tunnel that all forwarders serve becomes Ready.  When a tunnel's recorded
    gateway is the pod that runs, the pod is ready, has an address and answers with a
    key, and no connected forwarder lacks the tunnel's revision, then the next
    reconciliation writes the tunnel Ready with that key and the same mapping and
    revision; it fails only if that write fails. *)
Theorem acknowledged_tunnel_becomes_ready rc req t pod key s w1 w2 w3 :
  in_place rc req t pod s w1 w2 w3 -> Phase (Status t) <> TunnelPhaseReady ->
  pod_Phase pod <> PodFailed -> pod_Phase pod <> PodSucceeded -> isPodReady pod = true -> pod_PodIP pod <> "" ->
  fetcher rc (pod_PodIP pod) = Ok key -> key <> "" ->
  (forall f, fwd s = Some f -> fs_MissingAcks (Namespace t) (Name t) (MappingRevision (Status t)) f = []) ->
  exists t' d, EvPatch t t' d ∈ trace (Reconcile rc req s).2 /\
    Phase (Status t') = TunnelPhaseReady /\ GatewayPublicKey (Status t') = key /\ same_object t t' /\
    (is_ok d = true -> is_ok (Reconcile rc req s).1 = true).
Proof.
  intros Hset Hph Hf Hs Hrdy Hip Hkey Hne Hacks.
  pose proof (evaluatePodPhase_ready rc t pod key (gathered req t pod s w3) Hf Hs Hrdy Hip Hkey Hne Hph Hacks) as Hev.
  apply wp_run in Hev as (r & s1 & Eev & o & -> & Hupd & _ & Hready & Hk & Hobj).
  unfold Reconcile. rewrite (reconcileBody_in_place _ _ _ _ _ _ _ _ Hset). unfold mbind at 1 2, ST_bind at 1 2. rewrite Eev.
  pose proof (persistAndPublish_writes t (mkMappingState t false MODIFIED) o s1 Hupd) as Hp.
  apply wp_run in Hp as (r & s2 & -> & d & Hin & Hok). exists (o_tunnel o), d. by split_and!.
Qed.

(** An interrupted allocation is resumed.  If the write of a freshly
    allocated port is lost, the next reconciliation of the tunnel, which still
    shows no port, gets the same port again and takes no second one. *)
Theorem allocation_resumed t s m s1 s2 :
  ForwarderPort (Status t) = 0 -> is_Some (portAllocator s) ->
  assignPort t s = (Ok m, s1) -> portAllocator s2 = portAllocator s1 ->
  exists s3, assignPort t s2 = (Ok m, s3) /\ portAllocator s3 = portAllocator s2 /\
    exists a, portAllocator s2 = Some a /\ GetPort (tunnelKeyOf t) a = Some (ForwarderPort (Status (ms_tunnel m))).
Proof.
  intros Hz [a Ha] Hrun Hs2. unfold assignPort, mbind, ST_bind, gets, allocate in *. simpl in *.
  rewrite Ha, bool_decide_true in Hrun by done. simpl in Hrun. rewrite Ha in Hrun.
  destruct (Allocate (tunnelKeyOf t) a) as [[p|e|] a'] eqn:Halloc; simpl in Hrun; [|done..]. injection Hrun as <- <-.
  simpl in Hs2. rewrite Hs2, bool_decide_true by done. simpl. rewrite Hs2.
  assert (allocated a' !! tunnelKeyOf t = Some p) as Hk.
  { unfold Allocate in Halloc. destruct (allocated a !! tunnelKeyOf t) eqn:E; [by injection Halloc as <- <-|].
    destruct (intn _ _) as [[? ?]|]; [|done]. destruct (scan _ _ _ _); [|done]. injection Halloc as <- <-.
    simpl. by rewrite lookup_insert_eq. }
  unfold Allocate at 1. rewrite Hk. simpl. eexists. split_and!; [done|done|]. exists a'. by split.
Qed.
End lifecycle.
