(* ===== verification/Scenarios.v ===== *)
(** * The reconciler on concrete clusters

    A tunnel taken from creation to Ready and through deletion on the cluster of
    [Kube], with the allocator of [Portalloc] and the gRPC server of [Server]: the
    witnesses of the theorems on the reconciler, and the runs that show what
    the program does in corners its comments do not describe. *)

From S2P Require Import Prelude GoStd Proto Api Kube Portalloc Server Controller Reconcile Lifecycle.

Abbreviation demo_world := (world FakeKube Z ForwarderServer).

Definition demo_spec : TunnelSpec := mkSpec "team" (mkTarget "db.example" 5432 "10.1.2.3" None) "client-key" None.
Definition demo_tunnel (name : string) : Tunnel := mkTunnel name "team" None [] demo_spec empty_status.
Definition demo_req (name : string) : ObjectKey := mkKey "team" name.
Definition demo_rc (answer : res string) : TunnelReconciler :=
  mkReconciler true (mkKey "" "") "192.0.2.1" (Some (fun _ => answer)) (fun _ => "") (fun _ => Fail (ErrNew "no http"))
    (fun _ => Fail (ErrNew "no json")).

(** A server with one connected forwarder. *)
Definition demo_server : ForwarderServer :=
  srv (open_stream 0 (Some (mkStreamUpdatesRequest (Some "fwd-1"))) sys_init).

Definition demo_start : demo_world :=
  mkWorld (fk_set_tunnels {[demo_req "db" := demo_tunnel "db"]} fake_empty) (Some (New 51820 51821 7))
    (Some demo_server) (mkMetrics ∅ 0 ∅) [].

(** Reconcile with an empty trace, as every call starts. *)
Definition reset (s : demo_world) : demo_world :=
  mkWorld (kube s) (portAllocator s) (fwd s) (metrics s) [].
Definition reconcile (answer : res string) (name : string) (s : demo_world) : demo_world :=
  (Reconcile (demo_rc answer) (demo_req name) (reset s)).2.
Definition on_kube (f : FakeKube -> FakeKube) (s : demo_world) : demo_world :=
  mkWorld (f (kube s)) (portAllocator s) (fwd s) (metrics s) (trace s).
Definition on_fwd (f : ForwarderServer -> ForwarderServer) (s : demo_world) : demo_world :=
  mkWorld (kube s) (portAllocator s) (f <$> fwd s) (metrics s) (trace s).

(** The kubelet starts the pod. *)
Definition pod_up (ip : string) (p : Pod) : Pod :=
  mkPod (pod_Key p) (pod_UID p) (pod_Labels p) (pod_Annotations p) (pod_Owners p) (pod_Spec p) "Running" ip
    [mkCondition "Ready" "True"].
Definition start_pod (name ip : string) : demo_world -> demo_world :=
  on_kube (fun w => fk_set_pods (alter (pod_up ip) (mkKey "team" (gatewayResourceName name)) (fk_pods w)) w).
Definition ack (name : string) (rev : Z) : demo_world -> demo_world :=
  on_fwd (fun f => (Ack (Some (mkAckRequest (Some "fwd-1") (Some name) (Some "team") (Some rev))) f).2).

Definition demo1 : demo_world := reconcile (Ok "gw-key") "db" demo_start.
Definition demo2 : demo_world := reconcile (Ok "gw-key") "db" (start_pod "db" "10.0.0.9" demo1).
Definition demo3 : demo_world := reconcile (Ok "gw-key") "db" (ack "db" 2 demo2).

Definition tunnel_of (name : string) (s : demo_world) : option Tunnel := fk_tunnels (kube s) !! demo_req name.

(** ** Witnesses *)

(** The run is not vacuous: after three reconciliations the tunnel is Ready on
    its port, and the forwarder was told. *)
Example demo_reaches_ready :
  (Phase ∘ Status <$> tunnel_of "db" demo1) = Some "Provisioning" /\
  (Message ∘ Status <$> tunnel_of "db" demo2) = Some "Waiting for forwarder mapping acknowledgement" /\
  (Phase ∘ Status <$> tunnel_of "db" demo3) = Some "Ready" /\
  (ForwarderEndpoint ∘ Status <$> tunnel_of "db" demo3) = Some "192.0.2.1:51821" /\
  length (default [] (updates <$> (fwd demo2 ≫= fun f => streams f !! 0%nat))) = 2%nat.
Proof. vm_compute. by split_and!. Qed.

Definition before2 : demo_world := reset (start_pod "db" "10.0.0.9" demo1).
Definition before3 : demo_world := reset (ack "db" 2 demo2).
Definition before4 : demo_world := reset demo3.

Definition nth_event (n : nat) (s : demo_world) : event := default (EvRelease "") (trace s !! n).
Definition patched (n : nat) (s : demo_world) : Tunnel * Tunnel * res Tunnel :=
  match nth_event n s with EvPatch base t d => (base, t, d) | _ => (demo_tunnel "", demo_tunnel "", Fail ErrCanceled) end.
Definition notified (n : nat) (s : demo_world) : TunnelUpdate :=
  match nth_event n s with EvNotify u => u | _ => sync_update end.

Lemma published_mapping_is_persisted_witness :
  exists t, last_object (take 4 (trace demo2)) = Some t /\ 0 < ForwarderPort (Status t) /\
    tu_Tunnel (notified 4 demo2) = Some (publishedMapping t) /\
    (tu_Type (notified 4 demo2) = Some DELETED \/
     (GatewayPodIP (Status t) <> "" /\ GatewayPublicKey (Status t) <> "" /\
      tunnelMapping t (kube demo2) = (Ok (publishedMapping t), kube demo2))).
Proof.
  apply (published_mapping_is_persisted (demo_rc (Ok "gw-key")) (demo_req "db") before2 (take 4 (trace demo2))
    (notified 4 demo2) (drop 5 (trace demo2)) (kube demo2)); vm_compute; reflexivity.
Defined.

Lemma finalizer_guards_gateway_witness :
  (forall p d, nth_event 3 demo1 = EvCreatePod p d -> finalizer_persisted (take 3 (trace demo1))) /\
  (forall t d, nth_event 3 demo1 = EvUpdate t d -> finalizerName ∉ Finalizers t ->
     gateway_gone (take 3 (trace demo1)) (gateway_key t)).
Proof.
  apply (finalizer_guards_gateway (demo_rc (Ok "gw-key")) (demo_req "db") demo_start (take 3 (trace demo1))
    (nth_event 3 demo1) (drop 4 (trace demo1))); vm_compute; reflexivity.
Defined.

(** The user deletes the tunnel. *)
Definition before_delete : demo_world := on_kube (fun w => (fk_delete_tunnel (demo_req "db") w).2) before4.
Definition demo_deleted : demo_world := reconcile (Ok "gw-key") "db" before_delete.

Lemma port_released_after_finalizer_witness :
  nth_event 4 demo_deleted = EvRelease "team/db" /\
  finalizer_absent (take 4 (trace demo_deleted)) /\
  exists t, last_object (take 4 (trace demo_deleted)) = Some t /\ "team/db" = tunnelKeyOf t.
Proof.
  split; [vm_compute; reflexivity|].
  apply (port_released_after_finalizer (demo_rc (Ok "gw-key")) (demo_req "db") before_delete
    (take 4 (trace demo_deleted)) (EvRelease "team/db") (drop 5 (trace demo_deleted))); vm_compute; reflexivity.
Defined.

Lemma status_write_revision_witness :
  MappingRevision (Status (patched 3 demo2).1.1) = 1 /\ MappingRevision (Status (patched 3 demo2).1.2) = 2 /\
  last_object (take 3 (trace demo2)) = Some (patched 3 demo2).1.1 /\
  (patched 3 demo2).1.2 <> (patched 3 demo2).1.1 /\ same_meta (patched 3 demo2).1.1 (patched 3 demo2).1.2.
Proof.
  split; [vm_compute; reflexivity|]. split; [vm_compute; reflexivity|].
  destruct (status_write_revision (demo_rc (Ok "gw-key")) (demo_req "db") before2 (take 3 (trace demo2))
    (patched 3 demo2).1.1 (patched 3 demo2).1.2 (patched 3 demo2).2 (drop 4 (trace demo2))) as (H1 & H2 & H3 & _);
    [vm_compute; reflexivity..|]. exact (conj H1 (conj H2 H3)).
Defined.

Lemma ready_only_on_evidence_witness :
  Phase (Status (patched 3 demo3).1.2) = TunnelPhaseReady /\
  exists pod, pod_answer (take 3 (trace demo3)) (gateway_key (patched 3 demo3).1.1) pod /\ isPodReady pod = true.
Proof.
  split; [vm_compute; reflexivity|].
  destruct (ready_only_on_evidence (demo_rc (Ok "gw-key")) (demo_req "db") before3 (take 3 (trace demo3))
    (patched 3 demo3).1.1 (patched 3 demo3).1.2 (patched 3 demo3).2 (drop 4 (trace demo3))) as (pod & H1 & H2 & _);
    [vm_compute; (reflexivity || discriminate)..|]. exact (ex_intro _ pod (conj H1 H2)).
Defined.

Lemma resource_names_distinct_witness :
  tunnelKeyOf (demo_tunnel "db") <> tunnelKeyOf (demo_tunnel "db2") /\
  gateway_key (demo_tunnel "db") <> gateway_key (demo_tunnel "db2") /\
  tunnelKeyOf (demo_tunnel "db") = Server.tunnelKey "team" "db".
Proof. apply (resource_names_distinct (demo_tunnel "db") (demo_tunnel "db2")); [reflexivity|reflexivity|discriminate]. Defined.

Definition demo_selector : TunnelTargetPodSelector := mkPodSelector {["app" := "db"]} [].
Definition demo_pod_target : Tunnel :=
  mkTunnel "db" "team" None [] (mkSpec "team" (mkTarget "db" 5432 "" (Some demo_selector)) "client-key" None) empty_status.


Definition being_deleted : Tunnel := default (demo_tunnel "") (tunnel_of "db" before_delete).

Lemma deletion_all_or_nothing_witness :
  (handleDeletion being_deleted before_delete).1 = Ok tt /\
  exists t', torn_down t' before_delete (handleDeletion being_deleted before_delete).2.
Proof.
  assert ((handleDeletion being_deleted before_delete).1 = Ok tt) as Hok by (vm_compute; reflexivity).
  split; [exact Hok|].
  assert (ContainsFinalizer (Finalizers being_deleted) finalizerName = true) as Hf by (vm_compute; reflexivity).
  pose proof (deletion_all_or_nothing being_deleted before_delete) as Hd. rewrite Hf in Hd.
  destruct (handleDeletion being_deleted before_delete) as [[]]; [|discriminate Hok].
  destruct Hd as (t' & Ht & _). exact (ex_intro _ t' Ht).
Defined.

Definition ready_tunnel : Tunnel := default (demo_tunnel "") (tunnel_of "db" demo3).
Definition running_pod : Pod :=
  default (mkPod (mkKey "" "") "" ∅ ∅ [] (mkPodSpec "" None None []) "" "" [])
    (fk_pods (kube demo3) !! gateway_key ready_tunnel).

Lemma status_is_fixpoint_witness :
  exists q s3, evaluatePodPhase (demo_rc (Ok "gw-key"))
      (o_tunnel (mkOutcome ready_tunnel false 0)) running_pod before4 = (Ok (mkOutcome ready_tunnel false q), s3) /\
    only_service_reads before4 s3.
Proof.
  apply (status_is_fixpoint (demo_rc (Ok "gw-key")) (Fail ErrCanceled) running_pod ready_tunnel before4
    (mkOutcome ready_tunnel false 0) before4 before4).
  - left. discriminate.
  - vm_compute. reflexivity.
  - reflexivity.
Defined.

Lemma termination_tears_down_witness :
  (handleTerminated ready_tunnel before4).1 = Ok tt /\
  exists t', after_finalizer_step ready_tunnel t' /\ torn_down t' before4 (handleTerminated ready_tunnel before4).2.
Proof.
  assert ((handleTerminated ready_tunnel before4).1 = Ok tt) as Hok by (vm_compute; reflexivity).
  split; [exact Hok|].
  pose proof (termination_tears_down ready_tunnel before4) as Hd.
  destruct (handleTerminated ready_tunnel before4) as [[]]; [exact Hd|discriminate Hok].
Defined.

Lemma unready_tunnel_is_requeued_witness :
  ready_or_requeued (demo_rc (Ok "gw-key")) running_pod (mkOutcome ready_tunnel false 0).
Proof.
  destruct (unready_tunnel_is_requeued (demo_rc (Ok "gw-key")) ready_tunnel running_pod before4)
    as (o & s' & Hrun & _ & Ho).
  assert (o = mkOutcome ready_tunnel false 0) as <-.
  { assert ((evaluatePodPhase (demo_rc (Ok "gw-key")) ready_tunnel running_pod before4).1 = Ok o) as Ho'
      by (rewrite Hrun; reflexivity).
    vm_compute in Ho'. injection Ho' as <-. vm_compute. reflexivity. }
  apply Ho; vm_compute; (reflexivity || discriminate).
Defined.

Definition quiet_policy_world : FakeKube :=
  (kube_create_or_update_policy (gateway_key ready_tunnel) (mutate_policy ready_tunnel (gatewayLabels (Name ready_tunnel)))
     (kube before4)).2.

Lemma converged_is_quiet_witness :
  exists s', Reconcile (demo_rc (Ok "gw-key")) (demo_req "db") before4 = (Ok 0, s') /\ untouched before4 s' /\
    exists l, trace s' = trace before4 ++
      [EvGet (demo_req "db") (Ok ready_tunnel); EvGetPod (gateway_key ready_tunnel) (Ok running_pod);
       EvApplyPolicy (gateway_key ready_tunnel) (Ok tt)] ++ l /\ Forall (fun e => exists k r, e = EvGetService k r) l.
Proof.
  apply (converged_is_quiet (demo_rc (Ok "gw-key")) (demo_req "db") ready_tunnel running_pod before4
    (kube before4) (kube before4) quiet_policy_world (Fail ErrCanceled) "192.0.2.1").
  - split; vm_compute; (reflexivity || discriminate).
  - split.
    + split; vm_compute; discriminate.
    + vm_compute. reflexivity.
    + vm_compute. discriminate.
    + split; [vm_compute; reflexivity|vm_compute; discriminate].
    + intros f' Hf. rewrite (Some_default _ NewForwarderServer _ Hf). vm_compute. reflexivity.
    + vm_compute. reflexivity.
    + vm_compute. reflexivity.
    + left. discriminate.
    + reflexivity.
    + vm_compute. reflexivity.
Defined.

(** A cluster with a servable tunnel, a failed one, one that is being deleted and one
    without a port. *)
Definition served_status (phase : string) (port : Z) : TunnelStatus :=
  mkStatus phase "gw-key" port "" "tunnel-gateway" "uid" "10.0.0.9" 2 "".
Definition snapshot_cluster : FakeKube :=
  fk_set_tunnels (list_to_map ((fun t => (tunnel_key t, t)) <$>
    [mkTunnel "db" "team" None [] demo_spec (served_status "Ready" 51821);
     mkTunnel "failed" "team" None [] demo_spec (served_status "Failed" 51822);
     mkTunnel "leaving" "team" (Some 1) [] demo_spec (served_status "Ready" 51823);
     mkTunnel "new" "team" None [] demo_spec (served_status "Pending" 0)])) fake_empty.

Lemma GetConfig_snapshot_witness :
  exists st, GetConfig (mkKey "" "") (snapshot_cluster, Some (New 51820 51823 7)) =
    (Ok (mkForwarderConfig None [Some (mkTunnelMapping (Some "db") (Some "team") (Some 51821) (Some "10.0.0.9:51820")
       (Some 2) (Some "uid") (Some "10.0.0.9"))]), st) /\ GetPort "team/db" <$> st.2 = Some (Some 51821).
Proof.
  pose proof (GetConfig_snapshot (mkKey "" "") snapshot_cluster (Some (New 51820 51823 7))) as Hget.
  vm_compute in Hget. eexists. split; [exact Hget|]. vm_compute. reflexivity.
Defined.

(** The tunnel after its mapping was acknowledged and before it is reconciled again. *)
Definition acked_tunnel : Tunnel := default (demo_tunnel "") (tunnel_of "db" before3).
Definition acked_policy_world : FakeKube :=
  (kube_create_or_update_policy (gateway_key acked_tunnel) (mutate_policy acked_tunnel (gatewayLabels "db")) (kube before3)).2.

Lemma acknowledged_tunnel_becomes_ready_witness :
  exists t' d, EvPatch acked_tunnel t' d ∈ trace (Reconcile (demo_rc (Ok "gw-key")) (demo_req "db") before3).2 /\
    Phase (Status t') = TunnelPhaseReady /\ GatewayPublicKey (Status t') = "gw-key" /\ same_object acked_tunnel t' /\
    (is_ok d = true -> is_ok (Reconcile (demo_rc (Ok "gw-key")) (demo_req "db") before3).1 = true).
Proof.
  apply (acknowledged_tunnel_becomes_ready (demo_rc (Ok "gw-key")) (demo_req "db") acked_tunnel running_pod "gw-key" before3
    (kube before3) (kube before3) acked_policy_world).
  - split; vm_compute; (reflexivity || discriminate).
  - vm_compute. discriminate.
  - vm_compute. discriminate.
  - vm_compute. discriminate.
  - vm_compute. reflexivity.
  - vm_compute. discriminate.
  - vm_compute. reflexivity.
  - discriminate.
  - intros f Hf. vm_compute in Hf. injection Hf as <-. vm_compute. reflexivity.
Defined.

Definition assigned : res mapping_state * demo_world := assignPort (demo_tunnel "db") demo_start.

Lemma allocation_resumed_witness :
  exists m s3, assignPort (demo_tunnel "db") assigned.2 = (Ok m, s3) /\ portAllocator s3 = portAllocator assigned.2.
Proof.
  destruct (allocation_resumed (demo_tunnel "db") demo_start
    (mkMappingState (set_status (set_ForwarderPort 51821) (demo_tunnel "db")) true ADDED) assigned.2 assigned.2)
    as (s3 & H1 & H2 & _).
  - reflexivity.
  - vm_compute. eexists. reflexivity.
  - vm_compute. reflexivity.
  - reflexivity.
  - exact (ex_intro _ _ (ex_intro _ s3 (conj H1 H2))).
Defined.

(** ** Corners *)

(** The tunnel is deleted and created again under the same name; the forwarder
    stays connected throughout and sends nothing. *)
Definition recreated1 : demo_world :=
  reconcile (Ok "gw-key-2") "db"
    (on_kube (fun w => fk_set_tunnels (<[demo_req "db" := demo_tunnel "db"]> (fk_tunnels w)) w) demo_deleted).
Definition recreated2 : demo_world := reconcile (Ok "gw-key-2") "db" (start_pod "db" "10.0.0.77" recreated1).

(** Acknowledgements outlive the tunnel they were given for.  They are kept
    under namespace/name and only dropped when the forwarder disconnects, while a new
    tunnel counts its revisions from the start again, so a tunnel recreated under its
    old name turns Ready on the acknowledgement of its predecessor: here the only
    connected forwarder has acknowledged nothing since, and the update that
    carries the new gateway's address is still queued for it. *)
Theorem recreated_tunnel_ready_on_stale_ack :
  tunnel_of "db" demo_deleted = None /\
  (Phase ∘ Status <$> tunnel_of "db" recreated2) = Some TunnelPhaseReady /\
  (GatewayPodIP ∘ Status <$> tunnel_of "db" recreated2) = Some "10.0.0.77" /\
  (acks <$> fwd recreated2) = (acks <$> fwd demo_deleted) /\
  (exists st u, (fwd recreated2 ≫= fun f => streams f !! 0%nat) = Some st /\ last (updates st) = Some u /\
     GetGatewayPodIp (GetTunnel (Some u)) = "10.0.0.77").
Proof.
  split; [vm_compute; reflexivity|]. split; [vm_compute; reflexivity|]. split; [vm_compute; reflexivity|].
  split; [vm_compute; reflexivity|]. vm_compute. eexists _, _. split; [reflexivity|]. split; reflexivity.
Qed.

(** The gateway of a Ready tunnel is replaced by a pod that is ready already when
    the reconciler looks, and its status cannot be fetched yet. *)
Definition replace_pod (p : Pod) : Pod :=
  mkPod (pod_Key p) "replacement" (pod_Labels p) (pod_Annotations p) (pod_Owners p) (pod_Spec p) "Running" "10.0.0.50"
    [mkCondition "Ready" "True"].
Definition replaced : demo_world :=
  reconcile (Fail (ErrNew "connection refused")) "db"
    (on_kube (fun w => fk_set_pods (alter replace_pod (gateway_key ready_tunnel) (fk_pods w)) w) demo3).

(** A replaced gateway leaves the tunnel Ready without a key.  The comment on
    the UID change says a replacement must verify its own key before the tunnel can
    be considered ready again, but only the key is cleared, not the phase: when the
    replacement pod is ready and its key cannot be fetched, the written status is
    Ready with an empty public key. *)
Theorem replacement_stays_ready_without_key :
  (Phase ∘ Status <$> tunnel_of "db" replaced) = Some TunnelPhaseReady /\
  (GatewayPublicKey ∘ Status <$> tunnel_of "db" replaced) = Some "" /\
  (GatewayPodUID ∘ Status <$> tunnel_of "db" replaced) = Some "replacement".
Proof. split; [vm_compute; reflexivity|]. split; vm_compute; reflexivity. Qed.

(** An operator that restarts finds the tunnel in the cluster and loads its
    port; then the tunnel is deleted. *)
Definition restarted : demo_world :=
  mkWorld (kube before_delete) (Some (LoadExisting "team/db" 51821 (New 51820 51821 7))) (Some NewForwarderServer)
    (mkMetrics ∅ 0 ∅) [].
Definition restarted_deleted : demo_world := reconcile (Ok "gw-key") "db" restarted.

(** The gauge of allocated ports drifts.  It is decremented on every release,
    but not incremented when ports are loaded at start-up, so after a restart the
    deletion of a tunnel leaves it negative. *)
Theorem port_gauge_goes_negative :
  portAllocationsActive (metrics restarted_deleted) = -1 /\
  (allocated <$> portAllocator restarted_deleted) = Some ∅.
Proof. split; vm_compute; reflexivity. Qed.

(** A tunnel on its way out, held by the finalizer of another controller; the operator's
    own is off already, because its update took effect although the answer was lost. *)
Definition answer_lost : demo_world :=
  on_kube (fun w => fk_set_tunnels (alter (set_Finalizers ["example.com/other"]) (demo_req "db") (fk_tunnels w)) w) before_delete.
Definition silently_released : demo_world := reconcile (Ok "gw-key") "db" answer_lost.

(** A deletion without the finalizer tells nobody.  handleDeletion then releases the
    port and returns: the forwarders are not sent the deletion that goes with the release
    everywhere else, so the port is free for another tunnel while they go on serving
    the old one on it. *)
Theorem deletion_without_finalizer_is_silent :
  (allocated <$> portAllocator answer_lost) = Some {["team/db" := 51821]} /\
  (allocated <$> portAllocator silently_released) = Some ∅ /\
  fwd silently_released = fwd answer_lost /\
  tunnel_of "db" silently_released = tunnel_of "db" answer_lost.
Proof. split_and!; vm_compute; reflexivity. Qed.
