(* ===== verification/Client.v ===== *)
(** * The forwarder's gRPC client (pkg/forwarder/grpc_client.go)

    [ConfigClient] holds the current connection, and [cc_open] is the set of
    connections of the process that are open.  The network is the environment: each
    pass of a reconnect loop gets an [attempt], the answers the calls of that pass
    receive, and a loop is a function of the list of attempts.  A list that runs out
    is a loop that is still running.  [WatchUpdates] is generic in the state its
    callbacks work on. *)

From S2P Require Import Prelude GoStd Proto.

(** ** Connections *)

Record ConfigClient := mkClient {
  cc_conn : option nat;
  cc_open : gset nat;
  cc_next : nat;
}.

Definition NewConfigClient : ConfigClient := mkClient None ∅ 0.

(** [grpc.NewClient] fails with [err], or gives a new connection. *)
Definition Connect (err : option error) (c : ConfigClient) : res unit * ConfigClient :=
  match err with
  | Some e => (Fail e, c)
  | None => (Ok tt, mkClient (Some (cc_next c)) ({[cc_next c]} ∪ cc_open c) (S (cc_next c)))
  end.

Definition Close (c : ConfigClient) : ConfigClient :=
  match cc_conn c with
  | Some n => mkClient (cc_conn c) (cc_open c ∖ {[n]}) (cc_next c)
  | None => c
  end.

(** The request [Ack] sends; a nil mapping is refused before any call. *)
Definition ackRequest (forwarderID : string) (mapping : TunnelMapping) : AckRequest :=
  mkAckRequest (Some forwarderID) (tm_TunnelName mapping) (tm_TunnelNamespace mapping) (tm_Revision mapping).

(** ** Watching updates *)

Record watch_attempt := mkAttempt {
  (** [ctx.Err()] at the head of the loop *)
  wa_ctx : option error;
  (** the error of [StreamUpdates] *)
  wa_open : option error;
  (** what [Recv] gives, in order, and the error it ends with *)
  wa_stream : list TunnelUpdate;
  wa_end : error;
  (** what [FetchConfig] gives *)
  wa_config : res ForwarderConfig;
  (** [ctx.Err()] if the context ends during the back-off *)
  wa_done : option error;
}.

Definition UpdateType_String (t : UpdateType) : string :=
  match t with
  | ADDED => "ADDED" | MODIFIED => "MODIFIED" | DELETED => "DELETED" | SYNC => "SYNC"
  | UpdateTypeOther n => Itoa n
  end.

Section watch.
Context {S : Type} (onSnapshot : ForwarderConfig -> ST S unit) (onUpdate : TunnelUpdate -> ST S unit).

(** The inner loop: an error of the callback is logged and dropped. *)
Fixpoint recv_loop (updates : list TunnelUpdate) (s : S) : S :=
  match updates with
  | [] => s
  | u :: updates =>
      if bool_decide (GetType (Some u) = SYNC) then recv_loop updates s
      else recv_loop updates (onUpdate u s).2
  end.

(** One pass of the outer loop up to the back-off: the error it ends with and
    whether the snapshot was applied. *)
Definition watch_session (a : watch_attempt) (s : S) : error * bool * S :=
  match wa_open a with
  | Some err => (err, false, s)
  | None =>
      match wa_stream a with
      | [] => (wa_end a, false, s)
      | u :: updates =>
          if bool_decide (GetType (Some u) <> SYNC)
          then (ErrNew ("expected stream sync marker, got " +:+ UpdateType_String (GetType (Some u))), false, s)
          else match wa_config a with
               | Fail e => (ErrWrap "fetch config after stream sync" e, false, s)
               | Ok config =>
                   match onSnapshot config s with
                   | (Fail e, s) => (ErrWrap "apply config snapshot" e, false, s)
                   | (Ok _, s) => (wa_end a, true, recv_loop updates s)
                   end
               end
      end
  end.

(** How far the loop got: what it returned (if it did), the state, the back-offs
    it slept and which passes applied their snapshot. *)
Record watch_run := mkRun {
  run_result : option error;
  run_state : S;
  run_sleeps : list Z;
  run_synced : list bool;
}.

Definition next_backoff (backoff : Z) : Z := if bool_decide (backoff < 30 * Second) then backoff * 2 else backoff.

Fixpoint watch_loop (backoff : Z) (script : list watch_attempt) (s : S) : watch_run :=
  match script with
  | [] => mkRun None s [] []
  | a :: script =>
      match wa_ctx a with
      | Some err => mkRun (Some err) s [] []
      | None =>
          let '(_, synced, s) := watch_session a s in
          let backoff := if synced then Second else backoff in
          match wa_done a with
          | Some err => mkRun (Some err) s [backoff] [synced]
          | None =>
              let run := watch_loop (next_backoff backoff) script s in
              mkRun (run_result run) (run_state run) (backoff :: run_sleeps run) (synced :: run_synced run)
          end
      end
  end.

Definition WatchUpdates (script : list watch_attempt) (s : S) : watch_run := watch_loop Second script s.

(** ** Properties *)

(** The schedule: doubling from one second after [k] failures in a row, at most
    32 seconds, back to one second after a pass that applied its snapshot. *)
Fixpoint schedule (k : nat) (synced : list bool) : list Z :=
  match synced with
  | [] => []
  | ok :: synced =>
      let k := if ok then 0%nat else k in
      Second * 2 ^ Z.of_nat (Nat.min k 5) :: schedule (Datatypes.S k) synced
  end.

Lemma next_backoff_pow k :
  next_backoff (Second * 2 ^ Z.of_nat (Nat.min k 5)) = Second * 2 ^ Z.of_nat (Nat.min (Datatypes.S k) 5).
Proof.
  destruct (decide (k < 5)%nat) as [Hk|Hk]; [by do 5 (destruct k as [|k]; [done|]); lia|].
  by replace (Nat.min k 5) with 5%nat by lia; replace (Nat.min (Datatypes.S k) 5) with 5%nat by lia.
Qed.

Lemma watch_loop_schedule k script s :
  run_sleeps (watch_loop (Second * 2 ^ Z.of_nat (Nat.min k 5)) script s) =
  schedule k (run_synced (watch_loop (Second * 2 ^ Z.of_nat (Nat.min k 5)) script s)).
Proof.
  revert k s. induction script as [|a script IH]; intros k s; simpl; [done|].
  destruct (wa_ctx a); [done|]. destruct (watch_session a s) as [[err synced] s'].
  set (k' := if synced then 0%nat else k).
  assert ((if synced then Second else Second * 2 ^ Z.of_nat (Nat.min k 5)) = Second * 2 ^ Z.of_nat (Nat.min k' 5)) as ->
    by by destruct synced.
  destruct (wa_done a); simpl; [done|]. rewrite next_backoff_pow, IH. done.
Qed.

(** C40: the reconnect back-off.  However the connection attempts go, the waits
    between them are one second doubled once per attempt that has failed in a row
    to apply a snapshot, never more than 32 seconds, and one second again after
    an attempt that applied one; in particular the nanosecond count cannot overflow. *)
Theorem backoff_schedule script s :
  run_sleeps (WatchUpdates script s) = schedule 0 (run_synced (WatchUpdates script s)) /\
  Forall (fun d => Second <= d <= 32 * Second) (run_sleeps (WatchUpdates script s)).
Proof.
  pose proof (watch_loop_schedule 0 script s) as Heq.
  change (Second * 2 ^ Z.of_nat (Nat.min 0 5)) with Second in Heq. fold (WatchUpdates script s) in Heq.
  split; [exact Heq|]. rewrite Heq. generalize (run_synced (WatchUpdates script s)) as l, 0%nat as k.
  induction l as [|ok l IH]; intros k; simpl; constructor; [|apply IH].
  set (j := if ok then 0%nat else k).
  assert (exists i, (i <= 5)%nat /\ Nat.min j 5 = i) as (i & Hi & ->) by (exists (Nat.min j 5); lia).
  do 6 (destruct i as [|i]; [vm_compute; split; discriminate|]). lia.
Qed.
End watch.
