(* ===== verification/Forwarder.v ===== *)
(** * The forwarder process (cmd/forwarder/main.go, pkg/forwarder/health.go)

    [fproc] is the state of the process: its proxy (of [Proxy]), the readiness
    flag of its health server, the operator it talks to (an interface,
    [OperatorAPI]; the gRPC server of [Server] is an instance), and the
    acknowledgements it has sent, in order.  [run] is the whole program over an
    environment: variables, host name, and the answers of the network.  Its
    deferred calls are made on every return. *)

From S2P Require Import Prelude GoStd Proto Api Kube Portalloc Server Session Proxy Client.

Definition newline : string := String (Ascii.ascii_of_nat 10) "".

Definition defaultHealthAddr : string := ":8085".
Definition defaultMetricsAddr : string := ":8090".
Definition proxyIdleTimeout : Z := 5 * 60 * Second.

(** ** Environment variables *)

Section environment.
Context (getenv : string -> string).

Definition envOrDefault (key fallback : string) : string :=
  let v := TrimSpace (getenv key) in if bool_decide (v = "") then fallback else v.

(** [None] is [os.Exit(1)]. *)
Definition requireEnv (key : string) : option string :=
  let v := TrimSpace (getenv key) in if bool_decide (v = "") then None else Some v.

Definition forwarderIdentity (hostname : res string) : string :=
  let id := TrimSpace (getenv "FORWARDER_ID") in
  if bool_decide (id <> "") then id
  else match hostname with
       | Ok h => if bool_decide (h <> "") then h else "forwarder"
       | Fail _ => "forwarder"
       end.
End environment.

Inductive Level := LevelDebug | LevelInfo | LevelWarn | LevelError.

(** The error names the value; the escaping of [%q] is left out. *)
Definition parseLogLevel (raw : string) : res Level :=
  let l := ToLower (TrimSpace raw) in
  if bool_decide (l = "debug") then Ok LevelDebug
  else if bool_decide (l = "info") || bool_decide (l = "") then Ok LevelInfo
  else if bool_decide (l = "warn") || bool_decide (l = "warning") then Ok LevelWarn
  else if bool_decide (l = "error") then Ok LevelError
  else Fail (ErrNew ("invalid LOG_LEVEL: " +:+ raw)).

(** ** State *)

Class OperatorAPI (O : Type) := { op_Ack : AckRequest -> ST O unit }.

#[export] Instance grpc_operator : OperatorAPI ForwarderServer := {| op_Ack request := Server.Ack (Some request) |}.

Record fproc {O : Type} := mkProc {
  f_proxy : UDPProxy;
  f_ready : bool;
  f_op : O;
  f_sent : list AckRequest;
}.
Arguments fproc : clear implicits.
Arguments mkProc {_} _ _ _ _.

Section forwarder.
Context {O : Type} `{OperatorAPI O} (os_refuses : nat -> bool) (forwarderID : string).
Implicit Types (s : fproc O).
Abbreviation M := (ST (fproc O)).

Definition on_proxy {A} (m : ST UDPProxy A) : M A := fun s =>
  let '(r, p) := m (f_proxy s) in (r, mkProc p (f_ready s) (f_op s) (f_sent s)).

(** *** Health *)

Definition SetReady (ready : bool) s : fproc O := mkProc (f_proxy s) ready (f_op s) (f_sent s).

(** Status code and body. *)
Definition handleHealthz s : Z * string := (200, "ok" +:+ newline).
Definition handleReadyz s : Z * string :=
  if negb (f_ready s) then (503, "not ready" +:+ newline) else (200, "ready" +:+ newline).

(** *** Acknowledging *)

Definition client_Ack (mapping : option TunnelMapping) : M unit :=
  match mapping with
  | None => throw (ErrNew "nil tunnel mapping")
  | Some m => fun s =>
      let request := ackRequest forwarderID m in
      let '(r, o) := op_Ack request (f_op s) in
      (r, mkProc (f_proxy s) (f_ready s) o (f_sent s ++ [request]))
  end.

(** *** Applying *)

Definition applyMappings (mappings : list (option TunnelMapping)) : M unit :=
  on_proxy (ReconcileMappings os_refuses mappings).

(** The mappings of a snapshot that are acknowledged. *)
Definition acknowledgeable (mapping : option TunnelMapping) : bool :=
  negb (negb (bool_decide (is_Some mapping)) || bool_decide (GetForwarderPort mapping <= 0) ||
        bool_decide (TrimSpace (GetGatewayAddress mapping) = "")).

Definition ack_snapshot_mapping (mapping : option TunnelMapping) : M unit :=
  if negb (acknowledgeable mapping) then mret tt
  else wrap_err ("ack mapping " +:+ GetTunnelNamespace mapping +:+ "/" +:+ GetTunnelName mapping +:+
                 " revision " +:+ Itoa (GetRevision mapping)) (client_Ack mapping).

Definition applySnapshot (snapshot : ForwarderConfig) : M unit :=
  applyMappings (GetTunnels (Some snapshot)) ;;
  for_each ack_snapshot_mapping (GetTunnels (Some snapshot)).

Definition handleUpdate (update : option TunnelUpdate) : M unit :=
  match GetTunnel update with
  | None => mret tt
  | Some _ =>
      let mapping := GetTunnel update in
      let port := GetForwarderPort mapping in
      if bool_decide (port <= 0) then mret tt
      else match GetType update with
           | ADDED | MODIFIED =>
               if bool_decide (TrimSpace (GetGatewayAddress mapping) = "") then mret tt
               else
                 wrap_err ("apply tunnel update for port " +:+ Itoa port) (on_proxy (ApplyMapping os_refuses mapping)) ;;
                 wrap_err ("ack tunnel update for port " +:+ Itoa port) (client_Ack mapping)
           | DELETED => modify (fun s => mkProc (RemoveMapping port (f_proxy s)) (f_ready s) (f_op s) (f_sent s))
           | SYNC | UpdateTypeOther _ => mret tt
           end
  end.

(** The callbacks [run] gives [WatchUpdates]. *)
Definition onSnapshot (snapshot : ForwarderConfig) : M unit :=
  applySnapshot snapshot ;; modify (SetReady true).
Definition onUpdate (update : TunnelUpdate) : M unit := handleUpdate (Some update).

(** *** Shutdown *)

(** [stop_err] is the error of the shutdown context when [Stop] looks at it. *)
Definition drainForwarder (stop_err : option error) : M unit :=
  modify (SetReady false) ;;
  r ← try (on_proxy (Stop stop_err));
  match r with
  | Ok _ => mret tt
  | Fail e => if errors_Is e ErrCanceled then mret tt else throw (ErrWrap "stop UDP proxy" e)
  end.
End forwarder.

(** ** Connecting *)

Record connect_attempt := mkConnectAttempt {
  ca_ctx : option error;
  ca_new : option error;
  ca_fetch : res ForwarderConfig;
  ca_done : option error;
}.

(** [None] is a loop that is still retrying. *)
Fixpoint connectAndFetchConfig (script : list connect_attempt) (c : ConfigClient) :
    option (res ForwarderConfig) * ConfigClient :=
  match script with
  | [] => (None, c)
  | a :: script =>
      match ca_ctx a with
      | Some err => (Some (Fail err), c)
      | None =>
          let '(r, c) := Connect (ca_new a) c in
          match r, ca_fetch a with
          | Ok _, Ok config => (Some (Ok config), c)
          | _, _ =>
              let c := if is_ok r then Client.Close c else c in
              match ca_done a with
              | Some err => (Some (Fail err), c)
              | None => connectAndFetchConfig script c
              end
          end
      end
  end.

(** ** The program *)

Record environment := mkEnvironment {
  e_getenv : string -> string;
  e_hostname : res string;
  e_os_refuses : nat -> bool;
  e_connect : list connect_attempt;
  (** [shutdownCtx.Err()] when a start that is cancelled stops the proxy *)
  e_stop : option error;
}.

(** How far [run] got: the process exited, [run] returned, it still tries to connect, or
    it is at its [select] and watches updates; the file Drain goes on from there. *)
Inductive exit := Exited (code : Z) | Returned (r : res unit) | Running | Watching (forwarderID : string).

Section program.
Context {O : Type} `{OperatorAPI O}.

(** [run] up to the goroutine that watches updates. *)
Definition run (e : environment) (operator : O) : exit * fproc O * ConfigClient :=
  let getenv := e_getenv e in
  let start := mkProc (NewUDPProxy proxyIdleTimeout) false operator [] in
  let level := TrimSpace (getenv "LOG_LEVEL") in
  match (if bool_decide (level <> "") then parseLogLevel level else Ok LevelInfo) with
  | Fail err => (Returned (Fail err), start, NewConfigClient)
  | Ok _ =>
      match requireEnv getenv "OPERATOR_GRPC_ADDR" with
      | None => (Exited 1, start, NewConfigClient)
      | Some _ =>
          let lbVIP := TrimSpace (getenv "LB_VIP") in
          let proxy := if bool_decide (lbVIP <> "") then SetVIP lbVIP (NewUDPProxy proxyIdleTimeout)
                       else NewUDPProxy proxyIdleTimeout in
          let forwarderID := forwarderIdentity getenv (e_hostname e) in
          let s := mkProc proxy false operator [] in
          let '(r, c) := connectAndFetchConfig (e_connect e) NewConfigClient in
          match r with
          | None => (Running, s, c)
          | Some (Fail err) =>
              if errors_Is err ErrCanceled
              then let '(r, s) := drainForwarder (e_stop e) s in (Returned r, s, Client.Close c)
              else (Returned (Fail err), s, Client.Close c)
          | Some (Ok config) =>
              let configVIP := TrimSpace (GetLbVip (Some config)) in
              let s := if bool_decide (lbVIP = "") && bool_decide (configVIP <> "")
                       then mkProc (SetVIP configVIP (f_proxy s)) (f_ready s) (f_op s) (f_sent s) else s in
              match applyMappings (e_os_refuses e) (GetTunnels (Some config)) s with
              | (Fail err, s) => (Returned (Fail err), s, Client.Close c)
              | (Ok _, s) => (Watching forwarderID, s, c)
              end
          end
      end
  end.
End program.

(** ** Properties *)

Section forwarder_properties.
Context {O : Type} `{OperatorAPI O} (os_refuses : nat -> bool) (forwarderID : string).
Implicit Types (s : fproc O).

(** The port serves the mapping's tunnel, at its revision or a newer one. *)
Definition serves (p : UDPProxy) (m : option TunnelMapping) : Prop :=
  exists r, routes p !! GetForwarderPort m = Some r /\ same_owner r (mapping_route m) = true /\
    GetRevision m <= r_revision r.

Lemma newest_serves old m :
  same_owner (newest old (mapping_route m)) (mapping_route m) = true /\
  GetRevision m <= r_revision (newest old (mapping_route m)).
Proof.
  unfold newest. destruct old as [o|]; [|rewrite same_owner_refl; simpl; split; [done|lia]].
  destruct (same_owner o (mapping_route m)) eqn:Ho; simpl; [|rewrite same_owner_refl; split; [done|lia]].
  case_bool_decide as Hr; [|rewrite same_owner_refl; simpl; split; [done|lia]]. simpl in Hr. split; [done|lia].
Qed.

(** The port already has a route of the mapping's tunnel with a higher revision. *)
Definition ahead (p : UDPProxy) (m : option TunnelMapping) : Prop :=
  exists r, routes p !! GetForwarderPort m = Some r /\ r_name r = GetTunnelName m /\
    r_namespace r = GetTunnelNamespace m /\ GetRevision m < r_revision r.

(** The mapping was applied to [p] and gave [p']: the port serves exactly this mapping
    (its tunnel, gateway and revision), unless it was ahead and has kept its route. *)
Definition in_effect (p p' : UDPProxy) (m : option TunnelMapping) : Prop :=
  (~ ahead p m -> routes p' !! GetForwarderPort m = Some (mapping_route m)) /\
  (ahead p m -> routes p' !! GetForwarderPort m = routes p !! GetForwarderPort m).

Lemma newest_in_effect p p' m :
  routes p' !! GetForwarderPort m = Some (newest (routes p !! GetForwarderPort m) (mapping_route m)) -> in_effect p p' m.
Proof.
  unfold in_effect. intros ->. unfold newest, same_owner. split.
  - intros Hno. destruct (routes p !! GetForwarderPort m) as [r|] eqn:Hr; [|done]. simpl.
    do 3 (case_bool_decide; [|done]). simpl. destruct Hno. exists r. split_and!; [done..|lia].
  - intros (r & Hr & En & Es & Hlt). rewrite Hr. simpl. by rewrite !bool_decide_true by (done || lia).
Qed.

Lemma wp_on_proxy {A} (m : ST UDPProxy A) Q s :
  (forall r p, m (f_proxy s) = (r, p) -> Q r (mkProc p (f_ready s) (f_op s) (f_sent s))) -> wp (on_proxy m) Q s.
Proof. intros HQ. unfold wp, on_proxy. destruct (m (f_proxy s)) as [r p] eqn:Hm. exact (HQ r p eq_refl). Qed.

Lemma wp_client_Ack m Q s :
  (forall r o, op_Ack (ackRequest forwarderID m) (f_op s) = (r, o) ->
     Q r (mkProc (f_proxy s) (f_ready s) o (f_sent s ++ [ackRequest forwarderID m]))) ->
  wp (client_Ack forwarderID (Some m)) Q s.
Proof. intros HQ. unfold wp, client_Ack. destruct (op_Ack _ _) as [r o] eqn:Hm. exact (HQ r o eq_refl). Qed.

Lemma ApplyMapping_newest m p p' :
  proxy_inv p -> ApplyMapping os_refuses m p = (Ok tt, p') ->
  proxy_inv p' /\ routes p' !! GetForwarderPort m = Some (newest (routes p !! GetForwarderPort m) (mapping_route m)).
Proof.
  intros Hinv Happ. destruct (valid_mapping m) eqn:Hv.
  2: { unfold ApplyMapping in Happ. by rewrite Hv in Happ. }
  pose proof (ApplyMapping_refines os_refuses m p Hinv Hv) as Href. rewrite Happ in Href. destruct Href as [Hinv' Heq].
  split; [done|].
  pose proof (table_apply_ok (refused os_refuses (GetForwarderPort m) p) (GetForwarderPort m) (mapping_route m) (routes p)) as Hok.
  rewrite <- Heq in Hok. simpl in Hok. rewrite (Hok eq_refl). by rewrite lookup_insert_eq.
Qed.

Lemma ApplyMapping_serves m p p' :
  proxy_inv p -> ApplyMapping os_refuses m p = (Ok tt, p') -> proxy_inv p' /\ serves p' m.
Proof.
  intros Hinv Happ. destruct (ApplyMapping_newest m p p' Hinv Happ) as [Hinv' Hr].
  split; [done|]. eexists. split; [exact Hr|apply newest_serves].
Qed.

(** C17: an update is acknowledged only once it is in effect.  Handling an update
    sends at most one acknowledgement, and only for its own mapping, and at that point
    the mapping's port serves the mapping's tunnel at the acknowledged revision or a
    newer one; an update that fails to apply is not acknowledged. *)
Theorem update_acknowledged_when_served u s r s' :
  proxy_inv (f_proxy s) -> handleUpdate os_refuses forwarderID u s = (r, s') ->
  f_sent s' = f_sent s \/
  exists m, GetTunnel u = Some m /\ f_sent s' = f_sent s ++ [ackRequest forwarderID m] /\ serves (f_proxy s') (Some m).
Proof.
  intros Hinv Hrun.
  enough (wp (handleUpdate os_refuses forwarderID u) (fun _ s' => f_sent s' = f_sent s \/
    exists m, GetTunnel u = Some m /\ f_sent s' = f_sent s ++ [ackRequest forwarderID m] /\ serves (f_proxy s') (Some m)) s) as Hwp.
  { unfold wp in Hwp. by rewrite Hrun in Hwp. }
  unfold handleUpdate. destruct (GetTunnel u) as [m|]; [|by apply wp_ret; left].
  case_bool_decide; [by apply wp_ret; left|].
  assert (wp (wrap_err ("apply tunnel update for port " +:+ Itoa (GetForwarderPort (Some m))) (on_proxy (ApplyMapping os_refuses (Some m))) ;;
              wrap_err ("ack tunnel update for port " +:+ Itoa (GetForwarderPort (Some m))) (client_Ack forwarderID (Some m)))
    (fun _ s' => f_sent s' = f_sent s \/ exists m', Some m = Some m' /\
       f_sent s' = f_sent s ++ [ackRequest forwarderID m'] /\ serves (f_proxy s') (Some m')) s) as Happly.
  { apply wp_bind, wp_wrap_err, wp_on_proxy. intros [[]|e] p Happ; [|by left].
    apply wp_wrap_err, wp_client_Ack. intros r' o _. destruct (ApplyMapping_serves _ _ _ Hinv Happ) as [_ Hs].
    destruct r' as [[]|e]; right; eauto. }
  destruct (GetType u); try (by apply wp_ret; left); try (case_bool_decide; [by apply wp_ret; left|exact Happly]).
  apply wp_modify. by left.
Qed.

Lemma acknowledgeable_spec mapping :
  acknowledgeable mapping = true ->
  exists m, mapping = Some m /\ 0 < GetForwarderPort mapping /\ TrimSpace (GetGatewayAddress mapping) <> "".
Proof.
  unfold acknowledgeable. rewrite negb_true_iff, !orb_false_iff, negb_false_iff.
  rewrite bool_decide_eq_true, !bool_decide_eq_false. intros [[[m ->] Hp] Ht]. exists m. split_and!; [done|lia|done].
Qed.

Lemma acknowledgeable_valid mapping : acknowledgeable mapping = true -> valid_mapping mapping = true.
Proof.
  intros (m & -> & Hp & Ht)%acknowledgeable_spec. unfold valid_mapping.
  rewrite !bool_decide_true by (try done; intros E; by rewrite E in Ht). done.
Qed.

(** Acknowledging a list touches nothing but the operator and the log. *)
Lemma ack_loop_spec ms s :
  wp (for_each (ack_snapshot_mapping forwarderID) ms) (fun r s' =>
    f_proxy s' = f_proxy s /\ f_ready s' = f_ready s /\
    exists l, f_sent s' = f_sent s ++ l /\
      Forall (fun req => exists m, Some m ∈ ms /\ acknowledgeable (Some m) = true /\ req = ackRequest forwarderID m) l /\
      (r = Ok tt -> l = omap (fun m => if acknowledgeable m then ackRequest forwarderID <$> m else None) ms)) s.
Proof.
  revert s. induction ms as [|m ms IH]; intros s; simpl.
  { apply wp_ret. split_and!; [done..|]. exists []. rewrite app_nil_r. by split_and!. }
  apply wp_bind. unfold ack_snapshot_mapping at 1. destruct (acknowledgeable m) eqn:Ha; simpl.
  2: { apply wp_ret. eapply wp_mono; [apply IH|]. intros r s' (E1 & E2 & l & Hl & Hf & Heq).
       split_and!; [done..|]. exists l. split_and!; [done| |done].
       eapply Forall_impl; [exact Hf|]. intros req (m' & ? & ? & ?). exists m'. split_and!; [set_solver|done..]. }
  destruct (acknowledgeable_spec m Ha) as (m0 & -> & _ & _). apply wp_wrap_err, wp_client_Ack. intros [[]|e] o _.
  - eapply wp_mono; [apply IH|]. intros r s' (E1 & E2 & l & Hl & Hf & Heq). simpl in *.
    split_and!; [done..|]. exists (ackRequest forwarderID m0 :: l). rewrite Hl, <- app_assoc. split_and!; [done| |].
    + constructor; [exists m0; split_and!; [set_solver|done..]|]. eapply Forall_impl; [exact Hf|].
      intros req (m' & ? & ? & ?). exists m'. split_and!; [set_solver|done..].
    + intros Hr. by rewrite Heq.
  - split_and!; [done..|]. exists [ackRequest forwarderID m0]. split_and!; [done| |done].
    constructor; [|constructor]. exists m0. split_and!; [set_solver|done..].
Qed.

(** C18: a snapshot is acknowledged only once all of it is applied.  If applying
    it fails, nothing is acknowledged; and for a snapshot with one mapping per port,
    every acknowledgement sent is for a mapping of the snapshot, and the mapping's port
    then serves exactly that mapping, its tunnel, gateway and revision, unless before the
    snapshot it had a route of the same tunnel with a higher revision: then it still has
    that route. *)
Theorem snapshot_acknowledged_when_applied c s r s' :
  proxy_inv (f_proxy s) -> NoDup (snapshot_ports (fc_Tunnels c)) ->
  applySnapshot os_refuses forwarderID c s = (r, s') ->
  exists l, f_sent s' = f_sent s ++ l /\
    Forall (fun req => exists m, Some m ∈ fc_Tunnels c /\ req = ackRequest forwarderID m /\
      in_effect (f_proxy s) (f_proxy s') (Some m)) l /\
    (is_ok (ReconcileMappings os_refuses (fc_Tunnels c) (f_proxy s)).1 = false -> l = []).
Proof.
  intros Hinv Hnd Hrun.
  enough (wp (applySnapshot os_refuses forwarderID c) (fun _ s' => exists l, f_sent s' = f_sent s ++ l /\
    Forall (fun req => exists m, Some m ∈ fc_Tunnels c /\ req = ackRequest forwarderID m /\
      in_effect (f_proxy s) (f_proxy s') (Some m)) l /\
    (is_ok (ReconcileMappings os_refuses (fc_Tunnels c) (f_proxy s)).1 = false -> l = [])) s) as Hwp.
  { unfold wp in Hwp. by rewrite Hrun in Hwp. }
  unfold applySnapshot, applyMappings. simpl. apply wp_bind, wp_on_proxy. intros r1 p Hrec. rewrite Hrec. simpl.
  destruct r1 as [[]|e]; simpl.
  2: { exists []. rewrite app_nil_r. by split_and!. }
  eapply wp_mono; [apply ack_loop_spec|]. simpl. intros r2 s2 (Hp & _ & l & Hl & Hf & _). exists l. split_and!; [done| |done].
  destruct (ReconcileMappings_ok os_refuses _ _ _ Hinv Hrec) as (_ & _ & Hat).
  eapply Forall_impl; [exact Hf|]. intros req (m & Hin & Hack & ->). exists m. split_and!; [done..|].
  rewrite Hp. apply newest_in_effect. by apply Hat; [..|apply acknowledgeable_valid].
Qed.
End forwarder_properties.

(** ** The forwarder as a routing table *)

(** What an update means for the table. *)
Definition table_update (t : gmap Z route) (u : TunnelUpdate) : gmap Z route :=
  let m := tu_Tunnel u in
  let port := GetForwarderPort m in
  if bool_decide (m = None) || bool_decide (port <= 0) then t
  else match GetType (Some u) with
       | ADDED | MODIFIED =>
           if bool_decide (TrimSpace (GetGatewayAddress m) = "") then t
           else <[port := newest (t !! port) (mapping_route m)]> t
       | DELETED => delete port t
       | SYNC | UpdateTypeOther _ => t
       end.

(** What a snapshot means: its routes, merged with newer ones of the same
    tunnels, and nothing else. *)
Definition table_config (c : ForwarderConfig) (t : gmap Z route) : gmap Z route :=
  filter (fun e => e.1 ∈ snapshot_ports (fc_Tunnels c)) (table_snapshot (fc_Tunnels c) t).

Section table.
Context {O : Type} `{OperatorAPI O} (os_refuses : nat -> bool) (forwarderID : string).
Implicit Types (s : fproc O).

(** The operating system grants every socket. *)
Definition os_healthy : Prop := forall n, os_refuses n = false.
Definition update_port_ok (u : TunnelUpdate) : Prop := GetForwarderPort (tu_Tunnel u) <= 65535.
Definition config_ports_ok (c : ForwarderConfig) : Prop :=
  Forall (fun m => GetForwarderPort m <= 65535) (fc_Tunnels c).

Lemma table_apply_granted port r t : table_apply false port r t = (Ok tt, <[port := newest (t !! port) r]> t).
Proof.
  unfold table_apply, newest. destruct (t !! port) as [old|] eqn:E; [|done].
  destruct (same_owner old r && bool_decide (r_revision old > r_revision r)); [by rewrite insert_id|].
  by rewrite andb_false_r.
Qed.

Lemma ApplyMapping_granted m p :
  os_healthy -> GetForwarderPort m <= 65535 -> proxy_inv p -> valid_mapping m = true ->
  exists p', ApplyMapping os_refuses m p = (Ok tt, p') /\ proxy_inv p' /\
    routes p' = <[GetForwarderPort m := newest (routes p !! GetForwarderPort m) (mapping_route m)]> (routes p).
Proof.
  intros Hos Hport Hinv Hv. pose proof (ApplyMapping_refines os_refuses m p Hinv Hv) as Href.
  assert (refused os_refuses (GetForwarderPort m) p = false) as Hrf.
  { unfold valid_mapping in Hv. rewrite !andb_true_iff, !bool_decide_eq_true in Hv.
    unfold refused. rewrite Hos, !bool_decide_false by lia. done. }
  rewrite Hrf, table_apply_granted in Href. destruct (ApplyMapping os_refuses m p) as [r p'].
  destruct Href as [Hinv' Heq]. injection Heq as -> Hr. exists p'. by split_and!.
Qed.

Lemma handleUpdate_table u s :
  os_healthy -> update_port_ok u -> proxy_inv (f_proxy s) ->
  wp (handleUpdate os_refuses forwarderID (Some u)) (fun _ s' =>
    proxy_inv (f_proxy s') /\ f_ready s' = f_ready s /\ routes (f_proxy s') = table_update (routes (f_proxy s)) u) s.
Proof.
  intros Hos Hport Hinv. unfold handleUpdate, table_update. change (GetTunnel (Some u)) with (tu_Tunnel u).
  unfold update_port_ok in Hport. destruct (tu_Tunnel u) as [m|] eqn:Hm; [|by apply wp_ret].
  rewrite (bool_decide_false (Some m = None)) by done. simpl.
  case_bool_decide as Hp; [by apply wp_ret|].
  assert (TrimSpace (GetGatewayAddress (Some m)) <> "" ->
    wp (wrap_err ("apply tunnel update for port " +:+ Itoa (GetForwarderPort (Some m))) (on_proxy (ApplyMapping os_refuses (Some m))) ;;
        wrap_err ("ack tunnel update for port " +:+ Itoa (GetForwarderPort (Some m))) (client_Ack forwarderID (Some m)))
    (fun _ s' => proxy_inv (f_proxy s') /\ f_ready s' = f_ready s /\ routes (f_proxy s') =
       <[GetForwarderPort (Some m) := newest (routes (f_proxy s) !! GetForwarderPort (Some m)) (mapping_route (Some m))]> (routes (f_proxy s))) s) as Happly.
  { intros Ht. destruct (ApplyMapping_granted (Some m) (f_proxy s) Hos Hport Hinv) as (p' & Happ & Hinv' & Hr).
    { unfold valid_mapping. rewrite !bool_decide_true by (try done; try lia; intros E; by rewrite E in Ht). done. }
    apply wp_bind, wp_wrap_err, wp_on_proxy. intros r p E. rewrite Happ in E. injection E as <- <-.
    apply wp_wrap_err, wp_client_Ack. by intros [[]|e] o _. }
  destruct (GetType (Some u)); try (by apply wp_ret);
    try (case_bool_decide as Ht; [by apply wp_ret|by apply Happly]).
  apply wp_modify. simpl. split_and!; [by apply RemoveMapping_inv|done|by apply RemoveMapping_routes].
Qed.

Lemma recv_loop_table us s :
  os_healthy -> Forall update_port_ok us -> proxy_inv (f_proxy s) ->
  let s' := recv_loop (onUpdate os_refuses forwarderID) us s in
  proxy_inv (f_proxy s') /\ f_ready s' = f_ready s /\ routes (f_proxy s') = foldl table_update (routes (f_proxy s)) us.
Proof.
  intros Hos Hus. revert s. induction Hus as [|u us Hu Hus IH]; intros s Hinv; simpl; [done|].
  pose proof (handleUpdate_table u s Hos Hu Hinv) as (Hinv' & Hr & Ht).
  case_bool_decide as Hsync.
  - destruct (IH s Hinv) as (? & ? & ->). split_and!; [done..|]. f_equal.
    unfold table_update. rewrite Hsync. by case_match.
  - destruct (IH (onUpdate os_refuses forwarderID u s).2 Hinv') as (? & Hr2 & ->). split_and!; [done| |].
    + rewrite Hr2. exact Hr.
    + f_equal. exact Ht.
Qed.

Lemma apply_snapshot_granted ms d p :
  os_healthy -> Forall (fun m => GetForwarderPort m <= 65535) ms -> proxy_inv p ->
  exists p', apply_snapshot os_refuses ms d p = (Ok (list_to_set (snapshot_ports ms) ∪ d), p') /\ proxy_inv p' /\
    routes p' = table_snapshot ms (routes p).
Proof.
  intros Hos Hms. revert d p. induction Hms as [|m ms Hm Hms IH]; intros d p Hinv; simpl.
  { exists p. split_and!; [|done|done]. unfold snapshot_ports. simpl. by rewrite (left_id_L ∅ (∪)). }
  rewrite snapshot_ports_cons. destruct (valid_mapping m) eqn:Hv; simpl; [|by apply IH].
  destruct (ApplyMapping_granted m p Hos Hm Hinv Hv) as (p1 & Happ & Hinv1 & Hr1).
  unfold mbind, ST_bind, wrap_err. rewrite Happ.
  destruct (IH ({[GetForwarderPort m]} ∪ d) p1 Hinv1) as (p2 & -> & Hinv2 & Hr2).
  exists p2. split_and!; [|done|by rewrite Hr2, Hr1]. simpl.
  by rewrite (assoc_L (∪)), (comm_L (∪) {[_]} (list_to_set _)).
Qed.

Lemma ReconcileMappings_table c p :
  os_healthy -> config_ports_ok c -> proxy_inv p ->
  exists p', ReconcileMappings os_refuses (fc_Tunnels c) p = (Ok tt, p') /\ proxy_inv p' /\
    routes p' = table_config c (routes p).
Proof.
  intros Hos Hc Hinv. unfold ReconcileMappings, mbind, ST_bind, table_config.
  destruct (apply_snapshot_granted (fc_Tunnels c) ∅ p Hos Hc Hinv) as (p1 & -> & Hinv1 & Hr1). simpl.
  destruct (remove_ports_refines (filter (fun port => port ∉ list_to_set (snapshot_ports (fc_Tunnels c)) ∪ (∅ : gset Z)) (Ports p1)) p1 Hinv1)
    as [Hinv2 Hr2].
  eexists. split; [done|]. split; [done|]. rewrite Hr2, <- Hr1. apply map_filter_ext. simpl. intros q r Hq.
  rewrite list_elem_of_filter, (elem_of_Ports q p1 Hinv1), Hq, elem_of_union, elem_of_list_to_set.
  assert (q ∉ (∅ : gset Z)) by apply not_elem_of_empty.
  assert (is_Some (Some r)) by done. destruct (decide (q ∈ snapshot_ports (fc_Tunnels c))); tauto.
Qed.

(** What a pass of the update stream makes of the routes. *)
Lemma watch_session_table a c s :
  os_healthy -> wa_config a = Ok c -> config_ports_ok c -> Forall update_port_ok (wa_stream a) ->
  proxy_inv (f_proxy s) ->
  let '(_, synced, s') := watch_session (onSnapshot os_refuses forwarderID) (onUpdate os_refuses forwarderID) a s in
  proxy_inv (f_proxy s') /\
  (synced = true -> f_ready s' = true /\
     routes (f_proxy s') = foldl table_update (table_config c (routes (f_proxy s))) (tail (wa_stream a))) /\
  (synced = false -> f_ready s' = f_ready s /\
     (routes (f_proxy s') = routes (f_proxy s) \/ routes (f_proxy s') = table_config c (routes (f_proxy s)))).
Proof.
  intros Hos Hcfg Hc Hus Hinv. unfold watch_session. rewrite Hcfg.
  destruct (wa_open a); [split_and!; [done|done|auto]|].
  destruct Hus as [|u us Hu Hus]; [split_and!; [done|done|auto]|]. case_bool_decide; [split_and!; [done|done|auto]|].
  destruct (ReconcileMappings_table c (f_proxy s) Hos Hc Hinv) as (p1 & Hrec & Hinv1 & Hr1).
  assert (wp (onSnapshot os_refuses forwarderID c) (fun r s1 => f_proxy s1 = p1 /\
    f_ready s1 = if is_ok r then true else f_ready s) s) as Hwp.
  { unfold onSnapshot, applySnapshot, applyMappings. simpl. apply wp_bind, wp_bind, wp_on_proxy. intros r p E.
    rewrite Hrec in E. injection E as <- <-. eapply wp_mono; [apply ack_loop_spec|]. simpl.
    intros [[]|e] s1 (Hp & Hrd & _); [|done]. apply wp_modify. done. }
  unfold wp in Hwp. destruct (onSnapshot os_refuses forwarderID c s) as [[[]|e] s1]; destruct Hwp as [Hp Hrd]; simpl in *; subst p1.
  - destruct (recv_loop_table us s1 Hos Hus Hinv1) as (Hi & Hr & Ht).
    split_and!; [done| |done]. intros _. split; [congruence|]. rewrite Ht, Hr1. done.
  - split_and!; [done|done|]. intros _. auto.
Qed.

(** C9: the forwarder implements its routing table.  As long as the operating
    system grants the sockets, a pass of the update stream that applies its snapshot
    leaves exactly the routes that the snapshot and then the stream's updates, in
    order, make of the previous routes; a pass that does not get as far as the
    snapshot leaves them alone. *)
Theorem session_refines_table a c s :
  os_healthy -> wa_config a = Ok c -> config_ports_ok c -> Forall update_port_ok (wa_stream a) ->
  proxy_inv (f_proxy s) ->
  let '(_, synced, s') := watch_session (onSnapshot os_refuses forwarderID) (onUpdate os_refuses forwarderID) a s in
  proxy_inv (f_proxy s') /\
  (synced = true -> f_ready s' = true /\
     routes (f_proxy s') = foldl table_update (table_config c (routes (f_proxy s))) (tail (wa_stream a))) /\
  (synced = false -> f_ready s' = f_ready s /\
     (routes (f_proxy s') = routes (f_proxy s) \/ routes (f_proxy s') = table_config c (routes (f_proxy s)))).
Proof. apply watch_session_table. Qed.
End table.

(** ** Readiness and shutdown *)

Section lifetime.
Context {O : Type} `{OperatorAPI O} (os_refuses : nat -> bool) (forwarderID : string).
Implicit Types (s : fproc O).

Lemma ApplyMapping_keeps_inv m p : proxy_inv p -> proxy_inv (ApplyMapping os_refuses m p).2.
Proof.
  intros Hinv. destruct (valid_mapping m) eqn:Hv.
  - pose proof (ApplyMapping_refines os_refuses m p Hinv Hv) as Href. destruct (ApplyMapping os_refuses m p). apply Href.
  - unfold ApplyMapping. by rewrite Hv.
Qed.

(** Handling an update keeps the proxy well formed and the readiness. *)
Lemma onUpdate_keeps u s :
  proxy_inv (f_proxy s) ->
  proxy_inv (f_proxy (onUpdate os_refuses forwarderID u s).2) /\ f_ready (onUpdate os_refuses forwarderID u s).2 = f_ready s.
Proof.
  intros Hinv.
  enough (wp (handleUpdate os_refuses forwarderID (Some u)) (fun _ s' => proxy_inv (f_proxy s') /\ f_ready s' = f_ready s) s) as Hwp
    by exact Hwp.
  unfold handleUpdate. destruct (GetTunnel (Some u)) as [m|]; [|by apply wp_ret]. case_bool_decide; [by apply wp_ret|].
  assert (wp (wrap_err ("apply tunnel update for port " +:+ Itoa (GetForwarderPort (Some m))) (on_proxy (ApplyMapping os_refuses (Some m))) ;;
      wrap_err ("ack tunnel update for port " +:+ Itoa (GetForwarderPort (Some m))) (client_Ack forwarderID (Some m)))
    (fun _ s' => proxy_inv (f_proxy s') /\ f_ready s' = f_ready s) s) as Happly.
  { apply wp_bind, wp_wrap_err, wp_on_proxy. intros r p E.
    pose proof (ApplyMapping_keeps_inv (Some m) _ Hinv) as Hinv'. rewrite E in Hinv'. destruct r as [[]|e]; [|done].
    apply wp_wrap_err, wp_client_Ack. by intros [[]|e] o _. }
  destruct (GetType (Some u)); try (by apply wp_ret); try (case_bool_decide; [by apply wp_ret|exact Happly]).
  apply wp_modify. split; [by apply RemoveMapping_inv|done].
Qed.

Lemma onSnapshot_keeps c s :
  proxy_inv (f_proxy s) ->
  wp (onSnapshot os_refuses forwarderID c) (fun r s' =>
    proxy_inv (f_proxy s') /\ f_ready s' = if is_ok r then true else f_ready s) s.
Proof.
  intros Hinv. unfold onSnapshot, applySnapshot, applyMappings. apply wp_bind, wp_bind, wp_on_proxy. intros r p E.
  pose proof (ReconcileMappings_inv os_refuses (GetTunnels (Some c)) _ Hinv) as Hinv'. rewrite E in Hinv'.
  destruct r as [[]|e]; [|done]. eapply wp_mono; [apply ack_loop_spec|]. simpl.
  intros [[]|e] s1 (Hp & Hr & _); [apply wp_modify|]; rewrite <- Hp in Hinv'; done.
Qed.

Lemma recv_loop_keeps us s :
  proxy_inv (f_proxy s) ->
  let s' := recv_loop (onUpdate os_refuses forwarderID) us s in proxy_inv (f_proxy s') /\ f_ready s' = f_ready s.
Proof.
  revert s. induction us as [|u us IH]; intros s Hinv; simpl; [done|]. case_bool_decide; [by apply IH|].
  destruct (onUpdate_keeps u s Hinv) as [Hi Hr]. destruct (IH _ Hi) as [? E]. rewrite E, Hr. done.
Qed.

Lemma watch_session_keeps a s :
  proxy_inv (f_proxy s) ->
  let '(_, synced, s') := watch_session (onSnapshot os_refuses forwarderID) (onUpdate os_refuses forwarderID) a s in
  proxy_inv (f_proxy s') /\ f_ready s' = synced || f_ready s.
Proof.
  intros Hinv. unfold watch_session. destruct (wa_open a); [done|]. destruct (wa_stream a) as [|u us]; [done|].
  case_bool_decide; [done|]. destruct (wa_config a) as [c|]; [|done].
  pose proof (onSnapshot_keeps c s Hinv) as [Hi Hr]. destruct (onSnapshot _ _ c s) as [[[]|e] s1]; simpl in *; [|done].
  destruct (recv_loop_keeps us s1 Hi) as [? E]. by rewrite E, Hr.
Qed.

Lemma watch_loop_keeps b script s :
  proxy_inv (f_proxy s) ->
  let run := watch_loop (onSnapshot os_refuses forwarderID) (onUpdate os_refuses forwarderID) b script s in
  proxy_inv (f_proxy (run_state run)) /\ f_ready (run_state run) = f_ready s || existsb (fun ok : bool => ok) (run_synced run).
Proof.
  revert b s. induction script as [|a script IH]; intros b s Hinv; simpl; [by rewrite orb_false_r|].
  destruct (wa_ctx a); simpl; [by rewrite orb_false_r|].
  pose proof (watch_session_keeps a s Hinv) as Hk. destruct (watch_session _ _ a s) as [[err synced] s'].
  destruct Hk as [Hi Hr]. destruct (wa_done a); simpl.
  - rewrite Hr, orb_false_r, orb_comm. done.
  - destruct (IH (next_backoff (if synced then Second else b)) s' Hi) as [? E]. split; [done|]. rewrite E, Hr.
    by rewrite (orb_comm synced), orb_assoc.
Qed.

(** The forwarder reports ready exactly when some pass of the update stream
    has applied its snapshot and acknowledged it: the initial configuration alone, a
    stream without its SYNC marker, a failed fetch or a failed acknowledgement do
    not make it ready, and losing the stream later does not make it unready. *)
Theorem ready_iff_snapshot_applied script s :
  proxy_inv (f_proxy s) -> f_ready s = false ->
  let run := WatchUpdates (onSnapshot os_refuses forwarderID) (onUpdate os_refuses forwarderID) script s in
  (handleReadyz (run_state run)).1 = (if existsb (fun ok : bool => ok) (run_synced run) then 200 else 503) /\
  proxy_inv (f_proxy (run_state run)).
Proof.
  intros Hinv Hr. destruct (watch_loop_keeps Second script s Hinv) as [Hi E]. split; [|done].
  unfold handleReadyz, WatchUpdates. rewrite E, Hr. simpl. by destruct (existsb _ _).
Qed.
End lifetime.

(** *** Connections *)

Lemma connect_open script c :
  cc_open c = ∅ ->
  let '(r, c') := connectAndFetchConfig script c in
  match r with
  | Some (Ok _) => exists n, cc_conn c' = Some n /\ cc_open c' = {[n]}
  | _ => cc_open c' = ∅
  end.
Proof.
  revert c. induction script as [|a script IH]; intros c Hc; simpl; [done|]. destruct (ca_ctx a); [done|].
  unfold Connect. destruct (ca_new a) as [e|]; simpl.
  - destruct (ca_done a); [done|by apply IH].
  - rewrite Hc, (right_id_L ∅ (∪)). destruct (ca_fetch a) as [cfg|e]; simpl; [eauto|].
    assert (cc_open (Client.Close (mkClient (Some (cc_next c)) {[cc_next c]} (S (cc_next c)))) = ∅) as Hclosed.
    { simpl. by rewrite difference_diag_L. }
    destruct (ca_done a); [done|]. by apply IH.
Qed.

(** Nothing is served: no route, and no open socket listens. *)
Definition serves_nothing (p : UDPProxy) : Prop := routes p = ∅ /\ forall h port, ~ listening (heap p) h port.

Lemma Close_serves_nothing p : proxy_inv p -> serves_nothing (Proxy.Close p).
Proof.
  intros Hinv. unfold Proxy.Close. destruct (remove_ports_refines (Ports p) p Hinv) as [Hinv' Hr].
  assert (routes (remove_ports (Ports p) p) = ∅) as Hempty.
  { rewrite Hr. apply map_eq. intros q. rewrite lookup_empty. apply map_lookup_filter_None. right. simpl.
    intros r Hq Hno. apply Hno, elem_of_Ports; [done|]. by rewrite Hq. }
  split; [done|]. intros h port Hh. destruct (pi_bound _ Hinv' h port Hh) as (ptr & pl & Hm & _).
  pose proof (proj1 (routes_None _ port Hinv')) as Hno. rewrite Hempty, Hm in Hno. discriminate Hno. apply lookup_empty.
Qed.

Section run_properties.
Context {O : Type} `{OperatorAPI O}.
Implicit Types (s : fproc O).

Lemma drain_spec stop_err s :
  proxy_inv (f_proxy s) ->
  let '(r, s') := drainForwarder stop_err s in
  f_ready s' = false /\ (stop_err = None -> r = Ok tt /\ serves_nothing (f_proxy s')).
Proof.
  intros Hinv. unfold drainForwarder, mbind, ST_bind, modify, try, on_proxy. simpl. unfold Stop.
  destruct stop_err as [e|]; simpl.
  - by destruct (errors_Is e ErrCanceled).
  - split; [done|]. intros _. split; [done|]. by apply Close_serves_nothing.
Qed.

(** Whatever the environment does, a [run] that ended before it watched updates holds no
    open connection to the operator, and if it returned nil it reports unready and, unless
    the shutdown context had expired, serves nothing; and a [run] that came to watch
    updates has one connection, a sound proxy, and reports unready. *)
Theorem run_starts (e : environment) (operator : O) :
  let '(x, s, c) := run e operator in
  match x with
  | Exited code => code = 1 /\ cc_open c = ∅
  | Returned r => cc_open c = ∅ /\ (r = Ok tt -> f_ready s = false /\ (e_stop e = None -> serves_nothing (f_proxy s)))
  | Running => True
  | Watching _ => proxy_inv (f_proxy s) /\ f_ready s = false /\ exists n, cc_conn c = Some n /\ cc_open c = {[n]}
  end.
Proof.
  unfold run. set (lvl := if bool_decide (TrimSpace (e_getenv e "LOG_LEVEL") <> "") then _ else _).
  destruct lvl as [l|err]; [|done]. destruct (requireEnv _ _) as [addr|]; [|done].
  set (vip := TrimSpace (e_getenv e "LB_VIP")). set (proxy := if bool_decide (vip <> "") then _ else _).
  assert (proxy_inv proxy) as Hinv.
  { unfold proxy. case_bool_decide; [|apply NewUDPProxy_inv]. destruct (NewUDPProxy_inv proxyIdleTimeout). by split. }
  pose proof (connect_open (e_connect e) NewConfigClient eq_refl) as Hc.
  destruct (connectAndFetchConfig (e_connect e) NewConfigClient) as [[[cfg|err]|] c]; [| |done].
  2: { assert (cc_open (Client.Close c) = ∅) as Hclosed.
       { unfold Client.Close. destruct (cc_conn c); simpl; [|done]. rewrite Hc. apply subseteq_empty_difference_L, empty_subseteq. }
       destruct (errors_Is err ErrCanceled); [|done].
       pose proof (drain_spec (e_stop e) (mkProc proxy false operator []) Hinv) as Hd.
       destruct (drainForwarder _ _) as [r s]. destruct Hd as [Hrd Hs]. split; [done|]. intros _. split; [done|].
       intros Hstop. by apply Hs. }
  set (s0 := if bool_decide (vip = "") && _ then _ else _). assert (proxy_inv (f_proxy s0) /\ f_ready s0 = false) as [Hinv0 Hr0].
  { unfold s0. destruct (_ && _); [|done]. simpl. split; [|done]. destruct Hinv. by split. }
  unfold applyMappings, on_proxy. pose proof (ReconcileMappings_inv (e_os_refuses e) (GetTunnels (Some cfg)) _ Hinv0) as Hinv1.
  destruct (ReconcileMappings _ _ (f_proxy s0)) as [[[]|err] p1]; [by split_and!|]. split; [|done].
  destruct Hc as (n & Hn & Ho). unfold Client.Close. rewrite Hn. simpl. by rewrite Ho, difference_diag_L.
Qed.
End run_properties.

(** ** Corners and witnesses *)

(** A deletion removes whatever the port serves.  A DELETED update is obeyed by
    port alone: the tunnel it names and its revision are not compared with the route,
    unlike those of an ADDED or MODIFIED update, so a late deletion of a previous
    owner of the port takes down the tunnel that has it now. *)
Theorem deletion_ignores_owner {O : Type} `{OperatorAPI O} os_refuses fid u (s : fproc O) :
  proxy_inv (f_proxy s) -> GetType (Some u) = DELETED -> is_Some (tu_Tunnel u) ->
  0 < GetForwarderPort (tu_Tunnel u) ->
  exists s', handleUpdate os_refuses fid (Some u) s = (Ok tt, s') /\
    routes (f_proxy s') = delete (GetForwarderPort (tu_Tunnel u)) (routes (f_proxy s)).
Proof.
  intros Hinv Hty [m Hm] Hp. unfold handleUpdate. change (GetTunnel (Some u)) with (tu_Tunnel u).
  rewrite Hm in *. rewrite bool_decide_false by lia. rewrite Hty. eexists. split; [done|]. simpl. by apply RemoveMapping_routes.
Qed.

Definition demo_operator : ForwarderServer :=
  srv (open_stream 0 (Some (mkStreamUpdatesRequest (Some "fwd-1"))) sys_init).
(** Port 51820 serves tunnel "a" at revision 2. *)
Definition demo_proc : fproc ForwarderServer := mkProc demo_proxy false demo_operator [].

Lemma deletion_ignores_owner_witness :
  let u := mkTunnelUpdate (Some DELETED) (demo_mapping "z" "" 51820 0) in
  (r_name <$> routes (f_proxy demo_proc) !! 51820) = Some "a" /\
  exists s', handleUpdate os_ok "fwd-1" (Some u) demo_proc = (Ok tt, s') /\ routes (f_proxy s') = delete 51820 (routes (f_proxy demo_proc)).
Proof.
  split; [vm_compute; reflexivity|].
  apply (deletion_ignores_owner os_ok "fwd-1" (mkTunnelUpdate (Some DELETED) (demo_mapping "z" "" 51820 0)) demo_proc);
    [exact demo_proxy_inv|reflexivity|eexists; reflexivity|reflexivity].
Defined.

Definition demo_update3 : option TunnelUpdate := Some (mkTunnelUpdate (Some MODIFIED) (demo_mapping "a" "10.0.0.7:51820" 51820 3)).

Lemma update_acknowledged_when_served_witness :
  f_sent (handleUpdate os_ok "fwd-1" demo_update3 demo_proc).2 =
    [mkAckRequest (Some "fwd-1") (Some "a") (Some "team") (Some 3)] /\
  exists m, GetTunnel demo_update3 = Some m /\ serves (f_proxy (handleUpdate os_ok "fwd-1" demo_update3 demo_proc).2) (Some m).
Proof.
  assert (f_sent (handleUpdate os_ok "fwd-1" demo_update3 demo_proc).2 =
    [mkAckRequest (Some "fwd-1") (Some "a") (Some "team") (Some 3)]) as Hs by (vm_compute; reflexivity).
  split; [exact Hs|].
  destruct (update_acknowledged_when_served os_ok "fwd-1" demo_update3 demo_proc
    (handleUpdate os_ok "fwd-1" demo_update3 demo_proc).1 (handleUpdate os_ok "fwd-1" demo_update3 demo_proc).2
    demo_proxy_inv (surjective_pairing _)) as [E|(m & Hm & _ & Hserve)]; [rewrite Hs in E; discriminate E|].
  exact (ex_intro _ m (conj Hm Hserve)).
Defined.

Definition demo_config : ForwarderConfig :=
  mkForwarderConfig None [demo_mapping "a" "10.0.0.9:51820" 51820 4; None; demo_mapping "b" "10.0.0.8:51820" 51821 1].

Lemma snapshot_acknowledged_when_applied_witness :
  length (f_sent (applySnapshot os_ok "fwd-1" demo_config demo_proc).2) = 2%nat /\
  exists l, f_sent (applySnapshot os_ok "fwd-1" demo_config demo_proc).2 = [] ++ l /\
    Forall (fun req => exists m, Some m ∈ fc_Tunnels demo_config /\ req = ackRequest "fwd-1" m /\
      in_effect (f_proxy demo_proc) (f_proxy (applySnapshot os_ok "fwd-1" demo_config demo_proc).2) (Some m)) l.
Proof.
  split; [vm_compute; reflexivity|].
  destruct (snapshot_acknowledged_when_applied os_ok "fwd-1" demo_config demo_proc
    (applySnapshot os_ok "fwd-1" demo_config demo_proc).1 (applySnapshot os_ok "fwd-1" demo_config demo_proc).2
    demo_proxy_inv ltac:(vm_compute; repeat constructor; set_solver) (surjective_pairing _)) as (l & H1 & H2 & _).
  exact (ex_intro _ l (conj H1 H2)).
Defined.

Definition demo_attempt : watch_attempt :=
  mkAttempt None None [sync_update; mkTunnelUpdate (Some DELETED) (demo_mapping "b" "" 51821 0)] ErrNetClosed (Ok demo_config) None.

Lemma session_refines_table_witness :
  let run := watch_session (onSnapshot os_ok "fwd-1") (onUpdate os_ok "fwd-1") demo_attempt demo_proc in
  run.1.2 = true /\ f_ready run.2 = true /\
  routes (f_proxy run.2) = foldl table_update (table_config demo_config (routes demo_proxy)) (tail (wa_stream demo_attempt)).
Proof.
  cbv zeta.
  assert ((watch_session (onSnapshot os_ok "fwd-1") (onUpdate os_ok "fwd-1") demo_attempt demo_proc).1.2 = true) as Hs
    by (vm_compute; reflexivity).
  split; [exact Hs|].
  pose proof (session_refines_table os_ok "fwd-1" demo_attempt demo_config demo_proc) as Hr.
  destruct (watch_session (onSnapshot os_ok "fwd-1") (onUpdate os_ok "fwd-1") demo_attempt demo_proc) as [[err synced] s'].
  apply Hr; [intros n; reflexivity|reflexivity|repeat constructor; vm_compute; discriminate|repeat constructor; vm_compute; discriminate|
             exact demo_proxy_inv|exact Hs].
Defined.

Lemma ready_iff_snapshot_applied_witness :
  (handleReadyz (run_state (WatchUpdates (onSnapshot os_ok "fwd-1") (onUpdate os_ok "fwd-1") [demo_attempt] demo_proc))).1 = 200.
Proof.
  destruct (ready_iff_snapshot_applied os_ok "fwd-1" [demo_attempt] demo_proc demo_proxy_inv eq_refl) as [Hr _].
  rewrite Hr. vm_compute. reflexivity.
Defined.

(** The tunnel was deleted and recreated while the forwarder was disconnected:
    the snapshot has it under its old name and port, with a new gateway and the
    revisions counted from the start. *)
Definition recreated_config : ForwarderConfig := mkForwarderConfig None [demo_mapping "a" "10.0.0.99:51820" 51820 1].

(** A recreated tunnel may keep its old gateway.  A forwarder that missed the
    deletion has the old route at a higher revision, so the snapshot of the recreated
    tunnel is taken for an outdated one: the port goes on forwarding to the old
    gateway, and the new mapping is acknowledged nevertheless. *)
Theorem recreated_tunnel_keeps_old_gateway :
  let run := applySnapshot os_ok "fwd-1" recreated_config demo_proc in
  run.1 = Ok tt /\
  (r_gateway <$> routes (f_proxy run.2) !! 51820) = Some "10.0.0.1:51820" /\
  f_sent run.2 = [mkAckRequest (Some "fwd-1") (Some "a") (Some "team") (Some 1)].
Proof. vm_compute. by split_and!. Qed.
