(* ===== verification/Health.v ===== *)
(** * The health server (pkg/forwarder/health.go)

    [NewHealthServer] builds an http.Server with two routes; [Start] serves until its
    context is cancelled and then shuts the server down, waiting at most five seconds
    for requests that still run.  net/http is modelled as far as Start uses it: the
    server's shutting-down flag, its listener and the connections it serves.  The main
    goroutine of Start, the goroutine that waits for the context, the arriving and
    ending connections and the passing of time interleave in [health_step]. *)

From S2P Require Import Prelude GoStd Forwarder.

(** ** Construction and routing *)

Inductive route_handler := HealthzHandler | ReadyzHandler.

Record http_server := mkHttpServer {
  srv_Addr : string;
  srv_mux : list (string * route_handler);
  srv_ReadHeaderTimeout : Z;
}.

Definition NewHealthServer (addr : string) : http_server :=
  mkHttpServer addr [("/healthz", HealthzHandler); ("/readyz", ReadyzHandler)] (5 * Second).

(** The ServeMux: patterns without a trailing slash match their path only. *)
Fixpoint mux_lookup (mux : list (string * route_handler)) (path : string) : option route_handler :=
  match mux with
  | [] => None
  | (pattern, h) :: mux => if bool_decide (pattern = path) then Some h else mux_lookup mux path
  end.

Definition ServeHTTP {O} (h : http_server) (path : string) (s : fproc O) : Z * string :=
  match mux_lookup (srv_mux h) path with
  | Some HealthzHandler => handleHealthz s
  | Some ReadyzHandler => handleReadyz s
  | None => (404, "404 page not found" +:+ newline)
  end.

(** ** Start *)

(** Where the main goroutine is: before ListenAndServe has the socket, inside it, at
    [<-shutdownDone], or back from Start. *)
Inductive main_pc := Listening | Serving | WaitingShutdown | StartReturned.

(** Where the other goroutine is: at [<-ctx.Done()], inside Shutdown with so many
    seconds left, or past [close(shutdownDone)]. *)
Inductive shutdown_pc := WaitingCancel | ShuttingDown (left : nat) | ShutdownDone.

#[export] Instance main_pc_eq_dec : EqDecision main_pc.
Proof. solve_decision. Defined.
#[export] Instance shutdown_pc_eq_dec : EqDecision shutdown_pc.
Proof. solve_decision. Defined.

Record health := mkHealth {
  cancelled : bool;
  inShutdown : bool;
  conns : nat;
  hmain : main_pc;
  hshut : shutdown_pc;
  hlog : list string;
}.

Definition health_init : health := mkHealth false false 0 Listening WaitingCancel [].

(** [context.WithTimeout(context.Background(), 5*time.Second)] *)
Definition shutdownTimeout : nat := 5.

Definition set_main (m : main_pc) (logs : list string) (h : health) : health :=
  mkHealth (cancelled h) (inShutdown h) (conns h) m (hshut h) (hlog h ++ logs).
Definition set_shut (b : bool) (s : shutdown_pc) (logs : list string) (h : health) : health :=
  mkHealth (cancelled h) b (conns h) (hmain h) s (hlog h ++ logs).
Definition set_conns (n : nat) (h : health) : health :=
  mkHealth (cancelled h) (inShutdown h) n (hmain h) (hshut h) (hlog h).
Definition cancel (h : health) : health :=
  mkHealth true (inShutdown h) (conns h) (hmain h) (hshut h) (hlog h).

Definition listenFailed : string := "health server failed".
Definition shutdownFailed : string := "health server shutdown failed".

(** ErrServerClosed, which ListenAndServe returns exactly when the server is shutting
    down, is not logged; any other error is. *)
Inductive health_step (h : health) : health -> Prop :=
| hs_cancel : cancelled h = false -> health_step h (cancel h)
| hs_listen : hmain h = Listening -> inShutdown h = false -> health_step h (set_main Serving [] h)
| hs_listen_fails : hmain h = Listening -> inShutdown h = false -> health_step h (set_main WaitingShutdown [listenFailed] h)
| hs_accept : hmain h = Serving -> inShutdown h = false -> health_step h (set_conns (S (conns h)) h)
| hs_serve_fails : hmain h = Serving -> inShutdown h = false -> health_step h (set_main WaitingShutdown [listenFailed] h)
| hs_closed : hmain h = Listening \/ hmain h = Serving -> inShutdown h = true -> health_step h (set_main WaitingShutdown [] h)
| hs_request_done n : conns h = S n -> health_step h (set_conns n h)
| hs_shutdown : hshut h = WaitingCancel -> cancelled h = true ->
    health_step h (set_shut true (ShuttingDown shutdownTimeout) [] h)
| hs_second n : hshut h = ShuttingDown (S n) -> health_step h (set_shut (inShutdown h) (ShuttingDown n) [] h)
| hs_drained n : hshut h = ShuttingDown n -> conns h = O -> health_step h (set_shut (inShutdown h) ShutdownDone [] h)
| hs_expired : hshut h = ShuttingDown 0 -> health_step h (set_shut (inShutdown h) ShutdownDone [shutdownFailed] h)
| hs_return : hmain h = WaitingShutdown -> hshut h = ShutdownDone -> health_step h (set_main StartReturned [] h).

Definition health_reachable (h : health) : Prop := rtc health_step health_init h.

(** ** Start stops when told to *)

Record health_inv (h : health) : Prop := {
  hi_shutdown : inShutdown h = true <-> hshut h <> WaitingCancel;
  hi_cancelled : inShutdown h = true -> cancelled h = true;
  hi_returned : hmain h = StartReturned -> hshut h = ShutdownDone;
  hi_left : match hshut h with ShuttingDown n => (n <= shutdownTimeout)%nat | _ => True end;
}.

Lemma health_step_inv h h' : health_step h h' -> health_inv h -> health_inv h'.
Proof.
  intros Hstep [Hs Hc Hr Hl].
  destruct Hstep as [E|E F|E F|E F|E F|E F|n E|E F|n E|n E F|E|E F]; split; simpl; auto; try done;
    try (rewrite E in *; simpl in *; first [lia|tauto|intuition congruence]).
Qed.

Lemma health_reachable_inv h : health_reachable h -> health_inv h.
Proof.
  revert h. apply (rtc_ind_r health_inv); [by split|]. intros x y _ Hstep Hx. by eapply health_step_inv.
Qed.

Definition main_weight (m : main_pc) : nat :=
  match m with Listening => 3 | Serving => 2 | WaitingShutdown => 1 | StartReturned => 0 end.
Definition shut_weight (s : shutdown_pc) : nat :=
  match s with WaitingCancel => shutdownTimeout + 2 | ShuttingDown n => n + 1 | ShutdownDone => 0 end.
(** Steps left once Shutdown has been called. *)
Definition health_measure (h : health) : nat := main_weight (hmain h) + shut_weight (hshut h) + conns h.

Lemma health_step_decreases h h' :
  health_inv h -> inShutdown h = true -> health_step h h' ->
  (health_measure h' < health_measure h)%nat /\ inShutdown h' = true.
Proof.
  intros [Hs Hc _ _] Hin Hstep. unfold health_measure.
  destruct Hstep as [E|E F|E F|E F|E F|E F|n E|E F|n E|n E F|E|E F]; simpl; rewrite ?E; simpl; try (split; [lia|done]); try congruence.
  - rewrite Hc in E; done.
  - destruct E as [-> | ->]; (split; [simpl; lia|done]).
Qed.

Lemma health_progress h :
  health_inv h -> inShutdown h = true -> hmain h = StartReturned \/ exists h', health_step h h'.
Proof.
  intros [Hs _ _ _] Hin. apply Hs in Hin as Hne. destruct (hmain h) eqn:Em; [| | |by left]; right.
  - eexists. apply hs_closed; [by left|done].
  - eexists. apply hs_closed; [by right|done].
  - destruct (hshut h) as [|n|] eqn:Eh; [done| |eexists; by apply hs_return].
    destruct n as [|n]; [eexists; by apply hs_expired|eexists; by eapply hs_second].
Qed.

(** C30: the health server stops when its context is cancelled, and only then.  In
    every reachable state: Start has not returned unless the context was cancelled and
    Shutdown is over; when the context is cancelled the goroutine that shuts the server
    down has done so or can; and once it has, every execution has at most
    [health_measure] steps, a bound in the requests still running and the five seconds
    of the timeout, with Start either back or able to go on in every state of it. *)
Theorem health_server_stops h :
  health_reachable h ->
  (hmain h = StartReturned -> cancelled h = true /\ hshut h = ShutdownDone) /\
  (cancelled h = true -> inShutdown h = true \/
     health_step h (set_shut true (ShuttingDown shutdownTimeout) [] h)) /\
  (inShutdown h = true -> forall n h', nsteps health_step n h h' ->
     (n + health_measure h' <= health_measure h)%nat /\ (hmain h' = StartReturned \/ exists h'', health_step h' h'')).
Proof.
  intros Hinv%health_reachable_inv. split_and!.
  - intros Hret. assert (hshut h = ShutdownDone) as Hd by (by apply (hi_returned _ Hinv)). split; [|done].
    apply (hi_cancelled _ Hinv), (hi_shutdown _ Hinv). by rewrite Hd.
  - intros Hc. destruct (decide (hshut h = WaitingCancel)); [right; by apply hs_shutdown|].
    left. by apply (hi_shutdown _ Hinv).
  - intros Hin n h' Hsteps. revert Hinv Hin. induction Hsteps as [h|n x y z Hstep _ IH]; intros Hinv Hin.
    + split; [lia|]. by apply health_progress.
    + destruct (health_step_decreases _ _ Hinv Hin Hstep) as [Hlt Hin'].
      destruct (IH (health_step_inv _ _ Hstep Hinv) Hin') as [Hle Hp]. split; [lia|done].
Qed.

(** A server that could not get its socket stays, without serving anything, until the
    process is told to stop: Start does not return, and nothing but the log tells. *)
Lemma failed_listen_waits :
  exists h, health_reachable h /\ hlog h = [listenFailed] /\ conns h = O /\
    forall h', health_step h h' -> h' = cancel h.
Proof.
  exists (set_main WaitingShutdown [listenFailed] health_init). split_and!; [|done..|].
  - apply rtc_once. by apply hs_listen_fails.
  - intros h' Hstep. inversion Hstep; simpl in *; try discriminate; try done.
Qed.

(** *** Witness *)

Definition hx_serving : health := set_main Serving [] health_init.
Definition hx_busy : health := set_conns 1 hx_serving.
Definition hx_cancelled : health := cancel hx_busy.
Definition hx_stopping : health := set_shut true (ShuttingDown shutdownTimeout) [] hx_cancelled.

Lemma hx_reachable : health_reachable hx_stopping.
Proof.
  apply rtc_l with hx_serving; [by apply hs_listen|].
  apply rtc_l with hx_busy; [by apply hs_accept|].
  apply rtc_l with hx_cancelled; [by apply hs_cancel|].
  apply rtc_l with hx_stopping; [by apply hs_shutdown|]. reflexivity.
Qed.

Definition hx_drained : health := set_conns 0 hx_stopping.

Lemma health_server_stops_witness :
  (1 + health_measure hx_drained <= health_measure hx_stopping)%nat /\
  (hmain hx_drained = StartReturned \/ exists h, health_step hx_drained h).
Proof.
  destruct (health_server_stops hx_stopping hx_reachable) as (_ & _ & Hstop).
  apply (Hstop eq_refl 1%nat hx_drained). apply (nsteps_l _ 0 _ hx_drained); [by apply hs_request_done|constructor].
Defined.
