(* ===== verification/Drain.v ===== *)
(** * Watching and shutting down (cmd/forwarder/main.go, the end of run)

    From the [select] at the end of [run] on there are two goroutines: one watches the
    update stream, the other waits for the context to be cancelled or for the first to
    return, and drains.  On a signal it drains at once, without waiting for the watching
    goroutine, which may be inside a callback.  Here a callback is the list of its
    actions, each one critical section or one call, and the main goroutine interleaves
    with them ([shutdown_step]).  That the lists are right is [snapshot_actions_run] and
    [update_actions_run]: run without interruption they are the callbacks of the file
    Forwarder. *)

From S2P Require Import Prelude GoStd Proto Server Session Proxy Client Forwarder.

Section drain.
Context {O : Type} `{OperatorAPI O} (os_refuses : nat -> bool) (forwarderID : string).
Abbreviation action := (ST (fproc O) unit).

(** A callback stops at its first error. *)
Fixpoint run_actions (l : list action) : action :=
  match l with
  | [] => mret tt
  | a :: l => a ;; run_actions l
  end.

(** The ports a snapshot wants. *)
Definition desired_ports (ms : list (option TunnelMapping)) : gset Z :=
  list_to_set (GetForwarderPort <$> filter (fun m => valid_mapping m = true) ms).

Definition apply_action (m : option TunnelMapping) : action :=
  on_proxy (wrap_err ("apply mapping for port " +:+ Itoa (GetForwarderPort m)) (ApplyMapping os_refuses m)).

(** The callback for a snapshot: apply each mapping, remove the other ports, acknowledge
    each mapping, report ready. *)
Definition snapshot_actions (snapshot : ForwarderConfig) : list action :=
  let ms := GetTunnels (Some snapshot) in
  (apply_action <$> filter (fun m => valid_mapping m = true) ms) ++
  on_proxy (modify (fun p => remove_ports (filter (fun port => port ∉ desired_ports ms) (Ports p)) p)) ::
  (ack_snapshot_mapping forwarderID <$> ms) ++ [modify (SetReady true)].

(** The callback for an update: apply and acknowledge, or remove. *)
Definition update_actions (u : TunnelUpdate) : list action :=
  match GetTunnel (Some u) with
  | None => []
  | Some m =>
      let port := GetForwarderPort (Some m) in
      if bool_decide (port <= 0) then []
      else match GetType (Some u) with
           | ADDED | MODIFIED =>
               if bool_decide (TrimSpace (GetGatewayAddress (Some m)) = "") then []
               else [wrap_err ("apply tunnel update for port " +:+ Itoa port) (on_proxy (ApplyMapping os_refuses (Some m)));
                     wrap_err ("ack tunnel update for port " +:+ Itoa port) (client_Ack forwarderID (Some m))]
           | DELETED => [modify (fun s => mkProc (RemoveMapping port (f_proxy s)) (f_ready s) (f_op s) (f_sent s))]
           | SYNC | UpdateTypeOther _ => []
           end
  end.

(** ** The actions are the callbacks *)

Lemma bind_ret_tt (m : action) s : (m ;; mret tt) s = m s.
Proof. unfold mbind, ST_bind. by destruct (m s) as [[[]|e] s']. Qed.

Lemma run_actions_app l l' s : run_actions (l ++ l') s = (run_actions l ;; run_actions l') s.
Proof.
  revert s. induction l as [|a l IH]; intros s; simpl; [done|]. unfold mbind, ST_bind.
  destruct (a s) as [[[]|e] s']; [|done]. rewrite IH. done.
Qed.

Lemma run_actions_for_each {A} (f : A -> action) l s : run_actions (f <$> l) s = for_each f l s.
Proof.
  revert s. induction l as [|x l IH]; intros s; simpl; [done|]. unfold mbind, ST_bind.
  destruct (f x s) as [[[]|e] s']; [|done]. apply IH.
Qed.

Lemma apply_snapshot_actions ms desired s :
  on_proxy (apply_snapshot os_refuses ms desired) s =
  (run_actions (apply_action <$> filter (fun m => valid_mapping m = true) ms) ;; mret (desired_ports ms ∪ desired)) s.
Proof.
  revert desired s. induction ms as [|m ms IH]; intros desired s; simpl.
  { unfold on_proxy, mbind, ST_bind, mret, ST_ret. destruct s. simpl. unfold desired_ports. simpl. do 2 f_equal. set_solver. }
  unfold desired_ports. rewrite !filter_cons. destruct (valid_mapping m) eqn:Hv; simpl.
  2: { apply IH. }
  cbn [fmap list_fmap run_actions list_to_set]. unfold mbind, ST_bind.
  unfold apply_action at 1. unfold on_proxy, wrap_err.
  destruct (ApplyMapping os_refuses m (f_proxy s)) as [[[]|e] p]; [|done]. simpl.
  specialize (IH ({[GetForwarderPort m]} ∪ desired) (mkProc p (f_ready s) (f_op s) (f_sent s))).
  unfold on_proxy, mbind, ST_bind in IH. simpl in IH. rewrite IH.
  destruct (run_actions _ _) as [[[]|e] s']; [|done]. unfold mret, ST_ret, desired_ports. do 2 f_equal. set_solver.
Qed.

Lemma snapshot_actions_run snapshot s :
  run_actions (snapshot_actions snapshot) s = onSnapshot os_refuses forwarderID snapshot s.
Proof.
  unfold snapshot_actions, onSnapshot, applySnapshot, applyMappings, ReconcileMappings. cbv zeta.
  set (ms := GetTunnels (Some snapshot)). rewrite run_actions_app.
  pose proof (apply_snapshot_actions ms ∅ s) as Hap. revert Hap. unfold mbind, ST_bind, on_proxy at 1 3, mret, ST_ret.
  destruct (apply_snapshot os_refuses ms ∅ (f_proxy s)) as [[d|e] p]; destruct (run_actions _ s) as [[[]|e'] s'];
    intros Heq; simplify_eq; [|done].
  rewrite (right_id_L ∅ (∪)). cbn [run_actions]. unfold mbind, ST_bind, on_proxy, modify at 1 3. simpl.
  rewrite run_actions_app. unfold mbind, ST_bind. rewrite run_actions_for_each.
  destruct (for_each _ ms _) as [[[]|e] s']; [|done]. apply bind_ret_tt.
Qed.

Lemma update_actions_run u s : run_actions (update_actions u) s = onUpdate os_refuses forwarderID u s.
Proof.
  unfold update_actions, onUpdate, handleUpdate. destruct (GetTunnel (Some u)) as [m|]; [|done]. cbv zeta.
  case_bool_decide; [done|]. destruct (GetType (Some u)); try done; try (case_bool_decide; [done|]); cbn [run_actions];
    try apply bind_ret_tt; unfold mbind, ST_bind; destruct (wrap_err _ (on_proxy _) s) as [[[]|e] s']; [|done| |done];
    apply bind_ret_tt.
Qed.

(** ** The shutdown *)

(** The main goroutine: in its [select], past [SetReady(false)], or back from [run]. *)
Inductive stage := Selecting | Draining | Ended (r : res unit).

Record shutdown := mkShutdown {
  sd_proc : fproc O;
  (** what is left of the callback that runs *)
  sd_todo : list action;
  (** [ctx.Err()] *)
  sd_ctx : option error;
  (** what [WatchUpdates] returned *)
  sd_watch : option error;
  sd_main : stage;
  sd_client : ConfigClient;
}.

Definition watching (s : fproc O) (c : ConfigClient) : shutdown := mkShutdown s [] None None Selecting c.

Definition callback (l : list action) : Prop :=
  (exists snapshot, l = snapshot_actions snapshot) \/ (exists u, l = update_actions u).

(** [shutdownCtx] has 30 seconds; nothing else ends it. *)
Definition errDeadlineExceeded : error := ErrNew "context deadline exceeded".

(** The result [drainForwarder] returns. *)
Definition drain_result (r : res unit) : res unit :=
  match r with
  | Ok _ => Ok tt
  | Fail e => if errors_Is e ErrCanceled then Ok tt else Fail (ErrWrap "stop UDP proxy" e)
  end.

Inductive shutdown_step (x : shutdown) : shutdown -> Prop :=
(** [WatchUpdates] calls back; a message that has arrived may still be delivered after
    the context is cancelled *)
| sd_callback l : sd_watch x = None -> sd_todo x = [] -> callback l ->
    shutdown_step x (mkShutdown (sd_proc x) l (sd_ctx x) (sd_watch x) (sd_main x) (sd_client x))
| sd_action a l r s : sd_todo x = a :: l -> a (sd_proc x) = (r, s) ->
    shutdown_step x (mkShutdown s (if is_ok r then l else []) (sd_ctx x) (sd_watch x) (sd_main x) (sd_client x))
(** it returns nothing but [ctx.Err()] *)
| sd_return e : sd_watch x = None -> sd_todo x = [] -> sd_ctx x = Some e ->
    shutdown_step x (mkShutdown (sd_proc x) (sd_todo x) (sd_ctx x) (Some e) (sd_main x) (sd_client x))
| sd_cancel e : sd_ctx x = None ->
    shutdown_step x (mkShutdown (sd_proc x) (sd_todo x) (Some e) (sd_watch x) (sd_main x) (sd_client x))
(** case <-ctx.Done() *)
| sd_done : sd_main x = Selecting -> is_Some (sd_ctx x) ->
    shutdown_step x (mkShutdown (SetReady false (sd_proc x)) (sd_todo x) (sd_ctx x) (sd_watch x) Draining (sd_client x))
(** case err := <-watchErrCh *)
| sd_watched e : sd_main x = Selecting -> sd_watch x = Some e -> errors_Is e ErrCanceled = true ->
    shutdown_step x (mkShutdown (SetReady false (sd_proc x)) (sd_todo x) (sd_ctx x) (sd_watch x) Draining (sd_client x))
| sd_watch_failed e : sd_main x = Selecting -> sd_watch x = Some e -> errors_Is e ErrCanceled = false ->
    shutdown_step x (mkShutdown (sd_proc x) (sd_todo x) (sd_ctx x) (sd_watch x)
      (Ended (Fail (ErrWrap "watch updates" e))) (Client.Close (sd_client x)))
(** the rest of [drainForwarder], and the deferred [Close] of the client *)
| sd_stop (expired : bool) r s : sd_main x = Draining ->
    on_proxy (Stop (if expired then Some errDeadlineExceeded else None)) (sd_proc x) = (r, s) ->
    shutdown_step x (mkShutdown s (sd_todo x) (sd_ctx x) (sd_watch x) (Ended (drain_result r)) (Client.Close (sd_client x))).

(** Without an overlapping callback the two steps of a drain are [drainForwarder]. *)
Lemma drain_steps_run (expired : bool) (s : fproc O) r s' :
  on_proxy (Stop (if expired then Some errDeadlineExceeded else None)) (SetReady false s) = (r, s') ->
  drainForwarder (if expired then Some errDeadlineExceeded else None) s = (drain_result r, s').
Proof. destruct expired; unfold on_proxy; simpl; by intros [= <- <-]. Qed.

(** *** What always holds *)

Definition keeps_inv (a : action) : Prop :=
  forall s r s', proxy_inv (f_proxy s) -> a s = (r, s') -> proxy_inv (f_proxy s').

Lemma on_proxy_keeps (m : ST UDPProxy unit) :
  (forall p r p', proxy_inv p -> m p = (r, p') -> proxy_inv p') -> keeps_inv (on_proxy m).
Proof.
  intros Hm s r s' Hinv. unfold on_proxy. destruct (m (f_proxy s)) as [r' p'] eqn:E. intros [= _ <-].
  simpl. by eapply Hm.
Qed.

Lemma wrap_err_keeps msg a : keeps_inv a -> keeps_inv (wrap_err msg a).
Proof.
  intros Ha s r s' Hinv. unfold wrap_err. destruct (a s) as [[[]|e] s1] eqn:E; intros [= _ <-]; by eapply Ha.
Qed.

Lemma ApplyMapping_keeps m p r p' : proxy_inv p -> ApplyMapping os_refuses m p = (r, p') -> proxy_inv p'.
Proof.
  intros Hinv E. change p' with (r, p').2. rewrite <- E. by apply ApplyMapping_keeps_inv.
Qed.

Lemma ack_keeps m : keeps_inv (client_Ack forwarderID m).
Proof.
  intros s r s' Hinv. unfold client_Ack. destruct m as [m|]; [|by intros [= _ <-]].
  destruct (op_Ack _ _) as [r' o]. by intros [= _ <-].
Qed.

Lemma callback_keeps l : callback l -> Forall keeps_inv l.
Proof.
  intros [[c ->]|[u ->]].
  - unfold snapshot_actions. apply Forall_app. split; [|apply Forall_cons; split;
      [|apply Forall_app; split; [|apply Forall_singleton]]].
    + apply Forall_fmap, Forall_forall. intros m _. apply on_proxy_keeps. intros p r p' Hinv.
      unfold wrap_err. destruct (ApplyMapping os_refuses m p) as [[[]|e] p1] eqn:E; intros [= _ <-]; by eapply ApplyMapping_keeps.
    + apply on_proxy_keeps. intros p r p' Hinv [= _ <-]. by apply remove_ports_refines.
    + apply Forall_fmap, Forall_forall. intros m _. simpl. unfold ack_snapshot_mapping.
      destruct (negb _); [by intros s r s' Hinv [= _ <-]|]. apply wrap_err_keeps, ack_keeps.
    + by intros s r s' Hinv [= _ <-].
  - unfold update_actions. destruct (GetTunnel _) as [m|]; [|done]. cbv zeta. case_bool_decide; [done|].
    destruct (GetType _); try done; try (case_bool_decide; [done|]);
      repeat (apply Forall_cons; split); try done;
      try (apply wrap_err_keeps, ack_keeps);
      try (apply wrap_err_keeps, on_proxy_keeps; intros p r p' Hinv E; by eapply ApplyMapping_keeps).
    intros s r s' Hinv [= _ <-]. by apply RemoveMapping_inv.
Qed.

(** The connection is open until [run] has returned. *)
Definition client_ok (m : stage) (c : ConfigClient) : Prop :=
  match m with Ended _ => cc_open c = ∅ | _ => exists n, cc_conn c = Some n /\ cc_open c = {[n]} end.

Lemma client_ok_close m c r : (forall r', m <> Ended r') -> client_ok m c -> client_ok (Ended r) (Client.Close c).
Proof.
  intros Hm Hc. assert (exists n, cc_conn c = Some n /\ cc_open c = {[n]}) as (n & Hn & Ho) by (destruct m; [done..|by destruct (Hm r0)]).
  unfold Client.Close. rewrite Hn. simpl. by rewrite Ho, difference_diag_L.
Qed.

Record shutdown_inv (x : shutdown) : Prop := {
  sdi_proxy : proxy_inv (f_proxy (sd_proc x));
  sdi_todo : Forall keeps_inv (sd_todo x);
  sdi_watch : is_Some (sd_watch x) -> is_Some (sd_ctx x) /\ sd_todo x = [];
  sdi_main : sd_main x <> Selecting -> is_Some (sd_ctx x);
  sdi_client : client_ok (sd_main x) (sd_client x);
}.

Lemma Stop_keeps (expired : bool) (s : fproc O) r (s' : fproc O) :
  proxy_inv (f_proxy s) -> on_proxy (Stop (if expired then Some errDeadlineExceeded else None)) s = (r, s') ->
  proxy_inv (f_proxy s').
Proof.
  apply on_proxy_keeps. intros p r' p' Hinv. unfold Stop. destruct expired; intros [= _ <-]; [done|]. by apply remove_ports_refines.
Qed.

Lemma shutdown_step_inv x y : shutdown_step x y -> shutdown_inv x -> shutdown_inv y.
Proof.
  intros Hstep [Hp Ht Hw Hm Hcl].
  destruct Hstep as [l Hn Hl Hcb|a l r s Hl Ha|e Hn Hl Hc|e Hc|Hs Hc|e Hs He Hi|e Hs He Hi|ex r s Hd Hst].
  - split; simpl; try done; [by apply callback_keeps|]. rewrite Hn. by intros [].
  - rewrite Hl in Ht. apply Forall_cons in Ht as [Hk Ht]. split; simpl; try done; [by eapply Hk|by destruct (is_ok r)|].
    intros Hsw. destruct (Hw Hsw) as [_ E]. congruence.
  - by split.
  - split; simpl; try done. intros Hsw. destruct (Hw Hsw). split; [by eexists|done].
  - split; simpl; try done. by rewrite Hs in Hcl.
  - split; simpl; try done; [|by rewrite Hs in Hcl]. intros _. apply Hw. by eexists.
  - split; simpl; try done; [intros _; apply Hw; by eexists|]. apply (client_ok_close (sd_main x) _ (Ok tt)); [by rewrite Hs|done].
  - split; simpl; try done; [by eapply Stop_keeps|intros _; apply Hm; by rewrite Hd|].
    apply (client_ok_close (sd_main x) _ (Ok tt)); [by rewrite Hd|done].
Qed.

Lemma shutdown_reachable_inv x y : rtc shutdown_step x y -> shutdown_inv x -> shutdown_inv y.
Proof. induction 1; eauto using shutdown_step_inv. Qed.

(** *** A drain after the watching goroutine has returned is clean *)

Record quiet_shutdown (x : shutdown) : Prop := {
  qs_inv : shutdown_inv x;
  qs_watch : is_Some (sd_watch x);
  qs_draining : sd_main x = Draining -> f_ready (sd_proc x) = false;
  qs_ended : sd_main x = Ended (Ok tt) -> f_ready (sd_proc x) = false /\ serves_nothing (f_proxy (sd_proc x));
}.

Lemma quiet_step x y : shutdown_step x y -> quiet_shutdown x -> quiet_shutdown y.
Proof.
  intros Hstep [Hi Hw Hd He]. pose proof (shutdown_step_inv _ _ Hstep Hi) as Hi'.
  destruct (sdi_watch x Hi Hw) as [_ Htodo].
  destruct Hstep as [l Hn _ _|a l r s Hl _|e Hn _ _|e Hc|Hs Hc|e Hs Hx Hy|e Hs Hx Hy|ex r s Hm Hst];
    [by rewrite Hn in Hw; destruct Hw|congruence|by rewrite Hn in Hw; destruct Hw|by split..|].
  split; try done. simpl. unfold on_proxy in Hst. destruct ex; simpl in Hst; injection Hst as <- <-; simpl; [done|].
  intros _. split; [by apply Hd|]. apply Close_serves_nothing, Hi.
Qed.

Lemma quiet_reachable x y : rtc shutdown_step x y -> quiet_shutdown x -> quiet_shutdown y.
Proof. induction 1; eauto using quiet_step. Qed.
End drain.

(** C36: how a forwarder that watches updates shuts down.  In every interleaving of the
    main goroutine with the callbacks of the watching one, from the moment [run] is at its
    [select]: the proxy stays sound (a port is mapped exactly if a socket listens for
    it); [run] returns only after its context was cancelled, and then the connection to the
    operator is closed; it can always return once the context is cancelled, whatever
    the watching goroutine does; and if that goroutine has returned before the drain
    begins, a [run] that returned nil reports unready and serves nothing, for good. *)
Theorem watching_shuts_down {O : Type} `{OperatorAPI O} (e : environment) (operator : O) id s c x :
  run e operator = (Watching id, s, c) -> rtc (shutdown_step (e_os_refuses e) id) (watching s c) x ->
  proxy_inv (f_proxy (sd_proc x)) /\
  (forall r, sd_main x = Ended r -> is_Some (sd_ctx x) /\ cc_open (sd_client x) = ∅) /\
  (is_Some (sd_ctx x) -> exists y r, rtc (shutdown_step (e_os_refuses e) id) x y /\ sd_main y = Ended r /\ sd_todo y = sd_todo x) /\
  (is_Some (sd_watch x) -> sd_main x = Selecting -> forall y, rtc (shutdown_step (e_os_refuses e) id) x y ->
     sd_main y = Ended (Ok tt) -> f_ready (sd_proc y) = false /\ serves_nothing (f_proxy (sd_proc y))).
Proof.
  intros Hrun Hx. pose proof (run_starts e operator) as Hstart. rewrite Hrun in Hstart. destruct Hstart as (Hinv & _ & Hc).
  assert (shutdown_inv x) as Hi.
  { eapply shutdown_reachable_inv; [exact Hx|]. by split. }
  split_and!.
  - apply Hi.
  - intros r Hr. destruct Hi as [_ _ _ Hm Hcl]. rewrite Hr in Hm, Hcl. split; [by apply Hm|done].
  - intros Hctx.
    assert (forall z, sd_main z = Draining -> exists y r, shutdown_step (e_os_refuses e) id z y /\ sd_main y = Ended r /\ sd_todo y = sd_todo z) as Hstop.
    { intros z Hz. destruct (on_proxy (Stop None) (sd_proc z)) as [r s'] eqn:E. eexists _, _.
      split; [apply (sd_stop _ _ z false r s' Hz E)|done]. }
    destruct (sd_main x) as [| |r] eqn:Hm.
    + destruct (Hstop (mkShutdown (SetReady false (sd_proc x)) (sd_todo x) (sd_ctx x) (sd_watch x) Draining (sd_client x)) eq_refl)
        as (y & r & Hy & Hr & Ht).
      exists y, r. split; [|done]. eapply rtc_l; [by apply sd_done|by apply rtc_once].
    + destruct (Hstop x Hm) as (y & r & Hy & Hr & Ht). exists y, r. split; [by apply rtc_once|done].
    + exists x, r. by split_and!.
  - intros Hw Hm y Hy Hend. eapply qs_ended; [|done]. eapply quiet_reachable; [exact Hy|].
    split; [done|done|by rewrite Hm|by rewrite Hm].
Qed.

(** *** A drain can be overtaken

    A snapshot of two tunnels is being applied when the signal comes: the first mapping
    is applied, the forwarder drains and [run] returns nil, then the callback goes on and
    opens the second port.  And a callback that has everything acknowledged sets the
    ready flag after the drain has cleared it. *)

Definition dr_mapping (name : string) (port : Z) : option TunnelMapping :=
  Some (mkTunnelMapping (Some name) (Some "team") (Some port) (Some "10.0.0.1:51820") (Some 1) (Some "uid") (Some "10.0.0.1")).
Definition dr_config : ForwarderConfig := mkForwarderConfig None [dr_mapping "a" 51820; dr_mapping "b" 51821].
Definition dr_server : ForwarderServer := addStream 0 (mkStream "fwd" [] false) NewForwarderServer.
Definition dr_state := shutdown (O := ForwarderServer).

(** A start that finds no tunnels. *)
Definition dr_env : environment :=
  mkEnvironment (fun name => if bool_decide (name = "FORWARDER_ID") then "fwd" else if bool_decide (name = "OPERATOR_GRPC_ADDR") then "operator:50051" else "")
    (Fail ErrCanceled) (fun _ => false) [mkConnectAttempt None None (Ok (mkForwarderConfig None [])) None] None.
Definition dr_run := run dr_env dr_server.
Definition dr_start : dr_state := watching dr_run.1.2 dr_run.2.
Definition dr_callback : dr_state :=
  mkShutdown (sd_proc dr_start) (snapshot_actions (fun _ => false) "fwd" dr_config) None None Selecting (sd_client dr_start).

(** The callback's next action; a signal and the whole drain. *)
Definition dr_act (x : dr_state) : dr_state :=
  match sd_todo x with
  | [] => x
  | a :: l => mkShutdown (a (sd_proc x)).2 (if is_ok (a (sd_proc x)).1 then l else []) (sd_ctx x) (sd_watch x) (sd_main x) (sd_client x)
  end.
Definition dr_drain (x : dr_state) : dr_state :=
  let rs := on_proxy (Stop None) (SetReady false (sd_proc x)) in
  mkShutdown rs.2 (sd_todo x) (Some ErrCanceled) (sd_watch x) (Ended (drain_result rs.1)) (Client.Close (sd_client x)).

Abbreviation dr_steps := (rtc (shutdown_step (fun _ => false) "fwd")).

Lemma dr_act_steps x : dr_steps x (dr_act x).
Proof.
  unfold dr_act. destruct (sd_todo x) as [|a l] eqn:Hl; [reflexivity|].
  apply rtc_once. apply (sd_action _ _ x a l (a (sd_proc x)).1 (a (sd_proc x)).2); [done|]. by destruct (a (sd_proc x)).
Qed.

Lemma dr_drain_steps x : sd_main x = Selecting -> sd_ctx x = None -> dr_steps x (dr_drain x).
Proof.
  intros Hm Hc. eapply rtc_l; [by apply (sd_cancel _ _ x ErrCanceled)|]. eapply rtc_l; [apply sd_done; [done|by eexists]|].
  apply rtc_once. unfold dr_drain. cbv zeta.
  refine (sd_stop _ _ (mkShutdown (SetReady false (sd_proc x)) (sd_todo x) (Some ErrCanceled) (sd_watch x) Draining (sd_client x)) false _ _ eq_refl _).
  by destruct (on_proxy _ _).
Qed.

Definition dr_late_port : dr_state := dr_act (dr_drain (dr_act dr_callback)).
Definition dr_late_ready : dr_state := dr_act (dr_drain (Nat.iter 5 dr_act dr_callback)).

Lemma dr_callback_steps : dr_steps dr_start dr_callback.
Proof. apply rtc_once. apply (sd_callback _ _ dr_start); [done|done|]. left. by exists dr_config. Qed.

Lemma dr_late_port_steps : dr_steps dr_start dr_late_port.
Proof.
  etrans; [exact dr_callback_steps|]. etrans; [apply dr_act_steps|]. etrans; [apply dr_drain_steps; vm_compute; reflexivity|]. apply dr_act_steps.
Qed.

Lemma dr_late_ready_steps : dr_steps dr_start dr_late_ready.
Proof.
  etrans; [exact dr_callback_steps|]. etrans; [|apply dr_act_steps]. etrans; [|apply dr_drain_steps; vm_compute; reflexivity].
  simpl. do 4 (etrans; [|apply dr_act_steps]). apply dr_act_steps.
Qed.

(** [run] has returned nil in both: in one a port is bound, in the other the forwarder
    reports ready and serves nothing. *)
Theorem drain_overtaken_by_callback :
  (dr_steps dr_start dr_late_port /\ sd_main dr_late_port = Ended (Ok tt) /\
   port_bound 51821 (heap (f_proxy (sd_proc dr_late_port))) = true) /\
  (dr_steps dr_start dr_late_ready /\ sd_main dr_late_ready = Ended (Ok tt) /\
   f_ready (sd_proc dr_late_ready) = true /\ (handleReadyz (sd_proc dr_late_ready)).1 = 200 /\
   routes (f_proxy (sd_proc dr_late_ready)) = ∅).
Proof.
  split; (split; [first [exact dr_late_port_steps|exact dr_late_ready_steps]|]); vm_compute; by repeat split.
Qed.

(** *** Witness

    A snapshot is handled to the end, then the signal comes, the watching goroutine
    returns, and the forwarder drains. *)

Definition dr_handled : dr_state := Nat.iter 6 dr_act dr_callback.
Definition dr_returned : dr_state :=
  mkShutdown (sd_proc dr_handled) [] (Some ErrCanceled) (Some ErrCanceled) Selecting (sd_client dr_handled).
Definition dr_drained : dr_state :=
  let rs := on_proxy (Stop None) (SetReady false (sd_proc dr_returned)) in
  mkShutdown rs.2 [] (Some ErrCanceled) (Some ErrCanceled) (Ended (Ok tt)) (Client.Close (sd_client dr_returned)).

Lemma dr_return_steps (x : dr_state) :
  sd_main x = Selecting -> sd_watch x = None -> sd_todo x = [] -> sd_ctx x = None ->
  dr_steps x (mkShutdown (sd_proc x) [] (Some ErrCanceled) (Some ErrCanceled) Selecting (sd_client x)).
Proof.
  destruct x as [pr todo ctx w m c]. simpl. intros -> -> -> ->.
  eapply rtc_l; [by apply (sd_cancel _ _ (mkShutdown pr [] None None Selecting c) ErrCanceled)|].
  apply rtc_once. by apply (sd_return _ _ (mkShutdown pr [] (Some ErrCanceled) None Selecting c)).
Qed.

Lemma dr_returned_steps : dr_steps dr_start dr_returned.
Proof.
  etrans; [exact dr_callback_steps|]. transitivity dr_handled.
  - unfold dr_handled. simpl. do 5 (etrans; [|apply dr_act_steps]). apply dr_act_steps.
  - apply dr_return_steps; vm_compute; reflexivity.
Qed.

Lemma dr_stop_steps pr c :
  dr_steps (mkShutdown pr [] (Some ErrCanceled) (Some ErrCanceled) Selecting c)
    (mkShutdown (on_proxy (Stop None) (SetReady false pr)).2 [] (Some ErrCanceled) (Some ErrCanceled) (Ended (Ok tt)) (Client.Close c)).
Proof.
  eapply rtc_l; [apply sd_done; [done|by eexists]|]. apply rtc_once.
  by refine (sd_stop _ _ (mkShutdown (SetReady false pr) [] (Some ErrCanceled) (Some ErrCanceled) Draining c) false (Ok tt) _ eq_refl _).
Qed.

Lemma dr_drained_steps : dr_steps dr_returned dr_drained.
Proof. exact (dr_stop_steps (sd_proc dr_handled) (sd_client dr_handled)). Qed.

Lemma watching_shuts_down_witness :
  f_ready (sd_proc dr_returned) = true /\ port_bound 51821 (heap (f_proxy (sd_proc dr_returned))) = true /\
  f_ready (sd_proc dr_drained) = false /\ serves_nothing (f_proxy (sd_proc dr_drained)).
Proof.
  split; [vm_compute; reflexivity|]. split; [vm_compute; reflexivity|].
  destruct (watching_shuts_down dr_env dr_server "fwd" dr_run.1.2 dr_run.2 dr_returned) as (_ & _ & _ & Hclean).
  - vm_compute. reflexivity.
  - exact dr_returned_steps.
  - apply (Hclean ltac:(eexists; reflexivity) eq_refl dr_drained dr_drained_steps eq_refl).
Defined.
