(* ===== verification/Operator.v ===== *)
(** * The operator process (cmd/main.go)

    What [main] computes before it hands over to the controller manager: the
    configuration from the environment, the allocator with the ports of the existing
    tunnels loaded, the gRPC server and the reconciler.  The manager itself
    (controller-runtime) is not part of the repository. *)

From S2P Require Import Prelude GoStd Proto Api Kube Portalloc Server Controller Forwarder.

Section environment.
Context (getenv : string -> string).

Definition envInt32 (key : string) (fallback : Z) : Z :=
  let v := getenv key in
  if bool_decide (v = "") then fallback
  else match ParseInt v 32 with
       | Fail _ => fallback
       | Ok n => wrap32 n
       end.

(** Unlike the forwarder's, an unknown level is Info. *)
Definition operatorLogLevel (raw : string) : Level :=
  let l := ToLower (TrimSpace raw) in
  if bool_decide (l = "debug") then LevelDebug
  else if bool_decide (l = "warn") || bool_decide (l = "warning") then LevelWarn
  else if bool_decide (l = "error") then LevelError
  else LevelInfo.

Definition grpcAddr : string := if bool_decide (getenv "GRPC_ADDR" = "") then ":9090" else getenv "GRPC_ADDR".
End environment.

Section operator.
Context {W : Type} `{KubeClient W} {R : Type} `{RandSource R}.

Fixpoint load_tunnels (items : list Tunnel) (a : PortAllocator R) : PortAllocator R :=
  match items with
  | [] => a
  | tunnel :: items =>
      if bool_decide (ForwarderPort (Status tunnel) <= 0) then load_tunnels items a
      else load_tunnels items
             (LoadExisting (Namespace tunnel +:+ "/" +:+ Name tunnel) (ForwarderPort (Status tunnel)) a)
  end.

(** A failed listing is logged and nothing is loaded. *)
Definition loadExistingAllocations (a : PortAllocator R) (w : W) : PortAllocator R * W :=
  match kube_list_tunnels w with
  | (Fail _, w) => (a, w)
  | (Ok items, w) => (load_tunnels items a, w)
  end.

(** What [main] builds for the manager to run. *)
Record operator_state := mkOperator {
  op_allocator : PortAllocator R;
  op_server : ForwarderServer;
  op_reconciler : TunnelReconciler;
  op_kube : W;
}.

Definition operator_start (getenv : string -> string) (http_get : string -> res (Z * string))
    (decode : string -> res string) (rng : R) (w : W) : operator_state :=
  let allocator := New (envInt32 getenv "FORWARDER_PORT_RANGE_MIN" 51820) (envInt32 getenv "FORWARDER_PORT_RANGE_MAX" 51919) rng in
  let forwarderServiceKey := mkKey (getenv "POD_NAMESPACE") (getenv "FORWARDER_SERVICE_NAME") in
  let '(allocator, w) := loadExistingAllocations allocator w in
  mkOperator allocator NewForwarderServer
    (mkReconciler true forwarderServiceKey (TrimSpace (getenv "LB_VIP")) None getenv http_get decode) w.

(** ** Properties *)

Lemma envInt32_range getenv key fallback : int32_ok fallback -> int32_ok (envInt32 getenv key fallback).
Proof.
  intros Hf. unfold envInt32. case_bool_decide; [done|]. unfold ParseInt. destruct (split_sign _) as [sign digits].
  case_bool_decide; [done|]. destruct (parse_digits 0 digits) as [n|]; [|done].
  change (- 2 ^ (32 - 1)) with (-2147483648). change (2 ^ (32 - 1) - 1) with 2147483647.
  case_bool_decide as Hr; [|done]. rewrite wrap32_id; unfold int32_ok; lia.
Qed.

(** The tunnels with a port, as the pairs the allocator records. *)
Definition recorded (items : list Tunnel) : list (string * Z) :=
  (fun t => (tunnelKeyOf t, ForwarderPort (Status t))) <$> filter (fun t => 0 < ForwarderPort (Status t)) items.

Lemma load_tunnels_load_all items a : load_tunnels items a = load_all (recorded items) a.
Proof.
  revert a. induction items as [|t items IH]; intros a; simpl; [done|]. unfold recorded. case_bool_decide.
  - rewrite filter_cons_False by lia. apply IH.
  - rewrite filter_cons_True by lia. simpl. apply IH.
Qed.

Lemma load_all_range (l : list (string * Z)) (a : PortAllocator R) :
  minPort (load_all l a) = minPort a /\ maxPort (load_all l a) = maxPort a.
Proof.
  revert a. induction l as [|[k p] l IH]; intros a; simpl; [done|].
  destruct (IH (LoadExisting k p a)) as [-> ->]. apply LoadExisting_range.
Qed.

(** A port of one key is never handed to another. *)
Lemma Allocate_other k k' p q (a a' : PortAllocator R) :
  wf a -> allocated a !! k = Some p -> k' <> k -> Allocate k' a = (AllocPort q, a') -> q <> p.
Proof.
  intros Hwf Hk Hne Halloc ->. apply (wf_inverse a Hwf) in Hk.
  destruct (Allocate_cases k' a Hwf) as [(p' & Hk' & E)|[(_ & p' & r & [_ Hfree] & E)|(_ & _ & r & E)]];
    rewrite E in Halloc; [injection Halloc as Hq _|injection Halloc as Hq _|discriminate]; rewrite Hq in *.
  - apply (wf_inverse a Hwf) in Hk'. congruence.
  - congruence.
Qed.

Definition configured_range (getenv : string -> string) (rng : R) : PortAllocator R :=
  New (envInt32 getenv "FORWARDER_PORT_RANGE_MIN" 51820) (envInt32 getenv "FORWARDER_PORT_RANGE_MAX" 51919) rng.

(** A restarted operator knows every port in use.  For any environment and
    any listing in which tunnels have distinct keys and distinct ports within the
    configured range, the allocator [main] builds holds exactly the recorded ports of
    the listed tunnels, each under its tunnel's key, and a tunnel is never given a
    port that another one has. *)
Theorem operator_start_keeps_ports getenv http_get decode (rng : R) w items w' :
  kube_list_tunnels w = (Ok items, w') ->
  NoDup (recorded items).*1 -> NoDup (recorded items).*2 ->
  (forall p, p ∈ (recorded items).*2 ->
     minPort (configured_range getenv rng) <= p <= maxPort (configured_range getenv rng)) ->
  let a := op_allocator (operator_start getenv http_get decode rng w) in
  wf a /\ allocated a = list_to_map (recorded items) /\
  forall t k q a', t ∈ items -> 0 < ForwarderPort (Status t) -> k <> tunnelKeyOf t ->
    Allocate k a = (AllocPort q, a') -> q <> ForwarderPort (Status t).
Proof.
  intros Hlist Hk Hp Hrange a.
  assert (wf (configured_range getenv rng)) as Hwf0.
  { apply New_wf; apply envInt32_range; unfold int32_ok; lia. }
  assert (a = load_all (recorded items) (configured_range getenv rng)) as Ha.
  { unfold a, operator_start, loadExistingAllocations. rewrite Hlist. simpl. apply load_tunnels_load_all. }
  assert (allocated a = list_to_map (recorded items)) as Hal.
  { rewrite Ha, load_all_allocated; [|done..|].
    - unfold configured_range. by rewrite New_allocated, (right_id_L ∅ (∪)).
    - intros k p Hin. unfold configured_range. rewrite New_allocated. split_and!.
      + apply (Hrange p), list_elem_of_fmap. exists (k, p). done.
      + apply (Hrange p), list_elem_of_fmap. exists (k, p). done.
      + apply lookup_empty.
      + intros k'. by rewrite lookup_empty. }
  assert (wf a) as Hwf by (rewrite Ha; by apply load_all_wf).
  split_and!; [done..|]. intros t k q a' Hin Hpos Hne. apply (Allocate_other (tunnelKeyOf t)); [done| |done].
  rewrite Hal. apply elem_of_list_to_map; [done|]. apply list_elem_of_fmap. exists t. split; [done|].
  by apply list_elem_of_filter.
Qed.
End operator.

(** *** Witness *)

Definition op_getenv (key : string) : string :=
  if bool_decide (key = "FORWARDER_PORT_RANGE_MAX") then "51830" else "".
Definition op_tunnel (name : string) (port : Z) : Tunnel :=
  mkTunnel name "team" None [] (mkSpec "team" (mkTarget "h" 80 "10.0.0.1" None) "k" None)
    (set_ForwarderPort port empty_status).
Definition op_cluster : FakeKube :=
  fk_set_tunnels {[mkKey "team" "a" := op_tunnel "a" 51821; mkKey "team" "b" := op_tunnel "b" 51822;
                   mkKey "team" "c" := op_tunnel "c" 0]} fake_empty.
Definition op_items : list Tunnel := (map_to_list (fk_tunnels op_cluster)).*2.

Lemma operator_start_keeps_ports_witness :
  let a := op_allocator (operator_start op_getenv (fun _ => Fail ErrCanceled) (fun _ => Fail ErrCanceled) 7 op_cluster) in
  wf a /\ allocated a = list_to_map (recorded op_items) /\ size (allocated a) = 2%nat.
Proof.
  destruct (operator_start_keeps_ports op_getenv (fun _ => Fail ErrCanceled) (fun _ => Fail ErrCanceled) 7 op_cluster
    op_items op_cluster) as (H1 & H2 & _).
  - vm_compute. reflexivity.
  - apply (bool_decide_unpack (NoDup (recorded op_items).*1)). vm_compute. exact I.
  - apply (bool_decide_unpack (NoDup (recorded op_items).*2)). vm_compute. exact I.
  - intros p Hp. assert (Forall (fun p => 51820 <= p <= 51830) (recorded op_items).*2) as Hf.
    { apply (bool_decide_unpack (Forall (fun p => 51820 <= p <= 51830) (recorded op_items).*2)). vm_compute. exact I. }
    rewrite Forall_forall in Hf. exact (Hf p Hp).
  - split; [exact H1|]. split; [exact H2|]. vm_compute. reflexivity.
Defined.
