(* ===== verification/Startup.v ===== *)
(** * Start-up of the operator (cmd/main.go, server.go Start, SetupWithManager)

    [main] as a function of what the controller manager answers: the order in which
    it builds its parts, what it gives the manager, and every exit.  The manager's cache
    only holds pods with one label and services of one namespace, and the controller is
    woken by changes of Tunnels and of the Pods it owns; both are data here, so that it
    can be proved that the reconciler sees and is woken by the pods it creates.
    [Start] is the gRPC server's, which the manager runs. *)

From S2P Require Import Prelude GoStd Proto Api Kube Portalloc Server Controller Reconcile Scenarios Forwarder Operator.

(** ** The gRPC listener (internal/grpc/server.go) *)

(** What the network and the gRPC library answer: to [net.Listen], to
    [server.Serve], and whether the context was cancelled by then. *)
Record grpc_env := mkGrpcEnv {
  ge_listen : string -> option error;
  ge_serve : option error;
  ge_ctx_done : bool;
}.

Record grpc_end := mkGrpcEnd {
  gd_result : res unit;
  gd_addr : string;
  (** the listeners opened and closed *)
  gd_opened : nat;
  gd_closed : nat;
}.

Definition Start (e : grpc_env) (addr : string) : grpc_end :=
  let addr := if bool_decide (addr = "") then ":9090" else addr in
  match ge_listen e addr with
  | Some err => mkGrpcEnd (Fail (ErrWrap ("listening on " +:+ addr) err)) addr 0 0
  | None =>
      let result :=
        match ge_serve e with
        | Some err =>
            if negb (errors_Is err ErrNetClosed) && negb (ge_ctx_done e)
            then Fail (ErrWrap "serving grpc" err) else Ok tt
        | None => Ok tt
        end in
      mkGrpcEnd result addr 1 1
  end.

(** ** What the manager is told *)

Record cache_options := mkCache {
  (** labels a Pod must have, and the namespaces of Services *)
  cache_pods : gmap string string;
  cache_services : list string;
}.

Record manager_options := mkManagerOptions {
  mo_metrics : string;
  mo_probes : string;
  mo_leader_election : bool;
  mo_leader_id : string;
  mo_cache : cache_options;
}.

Definition managerOptions (podNamespace : string) : manager_options :=
  mkManagerOptions ":8090" ":8085" false "tunnel-operator.nais.io"
    (mkCache {[ "app.kubernetes.io/managed-by" := "tunnel-operator" ]} [podNamespace]).

(** Which pods and services the cached client can see.  A selector made from a set
    matches objects that have all its labels; a namespace entry that is empty stands for
    all namespaces. *)
Definition sees_pod (c : cache_options) (p : Pod) : Prop := cache_pods c ⊆ pod_Labels p.
Definition sees_service (c : cache_options) (k : ObjectKey) : Prop :=
  key_Namespace k ∈ cache_services c \/ "" ∈ cache_services c.

(** [ctrl.NewControllerManagedBy(mgr).Named(...).For(...).Owns(...)] *)
Inductive kind := KindTunnel | KindPod | KindNetworkPolicy.
#[export] Instance kind_eq_dec : EqDecision kind.
Proof. solve_decision. Defined.

Record watches := mkWatches { w_name : string; w_for : kind; w_owns : list kind }.
Definition SetupWithManager : watches := mkWatches "tunnel-controller" KindTunnel [KindPod].

(** The requests a change of an object makes: a Tunnel asks for itself, an owned
    object for its controller, in its own namespace. *)
Inductive changed := TunnelChanged (k : ObjectKey) | PodChanged (p : Pod) | PolicyChanged (np : NetworkPolicy).

Definition owner_requests (namespace : string) (owners : list OwnerReference) : list ObjectKey :=
  (fun o => mkKey namespace (owner_Name o)) <$> filter (fun o => owner_Controller o = true) owners.

Definition requests (ws : watches) (c : changed) : list ObjectKey :=
  match c with
  | TunnelChanged k => if bool_decide (w_for ws = KindTunnel) then [k] else []
  | PodChanged p =>
      if bool_decide (KindPod ∈ w_owns ws) then owner_requests (key_Namespace (pod_Key p)) (pod_Owners p) else []
  | PolicyChanged np =>
      if bool_decide (KindNetworkPolicy ∈ w_owns ws)
      then owner_requests (key_Namespace (np_Key np)) (np_Owners np) else []
  end.

(** ** main *)

(** A run that ends at a failed call: what was called before is a proper prefix. *)
Ltac failed_at :=
  split_and!; [by eexists|split; [discriminate|intros ?; destruct_and!; discriminate]|];
  intros Hin; repeat (apply elem_of_cons in Hin as [Hin|Hin]; [discriminate|]); by apply elem_of_nil in Hin.

(** What controller-runtime answers to each call. *)
Record manager_env := mkManagerEnv {
  mg_NewManager : option error;
  mg_Complete : option error;
  mg_AddHealthzCheck : option error;
  mg_AddReadyzCheck : option error;
  mg_Add : option error;
  mg_Start : option error;
}.

Inductive main_call :=
| CallNewManager (o : manager_options)
| CallLoadAllocations
| CallSetup (ws : watches)
| CallHealthz
| CallReadyz
| CallAddGrpc (addr : string)
| CallStart.

Section main.
Context {W : Type} `{KubeClient W} {R : Type} `{RandSource R}.

Record main_state := mkMain {
  calls : list main_call;
  built : option (operator_state (W := W) (R := R));
}.

Definition call (c : main_call) : ST main_state unit := modify (fun m => mkMain (calls m ++ [c]) (built m)).

(** [if err := call(); err != nil { slog.Error(msg, ...); os.Exit(1) }] *)
Definition or_exit (c : main_call) (answer : option error) (msg : string) : ST main_state unit :=
  call c ;;
  match answer with None => mret tt | Some err => throw (ErrWrap msg err) end.

Definition main (e : manager_env) (getenv : string -> string) (http_get : string -> res (Z * string))
    (decode : string -> res string) (rng : R) (w : W) : ST main_state unit :=
  or_exit (CallNewManager (managerOptions (getenv "POD_NAMESPACE"))) (mg_NewManager e) "unable to create manager" ;;
  call CallLoadAllocations ;;
  modify (fun m => mkMain (calls m) (Some (operator_start getenv http_get decode rng w))) ;;
  or_exit (CallSetup SetupWithManager) (mg_Complete e) "unable to create controller" ;;
  or_exit CallHealthz (mg_AddHealthzCheck e) "unable to set up health check" ;;
  or_exit CallReadyz (mg_AddReadyzCheck e) "unable to set up ready check" ;;
  or_exit (CallAddGrpc (grpcAddr getenv)) (mg_Add e) "unable to add grpc server to manager" ;;
  or_exit CallStart (mg_Start e) "problem running manager".

Definition exit_code (r : res unit) : Z := match r with Ok _ => 0 | Fail _ => 1 end.

Definition run_main e getenv http_get decode rng w : res unit * main_state :=
  main e getenv http_get decode rng w (mkMain [] None).

(** The calls of a run that gets to its end. *)
Definition full_start (getenv : string -> string) : list main_call :=
  [CallNewManager (managerOptions (getenv "POD_NAMESPACE")); CallLoadAllocations; CallSetup SetupWithManager;
   CallHealthz; CallReadyz; CallAddGrpc (grpcAddr getenv); CallStart].

(** The operator starts in order or not at all.  Whatever the manager answers,
    [main] makes the calls of a full start in their order up to the first that fails;
    it exits with 0 exactly if none fails; and it starts the manager, and with it the
    controller and the gRPC server, only after the ports of the existing tunnels were
    loaded into the allocator that both are given. *)
Theorem main_starts_in_order e getenv http_get decode rng w :
  let '(r, m) := run_main e getenv http_get decode rng w in
  calls m `prefix_of` full_start getenv /\
  (exit_code r = 0 <-> mg_NewManager e = None /\ mg_Complete e = None /\ mg_AddHealthzCheck e = None /\
     mg_AddReadyzCheck e = None /\ mg_Add e = None /\ mg_Start e = None) /\
  (CallStart ∈ calls m -> calls m = full_start getenv /\
     exists o, built m = Some o /\ o = operator_start getenv http_get decode rng w).
Proof.
  unfold run_main, main, or_exit, call, modify, throw, mbind, ST_bind, mret, ST_ret. destruct e as [a1 a2 a3 a4 a5 a6].
  destruct a1; simpl; [failed_at|]. destruct a2; simpl; [failed_at|]. destruct a3; simpl; [failed_at|].
  destruct a4; simpl; [failed_at|]. destruct a5; simpl; [failed_at|].
  destruct a6; simpl; (split_and!; [by eexists| |intros _; split; [done|by eexists]]).
  - split; [discriminate|intros ?; destruct_and!; discriminate].
  - done.
Qed.
End main.

(** The gRPC server's listener: an empty address means :9090; a listener that was
    opened is closed on every return; and Start fails exactly if it cannot listen, or if
    serving ends with another error than that of a closed listener before the context is
    cancelled. *)
Theorem grpc_start_result e addr :
  let d := Start e addr in
  gd_addr d = (if bool_decide (addr = "") then ":9090" else addr) /\ gd_closed d = gd_opened d /\
  (is_ok (gd_result d) = true <->
     ge_listen e (gd_addr d) = None /\
     (ge_ctx_done e = true \/ forall err, ge_serve e = Some err -> errors_Is err ErrNetClosed = true)).
Proof.
  unfold Start. cbv zeta. destruct (ge_listen e _) as [err|] eqn:El; simpl.
  { rewrite El. split_and!; [done|done|]. split; [done|]. by intros []. }
  rewrite El. split_and!; [done|done|]. destruct (ge_serve e) as [err|]; simpl.
  - destruct (errors_Is err ErrNetClosed) eqn:Ee, (ge_ctx_done e); simpl; split; try done; auto.
    + intros _. split; [done|]. right. by intros ? [= <-].
    + intros [_ [|Hx]]; [done|]. rewrite (Hx err) in Ee; done.
  - split; [intros _; split; [done|by right]|done].
Qed.

(** ** The reconciler sees and is woken by its pods *)

Section wakes.
Context {W : Type} `{KubeClient W} `{!ControllerUtil} `{!ControllerUtilLaws} {R : Type} `{RandSource R}
  {F : Type} `{forwarderServer F}.

Lemma gateway_labels_seen podNamespace name : cache_pods (mo_cache (managerOptions podNamespace)) ⊆ gatewayLabels name.
Proof. apply map_singleton_subseteq_l. reflexivity. Qed.

(** C32: the reconciler is woken by the pods it makes.  Every pod a reconciliation
    creates has the label the manager's cache selects pods by, and, as long as labels
    and owners stay as they were created, every later change of that pod (it is
    scheduled, gets an address, turns ready, fails, is deleted) asks for a
    reconciliation of the tunnel it was created for. *)
Theorem created_pod_wakes_reconciler rc req (s : world W R F) pre p d post podNamespace p' :
  trace s = [] -> trace (Reconcile rc req s).2 = pre ++ EvCreatePod p d :: post ->
  pod_Key p' = pod_Key p -> pod_Labels p' = pod_Labels p -> pod_Owners p' = pod_Owners p ->
  exists t, last_object pre = Some t /\
    sees_pod (mo_cache (managerOptions podNamespace)) p' /\
    tunnel_key t ∈ requests SetupWithManager (PodChanged p').
Proof.
  intros Htr Heq Ek El Eo. destruct (Reconcile_allowed _ _ _ _ _ _ Htr Heq) as (_ & t & Hl & Hk & Hlab & Hown).
  exists t. split_and!; [done| |].
  - unfold sees_pod. rewrite El, Hlab. apply gateway_labels_seen.
  - simpl. rewrite Ek, Eo, Hk. apply list_elem_of_fmap. exists (mkOwner (Name t) true). split; [done|].
    apply list_elem_of_filter. split; [done|]. by eapply set_controller_reference_spec.
Qed.
End wakes.

(** The service both the server and the reconciler read lies in the cache. *)
Lemma forwarder_service_cached {W : Type} `{KubeClient W} {R : Type} `{RandSource R} getenv http_get decode (rng : R) (w : W) :
  sees_service (mo_cache (managerOptions (getenv "POD_NAMESPACE")))
    (r_ForwarderServiceKey (op_reconciler (operator_start getenv http_get decode rng w))).
Proof. unfold operator_start. destruct (loadExistingAllocations _ _). left. apply list_elem_of_here. Qed.

(** Changes of a network policy wake nobody: the controller owns the policies it
    writes but does not watch them, so one that is edited or deleted by hand stays so
    until something else wakes the tunnel. *)
Theorem policy_changes_unnoticed np : requests SetupWithManager (PolicyChanged np) = [].
Proof. reflexivity. Qed.

(** ** Permissions (the kubebuilder markers of tunnel_controller.go)

    The role generated from the markers above Reconcile, and the permission each call of
    a reconciliation needs.  [CreateOrUpdate] reads, and then creates or updates. *)
Definition rbac_markers : list (string * list string) :=
  [("tunnels", ["get"; "list"; "watch"; "create"; "update"; "patch"; "delete"]);
   ("tunnels/status", ["get"; "update"; "patch"]);
   ("tunnels/finalizers", ["update"]);
   ("pods", ["get"; "list"; "watch"; "create"; "delete"]);
   ("services", ["get"; "list"; "watch"]);
   ("networkpolicies", ["get"; "list"; "watch"; "create"; "delete"])].

Definition granted (resource verb : string) : bool :=
  existsb (fun r => bool_decide (r.1 = resource) && bool_decide (verb ∈ r.2)) rbac_markers.

Definition needs (e : event) : list (string * string) :=
  match e with
  | EvGet _ _ => [("tunnels", "get")]
  | EvUpdate _ _ => [("tunnels", "update")]
  | EvPatch _ _ _ => [("tunnels/status", "patch")]
  | EvDelete _ _ => [("tunnels", "delete")]
  | EvGetPod _ _ => [("pods", "get")]
  | EvCreatePod _ _ => [("pods", "create")]
  | EvDeletePod _ _ => [("pods", "delete")]
  | EvApplyPolicy _ _ => [("networkpolicies", "get"); ("networkpolicies", "create"); ("networkpolicies", "update")]
  | EvDeletePolicy _ _ => [("networkpolicies", "delete")]
  | EvGetService _ _ => [("services", "get")]
  | EvAllocate _ _ | EvRelease _ | EvNotify _ => []
  end.

(** The markers grant every call a reconciliation can make but one: updating a network
    policy that exists and differs, which is what CreateOrUpdate is for. *)
Theorem markers_miss_policy_update e resource verb :
  (resource, verb) ∈ needs e ->
  granted resource verb = negb (bool_decide (resource = "networkpolicies") && bool_decide (verb = "update")).
Proof.
  destruct e; cbn [needs]; rewrite ?elem_of_cons, ?elem_of_nil; intros Hin; destruct_or? Hin; try done;
    injection Hin as -> ->; reflexivity.
Qed.

(** *** Witness *)

Definition created_pod : Pod :=
  match nth_event 3 demo1 with EvCreatePod p _ => p | _ => mkPod (mkKey "" "") "" ∅ ∅ [] (mkPodSpec "" None None []) "" "" [] end.
(** The pod once it runs. *)
Definition running_pod : Pod :=
  mkPod (pod_Key created_pod) "uid" (pod_Labels created_pod) (pod_Annotations created_pod) (pod_Owners created_pod)
    (pod_Spec created_pod) "Running" "10.0.0.5" [mkCondition "Ready" "True"].

Lemma created_pod_wakes_reconciler_witness :
  exists t, last_object (take 3 (trace demo1)) = Some t /\
    sees_pod (mo_cache (managerOptions "nais-system")) running_pod /\
    tunnel_key t ∈ requests SetupWithManager (PodChanged running_pod).
Proof.
  apply (created_pod_wakes_reconciler (demo_rc (Ok "gw-key")) (demo_req "db") demo_start (take 3 (trace demo1)) created_pod
    (match nth_event 3 demo1 with EvCreatePod _ d => d | _ => Fail ErrCanceled end) (drop 4 (trace demo1))
    "nais-system" running_pod); vm_compute; reflexivity.
Defined.
