(* ===== verification/Fleet.v ===== *)
(** * The operator over time: no two tunnels share a port

    A run of the operator: reconciliations of any tunnels in any order, snapshots
    for forwarders, and what the other clients of the API server do between and
    during them ([fleet_step]).  Every API call may fail, with or without effect.
    The invariant: the port in the status of every live tunnel is the one the
    allocator has under its key, so live tunnels have distinct ports.  Live means
    neither marked for deletion nor Terminated. *)

From Stdlib Require Import Ascii.
From S2P Require Import Prelude GoStd Proto Api Kube Cluster Portalloc Server Controller Reconcile Calm Lifecycle Operator.

Definition live (t : Tunnel) : Prop := DeletionTimestamp t = None /\ Phase (Status t) <> TunnelPhaseTerminated.
Definition port_of (t : Tunnel) : Z := ForwarderPort (Status t).

(** ** The invariant *)

Section ports.
Context {R : Type} `{RandSource R}.
Implicit Types (m : gmap ObjectKey Tunnel) (a : PortAllocator R).

Definition ports_recorded m a : Prop :=
  forall k t, m !! k = Some t -> live t -> port_of t <> 0 -> allocated a !! tunnelKeyOf t = Some (port_of t).

(** Nothing live under the key has a port. *)
Definition portless (k : ObjectKey) m : Prop := forall t, m !! k = Some t -> live t -> port_of t = 0.

Lemma empty_status_port t : Status t = empty_status -> port_of t = 0.
Proof. unfold port_of. by intros ->. Qed.

Lemma user_step_recorded m m' a : user_step m m' -> ports_recorded m a -> ports_recorded m' a.
Proof.
  intros Hstep Hrec k t. destruct Hstep as [t0 _ _ He _|k0 t0 t1 Hk Hkey Hst Hdel|k0].
  - rewrite lookup_insert_Some. intros [[_ <-]|[_ Hk]]; [|by apply (Hrec k)].
    intros _ Hp. destruct Hp. by apply empty_status_port.
  - rewrite lookup_insert_Some. intros [[<- <-]|[_ Hk']]; [|by apply (Hrec k)].
    intros [Hl1 Hl2]. unfold port_of, tunnelKeyOf. rewrite Hst. injection Hkey as -> ->. apply (Hrec _ _ Hk).
    rewrite Hst in Hl2. split; [|done]. destruct (DeletionTimestamp t0); [|done]. rewrite Hl1 in Hdel.
    by destruct Hdel; [eexists|].
  - rewrite lookup_delete_Some. intros [_ Hk]. by apply (Hrec k).
Qed.

Lemma user_steps_recorded m m' a : user_steps m m' -> ports_recorded m a -> ports_recorded m' a.
Proof. induction 1; eauto using user_step_recorded. Qed.

Lemma user_step_portless k m m' : user_step m m' -> portless k m -> portless k m'.
Proof.
  intros Hstep Hno t. destruct Hstep as [t0 _ _ He _|k0 t0 t1 Hk Hkey Hst Hdel|k0].
  - rewrite lookup_insert_Some. intros [[_ <-]|[_ Hk]]; [|by apply Hno]. intros _. by apply empty_status_port.
  - rewrite lookup_insert_Some. intros [[<- <-]|[_ Hk']]; [|by apply Hno].
    intros [Hl1 Hl2]. unfold port_of. rewrite Hst. apply (Hno _ Hk).
    rewrite Hst in Hl2. split; [|done]. destruct (DeletionTimestamp t0); [|done]. rewrite Hl1 in Hdel.
    by destruct Hdel; [eexists|].
  - rewrite lookup_delete_Some. intros [_ Hk]. by apply Hno.
Qed.

Lemma user_steps_portless k m m' : user_steps m m' -> portless k m -> portless k m'.
Proof. induction 1; eauto using user_step_portless. Qed.

Lemma tunnelKeyOf_inj t t' :
  contains_char "/"%char (Namespace t) = false -> contains_char "/"%char (Namespace t') = false ->
  tunnelKeyOf t = tunnelKeyOf t' -> tunnel_key t = tunnel_key t'.
Proof.
  intros Hn Hn' Heq. apply (append_sep_inj "/"%char) in Heq as [E1 E2]; [|done..]. unfold tunnel_key. congruence.
Qed.

(** Releasing the key of a tunnel that has no live port. *)
Lemma release_recorded m a t0 :
  view_ok m -> contains_char "/"%char (Namespace t0) = false -> portless (tunnel_key t0) m ->
  ports_recorded m a -> ports_recorded m (Release (tunnelKeyOf t0) a).
Proof.
  intros Hok Hns Hno Hrec k t Hk Hl Hp. rewrite Release_allocated. destruct (Hok _ _ Hk) as [Hkey Hns'].
  rewrite lookup_delete_ne; [by apply (Hrec k)|]. intros Heq.
  apply tunnelKeyOf_inj in Heq; [|done..]. apply Hp. apply Hno; [congruence|done].
Qed.

(** Allocating never moves a port. *)
Lemma allocate_recorded m a key :
  wf a -> ports_recorded m a -> ports_recorded m (Allocate key a).2.
Proof.
  intros Hwf Hrec k t Hk Hl Hp. specialize (Hrec k t Hk Hl Hp).
  destruct (Allocate_cases key a Hwf) as [(p & _ & ->)|[(Hnone & p & r & _ & ->)|(_ & _ & r & ->)]]; simpl; try done.
  rewrite lookup_insert_ne; [done|congruence].
Qed.

Lemma allocate_records a key p a' : wf a -> Allocate key a = (AllocPort p, a') -> allocated a' !! key = Some p.
Proof.
  intros Hwf. destruct (Allocate_cases key a Hwf) as [(q & Hq & ->)|[(Hnone & q & r & _ & ->)|(_ & _ & r & ->)]];
    intros Heq; try discriminate Heq; injection Heq as <- <-; [done|]. apply lookup_insert_eq.
Qed.

(** The status write: a merge patch computed from [base]. *)
Lemma patch_recorded m a base t cur :
  view_ok m -> m !! tunnel_key t = Some cur -> ports_recorded m a ->
  Phase (Status base) <> TunnelPhaseTerminated -> tracks (Status base) (tunnel_key t) m ->
  (port_of t = port_of base \/ allocated a !! tunnelKeyOf t = Some (port_of t)) ->
  let t' := set_status (merge_status (Status base) (Status t)) cur in
  view_ok (<[tunnel_key t := t']> m) /\ ports_recorded (<[tunnel_key t := t']> m) a.
Proof.
  intros Hok Hcur Hrec Hph Htr Hport t'. destruct (Hok _ _ Hcur) as [Hkey Hns]. split; intros k t1.
  - rewrite lookup_insert_Some. intros [[<- <-]|[_ Hk]]; [by split|by apply Hok].
  - rewrite lookup_insert_Some. intros [[<- <-]|[_ Hk]]; [|by apply (Hrec k)].
    intros [Hl1 _]. replace (port_of t') with (merge_field (port_of base) (port_of t) (port_of cur)) by done.
    unfold merge_field. case_decide as Hsame; intros Hp.
    + apply (Hrec (tunnel_key t) cur Hcur); [|done]. split; [done|].
      destruct (Htr _ Hcur) as [->| ->]; [done|discriminate].
    + destruct Hport as [|Halloc]; [done|].
      replace (tunnelKeyOf t') with (tunnelKeyOf t); [done|].
      unfold tunnelKeyOf. simpl. injection Hkey as -> ->. done.
Qed.
End ports.

(** ** One reconciliation keeps it *)

Section fleet.
Context {W : Type} `{KubeClient W} `{!ClusterView W} `{!KubeLaws W} `{!ControllerUtil} `{!ControllerUtilLaws}
  {R : Type} `{RandSource R} {F : Type} `{forwarderServer F} (lo hi : Z).
Implicit Types (s : world W R F) (t : Tunnel) (rc : TunnelReconciler).

Abbreviation view s := (tunnels_of (kube s)).

(** The allocator is well formed and hands out ports of the range. *)
Definition alloc_ok (a : PortAllocator R) : Prop := wf a /\ minPort a = lo /\ maxPort a = hi.

Lemma Release_ok k a : alloc_ok a -> alloc_ok (Release k a).
Proof.
  intros (Hwf & E1 & E2). split; [by apply Release_wf|]. destruct (Release_range k a) as [-> ->]. by split.
Qed.

Lemma Allocate_ok k a : alloc_ok a -> alloc_ok (Allocate k a).2.
Proof.
  intros (Hwf & E1 & E2). split; [by apply Allocate_wf|].
  destruct (Allocate_cases k a Hwf) as [(p & _ & ->)|[(_ & p & r & _ & ->)|(_ & _ & r & ->)]]; by split.
Qed.

Record fleet_inv s : Prop := {
  fi_view : view_ok (view s);
  fi_ports : exists a, portAllocator s = Some a /\ alloc_ok a /\ ports_recorded (view s) a;
}.

(** Between [s] and [s'] the operator changed neither a status nor the allocator. *)
Definition calm s s' : Prop := user_steps (view s) (view s') /\ portAllocator s' = portAllocator s.

Lemma calm_refl s : calm s s.
Proof. by split. Qed.

Lemma calm_trans s1 s2 s3 : calm s1 s2 -> calm s2 s3 -> calm s1 s3.
Proof. intros [? ?] [? ?]. split; [by etrans|congruence]. Qed.

Lemma calm_view s s' : calm s s' -> view_ok (view s) -> view_ok (view s').
Proof. intros [Hu _]. by apply user_steps_ok. Qed.

Lemma calm_inv s s' : calm s s' -> fleet_inv s -> fleet_inv s'.
Proof.
  intros [Hu Ha] [Hv (a & Hs & Hwf & Hrec)]. split; [by eapply user_steps_ok|].
  exists a. split_and!; [congruence|done|by eapply user_steps_recorded].
Qed.

Lemma wp_kcall_calm {A} (ev : res A -> event) (m : ST W A) s :
  (forall r w, m (kube s) = (r, w) -> user_steps (view s) (tunnels_of w)) ->
  wp (kcall ev m) (fun _ s' => calm s s') s.
Proof. intros Hm. apply wp_kcall. intros r w Hw. split; [by eapply Hm|done]. Qed.

Lemma wp_quiet_calm {A} (m : ST (world W R F) A) s :
  wp m (fun _ s' => quiet user_steps s s') s -> wp m (fun _ s' => calm s s') s.
Proof. intros Hm. eapply wp_mono; [exact Hm|]. by intros r s' [? ? _ _]. Qed.

Lemma notifyTunnelUpdate_calm t ty s : wp (notifyTunnelUpdate t ty) (fun _ s' => calm s s') s.
Proof.
  unfold notifyTunnelUpdate, notify_forwarders. wp_steps.
  destruct (_ || _); [wp_steps; apply calm_refl|]. destruct (_ && _); wp_steps; [apply calm_refl|by split].
Qed.

Lemma deleteGatewayResources_calm t s :
  view_ok (view s) -> wp (deleteGatewayResources t) (fun _ s' => calm s s') s.
Proof. intros Hv. by apply wp_quiet_calm, deleteGatewayResources_quiet; [apply _|]. Qed.

Lemma removeFinalizer_calm t s :
  view_ok (view s) ->
  wp (removeFinalizer t) (fun r s' => calm s s' /\ (forall t', r = Ok t' -> tunnel_key t' = tunnel_key t)) s.
Proof.
  intros Hv. unfold removeFinalizer. apply wp_wrap_err, wp_kcall. intros r w Hw.
  destruct (update_tunnel_law _ _ _ _ Hv Hw) as (m & Hu1 & Hu2 & Hr). assert (user_steps (view s) (tunnels_of w)) by by etrans.
  destruct r as [t'|e]; (split; [by split|]); [|done]. intros t'' [= <-]. by apply (Hr t').
Qed.

Lemma ensureFinalizer_calm t s :
  view_ok (view s) -> view s !! tunnel_key t = Some t ->
  wp (ensureFinalizer t) (fun r s' => calm s s' /\ forall t', r = Ok t' ->
    tunnel_key t' = tunnel_key t /\ tracks (Status t') (tunnel_key t) (view s') /\
    (Status t' = Status t \/ Status t' = empty_status)) s.
Proof.
  intros Hv Ht. unfold ensureFinalizer. destruct (ContainsFinalizer _ _); simpl.
  - apply wp_ret. split; [apply calm_refl|]. intros t' [= <-]. split_and!; [done| |by left].
    intros t1 Ht1. left. congruence.
  - set (t1 := set_Finalizers _ t). apply wp_kcall. intros r w Hw.
    destruct (update_tunnel_law _ _ _ _ Hv Hw) as (m & Hu1 & Hu2 & Hr).
    split; [split; [by etrans|done]|]. intros t' Heq. destruct (Hr t' Heq) as (Hkey & (cur & Hcur & Hst) & Hstored).
    change (tunnel_key t1) with (tunnel_key t) in *. simpl. split_and!; [done| |].
    + intros t2 Ht2. left. destruct Hstored as [E|E]; rewrite E in Ht2; congruence.
    + rewrite Hst. apply (user_steps_tracks (Status t) (tunnel_key t) (view s) m Hu1); [|done].
      intros t2 Ht2. left. congruence.
Qed.

Lemma ensureGatewayPod_calm rc t rn labels s :
  view_ok (view s) -> wp (ensureGatewayPod rc t rn labels) (fun _ s' => calm s s') s.
Proof. intros Hv. by apply wp_quiet_calm, ensureGatewayPod_quiet; [apply _|]. Qed.

Lemma ensureNetworkPolicy_calm t rn labels s :
  view_ok (view s) -> wp (ensureNetworkPolicy t rn labels) (fun _ s' => calm s s') s.
Proof. intros Hv. by apply wp_quiet_calm, ensureNetworkPolicy_quiet; [apply _|]. Qed.

Lemma evaluatePodPhase_calm rc t pod s :
  view_ok (view s) -> wp (evaluatePodPhase rc t pod) (fun _ s' => calm s s') s.
Proof. intros Hv. by apply wp_quiet_calm, evaluatePodPhase_quiet; [apply _|]. Qed.

Lemma republish_calm t s : wp (republish t) (fun _ s' => calm s s') s.
Proof.
  unfold republish. apply wp_bind, wp_gets. cbv zeta. destruct (_ && _); [apply notifyTunnelUpdate_calm|apply wp_ret, calm_refl].
Qed.

(** *** The three effects *)

Lemma releaseForwarderPort_inv t s :
  fleet_inv s -> contains_char "/"%char (Namespace t) = false -> portless (tunnel_key t) (view s) ->
  wp (releaseForwarderPort t) (fun r s' => r = Ok tt /\ fleet_inv s') s.
Proof.
  intros [Hv (a & Ha & Hwf & Hrec)] Hns Hno. unfold releaseForwarderPort. wp_steps. rewrite Ha. wp_steps.
  split; [done|]. split; [done|]. exists (Release (tunnelKeyOf t) a).
  split_and!; [done|by apply Release_ok|]. by apply release_recorded.
Qed.

(** Tearing down a tunnel that has no live port: release, then notify. *)
Lemma release_notify_inv t s :
  fleet_inv s -> contains_char "/"%char (Namespace t) = false -> portless (tunnel_key t) (view s) ->
  wp (releaseForwarderPort t ;; notifyTunnelUpdate t DELETED) (fun r s' => r = Ok tt /\ fleet_inv s') s.
Proof.
  intros Hinv Hns Hno. apply wp_bind. eapply wp_mono; [by apply releaseForwarderPort_inv|]. intros r s1 [-> Hinv1].
  eapply wp_mono; [apply wp_and; [apply notifyTunnelUpdate_calm|apply notify_deleted_effect]|].
  intros r s2 [Hc (-> & _)]. split; [done|by eapply calm_inv].
Qed.

Lemma assignPort_inv t s :
  fleet_inv s -> wp (assignPort t) (fun r s' => fleet_inv s' /\ view s' = view s /\ forall m, r = Ok m ->
    ms_tunnel m = t \/
    exists a, portAllocator s' = Some a /\ tunnel_key (ms_tunnel m) = tunnel_key t /\
      allocated a !! tunnelKeyOf (ms_tunnel m) = Some (port_of (ms_tunnel m))) s.
Proof.
  intros [Hv (a & Ha & Hwf & Hrec)]. assert (fleet_inv s) as Hinv by (split; eauto).
  unfold assignPort. apply wp_bind, wp_gets. rewrite Ha.
  case_bool_decide; simpl; [|apply wp_ret; split_and!; [done..|]; intros m [= <-]; by left].
  apply wp_bind. unfold wp, allocate. rewrite Ha.
  destruct (Allocate (tunnelKeyOf t) a) as [r a'] eqn:Hr.
  pose proof (Allocate_ok (tunnelKeyOf t) a Hwf) as Hwf'.
  pose proof (allocate_recorded _ a (tunnelKeyOf t) (proj1 Hwf) Hrec) as Hrec'.
  rewrite Hr in Hwf', Hrec'. simpl in Hwf', Hrec'.
  assert (forall f m tr, fleet_inv (mkWorld (kube s) (Some a') f m tr)) as Hinv' by (intros f m tr; split; eauto).
  destruct r as [p|e|]; simpl; (split_and!; [by apply Hinv'|done|]); try discriminate.
  intros m [= <-]. right. exists a'. split_and!; [done..|]. exact (allocate_records a (tunnelKeyOf t) p a' (proj1 Hwf) Hr).
Qed.

Lemma handleDeletion_inv t s :
  fleet_inv s -> contains_char "/"%char (Namespace t) = false -> portless (tunnel_key t) (view s) ->
  wp (handleDeletion t) (fun _ s' => fleet_inv s') s.
Proof.
  intros Hinv Hns Hno. unfold handleDeletion. destruct (ContainsFinalizer _ _); simpl.
  2: { eapply wp_mono; [by apply releaseForwarderPort_inv|]. by intros r s' [_ ?]. }
  apply wp_bind. eapply wp_mono; [apply deleteGatewayResources_calm, Hinv|].
  intros [[]|e] s1 Hc1; [|by eapply calm_inv].
  apply wp_bind. eapply wp_mono; [by eapply removeFinalizer_calm, calm_view, Hinv|].
  intros [t2|e] s2 [Hc2 Hkey]; pose proof (calm_trans _ _ _ Hc1 Hc2) as Hc; [|by eapply calm_inv].
  specialize (Hkey t2 eq_refl). eapply wp_mono; [apply release_notify_inv|by intros r s' [_ ?]].
  - by eapply calm_inv.
  - unfold tunnel_key in Hkey. by injection Hkey as -> _.
  - rewrite Hkey. eapply user_steps_portless; [apply Hc|done].
Qed.

Lemma handleTerminated_inv t s :
  fleet_inv s -> contains_char "/"%char (Namespace t) = false -> portless (tunnel_key t) (view s) ->
  wp (handleTerminated t) (fun _ s' => fleet_inv s') s.
Proof.
  intros Hinv Hns Hno. unfold handleTerminated.
  apply wp_bind. eapply wp_mono; [apply deleteGatewayResources_calm, Hinv|].
  intros [[]|e] s1 Hc1; [|by eapply calm_inv].
  apply wp_bind. apply wp_mono with (Q' := fun r s2 => calm s1 s2 /\ forall t', r = Ok t' -> tunnel_key t' = tunnel_key t).
  { destruct (ContainsFinalizer _ _); [by eapply removeFinalizer_calm, calm_view, Hinv|].
    apply wp_ret. split; [apply calm_refl|congruence]. }
  intros [t2|e] s2 [Hc2 Hkey]; pose proof (calm_trans _ _ _ Hc1 Hc2) as Hc; [|by eapply calm_inv].
  specialize (Hkey t2 eq_refl). apply wp_bind. eapply wp_mono; [apply releaseForwarderPort_inv|].
  { by eapply calm_inv. }
  { unfold tunnel_key in Hkey. by injection Hkey as -> _. }
  { rewrite Hkey. eapply user_steps_portless; [apply Hc|done]. }
  intros r s3 [-> Hinv3].
  apply wp_bind. eapply wp_mono; [apply notifyTunnelUpdate_calm|]. intros [[]|e] s4 Hc4; [|by eapply calm_inv].
  pose proof (calm_inv _ _ Hc4 Hinv3) as Hinv4. cbv zeta.
  apply wp_bind, wp_try. eapply wp_mono; [apply wp_kcall_calm; intros r w; apply delete_tunnel_law, Hinv4|].
  intros [[]|e] s5 Hc5; [|destruct (IgnoreNotFound e)]; wp_steps; by eapply calm_inv.
Qed.

(** The status write.  [base] is the object the status was computed from. *)
Lemma persistAndPublish_inv base m o s :
  fleet_inv s -> Phase (Status base) <> TunnelPhaseTerminated ->
  tracks (Status base) (tunnel_key base) (view s) -> tunnel_key (o_tunnel o) = tunnel_key base ->
  (port_of (o_tunnel o) = port_of base \/
   exists a, portAllocator s = Some a /\ allocated a !! tunnelKeyOf (o_tunnel o) = Some (port_of (o_tunnel o))) ->
  wp (persistAndPublish base m o) (fun _ s' => fleet_inv s') s.
Proof.
  intros Hinv Hph Htr Hkey Hport. unfold persistAndPublish. cbv zeta. apply wp_bind.
  apply wp_mono with (Q' := fun _ s' => fleet_inv s').
  2: { intros [t|e] s1 Hinv1; [|done]. apply wp_bind. eapply wp_mono; [apply republish_calm|].
       intros [[]|e] s2 Hc; wp_steps; by eapply calm_inv. }
  destruct (ms_changed m || o_updated o); [|by apply wp_ret].
  apply wp_bind, wp_wrap_err, wp_kcall. intros r w Hw. destruct Hinv as [Hv (a & Ha & Hwf & Hrec)].
  set (s1 := mkWorld w (portAllocator s) (fwd s) (metrics s) _).
  assert (fleet_inv s1) as Hinv1.
  { destruct (patch_status_law _ _ _ _ _ Hv Hw) as (v & Hu & Hcase).
    pose proof (user_steps_ok _ _ Hu Hv) as Hv'. pose proof (user_steps_recorded _ _ _ Hu Hrec) as Hrec'.
    destruct Hcase as [[Heq _]|(cur & Hcur & Heq & _)].
    { split; unfold s1; simpl; rewrite Heq; eauto. }
    destruct (patch_recorded v a base (o_tunnel o) cur) as [Hv1 Hrec1]; [done..| | |].
    - rewrite Hkey. by eapply user_steps_tracks.
    - destruct Hport as [|(a' & Ha' & Halloc)]; [by left|right]. congruence.
    - split; unfold s1; simpl; rewrite Heq; eauto. }
  destruct r as [t|e]; [|done]. apply wp_bind, wp_modify. apply wp_bind.
  assert (fleet_inv (set_metrics (inc_tunnels (Phase (Status t)) (Namespace t)) s1)) as Hinv2.
  { destruct Hinv1 as [Hv1 Hp1]. by split. }
  destruct (ms_changed m); [|by apply wp_ret, wp_ret].
  eapply wp_mono; [apply notifyTunnelUpdate_calm|]. intros [[]|e] s2 Hc; wp_steps; by eapply calm_inv.
Qed.

(** Recording the gateway pod changes neither key nor port. *)
Lemma recordGateway_port rn pod m :
  tunnel_key (ms_tunnel (recordGateway rn pod m)) = tunnel_key (ms_tunnel m) /\
  port_of (ms_tunnel (recordGateway rn pod m)) = port_of (ms_tunnel m).
Proof.
  destruct (recordPod_spec rn pod m) as [_ _ _ [(E1 & E2 & _) _] Hport _ _]. unfold recordGateway.
  generalize dependent (recordPod rn pod m). intros g E1 E2 Hport.
  assert (tunnel_key (ms_tunnel g) = tunnel_key (ms_tunnel m)) as <- by (unfold tunnel_key; congruence).
  unfold port_of. rewrite <- Hport. by destruct (ms_changed g).
Qed.

Lemma reconcileTunnel_inv rc t s :
  fleet_inv s -> view s !! tunnel_key t = Some t -> live t -> wp (reconcileTunnel rc t) (fun _ s' => fleet_inv s') s.
Proof.
  intros Hinv Ht [_ Hph]. unfold reconcileTunnel. destruct (validateTunnelTarget _); [by apply wp_throw|].
  apply wp_bind. eapply wp_mono; [apply ensureFinalizer_calm; [apply Hinv|done]|].
  intros [t1|e] s1 [Hc1 Hr1]; [|by eapply calm_inv]. destruct (Hr1 t1 eq_refl) as (Hkey & Htr1 & Hst). clear Hr1.
  pose proof (calm_inv _ _ Hc1 Hinv) as Hinv1. cbv zeta.
  apply wp_bind. eapply wp_mono; [apply ensureGatewayPod_calm, Hinv1|].
  intros [pod|e] s2 Hc2; [|by eapply calm_inv]. pose proof (calm_inv _ _ Hc2 Hinv1) as Hinv2.
  apply wp_bind. eapply wp_mono; [apply ensureNetworkPolicy_calm, Hinv2|].
  intros [[]|e] s3 Hc3; [|by eapply calm_inv]. pose proof (calm_inv _ _ Hc3 Hinv2) as Hinv3.
  apply wp_bind. eapply wp_mono; [by apply assignPort_inv|].
  intros [m|e] s4 (Hinv4 & Hv4 & Hm); [|done]. specialize (Hm m eq_refl).
  destruct (recordGateway_port (gatewayResourceName (Name t1)) pod m) as [Hgk Hgp].
  revert Hgk Hgp. generalize (recordGateway (gatewayResourceName (Name t1)) pod m). intros g Hgk Hgp.
  apply wp_bind. eapply wp_mono; [apply wp_and; [apply evaluatePodPhase_calm, Hinv4|apply evaluatePodPhase_spec]|].
  intros r s5 [Hc5 (o & -> & _ & [[[(E1 & E2 & _) [Hid _]] _] _])]. injection Hid as Hop _ _ _.
  assert (tunnel_key (o_tunnel o) = tunnel_key (ms_tunnel m)) as Hok.
  { rewrite <- Hgk. unfold tunnel_key. congruence. }
  fold (port_of (o_tunnel o)) in Hop. unfold port_of in Hgp. rewrite Hgp in Hop. fold (port_of (ms_tunnel m)) in Hop.
  assert (tunnelKeyOf (o_tunnel o) = tunnelKeyOf (ms_tunnel m)) as Hko.
  { unfold tunnel_key in Hok. unfold tunnelKeyOf. by injection Hok as -> ->. }
  apply persistAndPublish_inv.
  - by eapply calm_inv.
  - destruct Hst as [->| ->]; [done|discriminate].
  - rewrite Hkey. eapply user_steps_tracks; [apply Hc5|]. rewrite Hv4.
    eapply user_steps_tracks; [apply Hc3|]. by eapply user_steps_tracks; [apply Hc2|].
  - rewrite Hok. destruct Hm as [->|(a & _ & Hk & _)]; [done|congruence].
  - rewrite Hop, Hko. destruct Hm as [->|(a & Ha & _ & Hal)]; [by left|right].
    exists a. split; [|done]. by rewrite (proj2 Hc5).
Qed.

Lemma Reconcile_fleet_inv rc req s : fleet_inv s -> fleet_inv (Reconcile rc req s).2.
Proof.
  intros Hinv. unfold Reconcile. enough (wp (reconcileBody rc req) (fun _ s' => fleet_inv s') s) as Hwp.
  { unfold wp in Hwp. destruct (reconcileBody rc req s) as [r s']. destruct Hwp as [Hv Hp]. by split. }
  unfold reconcileBody. apply wp_bind, wp_try, wp_kcall. intros r w Hw.
  destruct (get_tunnel_law _ _ _ _ (fi_view _ Hinv) Hw) as [Hu Hr].
  set (s1 := mkWorld w _ _ _ _). assert (fleet_inv s1) as Hinv1 by (eapply (calm_inv s); [by split|done]).
  destruct r as [t|e]; [|destruct (IgnoreNotFound e); by wp_steps].
  specialize (Hr t eq_refl). destruct (fi_view _ Hinv1 req t Hr) as [Hkey Hns].
  assert (view s1 !! tunnel_key t = Some t) as Ht by by rewrite Hkey.
  assert (~ live t -> portless (tunnel_key t) (view s1)) as Hdead.
  { intros Hnl t' Ht' Hl. congruence. }
  case_bool_decide as Hdel; [|case_bool_decide as Hph].
  - apply wp_bind. eapply wp_mono; [apply handleDeletion_inv; [done..|]|by intros [[]|e] s'].
    apply Hdead. intros [Hnone _]. rewrite Hnone in Hdel. by destruct Hdel.
  - apply wp_bind. eapply wp_mono; [apply handleTerminated_inv; [done..|]|by intros [[]|e] s'].
    apply Hdead. by intros [_ Hnt].
  - apply reconcileTunnel_inv; [done..|]. split; [by destruct (DeletionTimestamp t); [destruct Hdel; eexists|]|done].
Qed.

(** *** A snapshot for a forwarder *)

(** Loading a port the allocator has is a no-op. *)
Lemma LoadExisting_known k p (a : PortAllocator R) : wf a -> allocated a !! k = Some p -> LoadExisting k p a = a.
Proof.
  intros Hwf Hk. pose proof (wf_range a Hwf k p Hk). pose proof (proj1 (wf_inverse a Hwf k p) Hk) as Hu.
  unfold LoadExisting. rewrite !bool_decide_false by lia. simpl. rewrite Hu, Hk.
  rewrite !bool_decide_false by congruence. rewrite !insert_id by done. by destruct a.
Qed.

Lemma in_snapshot_live t : in_snapshot t = true -> live t /\ port_of t <> 0.
Proof.
  unfold in_snapshot. rewrite negb_true_iff, !orb_false_iff, !bool_decide_eq_false. unfold live, port_of.
  intros (((((Hd & Hp) & _) & Hport) & _) & _). split_and!; [|done|lia].
  destruct (DeletionTimestamp t); [|done]. by destruct Hd.
Qed.

Lemma load_all_known (l : list Tunnel) (a : PortAllocator R) :
  wf a -> (forall t, t ∈ l -> allocated a !! tunnelKeyOf t = Some (port_of t)) -> load_all (recorded_port <$> l) a = a.
Proof.
  intros Hwf. induction l as [|t l IH]; intros Hall; [done|]. simpl.
  rewrite (LoadExisting_known (tunnelKey (Namespace t) (Name t)) (ForwarderPort (Status t))); [|done|apply Hall; left].
  apply IH. intros t' Ht'. apply Hall. by right.
Qed.

Lemma resolveVIP_users svc w : view_ok (tunnels_of w) -> user_steps (tunnels_of w) (tunnels_of (resolveVIP svc w).2).
Proof.
  intros Hv. unfold resolveVIP. case_bool_decide; simpl; [reflexivity|]. unfold mbind, ST_bind, try.
  destruct (kube_get_service svc w) as [r w'] eqn:Hs. apply get_service_law in Hs; [|done]. by destruct r.
Qed.

Lemma GetConfig_inv svc s r w o :
  fleet_inv s -> GetConfig svc (kube s, portAllocator s) = (r, (w, o)) ->
  fleet_inv (mkWorld w o (fwd s) (metrics s) (trace s)).
Proof.
  intros Hinv Hget. pose proof (GetConfig_result svc (kube s) (portAllocator s)) as Hres.
  destruct (kube_list_tunnels (kube s)) as [res w1] eqn:Hlist.
  destruct (list_tunnels_law _ _ _ (fi_view _ Hinv) Hlist) as [Hu Hitems].
  set (s1 := mkWorld w1 (portAllocator s) (fwd s) (metrics s) (trace s)).
  assert (fleet_inv s1) as Hinv1 by (eapply (calm_inv s); [by split|done]).
  destruct res as [items|e]; rewrite Hget in Hres; injection Hres as _ -> ->; [|done].
  destruct (fi_ports _ Hinv1) as (a & Ha & Hok & Hrec). simpl in Ha. rewrite Ha. simpl.
  rewrite load_all_known; [|apply Hok|].
  - apply (calm_inv s1); [|done]. split; [apply resolveVIP_users, Hinv1|done].
  - intros t Ht. apply list_elem_of_filter in Ht as [Hin Ht]. apply in_snapshot_live in Hin as [Hl Hp].
    rewrite (Hitems items eq_refl) in Ht. apply list_elem_of_fmap in Ht as ([k t'] & -> & Hk).
    apply elem_of_map_to_list in Hk. by apply (Hrec k).
Qed.

(** ** Runs *)

Definition with_trace (tr : list event) s : world W R F := mkWorld (kube s) (portAllocator s) (fwd s) (metrics s) tr.

Inductive fleet_step s : world W R F -> Prop :=
| fl_others w : user_steps (view s) (tunnels_of w) ->
    fleet_step s (mkWorld w (portAllocator s) (fwd s) (metrics s) (trace s))
| fl_forwarders f : fleet_step s (mkWorld (kube s) (portAllocator s) f (metrics s) (trace s))
| fl_reconcile rc req : fleet_step s (Reconcile rc req (with_trace [] s)).2
| fl_snapshot svc r w o : GetConfig svc (kube s, portAllocator s) = (r, (w, o)) ->
    fleet_step s (mkWorld w o (fwd s) (metrics s) (trace s)).

Lemma fleet_step_inv s s' : fleet_step s s' -> fleet_inv s -> fleet_inv s'.
Proof.
  intros [w Hu|f|rc req|svc r w o Hget] Hinv.
  - by apply (calm_inv s); [split|].
  - by apply (calm_inv s); [split|].
  - apply Reconcile_fleet_inv. by apply (calm_inv s); [split|].
  - by eapply GetConfig_inv.
Qed.

Lemma fleet_run_inv s s' : rtc fleet_step s s' -> fleet_inv s -> fleet_inv s'.
Proof. induction 1; eauto using fleet_step_inv. Qed.

Lemma fleet_inv_distinct s k k' t t' :
  fleet_inv s -> view s !! k = Some t -> view s !! k' = Some t' -> live t -> live t' -> port_of t <> 0 ->
  lo <= port_of t <= hi /\ (port_of t' = port_of t -> k' = k).
Proof.
  intros [Hv (a & Ha & (Hwf & <- & <-) & Hrec)] Hk Hk' Hl Hl' Hp. pose proof (Hrec k t Hk Hl Hp) as Hal.
  split; [by apply (wf_range a Hwf) in Hal|]. intros Heq.
  assert (allocated a !! tunnelKeyOf t' = Some (port_of t)) as Hal'.
  { rewrite <- Heq. apply (Hrec k'); [done..|congruence]. }
  apply (wf_inverse a Hwf) in Hal. apply (wf_inverse a Hwf) in Hal'.
  destruct (Hv _ _ Hk) as [<- Hns]. destruct (Hv _ _ Hk') as [<- Hns'].
  apply tunnelKeyOf_inj; [done..|]. congruence.
Qed.
End fleet.

(** *** From the start of the operator *)

Section run.
Context {W : Type} `{KubeClient W} `{!ClusterView W} `{!KubeLaws W} `{!ControllerUtil} `{!ControllerUtilLaws}
  {R : Type} `{RandSource R}.

(** The state in which [main] hands over to the manager. *)
Definition fleet_start (o : operator_state (W := W) (R := R)) (m : Metrics) : world W R ForwarderServer :=
  mkWorld (op_kube o) (Some (op_allocator o)) (Some (op_server o)) m [].

(** The keys of the listed tunnels are distinct. *)
Lemma recorded_keys_NoDup (m : gmap ObjectKey Tunnel) items :
  view_ok m -> items ≡ₚ (map_to_list m).*2 -> NoDup (recorded items).*1.
Proof.
  intros Hv Hitems.
  assert (NoDup (tunnelKeyOf <$> items)) as Hnd.
  { rewrite Hitems, <- list_fmap_compose. apply NoDup_fmap_2_strong; [|apply NoDup_map_to_list].
    intros [k t] [k' t'] Hk Hk' Heq. simpl in Heq. apply elem_of_map_to_list in Hk, Hk'.
    destruct (Hv _ _ Hk) as [E Hns]. destruct (Hv _ _ Hk') as [E' Hns'].
    apply tunnelKeyOf_inj in Heq; [|done..]. assert (k = k') as <- by congruence. congruence. }
  unfold recorded. rewrite <- list_fmap_compose. eapply sublist_NoDup; [exact Hnd|].
  apply (fmap_sublist tunnelKeyOf), sublist_filter.
Qed.

(** Every port that is recorded at the start is in the allocator. *)
Lemma start_records getenv http_get decode (rng : R) w items w' :
  view_ok (tunnels_of w) -> kube_list_tunnels w = (Ok items, w') -> user_steps (tunnels_of w) (tunnels_of w') ->
  items ≡ₚ (map_to_list (tunnels_of w')).*2 -> NoDup (recorded items).*2 ->
  (forall t, t ∈ items -> port_of t = 0 \/
     minPort (configured_range getenv rng) <= port_of t <= maxPort (configured_range getenv rng)) ->
  let o := operator_start getenv http_get decode rng w in
  op_kube o = w' /\
  alloc_ok (minPort (configured_range getenv rng)) (maxPort (configured_range getenv rng)) (op_allocator o) /\
  forall k t, tunnels_of w' !! k = Some t -> port_of t <> 0 -> allocated (op_allocator o) !! tunnelKeyOf t = Some (port_of t).
Proof.
  intros Hv Hlist Hu Hitems Hports Hrange o. pose proof (user_steps_ok _ _ Hu Hv) as Hv'.
  pose proof (recorded_keys_NoDup _ _ Hv' Hitems) as Hkeys.
  assert (wf (configured_range getenv rng)) as Hwf0.
  { apply New_wf; apply envInt32_range; unfold int32_ok; lia. }
  destruct (operator_start_keeps_ports getenv http_get decode rng w items w' Hlist Hkeys Hports) as (Hwf & Hal & _).
  { intros p Hp. apply list_elem_of_fmap in Hp as ([k q] & -> & Hp). apply list_elem_of_fmap in Hp as (t & [= -> ->] & Ht).
    apply list_elem_of_filter in Ht as [Hpos Ht]. destruct (Hrange t Ht) as [E|]; [unfold port_of in E; simpl; lia|done]. }
  fold o in Hwf, Hal. split_and!; [unfold o, operator_start, loadExistingAllocations; by rewrite Hlist| |].
  - split; [done|]. unfold o, operator_start, loadExistingAllocations. rewrite Hlist. simpl.
    rewrite load_tunnels_load_all. apply load_all_range.
  - intros k t Hk Hp. rewrite Hal. apply elem_of_list_to_map; [done|].
    assert (t ∈ items) as Hin.
    { rewrite Hitems. apply list_elem_of_fmap. exists (k, t). split; [done|]. by apply elem_of_map_to_list. }
    apply list_elem_of_fmap. exists t. split; [done|]. apply list_elem_of_filter. split; [|done].
    unfold port_of in *. destruct (Hrange t Hin) as [|Hr]; [done|]. destruct Hwf0 as [Hmin _ _ _ _]. lia.
Qed.

Lemma fleet_start_inv getenv http_get decode (rng : R) w items w' m :
  view_ok (tunnels_of w) -> kube_list_tunnels w = (Ok items, w') ->
  NoDup (recorded items).*2 ->
  (forall t, t ∈ items -> port_of t = 0 \/
     minPort (configured_range getenv rng) <= port_of t <= maxPort (configured_range getenv rng)) ->
  fleet_inv (minPort (configured_range getenv rng)) (maxPort (configured_range getenv rng))
    (fleet_start (operator_start getenv http_get decode rng w) m).
Proof.
  intros Hv Hlist Hports Hrange. destruct (list_tunnels_law _ _ _ Hv Hlist) as [Hu Hitems].
  destruct (start_records getenv http_get decode rng w items w' Hv Hlist Hu (Hitems items eq_refl) Hports Hrange) as (Hw & Hok & Hrec).
  split; [simpl; rewrite Hw; by eapply user_steps_ok|]. eexists. split_and!; [done|done|].
  intros k t Hk _ Hp. simpl in Hk. rewrite Hw in Hk. by eapply Hrec.
Qed.

(** Live tunnels never share a port.  Start the operator on a cluster whose
    recorded ports are distinct and in the configured range, and let it run: any
    reconciliations in any order, snapshots for forwarders, other clients acting at
    any time, API calls failing with or without effect, forwarders doing anything.
    Then the port of every tunnel that is neither marked for deletion nor Terminated
    is in the range and no other such tunnel has it. *)
Theorem live_ports_distinct getenv http_get decode (rng : R) w items w' m s k k' t t' :
  view_ok (tunnels_of w) -> kube_list_tunnels w = (Ok items, w') -> NoDup (recorded items).*2 ->
  (forall t, t ∈ items -> port_of t = 0 \/
     minPort (configured_range getenv rng) <= port_of t <= maxPort (configured_range getenv rng)) ->
  rtc fleet_step (fleet_start (operator_start getenv http_get decode rng w) m) s ->
  tunnels_of (kube s) !! k = Some t -> tunnels_of (kube s) !! k' = Some t' -> live t -> live t' -> port_of t <> 0 ->
  minPort (configured_range getenv rng) <= port_of t <= maxPort (configured_range getenv rng) /\
  (port_of t' = port_of t -> k' = k).
Proof.
  intros Hv Hlist Hports Hrange Hrun Hk Hk' Hl Hl' Hp. apply (fleet_inv_distinct _ _ s k k' t t'); [|done..].
  eapply fleet_run_inv; [exact Hrun|]. by eapply fleet_start_inv.
Qed.
End run.

(** *** Witness and corners *)

Definition fl_rc : TunnelReconciler :=
  mkReconciler true (mkKey "" "") "192.0.2.1" (Some (fun _ => Ok "gw-key")) (fun _ => "") (fun _ => Fail ErrCanceled)
    (fun _ => Fail ErrCanceled).
Definition fl_op (getenv : string -> string) : operator_state :=
  operator_start getenv (fun _ => Fail ErrCanceled) (fun _ => Fail ErrCanceled) 7 op_cluster.
Definition fl_start : world FakeKube Z ForwarderServer := fleet_start (fl_op op_getenv) (mkMetrics ∅ 0 ∅).
Definition fl_next : world FakeKube Z ForwarderServer := (Reconcile fl_rc (mkKey "team" "c") (with_trace [] fl_start)).2.
Definition fl_tunnel (name : string) (s : world FakeKube Z ForwarderServer) : Tunnel :=
  default (op_tunnel "" 0) (fk_tunnels (kube s) !! mkKey "team" name).

Lemma op_cluster_ok : view_ok (fk_tunnels op_cluster).
Proof.
  assert (map_Forall (fun k t => tunnel_key t = k /\ contains_char "/"%char (Namespace t) = false) (fk_tunnels op_cluster))
    as Hall by (apply (bool_decide_unpack (map_Forall _ _)); vm_compute; exact I).
  intros k t Hk. exact (Hall k t Hk).
Qed.

(** The tunnel without a port gets one that the others do not have. *)
Lemma live_ports_distinct_witness :
  port_of (fl_tunnel "c" fl_next) <> 0 /\
  51820 <= port_of (fl_tunnel "c" fl_next) <= 51830 /\
  (port_of (fl_tunnel "a" fl_next) = port_of (fl_tunnel "c" fl_next) -> mkKey "team" "a" = mkKey "team" "c").
Proof.
  split; [vm_compute; discriminate|].
  apply (live_ports_distinct op_getenv (fun _ => Fail ErrCanceled) (fun _ => Fail ErrCanceled) 7 op_cluster op_items op_cluster
    (mkMetrics ∅ 0 ∅) fl_next (mkKey "team" "c") (mkKey "team" "a") (fl_tunnel "c" fl_next) (fl_tunnel "a" fl_next)).
  - exact op_cluster_ok.
  - vm_compute. reflexivity.
  - apply (bool_decide_unpack (NoDup (recorded op_items).*2)). vm_compute. exact I.
  - assert (Forall (fun t => port_of t = 0 \/ 51820 <= port_of t <= 51830) op_items) as Hf
      by (apply (bool_decide_unpack (Forall _ _)); vm_compute; exact I).
    rewrite Forall_forall in Hf. exact Hf.
  - apply rtc_once. exact (fl_reconcile fl_start fl_rc (mkKey "team" "c")).
  - vm_compute. reflexivity.
  - vm_compute. reflexivity.
  - vm_compute. split; [reflexivity|discriminate].
  - vm_compute. split; [reflexivity|discriminate].
  - vm_compute. discriminate.
Defined.

(** An operator that cannot list the tunnels at start-up knows none of their ports:
    it logs a warning and goes on with an empty allocator. *)
Lemma failed_listing_loads_nothing {W : Type} `{KubeClient W} {R : Type} `{RandSource R}
    getenv http_get decode (rng : R) (w w' : W) e :
  kube_list_tunnels w = (Fail e, w') ->
  op_allocator (operator_start getenv http_get decode rng w) = configured_range getenv rng.
Proof. intros Hlist. unfold operator_start, loadExistingAllocations. by rewrite Hlist. Qed.

(** After such a start the first tunnel that needs a port can be given one that is in
    use: here the range has one port, which a live tunnel has. *)
Theorem failed_listing_reuses_port :
  let s := mkWorld op_cluster (Some (New 51821 51821 7)) (Some NewForwarderServer) (mkMetrics ∅ 0 ∅) [] in
  let s' := (Reconcile fl_rc (mkKey "team" "c") s).2 in
  live (fl_tunnel "a" s') /\ live (fl_tunnel "c" s') /\
  port_of (fl_tunnel "a" s') = 51821 /\ port_of (fl_tunnel "c" s') = 51821.
Proof. vm_compute. repeat split; discriminate. Qed.

(** [GetConfig] lists the tunnels and loads their ports afterwards.  A tunnel that is
    deleted and its port released in between is loaded again, and nothing releases
    that port until the operator restarts. *)
Theorem late_snapshot_load_leaks_port :
  let t := set_status (fun st => set_GatewayPublicKey "k" (set_GatewayPodIP "10.0.0.9" st)) (op_tunnel "a" 51821) in
  let a := Release (tunnelKeyOf t) (Allocate (tunnelKeyOf t) (New 51821 51821 7)).2 in
  let a' := (config_loop [t] [] (fake_empty, Some a)).2.2 in
  allocated a = ∅ /\ (GetPort (tunnelKeyOf t) <$> a') = Some (Some 51821) /\
  ((fun a => (Allocate "team/b" a).1) <$> a') = Some (AllocErr errRangeExhausted).
Proof. vm_compute. repeat split. Qed.

(** It can also take a port away from its tunnel.  The tunnel "a" had port 51821 when a
    snapshot listed the tunnels; before the snapshot loads the ports, "a" is deleted, made
    anew and given port 51822.  Loading the old port binds "a" to it and frees 51822, which
    the next tunnel is given although "a" has it. *)
Definition fl_listed : Tunnel :=
  set_status (fun st => set_GatewayPublicKey "k" (set_GatewayPodIP "10.0.0.9" st)) (op_tunnel "a" 51821).
Definition fl_reallocated : PortAllocator Z :=
  (Allocate "team/a" (Release "team/a" (Allocate "team/a" (New 51821 51822 2)).2)).2.
Definition fl_remade : FakeKube :=
  fk_set_tunnels {[mkKey "team" "a" := op_tunnel "a" 51822; mkKey "team" "b" := op_tunnel "b" 0]} fake_empty.

Theorem late_snapshot_load_steals_port :
  let s a := mkWorld fl_remade a (Some NewForwarderServer) (mkMetrics ∅ 0 ∅) [] in
  let loaded := (config_loop [fl_listed] [] (fl_remade, Some fl_reallocated)).2.2 in
  let s' := (Reconcile fl_rc (mkKey "team" "b") (s loaded)).2 in
  (Allocate "team/a" (New 51821 51822 2)).1 = AllocPort 51821 /\
  GetPort "team/a" fl_reallocated = Some 51822 /\ ports_recorded (fk_tunnels fl_remade) fl_reallocated /\
  (GetPort "team/a" <$> loaded) = Some (Some 51821) /\
  live (fl_tunnel "a" s') /\ live (fl_tunnel "b" s') /\
  port_of (fl_tunnel "a" s') = 51822 /\ port_of (fl_tunnel "b" s') = 51822.
Proof.
  cbv zeta. split_and!; try (vm_compute; reflexivity); try (vm_compute; split; [reflexivity|discriminate]).
  assert (map_Forall (fun _ t => port_of t = 0 \/ allocated fl_reallocated !! tunnelKeyOf t = Some (port_of t))
            (fk_tunnels fl_remade)) as Hall by (apply (bool_decide_unpack (map_Forall _ _)); vm_compute; exact I).
  intros k t Hk _ Hp. destruct (Hall k t Hk) as [|]; [by destruct Hp|done].
Qed.
