(* ===== verification/Restart.v ===== *)
(** * The operator is stopped, started again, and asked for snapshots meanwhile

    The allocator lives in memory; what survives the operator is the status of the
    tunnels.  The operator may end at any moment, also in the middle of a reconciliation,
    with a port allocated and not written yet or a finalizer removed and the port not
    released.  [doomed] is a cluster that serves a number of calls and then no more: the
    cluster a reconciliation leaves that was cut after that many calls.  [crash_step] lets
    the operator run as in [Fleet] and be replaced by a fresh one, built by
    [operator_start] from what the API server lists, after such a cut or between two steps.
    GetConfig, which [Fleet] takes as one step, is taken apart as well: it lists the tunnels,
    and loads the ports of the listing one by one at any later time, though between
    reconciliations and not in the middle of one.  Reads are current, as in [Cluster].

    The theorem on ports carries over, provided that no tunnel on its way out still shows
    the port of a live one when the operator starts, and that no port is loaded under the
    name of a tunnel that has got another one since.  The last theorem shows how the first
    comes about and that the start then hands the port to the wrong tunnel;
    [Fleet.late_snapshot_load_steals_port] does the same for the second. *)

From Stdlib Require Import Ascii.
From S2P Require Import Prelude GoStd Proto Api Kube Cluster Portalloc Server Controller Reconcile Calm Lifecycle Operator Fleet.

(** ** A cluster that stops answering *)

Record doomed (W : Type) := mkDoomed { survivor : W; calls_left : nat }.
Arguments mkDoomed {W} _ _.
Arguments survivor {W} _.
Arguments calls_left {W} _.

(** A call once none is left has no effect. *)
Definition limited {W A} (call : ST W A) : ST (doomed W) A := fun d =>
  match calls_left d with
  | O => (Fail (ErrNew "the operator has ended"), d)
  | S n => let '(r, w) := call (survivor d) in (r, mkDoomed w n)
  end.

#[export] Instance doomed_kube {W} `{KubeClient W} : KubeClient (doomed W) := {|
  kube_get_tunnel k := limited (kube_get_tunnel k);
  kube_list_tunnels := limited kube_list_tunnels;
  kube_update_tunnel t := limited (kube_update_tunnel t);
  kube_patch_status base t := limited (kube_patch_status base t);
  kube_delete_tunnel k := limited (kube_delete_tunnel k);
  kube_get_pod k := limited (kube_get_pod k);
  kube_create_pod p := limited (kube_create_pod p);
  kube_delete_pod k := limited (kube_delete_pod k);
  kube_create_or_update_policy k f := limited (kube_create_or_update_policy k f);
  kube_delete_policy k := limited (kube_delete_policy k);
  kube_get_service k := limited (kube_get_service k);
|}.

#[export] Instance doomed_view {W} `{ClusterView W} : ClusterView (doomed W) := fun d => tunnels_of (survivor d).

(** What a call does is nothing, or what the cluster does. *)
Lemma limited_cases {W A} (call : ST W A) d r d' :
  limited call d = (r, d') ->
  (survivor d' = survivor d /\ is_ok r = false) \/ call (survivor d) = (r, survivor d').
Proof.
  unfold limited. destruct (calls_left d); [intros [= <- <-]; by left|].
  destruct (call (survivor d)) as [r0 w]. intros [= <- <-]. by right.
Qed.

Lemma limited_users {W A} `{ClusterView W} (call : ST W A) d r d' :
  (forall r w', call (survivor d) = (r, w') -> user_steps (tunnels_of (survivor d)) (tunnels_of w')) ->
  limited call d = (r, d') -> user_steps (tunnels_of d) (tunnels_of d').
Proof.
  intros Hlaw [[E _]|E]%limited_cases; unfold tunnels_of, doomed_view; [by rewrite E|by eapply Hlaw].
Qed.

#[export] Instance doomed_laws {W} `{KubeLaws W} : KubeLaws (doomed W).
Proof.
  split; unfold tunnels_of at 1, doomed_view at 1; simpl.
  - intros k d r d' Hv Hcall. destruct (limited_cases _ _ _ _ Hcall) as [[E Hr]|E]; unfold tunnels_of, doomed_view.
    + rewrite E. split; [done|]. by intros t ->.
    + by eapply get_tunnel_law.
  - intros d r d' Hv Hcall. destruct (limited_cases _ _ _ _ Hcall) as [[E Hr]|E]; unfold tunnels_of, doomed_view.
    + rewrite E. split; [done|]. by intros t ->.
    + by eapply list_tunnels_law.
  - intros t d r d' Hv Hcall. destruct (limited_cases _ _ _ _ Hcall) as [[E Hr]|E]; unfold tunnels_of, doomed_view.
    + rewrite E. eexists. split_and!; [done..|]. by intros t' ->.
    + by eapply update_tunnel_law.
  - intros base t d r d' Hv Hcall. destruct (limited_cases _ _ _ _ Hcall) as [[E Hr]|E]; unfold tunnels_of, doomed_view.
    + rewrite E. eexists. split; [done|]. by left.
    + by eapply patch_status_law.
  - intros k d r d' Hv. apply limited_users. intros r0 w'. by apply delete_tunnel_law.
  - intros k d r d' Hv. apply limited_users. intros r0 w'. by apply get_pod_law.
  - intros k d r d' Hv. apply limited_users. intros r0 w'. by apply create_pod_law.
  - intros k d r d' Hv. apply limited_users. intros r0 w'. by apply delete_pod_law.
  - intros k f d r d' Hv. apply limited_users. intros r0 w'. by apply apply_policy_law.
  - intros k d r d' Hv. apply limited_users. intros r0 w'. by apply delete_policy_law.
  - intros k d r d' Hv. apply limited_users. intros r0 w'. by apply get_service_law.
Qed.

(** ** Loading ports some of which clash *)

Section loading.
Context {R : Type} `{RandSource R}.
Implicit Types (a : PortAllocator R) (l : list (string * Z)).

(** A load for another key and another port leaves a pair alone, bound or not. *)
Lemma LoadExisting_other k p k' p' a :
  wf a -> k' <> k -> p' <> p ->
  (allocated (LoadExisting k' p' a) !! k = allocated a !! k) /\
  (forall o, used (LoadExisting k' p' a) !! p = Some o -> used a !! p = Some o).
Proof.
  intros Hwf Hk Hp. destruct (LoadExisting_cases k' p' a Hwf) as [[_ ->]|[Hr Hown]]; [done|].
  rewrite LoadExisting_applied by done. simpl. split.
  - by rewrite lookup_insert_ne, Release_allocated, lookup_delete_ne by done.
  - intros o. rewrite lookup_insert_ne by done. unfold Release. destruct (allocated a !! k'); [|done]. simpl.
    by intros [_ Ho]%lookup_delete_Some.
Qed.

(** A pair nothing in the list clashes with is bound by the end, whatever the rest does. *)
Lemma load_all_binds l k p : forall a,
  wf a -> minPort a <= p <= maxPort a ->
  (forall k' p', (k', p') ∈ l -> (k' = k <-> p' = p)) -> (forall o, used a !! p = Some o -> o = k) ->
  allocated a !! k = Some p \/ (k, p) ∈ l -> allocated (load_all l a) !! k = Some p.
Proof.
  induction l as [|[k' p'] l IH]; intros a Hwf Hr Hl Hown Hb; simpl.
  { destruct Hb as [|Hin]; [done|]. by apply elem_of_nil in Hin. }
  pose proof (Hl k' p' (list_elem_of_here _ _)) as Hkp. pose proof (LoadExisting_range k' p' a) as [Hmin Hmax].
  apply IH; [by apply LoadExisting_wf|by rewrite Hmin, Hmax|by intros; apply Hl, list_elem_of_further| |].
  - destruct (decide (k' = k)) as [->|Hne].
    + rewrite (proj1 Hkp eq_refl), LoadExisting_applied by done. simpl. rewrite lookup_insert_eq. congruence.
    + intros o Ho. apply Hown. by apply (LoadExisting_other k p k' p' a Hwf Hne ltac:(tauto)).
  - destruct (decide (k' = k)) as [->|Hne].
    + left. rewrite (proj1 Hkp eq_refl), LoadExisting_applied by done. simpl. apply lookup_insert_eq.
    + destruct Hb as [Ha|Hin]; [left|right].
      * by rewrite (proj1 (LoadExisting_other k p k' p' a Hwf Hne ltac:(tauto))).
      * apply elem_of_cons in Hin as [[= -> ->]|Hin]; done.
Qed.
End loading.

(** ** Ports of a cluster *)

Section cluster.
Context (lo hi : Z).
Implicit Types (m : gmap ObjectKey Tunnel) (t : Tunnel).

(** Live tunnels have distinct ports in the range: what is left of the invariant of [Fleet]
    without the operator. *)
Definition sound_ports m : Prop :=
  forall k t, m !! k = Some t -> live t -> port_of t <> 0 ->
    lo <= port_of t <= hi /\ (forall k' t', m !! k' = Some t' -> live t' -> port_of t' = port_of t -> k' = k).

(** Every live tunnel with a port was there before, with that port. *)
Lemma user_step_live m m' k t :
  user_step m m' -> m' !! k = Some t -> live t -> port_of t <> 0 ->
  exists t0, m !! k = Some t0 /\ live t0 /\ port_of t0 = port_of t.
Proof.
  intros Hstep. destruct Hstep as [t0 _ _ He _|k0 t0 t1 Hk Hkey Hst Hdel|k0].
  - rewrite lookup_insert_Some. intros [[_ <-]|[_ Hk]]; [|eauto]. intros _ Hp. by apply empty_status_port in He.
  - rewrite lookup_insert_Some. intros [[<- <-]|[_ Hk']]; [|eauto]. intros [Hl1 Hl2] _. exists t0.
    unfold port_of. rewrite Hst in *. split_and!; [done| |done]. split; [|done].
    destruct (DeletionTimestamp t0); [|done]. rewrite Hl1 in Hdel. by destruct Hdel; [eexists|].
  - rewrite lookup_delete_Some. intros [_ Hk]. eauto.
Qed.

Lemma user_steps_sound m m' : user_steps m m' -> sound_ports m -> sound_ports m'.
Proof.
  induction 1 as [|m1 m2 m3 Hstep _ IH]; [done|]. intros Hs. apply IH. intros k t Hk Hl Hp.
  destruct (user_step_live _ _ _ _ Hstep Hk Hl Hp) as (t0 & Hk0 & Hl0 & E). rewrite <- E.
  destruct (Hs k t0 Hk0 Hl0) as [Hr Hd]; [congruence|]. split; [done|]. intros k' t' Hk' Hl' E'.
  destruct (user_step_live _ _ _ _ Hstep Hk' Hl') as (t0' & Hk0' & Hl0' & E0); [congruence|].
  apply (Hd k' t0'); [done..|congruence].
Qed.
End cluster.

(** ** Runs with restarts *)

Section restarts.
Context {W : Type} `{KubeClient W} `{!ClusterView W} `{!KubeLaws W} `{!ControllerUtil} `{!ControllerUtilLaws}
  {R : Type} `{RandSource R} (getenv : string -> string) (rng0 : R).
Implicit Types (s : world W R ForwarderServer) (t : Tunnel).

(** The configured range, which does not depend on the random source. *)
Let lo : Z := minPort (configured_range getenv rng0).
Let hi : Z := maxPort (configured_range getenv rng0).

(** The cluster when the operator ends: between two steps, or in a reconciliation of
    which the first [n] calls were made. *)
Definition on_doomed (n : nat) s : world (doomed W) R ForwarderServer :=
  mkWorld (mkDoomed (kube s) n) (portAllocator s) (fwd s) (metrics s) [].

Inductive interrupted s : W -> Prop :=
| between_steps : interrupted s (kube s)
| in_reconciliation rc req n : interrupted s (survivor (kube (Reconcile rc req (on_doomed n s)).2)).

(** No tunnel on its way out shows the port of a live one. *)
Definition no_leaving_clash (items : list Tunnel) : Prop :=
  forall t t', t ∈ items -> t' ∈ items -> live t -> ~ live t' -> port_of t <> 0 -> port_of t' <> port_of t.

(** The operator starts on a cluster it can list. *)
Inductive started (w : W) : world W R ForwarderServer -> Prop :=
| started_with http_get decode rng items w' m :
    kube_list_tunnels w = (Ok items, w') -> no_leaving_clash items ->
    started w (fleet_start (operator_start getenv http_get decode rng w) m).

(** The state: the operator with its cluster, and the tunnels snapshots have listed and
    may still load. *)
Record moment := mkMoment { m_world : world W R ForwarderServer; m_listed : list Tunnel }.

(** The name of [t] is free, or its tunnel has the port of [t], or none. *)
Definition still_its_port t s : Prop :=
  forall t', tunnels_of (kube s) !! tunnel_key t = Some t' -> live t' -> port_of t' = 0 \/ port_of t' = port_of t.

Definition load_one t (a : PortAllocator R) : PortAllocator R := LoadExisting (tunnelKey (Namespace t) (Name t)) (port_of t) a.

Inductive crash_step (x : moment) : moment -> Prop :=
| cs_runs s' : fleet_step (m_world x) s' -> crash_step x (mkMoment s' (m_listed x))
| cs_restarts w s' : interrupted (m_world x) w -> started w s' -> crash_step x (mkMoment s' [])
(** a snapshot lists the tunnels *)
| cs_lists items w' : let s := m_world x in
    kube_list_tunnels (kube s) = (Ok items, w') ->
    crash_step x (mkMoment (mkWorld w' (portAllocator s) (fwd s) (metrics s) (trace s))
                    (filter (fun t => in_snapshot t = true) items ++ m_listed x))
(** and loads a port it has listed *)
| cs_loads t a : let s := m_world x in
    t ∈ m_listed x -> portAllocator s = Some a -> still_its_port t s ->
    crash_step x (mkMoment (mkWorld (kube s) (Some (load_one t a)) (fwd s) (metrics s) (trace s)) (m_listed x)).

Lemma configured_range_any (rng : R) :
  minPort (configured_range getenv rng) = lo /\ maxPort (configured_range getenv rng) = hi.
Proof. unfold lo, hi, configured_range, New. by repeat case_bool_decide. Qed.

(** The pairs of the listing clash with that of a live tunnel only if they are its own. *)
Lemma recorded_clash m items k t :
  view_ok m -> items ≡ₚ (map_to_list m).*2 -> sound_ports lo hi m -> no_leaving_clash items ->
  m !! k = Some t -> live t -> port_of t <> 0 ->
  forall k' p', (k', p') ∈ recorded items -> (k' = tunnelKeyOf t <-> p' = port_of t).
Proof.
  intros Hv Hitems Hs Hno Hk Hl Hp k' p' Hin.
  assert (forall t0, t0 ∈ items <-> exists k0, m !! k0 = Some t0) as Hit.
  { intros t0. rewrite Hitems, list_elem_of_fmap. split.
    - intros ([k0 t1] & -> & Hin0). exists k0. by apply elem_of_map_to_list.
    - intros [k0 Hk0]. exists (k0, t0). split; [done|]. by apply elem_of_map_to_list. }
  apply list_elem_of_fmap in Hin as (t' & [= -> ->] & Hin). apply list_elem_of_filter in Hin as [Hpos Ht'].
  pose proof (proj1 (Hit t') Ht') as [k' Hk']. destruct (Hv _ _ Hk) as [E Hns], (Hv _ _ Hk') as [E' Hns']. split.
  - intros Heq. apply tunnelKeyOf_inj in Heq; [|done..]. unfold port_of. congruence.
  - intros Heq. change (port_of t' = port_of t) in Heq.
    assert (live t') as Hl'.
    { apply dec_stable. intros Hnl. apply (Hno t t'); [by apply Hit; eauto|done..]. }
    destruct (Hs k t Hk Hl Hp) as [_ Hd]. rewrite (Hd k' t' Hk' Hl' Heq) in Hk'. congruence.
Qed.

Lemma started_inv w s : view_ok (tunnels_of w) -> sound_ports lo hi (tunnels_of w) -> started w s -> fleet_inv lo hi s.
Proof.
  intros Hv Hs Hst. destruct Hst as [http_get decode rng items w' m Hlist Hno].
  destruct (list_tunnels_law _ _ _ Hv Hlist) as [Hu Hitems]. specialize (Hitems items eq_refl).
  pose proof (user_steps_ok _ _ Hu Hv) as Hv'. pose proof (user_steps_sound lo hi _ _ Hu Hs) as Hs'.
  destruct (configured_range_any rng) as [Elo Ehi].
  assert (wf (configured_range getenv rng)) as Hwf by (apply New_wf; apply envInt32_range; unfold int32_ok; lia).
  unfold fleet_start, operator_start, loadExistingAllocations. rewrite Hlist. simpl.
  fold (configured_range getenv rng). rewrite load_tunnels_load_all. split; [done|]. simpl. eexists. split; [done|].
  split; [|intros k t Hk Hl Hp].
  - split; [by apply load_all_wf|]. destruct (load_all_range (recorded items) (configured_range getenv rng)) as [-> ->]. done.
  - destruct (Hs' k t Hk Hl Hp) as [Hr _].
    apply load_all_binds; [done|by rewrite Elo, Ehi|by eapply recorded_clash| |right].
    + unfold configured_range, New. repeat case_bool_decide; simpl; intros o; by rewrite lookup_empty.
    + apply list_elem_of_fmap. exists t. split; [done|]. apply list_elem_of_filter. split.
      * unfold port_of in *. destruct Hwf as [Hmin _ _ _ _]. lia.
      * rewrite Hitems. apply list_elem_of_fmap. exists (k, t). split; [done|]. by apply elem_of_map_to_list.
Qed.

Lemma fleet_inv_sound {W' F} `{ClusterView W'} (s : world W' R F) : fleet_inv lo hi s -> sound_ports lo hi (tunnels_of (kube s)).
Proof.
  intros Hinv k t Hk Hl Hp. split; [|intros k' t' Hk' Hl' E]; by eapply (fleet_inv_distinct lo hi s k _ t).
Qed.

(** A reconciliation that is cut leaves a cluster the operator can start on. *)
Lemma interrupted_sound s w :
  fleet_inv lo hi s -> interrupted s w -> view_ok (tunnels_of w) /\ sound_ports lo hi (tunnels_of w).
Proof.
  intros Hinv [|rc req n]; [split; [apply Hinv|by apply fleet_inv_sound]|].
  assert (fleet_inv lo hi (Reconcile rc req (on_doomed n s)).2) as Hcut.
  { apply Reconcile_fleet_inv. destruct Hinv as [Hv Ha]. by split. }
  split; [apply Hcut|apply (fleet_inv_sound _ Hcut)].
Qed.

(** A late load leaves every port of a live tunnel alone. *)
Lemma late_load_inv t s a :
  fleet_inv lo hi s -> portAllocator s = Some a -> contains_char "/"%char (Namespace t) = false -> still_its_port t s ->
  fleet_inv lo hi (mkWorld (kube s) (Some (load_one t a)) (fwd s) (metrics s) (trace s)).
Proof.
  intros [Hv (a0 & Ha0 & (Hwf & E1 & E2) & Hrec)] Ha Hns Hstill. rewrite Ha in Ha0. injection Ha0 as <-.
  change (load_one t a) with (LoadExisting (tunnelKeyOf t) (port_of t) a).
  split; [done|]. eexists. split; [done|]. split.
  { split; [by apply LoadExisting_wf|]. destruct (LoadExisting_range (tunnelKeyOf t) (port_of t) a) as [-> ->]. done. }
  simpl. intros k t' Hk Hl Hp. specialize (Hrec k t' Hk Hl Hp). destruct (Hv _ _ Hk) as [Hkey Hns'].
  destruct (decide (tunnelKeyOf t = tunnelKeyOf t')) as [Hsame|Hdiff].
  - assert (tunnel_key t = k) as Hk' by (rewrite <- Hkey; by apply tunnelKeyOf_inj).
    destruct (Hstill t') as [|Hport]; [by rewrite Hk'|done|done|]. rewrite Hsame, <- Hport, LoadExisting_known; done.
  - destruct (decide (port_of t = port_of t')) as [Hport|Hport].
    + rewrite LoadExisting_ignored; [done|]. right; right. exists (tunnelKeyOf t').
      rewrite Hport. split; [by apply (wf_inverse a Hwf)|congruence].
    + by rewrite (proj1 (LoadExisting_other (tunnelKeyOf t') (port_of t') _ _ a Hwf Hdiff Hport)).
Qed.

Record moment_inv (x : moment) : Prop := {
  mi_fleet : fleet_inv lo hi (m_world x);
  mi_listed : forall t, t ∈ m_listed x -> contains_char "/"%char (Namespace t) = false;
}.

Lemma crash_step_inv x y : crash_step x y -> moment_inv x -> moment_inv y.
Proof.
  intros Hstep [Hinv Hl]. destruct Hstep as [s' Hstep|w s' Hint Hst|items w' s Hlist|t a s Hin Ha Hstill].
  - split; [by eapply fleet_step_inv|done].
  - destruct (interrupted_sound _ w Hinv Hint) as [Hv Hs]. split; [by eapply started_inv|by intros t Ht%elem_of_nil].
  - destruct (list_tunnels_law _ _ _ (fi_view _ _ _ Hinv) Hlist) as [Hu Hitems]. specialize (Hitems items eq_refl).
    split; [by apply (calm_inv _ _ s); [split|]|]. simpl. intros t [Ht|Ht]%elem_of_app; [|by apply Hl].
    apply list_elem_of_filter in Ht as [_ Ht]. rewrite Hitems in Ht. apply list_elem_of_fmap in Ht as ([k t'] & -> & Ht).
    apply elem_of_map_to_list in Ht. by apply (user_steps_ok _ _ Hu (fi_view _ _ _ Hinv) k).
  - split; [|done]. apply late_load_inv; auto.
Qed.

(** C4: live tunnels keep distinct ports when the operator is killed and started again, and
    while snapshots overlap reconciliations.  Start the operator on a cluster whose live
    tunnels have distinct ports in the configured range; let it run, be ended at any moment,
    also after any number of calls of a reconciliation, and be started again any number of
    times; and let snapshots list the tunnels and load the listed ports at any time after.
    If every start can list the tunnels and finds no tunnel on its way out that shows the
    port of a live one, and no port is loaded under the name of a tunnel that has another
    one by then, the ports of live tunnels are at every later moment, also one in the middle
    of a reconciliation, in the range and distinct. *)
Theorem ports_survive_crashes w s0 x w1 k k' t t' :
  view_ok (tunnels_of w) -> sound_ports lo hi (tunnels_of w) ->
  started w s0 -> rtc crash_step (mkMoment s0 []) x -> interrupted (m_world x) w1 ->
  tunnels_of w1 !! k = Some t -> tunnels_of w1 !! k' = Some t' -> live t -> live t' -> port_of t <> 0 ->
  lo <= port_of t <= hi /\ (port_of t' = port_of t -> k' = k).
Proof.
  intros Hv Hs Hst Hrun Hint Hk Hk' Hl Hl' Hp.
  assert (moment_inv (mkMoment s0 [])) as Hinv0 by (split; [by eapply started_inv|by intros t0 Ht%elem_of_nil]).
  assert (moment_inv x) as [Hinv _] by (clear Hst Hint; induction Hrun; eauto using crash_step_inv).
  destruct (interrupted_sound _ w1 Hinv Hint) as [_ Hsound]. destruct (Hsound k t Hk Hl Hp) as [Hr Hd].
  split; [done|]. by intros; eapply Hd.
Qed.
End restarts.

(** *** Witness: a port that was allocated and not written

    The reconciliation that gives the tunnel "c" a port is cut before the status is
    written; the next operator starts, and its reconciliation is cut right after. *)

Definition rs_no : string -> res (Z * string) := fun _ => Fail ErrCanceled.
Definition rs_nodecode : string -> res string := fun _ => Fail ErrCanceled.
Definition rs_cut (n : nat) (s : world FakeKube Z ForwarderServer) : FakeKube :=
  survivor (kube (Reconcile fl_rc (mkKey "team" "c") (on_doomed n s)).2).
Definition rs_start (getenv : string -> string) (w : FakeKube) : world FakeKube Z ForwarderServer :=
  fleet_start (operator_start getenv rs_no rs_nodecode 7 w) (mkMetrics ∅ 0 ∅).
Definition rs_next : world FakeKube Z ForwarderServer := rs_start op_getenv (rs_cut 5 (rs_start op_getenv op_cluster)).
Definition rs_end : FakeKube := rs_cut 7 rs_next.
Definition rs_tunnel (name : string) (w : FakeKube) : Tunnel := default (op_tunnel "" 0) (fk_tunnels w !! mkKey "team" name).

Definition all_live (items : list Tunnel) : bool := bool_decide (Forall live items).

Lemma all_live_no_clash items : all_live items = true -> no_leaving_clash items.
Proof.
  intros Hall t t' _ Ht' _ Hnl. apply bool_decide_eq_true in Hall. rewrite Forall_forall in Hall. by destruct Hnl; apply Hall.
Qed.

Example rs_cut_before_write :
  ForwarderPort (Status (rs_tunnel "c" (rs_cut 5 (rs_start op_getenv op_cluster)))) = 0 /\
  finalizerName ∈ Finalizers (rs_tunnel "c" (rs_cut 5 (rs_start op_getenv op_cluster))) /\
  ForwarderPort (Status (rs_tunnel "c" rs_end)) <> 0.
Proof. split_and!; [vm_compute; reflexivity|vm_compute; left|vm_compute; discriminate]. Qed.

Lemma rs_sound :
  sound_ports (minPort (configured_range op_getenv 7)) (maxPort (configured_range op_getenv 7)) (tunnels_of op_cluster).
Proof.
  change (tunnels_of op_cluster) with (tunnels_of (kube (rs_start op_getenv op_cluster))).
  apply fleet_inv_sound. apply (fleet_start_inv op_getenv rs_no rs_nodecode 7 op_cluster op_items op_cluster).
  - exact op_cluster_ok.
  - vm_compute. reflexivity.
  - apply (bool_decide_unpack (NoDup (recorded op_items).*2)). vm_compute. exact I.
  - assert (Forall (fun t => port_of t = 0 \/ 51820 <= port_of t <= 51830) op_items) as Hf
      by (apply (bool_decide_unpack (Forall _ _)); vm_compute; exact I).
    rewrite Forall_forall in Hf. exact Hf.
Qed.

Lemma ports_survive_crashes_witness :
  51820 <= port_of (rs_tunnel "c" rs_end) <= 51830 /\
  (port_of (rs_tunnel "a" rs_end) = port_of (rs_tunnel "c" rs_end) -> mkKey "team" "a" = mkKey "team" "c").
Proof.
  apply (ports_survive_crashes op_getenv 7 op_cluster (rs_start op_getenv op_cluster) (mkMoment rs_next []) rs_end
    (mkKey "team" "c") (mkKey "team" "a") (rs_tunnel "c" rs_end) (rs_tunnel "a" rs_end)).
  - exact op_cluster_ok.
  - exact rs_sound.
  - apply (started_with op_getenv op_cluster rs_no rs_nodecode 7 op_items op_cluster); [vm_compute; reflexivity|].
    apply all_live_no_clash. vm_compute. reflexivity.
  - apply rtc_once. apply (cs_restarts op_getenv (mkMoment (rs_start op_getenv op_cluster) []) (rs_cut 5 (rs_start op_getenv op_cluster))).
    + apply in_reconciliation.
    + eapply (started_with op_getenv _ rs_no rs_nodecode 7 (map_to_list (fk_tunnels (rs_cut 5 (rs_start op_getenv op_cluster)))).*2);
        [reflexivity|]. apply all_live_no_clash. vm_compute. reflexivity.
  - apply in_reconciliation.
  - vm_compute. reflexivity.
  - vm_compute. reflexivity.
  - vm_compute. split; [reflexivity|discriminate].
  - vm_compute. split; [reflexivity|discriminate].
  - vm_compute. discriminate.
Defined.

(** *** A tunnel on its way out can take a live tunnel's port

    One port; the tunnel "y" has it and another controller's finalizer.  It is deleted: the
    operator removes its own finalizer and releases the port, but the object stays, with
    the port in its status.  The tunnel "x" is given the port. *)

Definition lc_getenv (key : string) : string :=
  if bool_decide (key = "FORWARDER_PORT_RANGE_MIN") || bool_decide (key = "FORWARDER_PORT_RANGE_MAX") then "51821" else "".
Definition lc_reconcile (name : string) (s : world FakeKube Z ForwarderServer) : world FakeKube Z ForwarderServer :=
  (Reconcile fl_rc (mkKey "team" name) (with_trace [] s)).2.
Definition lc_create (name : string) (s : world FakeKube Z ForwarderServer) : world FakeKube Z ForwarderServer :=
  mkWorld (fk_set_tunnels (<[mkKey "team" name := op_tunnel name 0]> (fk_tunnels (kube s))) (kube s))
    (portAllocator s) (fwd s) (metrics s) [].
Definition lc_held : Tunnel :=
  mkTunnel "y" "team" (Some 1) [finalizerName; "example.com/other"] (Spec (op_tunnel "y" 0)) (Status (op_tunnel "y" 51821)).
Definition lc_first : world FakeKube Z ForwarderServer :=
  rs_start lc_getenv (fk_set_tunnels {[mkKey "team" "y" := lc_held]} fake_empty).
Definition lc_second : world FakeKube Z ForwarderServer := lc_reconcile "x" (lc_create "x" (lc_reconcile "y" lc_first)).
Definition lc_restarted : world FakeKube Z ForwarderServer := rs_start lc_getenv (kube lc_second).
Definition lc_third : world FakeKube Z ForwarderServer := lc_reconcile "z" (lc_create "z" (lc_reconcile "y" lc_restarted)).

(** When the operator is started again it loads the listed ports in the order of the
    listing, also those of tunnels on their way out, and the first one has the port.  Here
    that is the tunnel that is leaving; its next reconciliation releases the port again, and
    a third tunnel is given the port that "x" has all along. *)
Theorem leaving_tunnel_takes_port :
  GetPort "team/x" <$> portAllocator lc_second = Some (Some 51821) /\
  live (fl_tunnel "x" lc_second) /\ ~ live (fl_tunnel "y" lc_second) /\
  (GetPort "team/x" <$> portAllocator lc_restarted) = Some None /\
  (GetPort "team/y" <$> portAllocator lc_restarted) = Some (Some 51821) /\
  live (fl_tunnel "x" lc_third) /\ live (fl_tunnel "z" lc_third) /\
  port_of (fl_tunnel "x" lc_third) = 51821 /\ port_of (fl_tunnel "z" lc_third) = 51821.
Proof.
  split_and!; try (vm_compute; reflexivity); try (vm_compute; split; [reflexivity|discriminate]).
  vm_compute. by intros [[=] _].
Qed.
