(* ===== verification/Convergence.v ===== *)
(** * From publication to route

    How what the server publishes reaches a forwarder's routing table: the forwarder
    registers a stream, the server sends SYNC, the forwarder fetches a snapshot and
    then handles the updates published since it registered, those published before
    the snapshot was taken included.  Server, client and forwarder are composed here;
    nothing is assumed about what is published, or about the snapshot.  The theorem
    says for every port which publication decides what it serves. *)

From S2P Require Import Prelude GoStd Proto Api Kube Portalloc Server Session Proxy Controller Client Forwarder.

(** The update is about port [p] and changes the table: an addition or modification
    with an address, or a deletion. *)
Definition concerns (p : Z) (u : TunnelUpdate) : Prop :=
  tu_Tunnel u <> None /\ GetForwarderPort (tu_Tunnel u) = p /\ 0 < p /\
  match GetType (Some u) with
  | ADDED | MODIFIED => TrimSpace (GetGatewayAddress (tu_Tunnel u)) <> ""
  | DELETED => True
  | SYNC | UpdateTypeOther _ => False
  end.

#[export] Instance concerns_dec p u : Decision (concerns p u).
Proof. unfold concerns. destruct (GetType (Some u)); apply _. Defined.

(** ** One port of the table *)

Section port.
Context (p : Z).
Implicit Types (T : gmap Z route) (u : TunnelUpdate) (us : list TunnelUpdate).

Lemma table_update_other T u : ~ concerns p u -> table_update T u !! p = T !! p.
Proof.
  intros Hno. unfold table_update. case_bool_decide as Hm; [done|]. case_bool_decide as Hp; [done|]. simpl.
  destruct (decide (GetForwarderPort (tu_Tunnel u) = p)) as [E|E].
  - destruct (GetType (Some u)) eqn:Ht; try done; [case_bool_decide as Ha; [done|]..|];
      destruct Hno; (split_and!; [done|done|lia|by rewrite Ht]).
  - destruct (GetType (Some u)); try done; [case_bool_decide as Ha; [done|by rewrite lookup_insert_ne]..|by rewrite lookup_delete_ne].
Qed.

Lemma table_update_concerned T u :
  concerns p u -> table_update T u !! p =
    if bool_decide (GetType (Some u) = DELETED) then None else Some (newest (T !! p) (mapping_route (tu_Tunnel u))).
Proof.
  intros (Hm & <- & Hp & Ht). unfold table_update.
  rewrite (bool_decide_false (tu_Tunnel u = None)) by done. rewrite (bool_decide_false (_ <= 0)) by lia. simpl.
  destruct (GetType (Some u)); try done; [rewrite bool_decide_false by done; by rewrite lookup_insert_eq..|by rewrite lookup_delete_eq].
Qed.

Lemma table_fold_other T us : Forall (fun u => ~ concerns p u) us -> foldl table_update T us !! p = T !! p.
Proof. intros Hus. revert T. induction Hus as [|u us Hu _ IH]; intros T; simpl; [done|]. by rewrite IH, table_update_other. Qed.

Lemma newest_cases v r :
  newest v r = r \/ exists old, v = Some old /\ newest v r = old /\
    r_name old = r_name r /\ r_namespace old = r_namespace r /\ r_revision old > r_revision r.
Proof.
  unfold newest. destruct v as [old|]; [|by left]. destruct (same_owner old r && _) eqn:E; [right|by left].
  apply andb_true_iff in E as [E1 E2]. apply bool_decide_eq_true in E2.
  unfold same_owner in E1. apply andb_true_iff in E1 as [E1 E3]. apply bool_decide_eq_true in E1, E3. eauto 10.
Qed.
(** A route in the table was there before or is that of an update. *)
Lemma table_fold_source T us r :
  foldl table_update T us !! p = Some r ->
  T !! p = Some r \/ exists u, u ∈ us /\ concerns p u /\ GetType (Some u) <> DELETED /\ r = mapping_route (tu_Tunnel u).
Proof.
  induction us as [|u us IH] using rev_ind; [by left|]. rewrite foldl_app. simpl.
  assert (foldl table_update T us !! p = Some r ->
    T !! p = Some r \/ exists u', u' ∈ us ++ [u] /\ concerns p u' /\ GetType (Some u') <> DELETED /\ r = mapping_route (tu_Tunnel u')) as Hold.
  { intros Hr. destruct (IH Hr) as [|(u' & Hin & Hrest)]; [by left|right]. exists u'. split; [set_solver|done]. }
  destruct (decide (concerns p u)) as [Hc|Hc]; [|by rewrite table_update_other].
  rewrite table_update_concerned by done. case_bool_decide as Ht; [done|]. intros [= Hr].
  destruct (newest_cases (foldl table_update T us !! p) (mapping_route (tu_Tunnel u))) as [E|(old & Hv & E & _)]; rewrite E in Hr; subst r.
  - right. exists u. split; [set_solver|done].
  - by apply Hold.
Qed.
End port.

(** ** A whole session *)

(** The table of a forwarder that has handled its stream: the snapshot, then the
    published updates. *)
Lemma session_routes {O : Type} `{OperatorAPI O} os_refuses fid (s s' : fproc O) a e sys ptr st us c :
  server_reachable sys -> streams (srv sys) !! ptr = Some st -> updates st = [] -> overflow st = false ->
  published sys !! ptr = Some us -> delivered sys !! ptr = Some (wa_stream a) ->
  os_healthy os_refuses -> proxy_inv (f_proxy s) ->
  wa_config a = Ok c -> config_ports_ok c -> Forall update_port_ok us ->
  watch_session (onSnapshot os_refuses fid) (onUpdate os_refuses fid) a s = (e, true, s') ->
  routes (f_proxy s') = foldl table_update (table_config c (routes (f_proxy s))) us.
Proof.
  intros Hsys Hst Hq Hov Hp Hd Hos Hinv Hcfg Hports Hus Hsess.
  destruct (sinv_streams sys (server_reachable_inv sys Hsys) ptr st Hst) as (d & p & Hd' & Hp' & [_ Hhead _ Hcomp]).
  rewrite Hd in Hd'. injection Hd' as <-. rewrite Hp in Hp'. injection Hp' as <-.
  specialize (Hcomp Hov). rewrite Hq, app_nil_r in Hcomp.
  pose proof (watch_session_table os_refuses fid a _ s Hos Hcfg Hports) as Htab. rewrite Hsess in Htab.
  destruct Htab as (_ & Hsync & _); [|done|].
  { destruct (wa_stream a) as [|u l]; [constructor|]. simpl in Hcomp. subst l. constructor; [|done].
    destruct Hhead as [|Hhead]; [done|]. injection Hhead as ->. done. }
  destruct (Hsync eq_refl) as [_ Hroutes]. by rewrite Hroutes, Hcomp.
Qed.

(** C5: the last publication decides.  Take any state the server can reach, a stream of
    it that has been sent out to the end without an overflow, and a forwarder that
    applied a snapshot and handled that stream, with every socket granted.  Then for
    every port: if no update about it was published since the stream was registered,
    the port serves what it served after the snapshot; if the last update about it was
    a deletion, it serves nothing; and if it was an addition or a modification, it
    serves exactly that update's mapping, or else a route of the same tunnel with a
    higher revision, which was published earlier on the stream or was there after the
    snapshot. *)
Theorem last_publication_decides {O : Type} `{OperatorAPI O} os_refuses fid (s s' : fproc O) a e sys ptr st us c p :
  server_reachable sys -> streams (srv sys) !! ptr = Some st -> updates st = [] -> overflow st = false ->
  published sys !! ptr = Some us -> delivered sys !! ptr = Some (wa_stream a) ->
  os_healthy os_refuses -> proxy_inv (f_proxy s) ->
  wa_config a = Ok c -> config_ports_ok c -> Forall update_port_ok us ->
  watch_session (onSnapshot os_refuses fid) (onUpdate os_refuses fid) a s = (e, true, s') ->
  let snapshot := table_config c (routes (f_proxy s)) in
  (Forall (fun u => ~ concerns p u) us -> routes (f_proxy s') !! p = snapshot !! p) /\
  (forall us1 u us2, us = us1 ++ u :: us2 -> concerns p u -> Forall (fun u => ~ concerns p u) us2 ->
     (GetType (Some u) = DELETED -> routes (f_proxy s') !! p = None) /\
     (GetType (Some u) <> DELETED ->
        routes (f_proxy s') !! p = Some (mapping_route (tu_Tunnel u)) \/
        exists r, routes (f_proxy s') !! p = Some r /\
          r_name r = GetTunnelName (tu_Tunnel u) /\ r_namespace r = GetTunnelNamespace (tu_Tunnel u) /\
          r_revision r > GetRevision (tu_Tunnel u) /\
          (snapshot !! p = Some r \/
           exists u', u' ∈ us1 /\ concerns p u' /\ GetType (Some u') <> DELETED /\ r = mapping_route (tu_Tunnel u')))).
Proof.
  intros Hsys Hst Hq Hov Hp Hd Hos Hinv Hcfg Hports Hus Hsess snapshot.
  rewrite (session_routes os_refuses fid s s' a e sys ptr st us c) by done. fold snapshot.
  split; [by apply table_fold_other|]. intros us1 u us2 -> Hc Hno. rewrite foldl_app. simpl.
  rewrite table_fold_other, table_update_concerned by done. split; intros Ht.
  - by rewrite bool_decide_true.
  - rewrite bool_decide_false by done.
    destruct (newest_cases (foldl table_update snapshot us1 !! p) (mapping_route (tu_Tunnel u))) as [->|(old & Hold & -> & En & Es & Er)];
      [by left|right]. exists old. split_and!; [done..|]. by apply table_fold_source.
Qed.

(** *** Witness

    The gateway of a published tunnel is replaced after the forwarder registered and
    before it takes its snapshot, so the stream holds the old mapping and the new one,
    and the snapshot the new one. *)

Definition cv_tunnel (ip : string) (rev : Z) : Tunnel :=
  mkTunnel "db" "team" None [] (mkSpec "team" (mkTarget "h" 80 "10.0.0.1" None) "k" None)
    (mkStatus "Ready" "gw-key" 51821 "" "tunnel-gateway-db" "uid" ip rev "").
Definition cv_old : Tunnel := cv_tunnel "10.0.0.5" 2.
Definition cv_new : Tunnel := cv_tunnel "10.0.0.6" 3.
Definition cv_update (t : Tunnel) : TunnelUpdate := mkTunnelUpdate (Some MODIFIED) (Some (publishedMapping t)).

Definition cv_sys1 : server_sys := open_stream 0 (Some (mkStreamUpdatesRequest (Some "fwd"))) sys_init.
Definition cv_sys2 : server_sys := mkSys (srv cv_sys1) (<[0%nat := [sync_update]]> (delivered cv_sys1)) (published cv_sys1).
Definition cv_sys3 : server_sys := notify (Some (cv_update cv_new)) (notify (Some (cv_update cv_old)) cv_sys2).
Definition cv_send (q : list TunnelUpdate) (d : list TunnelUpdate) (x : server_sys) : server_sys :=
  mkSys (set_stream 0 (mkStream "fwd" q false) (srv x)) (<[0%nat := d]> (delivered x)) (published x).
Definition cv_sys4 : server_sys := cv_send [cv_update cv_new] [sync_update; cv_update cv_old] cv_sys3.
Definition cv_sys5 : server_sys := cv_send [] [sync_update; cv_update cv_old; cv_update cv_new] cv_sys4.

Definition cv_attempt : watch_attempt :=
  mkAttempt None None [sync_update; cv_update cv_old; cv_update cv_new] ErrCanceled
    (Ok (mkForwarderConfig None (Some ∘ mapping_of <$> [cv_new]))) None.
Definition cv_proc : fproc ForwarderServer := mkProc (NewUDPProxy proxyIdleTimeout) false (srv cv_sys5) [].
Definition cv_end : fproc ForwarderServer :=
  (watch_session (onSnapshot (fun _ => false) "fwd") (onUpdate (fun _ => false) "fwd") cv_attempt cv_proc).2.

Lemma cv_sys5_reachable : server_reachable cv_sys5.
Proof.
  apply rtc_r with cv_sys4; [apply rtc_r with cv_sys3; [apply rtc_r with (notify (Some (cv_update cv_old)) cv_sys2);
    [apply rtc_r with cv_sys2; [apply rtc_r with cv_sys1; [apply rtc_once|]|]|]|]|].
  - by apply step_open.
  - by apply (step_sync _ 0 (mkStream "fwd" [] false)).
  - apply step_notify.
  - apply step_notify.
  - apply (step_send cv_sys3 0 (mkStream "fwd" [cv_update cv_old; cv_update cv_new] false) (cv_update cv_old)
      [cv_update cv_new] [sync_update]); [vm_compute; reflexivity..|done].
  - apply (step_send cv_sys4 0 (mkStream "fwd" [cv_update cv_new] false) (cv_update cv_new) []
      [sync_update; cv_update cv_old]); [vm_compute; reflexivity..|done].
Qed.

Lemma last_publication_decides_witness :
  routes (f_proxy cv_end) !! 51821 = Some (mkRoute "db" "team" "10.0.0.6:51820" 3).
Proof.
  destruct (last_publication_decides (fun _ => false) "fwd" cv_proc cv_end cv_attempt ErrCanceled cv_sys5 0%nat
    (mkStream "fwd" [] false) [cv_update cv_old; cv_update cv_new]
    (mkForwarderConfig None (Some ∘ mapping_of <$> [cv_new])) 51821) as [_ Hlast].
  - exact cv_sys5_reachable.
  - vm_compute. reflexivity.
  - reflexivity.
  - reflexivity.
  - vm_compute. reflexivity.
  - vm_compute. reflexivity.
  - done.
  - apply NewUDPProxy_inv.
  - reflexivity.
  - apply Forall_singleton. discriminate.
  - repeat constructor; discriminate.
  - vm_compute. reflexivity.
  - destruct (Hlast [cv_update cv_old] (cv_update cv_new) []) as [_ Hserved].
    + reflexivity.
    + apply (bool_decide_unpack _). vm_compute. exact I.
    + constructor.
    + destruct Hserved as [Hr|(r & _ & _ & _ & Hrev & [Hr|(u & Hu & _ & _ & ->)])]; [discriminate|exact Hr| |].
      * vm_compute in Hr. injection Hr as <-. vm_compute in Hrev. discriminate Hrev.
      * apply list_elem_of_singleton in Hu as ->. vm_compute in Hrev. discriminate Hrev.
Defined.
