(* ===== verification/Gateway.v ===== *)
(** * The gateway process (cmd/gateway/main.go, pkg/wireguard/wireguard.go)

    [start] is [run] up to the point where it serves: it reads the environment,
    makes the WireGuard device, listens inside the tunnel and only then publishes its
    public key on /status.  wireguard-go, gVisor's netstack and wgtypes are not part
    of the repository: what they answer is the environment [gw_env].

    From there on the process is the step relation [gw_step]: the accept loop, the
    connection handlers, the goroutine that watches for inactivity, and the exit of
    the main goroutine, interleaved in any order with the passing of time. *)

From Stdlib Require Import Ascii.
From S2P Require Import Prelude GoStd Api Kube Portalloc Server Controller Forwarder Operator.

(** ** Keys and the device (wireguard.go) *)

(** A key is its 32 bytes. *)
Definition Key := list Z.

Definition hex_digit (d : Z) : ascii :=
  if bool_decide (d < 10) then ascii_of_N (Z.to_N (48 + d)) else ascii_of_N (Z.to_N (87 + d)).

(** [hex.EncodeToString(key[:])] *)
Fixpoint encodeKey (key : Key) : string :=
  match key with
  | [] => ""
  | b :: key => String (hex_digit (Z.shiftr b 4)) (String (hex_digit (Z.land b 15)) (encodeKey key))
  end.

Definition TunnelIPGateway : string := "10.0.0.2/30".
Definition PersistentKeepalive : Z := 20.

(** The buffer sizes of gVisor's tcp package. *)
Record tcp_sizes := mkTcpSizes {
  MinBufferSize : Z;
  DefaultReceiveBufferSize : Z;
  DefaultSendBufferSize : Z;
}.

Inductive stack_option :=
| TCPReceiveBufferSizeRange (min default max : Z)
| TCPSendBufferSizeRange (min default max : Z)
| TCPRecovery (flags : Z).

(** The options set on a network stack so far, in order; [None] is a nil stack. *)
Definition tuneStack (c : tcp_sizes) (s : option (list stack_option)) : option (list stack_option) :=
  match s with
  | None => None
  | Some opts => Some (opts ++
      [TCPReceiveBufferSizeRange (MinBufferSize c) (DefaultReceiveBufferSize c) (Z.shiftl 8 20);
       TCPSendBufferSizeRange (MinBufferSize c) (DefaultSendBufferSize c) (Z.shiftl 6 20);
       TCPRecovery 0])
  end.

(** The logger of a device: silent, or the caller's in the group "wireguard", to which
    the device's verbose messages go as Debug and its errors as Error. *)
Inductive device_logger := SilentLogger | SlogLogger (group : string).
Definition slogDeviceLogger (has_logger : bool) : device_logger :=
  if has_logger then SlogLogger "wireguard" else SilentLogger.
Definition device_log (l : device_logger) (is_error : bool) : option Level :=
  match l with SilentLogger => None | SlogLogger _ => Some (if is_error then LevelError else LevelDebug) end.

Record device_env := mkDeviceEnv {
  d_parse_prefix : string -> option error;
  d_create_tun : option error;
  d_bind_nil : bool;
  d_ipc_set : string -> option error;
  d_up : option error;
  d_sizes : tcp_sizes;
  (** the stack inside the netstack *)
  d_stack : option (list stack_option);
}.

Record Device := mkDevice {
  dv_config : string;
  dv_stack : option (list stack_option);
  dv_logger : device_logger;
}.

(** [Close] of a device pointer and its inner device, either of which may be nil; the
    number of devices it closes. *)
Definition Device_Close (d : option (option Device)) : Z :=
  match d with
  | None => 0
  | Some None => 0
  | Some (Some _) => 1
  end.

(** The configuration text given to [IpcSet]. *)
Definition device_config (privateKey peerPublicKey : Key) (endpoint listenPortConfig : string) : string :=
  let cfg := "private_key=" +:+ encodeKey privateKey +:+ newline +:+
             listenPortConfig +:+ "public_key=" +:+ encodeKey peerPublicKey +:+ newline +:+
             "persistent_keepalive_interval=" +:+ Itoa PersistentKeepalive +:+ newline +:+
             "allowed_ip=0.0.0.0/0" +:+ newline in
  if bool_decide (endpoint <> "") then cfg +:+ "endpoint=" +:+ endpoint +:+ newline else cfg.

(** The device that is up, and how many devices were left open. *)
Definition newDevice (env : device_env) (privateKey peerPublicKey : Key)
    (endpoint listenPortConfig localIP : string) (has_logger : bool) : res Device * Z :=
  match d_parse_prefix env localIP with
  | Some e => (Fail (ErrWrap ("parse local IP " +:+ localIP) e), 0)
  | None =>
      match d_create_tun env with
      | Some e => (Fail (ErrWrap "create netstack TUN" e), 0)
      | None =>
          if d_bind_nil env then (Fail (ErrNew "wireguard bind is nil"), 0)
          else
            let cfg := device_config privateKey peerPublicKey endpoint listenPortConfig in
            match d_ipc_set env cfg with
            | Some e => (Fail (ErrWrap "configure wireguard device" e), 1 - 1)
            | None =>
                match d_up env with
                | Some e => (Fail (ErrWrap "bring up wireguard device" e), 1 - 1)
                | None => (Ok (mkDevice cfg (tuneStack (d_sizes env) (d_stack env)) (slogDeviceLogger has_logger)), 1)
                end
            end
      end
  end.

Definition NewDevice (env : device_env) (privateKey peerPublicKey : Key) (endpoint : string) (listenPort : Z)
    (localIP : string) (has_logger : bool) : res Device * Z :=
  newDevice env privateKey peerPublicKey endpoint ("listen_port=" +:+ Itoa listenPort +:+ newline) localIP has_logger.

(** ** Start-up (main.go) *)

Definition targetAddress (host ip : string) (port : Z) : string :=
  if bool_decide (ip <> "") then JoinHostPort ip (Itoa port) else JoinHostPort host (Itoa port).

(** The gateway has copies of [requireEnv] and of the operator's [parseLogLevel]. *)
Definition gatewayLogLevel (raw : string) : Level :=
  let l := ToLower (TrimSpace raw) in
  if bool_decide (l = "debug") then LevelDebug
  else if bool_decide (l = "warn") || bool_decide (l = "warning") then LevelWarn
  else if bool_decide (l = "error") then LevelError
  else LevelInfo.

Definition gatewayRequireEnv (getenv : string -> string) (key : string) : option string :=
  let v := TrimSpace (getenv key) in if bool_decide (v = "") then None else Some v.

(** The labels every metric of the gateway carries. *)
Definition newGatewayMetrics (tunnelName tunnelNamespace targetHost targetPort : string) : gmap string string :=
  list_to_map [("tunnel_name", tunnelName); ("tunnel_namespace", tunnelNamespace);
               ("target_host", targetHost); ("target_port", targetPort)].

Record gw_env := mkGwEnv {
  g_getenv : string -> string;
  g_ParseKey : string -> res Key;
  g_GeneratePrivateKey : res Key;
  g_PublicKey : Key -> Key;
  g_KeyString : Key -> string;
  g_device : device_env;
  g_ListenTCP : string -> Z -> option error;
}.

(** What start-up leaves: the public key of the device, the key /status publishes, the
    device that is open, the address listened on inside the tunnel and the target
    connections go to. *)
Record gw_serving := mkServing {
  sv_publicKey : string;
  sv_publicKeyValue : option string;
  sv_device : Device;
  sv_listenPort : Z;
  sv_target : string;
  sv_labels : gmap string string;
}.

Inductive gw_start := GwExited (code : Z) | GwFailed (e : error) (open_devices : Z) (publicKeyValue : option string) | GwServing (sv : gw_serving).

(** [publicKeyValue] is what [publicKeyValue.Load()] gives when [run] returns or serves. *)
Definition start (e : gw_env) : gw_start :=
  let env := gatewayRequireEnv (g_getenv e) in
  match env "TUNNEL_PEER_PUBLIC_KEY", env "TUNNEL_TARGET_HOST", env "TUNNEL_TARGET_PORT",
        env "TUNNEL_NAME", env "TUNNEL_NAMESPACE" with
  | Some peerPublicKeyStr, Some targetHost, Some targetPortStr, Some tunnelName, Some tunnelNamespace =>
      let publicKeyValue := None in
      let metrics := newGatewayMetrics tunnelName tunnelNamespace targetHost targetPortStr in
      let targetIP := TrimSpace (g_getenv e "TUNNEL_TARGET_IP") in
      match Atoi targetPortStr with
      | Fail err => GwFailed (ErrWrap "invalid TUNNEL_TARGET_PORT" err) 0 publicKeyValue
      | Ok targetPort =>
          match g_ParseKey e peerPublicKeyStr with
          | Fail err => GwFailed (ErrWrap "parse peer public key" err) 0 publicKeyValue
          | Ok peerPublicKey =>
              match g_GeneratePrivateKey e with
              | Fail err => GwFailed (ErrWrap "generate private key" err) 0 publicKeyValue
              | Ok privateKey =>
                  let publicKey := g_PublicKey e privateKey in
                  match NewDevice (g_device e) privateKey peerPublicKey "" 51820 TunnelIPGateway true with
                  | (Fail err, n) => GwFailed (ErrWrap "create WireGuard device" err) n publicKeyValue
                  | (Ok dev, n) =>
                      match g_ListenTCP e "10.0.0.2" targetPort with
                      | Some err => GwFailed (ErrWrap "listen TCP on netstack" err) (n - Device_Close (Some (Some dev))) publicKeyValue
                      | None =>
                          let publicKeyValue := Some (g_KeyString e publicKey) in
                          GwServing (mkServing (g_KeyString e publicKey) publicKeyValue dev targetPort
                                       (targetAddress targetHost targetIP targetPort) metrics)
                      end
                  end
              end
          end
      end
  | _, _, _, _, _ => GwExited 1
  end.

(** /status: status code and the published key. *)
Definition statusHandler (publicKeyValue : option string) : Z * option string :=
  match publicKeyValue with None => (503, None) | Some pk => (200, Some pk) end.
Definition published (st : gw_start) : option string :=
  match st with GwServing sv => sv_publicKeyValue sv | GwFailed _ _ publicKeyValue => publicKeyValue | GwExited _ => None end.

(** ** Properties of start-up *)

(** The variables a container gets from its pod spec; unset ones read as empty. *)
Fixpoint pod_getenv (env : list EnvVar) (key : string) : string :=
  match env with
  | [] => ""
  | v :: env => if bool_decide (env_Name v = key) then env_Value v else pod_getenv env key
  end.

Lemma pod_getenv_gatewayEnv g (t : Tunnel) :
  let get := pod_getenv (gatewayEnv g t) in
  get "TUNNEL_PEER_PUBLIC_KEY" = ClientPublicKey (Spec t) /\ get "TUNNEL_TARGET_HOST" = Host (Target (Spec t)) /\
  get "TUNNEL_TARGET_PORT" = Itoa (Port (Target (Spec t))) /\ get "TUNNEL_NAME" = Name t /\
  get "TUNNEL_NAMESPACE" = Namespace t /\ get "TUNNEL_TARGET_IP" = ResolvedIP (Target (Spec t)).
Proof.
  unfold gatewayEnv. cbv zeta. case_bool_decide as Hip; (split_and!; [reflexivity..|]).
  - reflexivity.
  - rewrite Hip. reflexivity.
Qed.

(** C22: the gateway serves what the tunnel asks for.  Started with the variables
    the reconciler puts into its pod, and given a tunnel with non-blank names, key and
    host and a port that fits, the gateway dials the tunnel's resolved address if
    there is one, else its host, at the tunnel's port, and listens inside the tunnel on
    that same port; it fails only if the key, the device or the listener does, and then
    leaves no device open and publishes no key. *)
Theorem gateway_serves_tunnel_target (e : gw_env) op_getenv (t : Tunnel) :
  g_getenv e = pod_getenv (gatewayEnv op_getenv t) ->
  TrimSpace (ClientPublicKey (Spec t)) <> "" -> TrimSpace (Host (Target (Spec t))) <> "" ->
  TrimSpace (Name t) <> "" -> TrimSpace (Namespace t) <> "" ->
  int32_ok (Port (Target (Spec t))) ->
  match start e with
  | GwServing sv =>
      sv_listenPort sv = Port (Target (Spec t)) /\
      sv_target sv = JoinHostPort (if bool_decide (TrimSpace (ResolvedIP (Target (Spec t))) <> "")
                                   then TrimSpace (ResolvedIP (Target (Spec t)))
                                   else TrimSpace (Host (Target (Spec t)))) (Itoa (Port (Target (Spec t)))) /\
      statusHandler (published (start e)) = (200, Some (sv_publicKey sv))
  | GwFailed err n _ => n = 0 /\ statusHandler (published (start e)) = (503, None)
  | GwExited _ => False
  end.
Proof.
  intros Henv Hkey Hhost Hname Hns Hport. unfold start, gatewayRequireEnv. rewrite Henv.
  destruct (pod_getenv_gatewayEnv op_getenv t) as (E1 & E2 & E3 & E4 & E5 & E6).
  rewrite E1, E2, E3, E4, E5, E6, TrimSpace_Itoa. cbv zeta.
  rewrite !bool_decide_false by (done || apply Itoa_nonempty). unfold Atoi.
  rewrite ParseInt_Itoa by (unfold int32_ok in Hport; change (2 ^ (64 - 1)) with 9223372036854775808; lia).
  destruct (g_ParseKey e _); [|done]. destruct (g_GeneratePrivateKey e); [|done].
  unfold NewDevice, newDevice. destruct (d_parse_prefix _ _); [done|]. destruct (d_create_tun _); [done|].
  destruct (d_bind_nil _); [done|]. destruct (d_ipc_set _ _); [done|]. destruct (d_up _); [done|].
  destruct (g_ListenTCP e _ _); [done|]. cbn [sv_listenPort sv_target published sv_publicKey sv_publicKeyValue]. split_and!; [done| |done].
  unfold targetAddress. by case_bool_decide.
Qed.

Definition key_ok (k : Key) : Prop := Forall (fun b => 0 <= b < 256) k.

Lemma hex_digit_inj d d' : 0 <= d < 16 -> 0 <= d' < 16 -> hex_digit d = hex_digit d' -> d = d'.
Proof.
  intros Hd Hd' Heq.
  assert (forall x, 0 <= x < 16 -> N_of_ascii (hex_digit x) = Z.to_N (if bool_decide (x < 10) then 48 + x else 87 + x)) as Hn.
  { intros x Hx. unfold hex_digit. case_bool_decide; rewrite N_ascii_embedding; (done || lia). }
  apply (f_equal N_of_ascii) in Heq. rewrite !Hn in Heq by done. repeat case_bool_decide; lia.
Qed.

(** The device is configured with the keys it was given: the text form is
    two characters per byte and different keys have different texts, so the peer in
    the configuration is the tunnel's client and no other. *)
Theorem encodeKey_faithful (k k' : Key) :
  key_ok k -> key_ok k' -> String.length (encodeKey k) = (2 * length k)%nat /\ (encodeKey k = encodeKey k' -> k = k').
Proof.
  intros Hk. revert k'. induction Hk as [|b k Hb Hk IH]; intros k' Hk'.
  - split; [done|]. by destruct k'.
  - split.
    { simpl. destruct (IH k Hk) as [-> _]. lia. }
    destruct Hk' as [|b' k' Hb' Hk']; [done|]. cbn [encodeKey]. intros Heq. injection Heq as E1 E2 E3.
    destruct (IH k' Hk') as [_ Hinj]. rewrite (Hinj E3). f_equal.
    rewrite !Z.shiftr_div_pow2 in E1 by lia. change (2 ^ 4) with 16 in E1.
    change 15 with (Z.ones 4) in E2. rewrite !Z.land_ones in E2 by lia. change (2 ^ 4) with 16 in E2.
    apply hex_digit_inj in E1; [|split; [apply Z.div_pos; lia|apply Z.div_lt_upper_bound; lia]..].
    apply hex_digit_inj in E2; [|apply Z.mod_pos_bound; lia..].
    rewrite (Z.div_mod b 16), (Z.div_mod b' 16) by lia. congruence.
Qed.

(** ** The running gateway *)

Definition peerTimeout : Z := 3600 * Second.

(** Where the goroutine that watches for inactivity is. *)
Inductive watcher := WaitingForPeer | TimerArmed (deadline : Z) | PeerTimedOut | WatcherStopped.

(** Where a connection handler is: dialling, or copying with either direction
    finished or not. *)
Inductive handler := Dialling | Copying (in_done out_done : bool).

Record gw := mkGw {
  now : Z;
  (** a signal has cancelled the context *)
  ctx_done : bool;
  (** [serveTCPProxy] is in its loop *)
  accepting : bool;
  activity : bool;
  watch : watcher;
  handlers : gmap nat handler;
  accept_err : option error;
  exited : option (res unit);
  tcpConnectionsTotal : Z;
  tcpConnectionsActive : Z;
  tcpReceivedBytes : Z;
  tcpSentBytes : Z;
  (** when the watcher last saw activity *)
  last_seen : option Z;
}.

Definition gw_init : gw := mkGw 0 false true false WaitingForPeer ∅ None None 0 0 0 0 None.

Definition set_watch (w : watcher) (act : bool) (seen : option Z) (g : gw) : gw :=
  mkGw (now g) (ctx_done g) (accepting g) act w (handlers g) (accept_err g) (exited g) (tcpConnectionsTotal g) (tcpConnectionsActive g)
    (tcpReceivedBytes g) (tcpSentBytes g) seen.
Definition set_handlers (hs : gmap nat handler) (total active rcv snt : Z) (g : gw) : gw :=
  mkGw (now g) (ctx_done g) (accepting g) (activity g) (watch g) hs (accept_err g) (exited g) (tcpConnectionsTotal g + total)
    (tcpConnectionsActive g + active) (tcpReceivedBytes g + rcv) (tcpSentBytes g + snt) (last_seen g).
Definition set_control (ctx_done accepting : bool) (accept_err : option error) (exited : option (res unit)) (g : gw) : gw :=
  mkGw (now g) ctx_done accepting (activity g) (watch g) (handlers g) accept_err exited (tcpConnectionsTotal g) (tcpConnectionsActive g)
    (tcpReceivedBytes g) (tcpSentBytes g) (last_seen g).

(** [serveTCPProxy] accepts a connection: the activity channel holds one token, a
    second is dropped; [handleConn] starts and counts it. *)
Definition accept (c : nat) (g : gw) : gw :=
  set_handlers (<[c := Dialling]> (handlers g)) 1 1 0 0 (set_watch (watch g) true (last_seen g) g).

(** The handler of [c] returns: its deferred functions run. *)
Definition finish (c : nat) (g : gw) : gw := set_handlers (delete c (handlers g)) 0 (-1) 0 0 g.

(** The main goroutine leaves its [select]. *)
Definition leave (r : res unit) (g : gw) : gw := set_control (ctx_done g) (accepting g) (accept_err g) (Some r) g.

Definition wait (d : Z) (g : gw) : gw :=
  mkGw (now g + d) (ctx_done g) (accepting g) (activity g) (watch g) (handlers g) (accept_err g) (exited g)
    (tcpConnectionsTotal g) (tcpConnectionsActive g) (tcpReceivedBytes g) (tcpSentBytes g) (last_seen g).

(** The other goroutines may run on while the main one returns, so the steps do
    not require [exited] to be unset. *)
Inductive gw_step (g : gw) : gw -> Prop :=
| gw_tick d : 0 <= d -> gw_step g (wait d g)
| gw_signal : gw_step g (set_control true (accepting g) (accept_err g) (exited g) g)
| gw_accept c : accepting g = true -> handlers g !! c = None -> gw_step g (accept c g)
| gw_accept_fails e : accepting g = true -> ctx_done g = false ->
    gw_step g (set_control (ctx_done g) false (Some (ErrWrap "accept TCP connection" e)) (exited g) g)
| gw_accept_stops : accepting g = true -> ctx_done g = true ->
    gw_step g (set_control (ctx_done g) false (accept_err g) (exited g) g)
| gw_dial_fails c : handlers g !! c = Some Dialling -> gw_step g (finish c g)
| gw_dial_ok c : handlers g !! c = Some Dialling ->
    gw_step g (set_handlers (<[c := Copying false false]> (handlers g)) 0 0 0 0 g)
| gw_copy_in c n out : 0 <= n -> handlers g !! c = Some (Copying false out) ->
    gw_step g (set_handlers (<[c := Copying true out]> (handlers g)) 0 0 n 0 g)
| gw_copy_out c n inn : 0 <= n -> handlers g !! c = Some (Copying inn false) ->
    gw_step g (set_handlers (<[c := Copying inn true]> (handlers g)) 0 0 0 n g)
| gw_done c : handlers g !! c = Some (Copying true true) -> gw_step g (finish c g)
| gw_first_activity : watch g = WaitingForPeer -> activity g = true ->
    gw_step g (set_watch (TimerArmed (now g + peerTimeout)) false (Some (now g)) g)
| gw_reset d : watch g = TimerArmed d -> activity g = true ->
    gw_step g (set_watch (TimerArmed (now g + peerTimeout)) false (Some (now g)) g)
| gw_timeout d : watch g = TimerArmed d -> d <= now g ->
    gw_step g (set_watch PeerTimedOut (activity g) (last_seen g) g)
| gw_watch_stops : watch g <> PeerTimedOut -> ctx_done g = true ->
    gw_step g (set_watch WatcherStopped (activity g) (last_seen g) g)
| gw_exit_timeout : watch g = PeerTimedOut -> exited g = None -> gw_step g (leave (Ok tt) g)
| gw_exit_error e : accept_err g = Some e -> exited g = None -> gw_step g (leave (Fail e) g)
| gw_exit_signal : ctx_done g = true -> exited g = None -> gw_step g (leave (Ok tt) g).

Definition gw_reachable (g : gw) : Prop := rtc gw_step gw_init g.

Record gw_inv (g : gw) : Prop := {
  gi_gauge : tcpConnectionsActive g = Z.of_nat (size (handlers g));
  gi_total : tcpConnectionsActive g <= tcpConnectionsTotal g;
  gi_bytes : 0 <= tcpReceivedBytes g /\ 0 <= tcpSentBytes g;
  gi_activity : activity g = true -> 0 < tcpConnectionsTotal g;
  gi_watch : match watch g with
             | WaitingForPeer => last_seen g = None
             | TimerArmed d => exists t, last_seen g = Some t /\ d = t + peerTimeout
             | PeerTimedOut => exists t, last_seen g = Some t /\ t + peerTimeout <= now g
             | WatcherStopped => True
             end;
  gi_seen : is_Some (last_seen g) -> 0 < tcpConnectionsTotal g;
}.

Lemma size_delete_handler (hs : gmap nat handler) c h :
  hs !! c = Some h -> Z.of_nat (size (delete c hs)) = Z.of_nat (size hs) - 1.
Proof.
  intros Hc. rewrite <- (insert_delete_id hs c h Hc) at 2.
  rewrite map_size_insert_None by apply lookup_delete_eq. lia.
Qed.

Lemma size_insert_handler (hs : gmap nat handler) c h h' :
  hs !! c = Some h -> size (<[c := h']> hs) = size hs.
Proof. intros Hc. rewrite map_size_insert, Hc. done. Qed.

Lemma gw_step_inv g g' : gw_step g g' -> gw_inv g -> gw_inv g'.
Proof.
  intros Hstep [Hg Ht Hb Ha Hw Hs].
  assert (0 <= tcpConnectionsActive g) by lia.
  destruct Hstep; split; simpl; rewrite ?Z.add_0_r; auto; try lia.
  - destruct (watch g); try done. destruct Hw as (t & ? & ?). exists t. split; [done|lia].
  - rewrite map_size_insert_None by done. lia.
  - erewrite size_delete_handler by done. lia.
  - by erewrite size_insert_handler.
  - by erewrite size_insert_handler.
  - by erewrite size_insert_handler.
  - erewrite size_delete_handler by done. lia.
  - eauto.
  - eauto.
  - match goal with Hd : watch g = TimerArmed _ |- _ => rewrite Hd in Hw end. destruct Hw as (t & ? & ->). eauto.
Qed.

Lemma gw_reachable_inv g : gw_reachable g -> gw_inv g.
Proof.
  apply (rtc_ind_r gw_inv).
  - split; simpl; try done; try lia.
  - intros x y _ Hstep Hx. by eapply gw_step_inv.
Qed.

(** The connection gauge is exact: in every reachable state the number of
    active connections the gateway reports is the number of handlers that have not
    returned, which is never negative and never above the number accepted. *)
Theorem connection_gauge_exact g :
  gw_reachable g ->
  tcpConnectionsActive g = Z.of_nat (size (handlers g)) /\
  0 <= tcpConnectionsActive g <= tcpConnectionsTotal g /\ 0 <= tcpReceivedBytes g /\ 0 <= tcpSentBytes g.
Proof. intros [Hg Ht Hb _ _ _]%gw_reachable_inv. split_and!; [done|lia|done|apply Hb|apply Hb]. Qed.

(** C38: the inactivity timeout is never early: the gateway ends for inactivity
    only when a connection was accepted and the watcher has seen no further one for at
    least an hour; a gateway nobody ever connected to does not time out at all. *)
Theorem timeout_never_early g :
  gw_reachable g -> watch g = PeerTimedOut ->
  0 < tcpConnectionsTotal g /\ exists t, last_seen g = Some t /\ t + peerTimeout <= now g.
Proof.
  intros [_ _ _ _ Hw Hs]%gw_reachable_inv Hpt. rewrite Hpt in Hw. destruct Hw as (t & Hl & Ht).
  split; [apply Hs; by rewrite Hl|eauto].
Qed.

(** A connection is accepted, its target answers, and it stays in use. *)
Definition busy0 : gw := accept 0 gw_init.
Definition busy1 : gw := set_watch (TimerArmed (0 + peerTimeout)) false (Some 0) busy0.
Definition busy2 : gw := set_handlers (<[0%nat := Copying false false]> (handlers busy1)) 0 0 0 0 busy1.
Definition busy3 : gw := wait peerTimeout busy2.
Definition busy4 : gw := set_watch PeerTimedOut (activity busy3) (last_seen busy3) busy3.
Definition busy5 : gw := leave (Ok tt) busy4.

Lemma busy4_reachable : gw_reachable busy4.
Proof.
  eapply rtc_l; [apply (gw_accept gw_init 0); reflexivity|].
  eapply rtc_l; [apply gw_first_activity; reflexivity|].
  eapply rtc_l; [apply (gw_dial_ok busy1 0); reflexivity|].
  eapply rtc_l; [apply (gw_tick busy2 peerTimeout); vm_compute; discriminate|].
  eapply rtc_l; [apply (gw_timeout busy3 (0 + peerTimeout)); [reflexivity|vm_compute; discriminate]|]. reflexivity.
Qed.

(** A connection in use does not count as activity.  Only accepting a
    connection feeds the watcher, so the gateway of a client that keeps one connection
    open and busy ends, with the message that its peer is disconnected, one hour
    after that connection was accepted. *)
Theorem busy_connection_times_out :
  gw_reachable busy5 /\ exited busy5 = Some (Ok tt) /\ watch busy5 = PeerTimedOut /\
  handlers busy5 !! 0%nat = Some (Copying false false) /\ now busy5 = peerTimeout.
Proof.
  split_and!; [|reflexivity..].
  eapply rtc_r; [exact busy4_reachable|]. apply gw_exit_timeout; reflexivity.
Qed.

(** *** Witnesses *)

Lemma connection_gauge_exact_witness : tcpConnectionsActive busy4 = Z.of_nat (size (handlers busy4)).
Proof. apply (connection_gauge_exact busy4). exact busy4_reachable. Defined.

Lemma timeout_never_early_witness : 0 < tcpConnectionsTotal busy4 /\ exists t, last_seen busy4 = Some t /\ t + peerTimeout <= now busy4.
Proof. apply (timeout_never_early busy4); [exact busy4_reachable|reflexivity]. Defined.

Lemma encodeKey_faithful_witness :
  encodeKey [0; 171; 255] = "00abff" /\ (encodeKey [0; 171; 255] = encodeKey [0; 171; 254] -> [0; 171; 255] = [0; 171; 254]).
Proof.
  split; [reflexivity|]. apply (encodeKey_faithful [0; 171; 255] [0; 171; 254]); repeat constructor; vm_compute; discriminate.
Defined.

Definition gw_demo_tunnel : Tunnel :=
  mkTunnel "db" "team" None [] (mkSpec "team" (mkTarget "db.example" 5432 "10.1.2.3" None) "client-key" None) empty_status.
Definition gw_demo_env : gw_env :=
  mkGwEnv (pod_getenv (gatewayEnv (fun _ => "") gw_demo_tunnel)) (fun _ => Ok [1; 2]) (Ok [3; 4]) (fun k => k) encodeKey
    (mkDeviceEnv (fun _ => None) None false (fun _ => None) None (mkTcpSizes 4096 1048576 1048576) (Some [])) (fun _ _ => None).

Lemma gateway_serves_tunnel_target_witness :
  match start gw_demo_env with
  | GwServing sv => sv_listenPort sv = 5432 /\ sv_target sv = "10.1.2.3:5432" /\
      statusHandler (published (start gw_demo_env)) = (200, Some (sv_publicKey sv))
  | _ => False
  end.
Proof.
  pose proof (gateway_serves_tunnel_target gw_demo_env (fun _ => "") gw_demo_tunnel) as Hg.
  vm_compute in Hg. vm_compute. apply Hg; [reflexivity|discriminate..|split; discriminate].
Defined.
