(* ===== verification/Relay.v ===== *)
(** * One connection of the gateway (cmd/gateway/main.go, handleConn and copyAndClose)

    The file Gateway counts a connection's bytes; here are the bytes.  [handleConn]
    dials the target and runs two goroutines, each copying one direction through a
    buffer of 128 KiB: read what the peer has sent, write it to the other side, and at
    the end of the stream close the write side of the other connection.  The two
    goroutines, the peers (which send, end or break their streams at any time) and the
    handler interleave in the step relation [relay_step].

    A read returns any non-empty part of what has arrived; a write delivers everything
    or fails after a part; a write that blocks is a step that is not taken yet. *)

From S2P Require Import Prelude Gateway.

(** How a peer's stream stands: still open, ended, or broken (then what was sent and
    not read may be lost). *)
Inductive stream := Open | Eof | Broken.

(** Where [copyAndClose] and the goroutine around it are. *)
Inductive copy_pc := Reading | Writing | Closing | Counting | Finished.

#[export] Instance stream_eq_dec : EqDecision stream.
Proof. solve_decision. Defined.
#[export] Instance copy_pc_eq_dec : EqDecision copy_pc.
Proof. solve_decision. Defined.

(** [make([]byte, 128<<10)] *)
Definition bufSize : nat := Z.to_nat (Z.shiftl 128 10).

(** One direction: the bytes a peer has [sent], those of them not read yet, the buffer,
    what the other side has [received], and CopyBuffer's count. *)
Record pipe := mkPipe {
  sent : list Z;
  inbox : list Z;
  ended : stream;
  buffer : list Z;
  received : list Z;
  copied : Z;
  pc : copy_pc;
  (** CloseWrite has been called on the destination, if it has one *)
  half_closed : bool;
  can_close_write : bool;
  (** a read or a write of this direction has failed *)
  failed : bool;
}.

Definition new_pipe (can : bool) : pipe := mkPipe [] [] Open [] [] 0 Reading false can false.

Definition peer_sends (bs : list Z) (p : pipe) : pipe :=
  mkPipe (sent p ++ bs) (inbox p ++ bs) (ended p) (buffer p) (received p) (copied p) (pc p) (half_closed p) (can_close_write p) (failed p).
Definition peer_ends (e : stream) (p : pipe) : pipe :=
  mkPipe (sent p) (inbox p) e (buffer p) (received p) (copied p) (pc p) (half_closed p) (can_close_write p) (failed p).

(** [nr, er := src.Read(buf)] with data *)
Definition read_some (k : nat) (p : pipe) : pipe :=
  mkPipe (sent p) (drop k (inbox p)) (ended p) (take k (inbox p)) (received p) (copied p) Writing (half_closed p) (can_close_write p) (failed p).
(** the same without data: io.EOF ends the copy, another error breaks it *)
Definition read_end (p : pipe) : pipe :=
  mkPipe (sent p) (inbox p) (ended p) (buffer p) (received p) (copied p) Closing (half_closed p) (can_close_write p)
    (failed p || bool_decide (ended p = Broken)).
(** [nw, ew := dst.Write(buf[0:nr]); written += nw] *)
Definition write_all (p : pipe) : pipe :=
  mkPipe (sent p) (inbox p) (ended p) [] (received p ++ buffer p) (copied p + Z.of_nat (length (buffer p))) Reading
    (half_closed p) (can_close_write p) (failed p).
Definition write_fails (k : nat) (p : pipe) : pipe :=
  mkPipe (sent p) (inbox p) (ended p) (drop k (buffer p)) (received p ++ take k (buffer p))
    (copied p + Z.of_nat (length (take k (buffer p)))) Closing (half_closed p) (can_close_write p) true.
(** [if tc, ok := dst.(interface{ CloseWrite() error }); ok { _ = tc.CloseWrite() }] *)
Definition close_write (p : pipe) : pipe :=
  mkPipe (sent p) (inbox p) (ended p) (buffer p) (received p) (copied p) Counting
    (can_close_write p) (can_close_write p) (failed p).
Definition counted (p : pipe) : pipe :=
  mkPipe (sent p) (inbox p) (ended p) (buffer p) (received p) (copied p) Finished (half_closed p) (can_close_write p) (failed p).

Inductive peer_step (p : pipe) : pipe -> Prop :=
| peer_send bs : ended p = Open -> peer_step p (peer_sends bs p)
| peer_end e : ended p = Open -> e <> Open -> peer_step p (peer_ends e p).

(** The body of copyAndClose. *)
Inductive copy_step (p : pipe) : pipe -> Prop :=
| copy_read k : pc p = Reading -> (0 < k)%nat -> (k <= bufSize)%nat -> (k <= length (inbox p))%nat -> copy_step p (read_some k p)
| copy_read_end : pc p = Reading -> ended p = Eof /\ inbox p = [] \/ ended p = Broken -> copy_step p (read_end p)
| copy_write : pc p = Writing -> copy_step p (write_all p)
| copy_write_fails k : pc p = Writing -> (k <= length (buffer p))%nat -> copy_step p (write_fails k p)
| copy_close : pc p = Closing -> copy_step p (close_write p).

(** ** The handler *)

Inductive conn_pc := DiallingTarget | Relaying | Returned.

Record relay := mkRelay {
  (** client to target, target to client *)
  up : pipe;
  down : pipe;
  conn : conn_pc;
  src_open : bool;
  dst_open : bool;
  (** what this connection has added to tcpReceivedBytes and tcpSentBytes *)
  received_bytes : Z;
  sent_bytes : Z;
}.

Definition relay_init (src_can dst_can : bool) : relay :=
  mkRelay (new_pipe dst_can) (new_pipe src_can) DiallingTarget true false 0 0.

Definition set_up (p : pipe) (r : relay) : relay :=
  mkRelay p (down r) (conn r) (src_open r) (dst_open r) (received_bytes r) (sent_bytes r).
Definition set_down (p : pipe) (r : relay) : relay :=
  mkRelay (up r) p (conn r) (src_open r) (dst_open r) (received_bytes r) (sent_bytes r).
(** A failed dial returns: only [src] is closed, there is nothing else. *)
Definition dial_failed (r : relay) : relay :=
  mkRelay (up r) (down r) Returned false false (received_bytes r) (sent_bytes r).
Definition dialled (r : relay) : relay :=
  mkRelay (up r) (down r) Relaying (src_open r) true (received_bytes r) (sent_bytes r).
(** [m.tcpReceivedBytes.Add(float64(n)); done <- struct{}{}], and the other way. *)
Definition count_up (r : relay) : relay :=
  mkRelay (counted (up r)) (down r) (conn r) (src_open r) (dst_open r) (received_bytes r + copied (up r)) (sent_bytes r).
Definition count_down (r : relay) : relay :=
  mkRelay (up r) (counted (down r)) (conn r) (src_open r) (dst_open r) (received_bytes r) (sent_bytes r + copied (down r)).
(** [<-done; <-done] and the deferred functions. *)
Definition handler_returns (r : relay) : relay :=
  mkRelay (up r) (down r) Returned false false (received_bytes r) (sent_bytes r).

Inductive relay_step (r : relay) : relay -> Prop :=
| rl_client p : peer_step (up r) p -> relay_step r (set_up p r)
| rl_target p : conn r <> DiallingTarget -> peer_step (down r) p -> relay_step r (set_down p r)
| rl_dial_fails : conn r = DiallingTarget -> relay_step r (dial_failed r)
| rl_dial_ok : conn r = DiallingTarget -> relay_step r (dialled r)
| rl_copy_up p : conn r = Relaying -> copy_step (up r) p -> relay_step r (set_up p r)
| rl_copy_down p : conn r = Relaying -> copy_step (down r) p -> relay_step r (set_down p r)
| rl_count_up : conn r = Relaying -> pc (up r) = Counting -> relay_step r (count_up r)
| rl_count_down : conn r = Relaying -> pc (down r) = Counting -> relay_step r (count_down r)
| rl_return : conn r = Relaying -> pc (up r) = Finished -> pc (down r) = Finished -> relay_step r (handler_returns r).

Definition relay_reachable (r : relay) : Prop := exists src_can dst_can, rtc relay_step (relay_init src_can dst_can) r.

(** ** What is relayed *)

Record pipe_inv (p : pipe) : Prop := {
  pi_order : sent p = received p ++ buffer p ++ inbox p;
  pi_copied : copied p = Z.of_nat (length (received p));
  pi_reading : pc p = Reading -> buffer p = [];
  pi_bounded : (length (buffer p) <= bufSize)%nat;
  pi_after : pc p <> Reading -> pc p <> Writing -> failed p = false -> buffer p = [] /\ inbox p = [] /\ ended p = Eof;
  pi_closed : half_closed p = true -> pc p = Counting \/ pc p = Finished;
  pi_finished : pc p = Counting \/ pc p = Finished -> half_closed p = can_close_write p;
}.

Lemma peer_step_inv p p' : peer_step p p' -> pipe_inv p -> pipe_inv p'.
Proof.
  intros Hstep [Ho Hc Hr Hb Ha Hh Hf]. destruct Hstep as [bs He|e He Hne]; split; simpl; try done.
  - rewrite Ho, <- !(assoc_L (++)). done.
  - intros H1 H2 H3. destruct (Ha H1 H2 H3) as (_ & _ & ?). congruence.
  - intros H1 H2 H3. destruct (Ha H1 H2 H3) as (_ & _ & ?). congruence.
Qed.

Lemma copy_step_inv p p' : copy_step p p' -> pipe_inv p -> pipe_inv p'.
Proof.
  intros Hstep [Ho Hc Hr Hb Ha Hh Hf].
  destruct Hstep as [k Hpc Hk Hs Hl|Hpc He|Hpc|k Hpc Hk|Hpc]; split; simpl; try done;
    try (rewrite Hpc in Hh; intros Hx; destruct (Hh Hx) as [?|?]; discriminate); try (intros [?|?]; discriminate).
  - rewrite Ho, (Hr Hpc). simpl. by rewrite take_drop.
  - rewrite length_take. lia.
  - intros _ _ [Hf1 Hf2]%orb_false_iff. apply bool_decide_eq_false in Hf2.
    destruct He as [[He Hi]|He]; [|done]. split_and!; [by apply Hr|done|done].
  - by rewrite Ho, (assoc_L (++)).
  - rewrite Hc, length_app. lia.
  - lia.
  - rewrite Ho, <- (assoc_L (++)), (assoc_L (++) (take k _)), take_drop. done.
  - rewrite Hc, length_app. lia.
  - rewrite length_drop. lia.
  - intros _ _ Hfl. apply Ha; [by rewrite Hpc|by rewrite Hpc|done].
  - auto.
Qed.

Lemma counted_inv p : pc p = Counting -> pipe_inv p -> pipe_inv (counted p).
Proof.
  intros Hpc [Ho Hc Hr Hb Ha Hh Hf]. split; simpl; try done.
  - intros _ _ Hfl. apply Ha; [by rewrite Hpc|by rewrite Hpc|done].
  - auto.
  - intros _. apply Hf. by left.
Qed.

Definition untouched (p : pipe) : Prop := pc p = Reading /\ received p = [].

Record relay_inv (r : relay) : Prop := {
  ri_up : pipe_inv (up r);
  ri_down : pipe_inv (down r);
  ri_src : src_open r = true <-> conn r <> Returned;
  ri_dst : dst_open r = true <-> conn r = Relaying;
  ri_received : received_bytes r = if bool_decide (pc (up r) = Finished) then copied (up r) else 0;
  ri_sent : sent_bytes r = if bool_decide (pc (down r) = Finished) then copied (down r) else 0;
  (** the copies start when the target has answered, and the handler waits for both *)
  ri_dialling : conn r = DiallingTarget -> untouched (up r) /\ untouched (down r);
  ri_returned : conn r = Returned ->
    pc (up r) = Finished /\ pc (down r) = Finished \/ untouched (up r) /\ untouched (down r);
}.

(** A direction changes its count only in [counted]. *)
Lemma copy_step_unfinished p p' :
  copy_step p p' -> pc p <> Finished /\ pc p' <> Finished.
Proof. intros [k Hpc Hk Hs Hl|Hpc He|Hpc|k Hpc Hk|Hpc]; rewrite Hpc; done. Qed.

Lemma peer_step_pc p p' : peer_step p p' -> pc p' = pc p /\ copied p' = copied p /\ received p' = received p.
Proof. by intros []. Qed.

Lemma relay_step_inv r r' : relay_step r r' -> relay_inv r -> relay_inv r'.
Proof.
  intros Hstep [Hu Hd Hs Hdst Hrb Hsb Hdl Hrt].
  destruct Hstep as [p Hp|p Hc Hp|Hc|Hc|p Hc Hp|p Hc Hp|Hc Hpc|Hc Hpc|Hc Hpu Hpd].
  - destruct (peer_step_pc _ _ Hp) as (E1 & E2 & E3).
    split; simpl; unfold untouched in *; rewrite ?E1, ?E2, ?E3; auto. by eapply peer_step_inv.
  - destruct (peer_step_pc _ _ Hp) as (E1 & E2 & E3).
    split; simpl; unfold untouched in *; rewrite ?E1, ?E2, ?E3; auto. by eapply peer_step_inv.
  - split; simpl; auto; done.
  - split; simpl; auto; try done. rewrite Hs, Hc. done.
  - destruct (copy_step_unfinished _ _ Hp) as [E1 E2]. rewrite bool_decide_false in Hrb by done.
    split; simpl; auto; [by eapply copy_step_inv|by rewrite bool_decide_false|by rewrite Hc..].
  - destruct (copy_step_unfinished _ _ Hp) as [E1 E2]. rewrite bool_decide_false in Hsb by done.
    split; simpl; auto; [by eapply copy_step_inv|by rewrite bool_decide_false|by rewrite Hc..].
  - rewrite bool_decide_false in Hrb by (by rewrite Hpc). split; simpl; auto; [by apply counted_inv|lia|by rewrite Hc..].
  - rewrite bool_decide_false in Hsb by (by rewrite Hpc). split; simpl; auto; [by apply counted_inv|lia|by rewrite Hc..].
  - split; simpl; auto; done.
Qed.

Lemma relay_reachable_inv r : relay_reachable r -> relay_inv r.
Proof.
  intros (sc & dc & Hr). revert r Hr. apply (rtc_ind_r relay_inv).
  - split; simpl; try done; split; simpl; try done; try lia; by intros [].
  - intros x y _ Hstep Hx. by eapply relay_step_inv.
Qed.

(** What a direction has delivered, and what it tells its destination. *)
Definition direction_faithful (p : pipe) : Prop :=
  received p `prefix_of` sent p /\
  (half_closed p = true -> failed p = false -> received p = sent p /\ ended p = Eof) /\
  (length (buffer p) <= bufSize)%nat.

Lemma pipe_inv_faithful p : pipe_inv p -> direction_faithful p.
Proof.
  intros [Ho Hc Hr Hb Ha Hh Hf]. split_and!; [by exists (buffer p ++ inbox p)| |done].
  intros Hhc Hfl. assert (pc p <> Reading /\ pc p <> Writing) as [H1 H2] by (destruct (Hh Hhc) as [->| ->]; done).
  destruct (Ha H1 H2 Hfl) as (E1 & E2 & E3). rewrite Ho, E1, E2, app_nil_r. done.
Qed.

(** C11: a connection is relayed faithfully.  In every interleaving of the two copying
    goroutines, the peers and the handler, either side has received, in order and
    without change, a prefix of what the other side sent; the end of a stream is passed
    on to the other side only when everything sent before it has been delivered, unless
    that direction failed; a handler that has returned has closed both connections and
    has either never had a target, or has counted exactly the bytes delivered either
    way. *)
Theorem relay_faithful r :
  relay_reachable r ->
  direction_faithful (up r) /\ direction_faithful (down r) /\
  (conn r = Returned ->
     src_open r = false /\ dst_open r = false /\
     received_bytes r = Z.of_nat (length (received (up r))) /\
     sent_bytes r = Z.of_nat (length (received (down r)))).
Proof.
  intros [Hu Hd Hs Hdst Hrb Hsb _ Hrt]%relay_reachable_inv.
  split_and!; [by apply pipe_inv_faithful..|]. intros Hret. rewrite <- !not_true_iff_false, Hs, Hdst, Hret.
  rewrite <- (pi_copied _ Hu), <- (pi_copied _ Hd), Hrb, Hsb. split_and!; [tauto|done| |].
  - destruct (Hrt Hret) as [[E _]|[[E1 E2] _]]; [by rewrite E|]. by rewrite E1, (pi_copied _ Hu), E2.
  - destruct (Hrt Hret) as [[_ E]|[_ [E1 E2]]]; [by rewrite E|]. by rewrite E1, (pi_copied _ Hd), E2.
Qed.

(** ** The handler ends *)

Definition pc_weight (c : copy_pc) : nat :=
  match c with Reading => 3 | Writing => 4 | Closing => 2 | Counting => 1 | Finished => 0 end.
(** Steps left in a direction whose peer sends nothing more. *)
Definition pipe_measure (p : pipe) : nat := 3 * length (inbox p) + pc_weight (pc p).
Definition conn_weight (c : conn_pc) : nat := match c with DiallingTarget => 2 | Relaying => 1 | Returned => 0 end.
Definition relay_measure (r : relay) : nat := pipe_measure (up r) + pipe_measure (down r) + conn_weight (conn r).

Definition streams_ended (r : relay) : Prop := ended (up r) <> Open /\ ended (down r) <> Open.

Lemma copy_step_decreases p p' : copy_step p p' -> (pipe_measure p' < pipe_measure p)%nat /\ ended p' = ended p.
Proof.
  intros [k Hpc Hk Hs Hl|Hpc He|Hpc|k Hpc Hk|Hpc]; unfold pipe_measure; rewrite Hpc; simpl;
    (split; [|done]); try lia. rewrite length_drop. lia.
Qed.

Lemma relay_step_decreases r r' :
  streams_ended r -> relay_step r r' -> (relay_measure r' < relay_measure r)%nat /\ streams_ended r'.
Proof.
  intros [Hu Hd] [p Hp|p Hc Hp|Hc|Hc|p Hc Hp|p Hc Hp|Hc Hpc|Hc Hpc|Hc Hpu Hpd]; unfold relay_measure, streams_ended; simpl.
  - by destruct Hp.
  - by destruct Hp.
  - rewrite Hc. simpl. split; [lia|done].
  - rewrite Hc. simpl. split; [lia|done].
  - destruct (copy_step_decreases _ _ Hp) as [? ->]. split; [lia|done].
  - destruct (copy_step_decreases _ _ Hp) as [? ->]. split; [lia|done].
  - unfold pipe_measure at 1 3. rewrite Hpc. simpl. split; [lia|done].
  - unfold pipe_measure at 2 4. rewrite Hpc. simpl. split; [lia|done].
  - rewrite Hc. simpl. split; [lia|done].
Qed.

(** A direction whose peer is done can always go on, until it is counted. *)
Lemma copy_progress p : ended p <> Open -> pc p = Counting \/ pc p = Finished \/ exists p', copy_step p p'.
Proof.
  intros He. destruct (pc p) eqn:Hpc; [| | |by left|by right; left]; right; right.
  - destruct (ended p) eqn:Ee; [done| |eexists; apply copy_read_end; [done|by right]].
    destruct (inbox p) as [|b bs] eqn:Ei; [eexists; apply copy_read_end; [done|by left]|].
    exists (read_some 1 p). apply copy_read; [done|lia|unfold bufSize; apply Nat.leb_le; vm_compute; done|rewrite Ei; simpl; lia].
  - eexists. by apply copy_write.
  - eexists. by apply copy_close.
Qed.

Lemma relay_progress r : streams_ended r -> conn r = Returned \/ exists r', relay_step r r'.
Proof.
  intros [Hu Hd]. destruct (conn r) eqn:Hc; [right; eexists; by apply rl_dial_ok| |by left]. right.
  destruct (copy_progress _ Hu) as [Eu|[Eu|[p Hp]]];
    [eexists; by apply rl_count_up| |eexists; by eapply rl_copy_up].
  destruct (copy_progress _ Hd) as [Ed|[Ed|[p Hp]]];
    [eexists; by apply rl_count_down|eexists; by apply rl_return|eexists; by eapply rl_copy_down].
Qed.

(** C29: a connection whose peers are done ends.  From any state in which the client's
    and the target's streams have ended or broken, every execution of the handler has at
    most [relay_measure] steps, a bound in the bytes not read yet, and in every state on
    the way the handler has returned or can go on: no interleaving leaves it waiting
    for a copy that never ends. *)
Theorem relay_terminates r n r' :
  streams_ended r -> nsteps relay_step n r r' ->
  (n + relay_measure r' <= relay_measure r)%nat /\ (conn r' = Returned \/ exists r'', relay_step r' r'').
Proof.
  intros Hend Hsteps. enough ((n + relay_measure r' <= relay_measure r)%nat /\ streams_ended r') as [Hm He]
    by (split; [done|by apply relay_progress]).
  revert Hend. induction Hsteps as [|n x y z Hstep _ IH]; intros Hend; [split; [lia|done]|].
  destruct (relay_step_decreases _ _ Hend Hstep) as [Hlt Hy]. destruct (IH Hy) as [Hle Hz]. split; [lia|done].
Qed.

(** ** Refinement of the gateway's handler

    What [Gateway.gw_step] shows of a connection: its phase, and its bytes when a
    direction is counted. *)
Definition handler_view (r : relay) : option handler :=
  match conn r with
  | DiallingTarget => Some Dialling
  | Relaying => Some (Copying (bool_decide (pc (up r) = Finished)) (bool_decide (pc (down r) = Finished)))
  | Returned => None
  end.

(** The gateway [g] with connection [c] in state [r], given what the counters were
    when it was accepted. *)
Definition shows (c : nat) (base_in base_out : Z) (r : relay) (g : gw) : Prop :=
  handlers g !! c = handler_view r /\
  tcpReceivedBytes g = base_in + received_bytes r /\ tcpSentBytes g = base_out + sent_bytes r.

Lemma relay_step_simulated c bi bo r r' g :
  relay_inv r -> relay_step r r' -> shows c bi bo r g -> exists g', rtc gw_step g g' /\ shows c bi bo r' g'.
Proof.
  intros Hinv Hstep (Hh & Hi & Ho). unfold shows, handler_view in *.
  destruct Hstep as [p Hp|p Hc Hp|Hc|Hc|p Hc Hp|p Hc Hp|Hc Hpc|Hc Hpc|Hc Hpu Hpd]; simpl.
  - destruct (peer_step_pc _ _ Hp) as (-> & _). by exists g.
  - destruct (peer_step_pc _ _ Hp) as (-> & _). by exists g.
  - rewrite Hc in Hh. exists (finish c g). split; [by apply rtc_once, gw_dial_fails|].
    simpl. rewrite lookup_delete_eq. split_and!; [done|lia|lia].
  - rewrite Hc in Hh. destruct (ri_dialling _ Hinv Hc) as [[-> _] [-> _]].
    eexists. split; [by apply rtc_once, gw_dial_ok|]. simpl. rewrite lookup_insert_eq. split_and!; [done|lia|lia].
  - destruct (copy_step_unfinished _ _ Hp) as [E1 E2]. rewrite Hc in Hh |- *.
    rewrite bool_decide_false in Hh |- * by done. by exists g.
  - destruct (copy_step_unfinished _ _ Hp) as [E1 E2]. rewrite Hc in Hh |- *.
    rewrite (bool_decide_false (pc (down r) = _)) in Hh by done. rewrite (bool_decide_false (pc p = _)) by done. by exists g.
  - rewrite Hc in Hh |- *. rewrite bool_decide_false in Hh by (by rewrite Hpc).
    eexists. split; [apply rtc_once, (gw_copy_in g c (copied (up r)) (bool_decide (pc (down r) = Finished)))|].
    + rewrite (pi_copied _ (ri_up _ Hinv)). lia.
    + exact Hh.
    + simpl. rewrite lookup_insert_eq. split_and!; [done|lia|lia].
  - rewrite Hc in Hh |- *. rewrite (bool_decide_false (pc (down r) = _)) in Hh by (by rewrite Hpc).
    eexists. split; [apply rtc_once, (gw_copy_out g c (copied (down r)) (bool_decide (pc (up r) = Finished)))|].
    + rewrite (pi_copied _ (ri_down _ Hinv)). lia.
    + exact Hh.
    + simpl. rewrite lookup_insert_eq. split_and!; [done|lia|lia].
  - rewrite Hc, !bool_decide_true in Hh by done. exists (finish c g). split; [by apply rtc_once, gw_done|].
    simpl. rewrite lookup_delete_eq. split_and!; [done|lia|lia].
Qed.

(** The gateway's view of a connection is sound.  However the bytes of an
    accepted connection flow, the gateway moves with it: from the state after
    the accept there is a run of the gateway in which the connection is at the same
    phase, and the gateway's byte counters have grown by exactly what the connection
    counted. *)
Theorem relay_refines_handler g c sc dc r :
  accepting g = true -> handlers g !! c = None -> rtc relay_step (relay_init sc dc) r ->
  exists g', rtc gw_step g g' /\ handlers g' !! c = handler_view r /\
    tcpReceivedBytes g' = tcpReceivedBytes g + received_bytes r /\ tcpSentBytes g' = tcpSentBytes g + sent_bytes r.
Proof.
  intros Hacc Hfree Hr.
  enough (exists g', rtc gw_step g g' /\ shows c (tcpReceivedBytes g) (tcpSentBytes g) r g') as (g' & Hg & Hs) by eauto.
  revert r Hr. apply (rtc_ind_r (fun r => exists g', rtc gw_step g g' /\ shows c (tcpReceivedBytes g) (tcpSentBytes g) r g')).
  - exists (accept c g). split; [by apply rtc_once, gw_accept|]. unfold shows. simpl.
    rewrite lookup_insert_eq. split_and!; [done|lia|lia].
  - intros x y Hx Hstep (g' & Hg & Hs). apply (relay_step_simulated _ _ _ _ y) in Hs as (g2 & Hg2 & Hs2);
      [|apply relay_reachable_inv; by exists sc, dc|done].
    exists g2. split; [by etrans|done].
Qed.

(** *** Witnesses

    The client sends two bytes and ends its stream; the target takes them, answers
    with one byte and ends. *)
Definition rx0 : relay := dialled (relay_init true true).
Definition rx1 : relay := set_up (peer_sends [7; 9] (up rx0)) rx0.
Definition rx2 : relay := set_up (peer_ends Eof (up rx1)) rx1.
Definition rx3 : relay := set_up (read_some 2 (up rx2)) rx2.
Definition rx4 : relay := set_down (peer_sends [5] (down rx3)) rx3.
Definition rx5 : relay := set_down (peer_ends Eof (down rx4)) rx4.
Definition rx6 : relay := set_up (write_all (up rx5)) rx5.
Definition rx7 : relay := set_up (read_end (up rx6)) rx6.
Definition rx8 : relay := set_up (close_write (up rx7)) rx7.
Definition rx9 : relay := count_up rx8.

Lemma rx5_reachable : rtc relay_step (relay_init true true) rx5.
Proof.
  apply rtc_l with rx0; [by apply rl_dial_ok|].
  apply rtc_l with rx1; [by apply rl_client, peer_send|].
  apply rtc_l with rx2; [by apply rl_client, peer_end|].
  apply rtc_l with rx3; [apply rl_copy_up; [done|]; apply copy_read; [done|lia|apply Nat.leb_le; vm_compute; done|simpl; lia]|].
  apply rtc_l with rx4; [by apply rl_target, peer_send|].
  apply rtc_l with rx5; [by apply rl_target, peer_end|]. reflexivity.
Qed.

Lemma rx9_steps : nsteps relay_step 4 rx5 rx9.
Proof.
  apply (nsteps_l _ 3 rx5 rx6); [by apply rl_copy_up, copy_write|].
  apply (nsteps_l _ 2 rx6 rx7); [apply rl_copy_up, copy_read_end; [done|done|by left]|].
  apply (nsteps_l _ 1 rx7 rx8); [by apply rl_copy_up, copy_close|].
  apply (nsteps_l _ 0 rx8 rx9); [by apply rl_count_up|]. constructor.
Qed.

Lemma rx9_reachable : rtc relay_step (relay_init true true) rx9.
Proof. etrans; [exact rx5_reachable|]. apply rtc_nsteps. exists 4%nat. exact rx9_steps. Qed.

Lemma relay_faithful_witness : received (up rx9) = [7; 9] /\ received (up rx9) = sent (up rx9) /\ half_closed (up rx9) = true.
Proof.
  destruct (relay_faithful rx9) as [(_ & Hup & _) _]; [exists true, true; exact rx9_reachable|].
  split; [reflexivity|]. split; [apply Hup; reflexivity|reflexivity].
Defined.

Lemma relay_terminates_witness :
  (4 + relay_measure rx9 <= relay_measure rx5)%nat /\ (conn rx9 = Returned \/ exists r, relay_step rx9 r).
Proof. apply (relay_terminates rx5 4 rx9); [split; discriminate|exact rx9_steps]. Defined.

Lemma relay_refines_handler_witness : exists g, rtc gw_step gw_init g /\ tcpReceivedBytes g = 2.
Proof.
  destruct (relay_refines_handler gw_init 0 true true rx9) as (g & Hg & _ & Hr & _).
  - reflexivity.
  - reflexivity.
  - exact rx9_reachable.
  - exists g. split; [exact Hg|]. rewrite Hr. reflexivity.
Defined.
