(* ===== verification/System.v ===== *)
(** * Operator and forwarder together

    [system] is an operator (a cluster, its allocator, the gRPC server, metrics)
    with one connected forwarder process, whose acknowledgements go to that server
    and whose updates come from its stream there.  [deliver] takes the next update
    off the stream and has the forwarder handle it.  The theorems connect the two
    halves: what the reconciler publishes is what the forwarder serves and
    acknowledges, which is what the reconciler waits for. *)

From S2P Require Import Prelude GoStd Proto Api Kube Portalloc Server Session Proxy Controller Reconcile Lifecycle Scenarios Client Forwarder.

(** ** From publication to acknowledgement *)

Lemma Ack_acked request s :
  GetAckForwarderId request <> "" -> GetAckTunnelName request <> "" -> GetAckTunnelNamespace request <> "" ->
  connectedLocked (GetAckForwarderId request) s = true ->
  GetAckRevision request <=
    acked (Ack request s).2 (GetAckForwarderId request)
      (tunnelKey (GetAckTunnelNamespace request) (GetAckTunnelName request)).
Proof.
  intros H1 H2 H3 Hc. destruct (Ack_spec request s) as [_ Hok]. destruct (Hok H1 H2 H3) as [_ Hacc].
  destruct (Hacc Hc) as (_ & _ & ->). rewrite bool_decide_true by done. lia.
Qed.

(** ** Messages *)

(** A mapping a forwarder can serve: every field set, a positive port, the address of a
    gateway pod, and as gateway address that one with the WireGuard port. *)
Definition message_ok (m : option TunnelMapping) : Prop :=
  exists name namespace port ip revision uid,
    m = Some (mkTunnelMapping (Some name) (Some namespace) (Some port) (Some (JoinHostPort ip "51820"))
                (Some revision) (Some uid) (Some ip)) /\ 0 < port /\ ip <> "".

(** What an update must carry: an addition or modification such a mapping, a deletion the
    tunnel and its port. *)
Definition update_ok (u : TunnelUpdate) : Prop :=
  match tu_Type u with
  | Some ADDED | Some MODIFIED => message_ok (tu_Tunnel u)
  | Some DELETED =>
      exists m, tu_Tunnel u = Some m /\ is_Some (tm_TunnelName m) /\ is_Some (tm_TunnelNamespace m) /\ 0 < GetForwarderPort (Some m)
  | _ => False
  end.

Lemma published_message_ok t :
  0 < ForwarderPort (Status t) -> GatewayPodIP (Status t) <> "" -> message_ok (Some (publishedMapping t)).
Proof. intros Hp Hip. eexists _, _, _, _, _, _. by split_and!. Qed.

Lemma message_ok_accepted m : message_ok m -> valid_mapping m = true /\ acknowledgeable m = true.
Proof.
  intros (name & ns & port & ip & rev & uid & -> & Hp & _).
  assert (acknowledgeable (Some (mkTunnelMapping (Some name) (Some ns) (Some port) (Some (JoinHostPort ip "51820"))
    (Some rev) (Some uid) (Some ip))) = true) as Hack.
  { unfold acknowledgeable. rewrite (bool_decide_true (is_Some _)) by done. rewrite bool_decide_false by (cbn; lia).
    by rewrite bool_decide_false by apply TrimSpace_JoinHostPort. }
  split; [by apply acknowledgeable_valid|done].
Qed.

Section messages.
Context {W : Type} `{KubeClient W} `{!ControllerUtil} `{!ControllerUtilLaws} {R : Type} `{RandSource R}
  {F : Type} `{forwarderServer F}.

(** C31: the operator's messages are well formed.  Every update a reconciliation
    publishes is an addition, a modification or a deletion.  The mapping of an addition
    or a modification, and every mapping of a snapshot, has all its fields, a positive
    port, a non-empty gateway pod address, and that address with port 51820 as gateway
    address; so it passes the checks a forwarder makes before it applies and
    acknowledges a mapping.  A deletion names its tunnel and a positive port. *)
Theorem operator_messages_well_formed rc req (s : world W R F) svc (w : W) (o : option (PortAllocator R)) :
  (forall pre u post, trace s = [] -> trace (Reconcile rc req s).2 = pre ++ EvNotify u :: post -> update_ok u) /\
  (forall config st, GetConfig svc (w, o) = (Ok config, st) -> Forall message_ok (fc_Tunnels config)) /\
  (forall m, message_ok m -> valid_mapping m = true /\ acknowledgeable m = true).
Proof.
  split_and!; [| |exact message_ok_accepted].
  - intros pre u post Htr Heq. destruct (Reconcile_allowed _ _ _ _ _ _ Htr Heq) as (t & ty & _ & -> & Hp & Hty).
    unfold update_ok. simpl. case_decide as Hd.
    + subst ty. eexists. by split_and!.
    + destruct Hty as (Hty & Hip & _). by destruct Hty as [->| ->]; apply published_message_ok.
  - intros config st Hget. pose proof (GetConfig_result svc w o) as Hres.
    destruct (kube_list_tunnels w) as [[items|e] w']; rewrite Hget in Hres; [|discriminate].
    injection Hres as -> _. apply Forall_fmap, Forall_forall.
    intros t [(_ & _ & _ & Hp & Hip & _)%in_snapshot_servable _]%list_elem_of_filter. by apply published_message_ok.
Qed.
End messages.

Section publication.
Context (os_refuses : nat -> bool) (fid : string).

(** Publishing leads to acknowledgement.  When the update the reconciler
    publishes for a tunnel reaches a connected forwarder that can open the port, the
    forwarder ends up serving exactly that mapping on the port, unless it had a newer one
    of the tunnel, and the server no longer reports the forwarder as missing for that
    revision, which is the condition the reconciler waits for to make the tunnel
    Ready; for other forwarders nothing changes. *)
Theorem published_update_is_acknowledged ty (t : Tunnel) (s : fproc ForwarderServer) :
  (ty = ADDED \/ ty = MODIFIED) -> 0 < ForwarderPort (Status t) <= 65535 ->
  fid <> "" -> Name t <> "" -> Namespace t <> "" ->
  (forall n, os_refuses n = false) -> proxy_inv (f_proxy s) -> connectedLocked fid (f_op s) = true ->
  exists s', handleUpdate os_refuses fid (Some (mkTunnelUpdate (Some ty) (Some (publishedMapping t)))) s = (Ok tt, s') /\
    proxy_inv (f_proxy s') /\ in_effect (f_proxy s) (f_proxy s') (Some (publishedMapping t)) /\
    (forall fid', fid' ∈ MissingAcks (Namespace t) (Name t) (MappingRevision (Status t)) (f_op s') ->
       fid' <> fid /\ fid' ∈ MissingAcks (Namespace t) (Name t) (MappingRevision (Status t)) (f_op s)).
Proof.
  intros Hty Hport Hfid Hname Hns Hos Hinv Hconn. set (m := publishedMapping t) in *.
  assert (GetForwarderPort (Some m) = ForwarderPort (Status t)) as Hp by done.
  assert (valid_mapping (Some m) = true) as Hv.
  { unfold valid_mapping. rewrite !bool_decide_true by (done || lia || apply JoinHostPort_nonempty). done. }
  destruct (ApplyMapping_granted os_refuses (Some m) (f_proxy s) Hos ltac:(lia) Hinv Hv) as (p' & Happ & Hinv' & _).
  destruct (ApplyMapping_newest os_refuses (Some m) _ _ Hinv Happ) as [_ Hserve%newest_in_effect].
  set (req := ackRequest fid m).
  destruct (Ack_spec (Some req) (f_op s)) as [_ Hok]. destruct (Hok Hfid Hname Hns) as [_ Hacc]. destruct (Hacc Hconn) as (Hr & _ & _).
  exists (mkProc p' (f_ready s) (Ack (Some req) (f_op s)).2 (f_sent s ++ [req])). split_and!; [|done|done|].
  - unfold handleUpdate. change (GetTunnel _) with (Some m). cbv beta iota zeta.
    rewrite (bool_decide_false (GetForwarderPort (Some m) <= 0)) by lia.
    change (GetType _) with ty. destruct Hty as [->| ->];
      rewrite (bool_decide_false (TrimSpace (GetGatewayAddress (Some m)) = "")) by apply TrimSpace_JoinHostPort;
      unfold mbind, ST_bind, wrap_err, on_proxy, client_Ack; rewrite Happ; simpl; fold req;
      by destruct (Ack (Some req) (f_op s)) as [[[]|e] o].
  - simpl. intros fid'. rewrite !elem_of_MissingAcks. intros [Hc' Hlt]. split.
    + intros ->. pose proof (Ack_acked (Some req) (f_op s) Hfid Hname Hns Hconn) as Hge.
      simpl in *. unfold GetAckRevision, GetAckForwarderId, GetAckTunnelNamespace, GetAckTunnelName, getter in Hge. simpl in Hge. lia.
    + split; [revert Hc'; apply connected_mono; intros ptr st; rewrite Ack_streams; by eauto|].
      rewrite (proj2 (proj2 (Hacc Hconn))) in Hlt. case_bool_decide as Heq; [|done].
      destruct Heq as [-> Ekey]. rewrite Ekey. lia.
Qed.

End publication.

(** ** The composed system *)

Record system := mkSystem { operator : demo_world; proxy : UDPProxy }.

(** The forwarder takes the next update off its stream. *)
Definition deliver (x : system) : system :=
  match fwd (operator x) with
  | None => x
  | Some f =>
      match streams f !! 0%nat with
      | Some st =>
          match updates st with
          | [] => x
          | u :: q =>
              let f := set_stream 0 (mkStream (id st) q (overflow st)) f in
              let s := (onUpdate os_ok (id st) u (mkProc (proxy x) true f [])).2 in
              mkSystem (on_fwd (fun _ => f_op s) (operator x)) (f_proxy s)
          end
      | None => x
      end
  end.

Definition on_operator (g : demo_world -> demo_world) (x : system) : system := mkSystem (g (operator x)) (proxy x).

(** *** A late deletion

    One port, two tunnels: "a" ends and its cleanup is interrupted by a failing
    delete; "b" is created and gets the port; then the cleanup of "a" is retried. *)

Definition late_start : system :=
  mkSystem
    (mkWorld (fk_set_tunnels {[demo_req "a" := demo_tunnel "a"]} fake_empty) (Some (New 51820 51820 7))
       (Some demo_server) (mkMetrics ∅ 0 ∅) [])
    (NewUDPProxy 300).

Definition bring_up (name ip : string) (x : system) : system :=
  let x := on_operator (reconcile (Ok "gw-key") name) x in
  let x := on_operator (fun s => reconcile (Ok "gw-key") name (start_pod name ip s)) x in
  let x := deliver (deliver (deliver (deliver x))) in
  on_operator (reconcile (Ok "gw-key") name) x.

Definition pod_done (p : Pod) : Pod :=
  mkPod (pod_Key p) (pod_UID p) (pod_Labels p) (pod_Annotations p) (pod_Owners p) (pod_Spec p) PodSucceeded
    (pod_PodIP p) (pod_Conditions p).
Definition set_delete_fails (b : bool) (w : FakeKube) : FakeKube :=
  mkFake (fk_tunnels w) (fk_pods w) (fk_policies w) (fk_services w) (fk_next_uid w) (fk_patch_fails w) b.

Definition late1 : system := bring_up "a" "10.0.0.1" late_start.
(** the gateway of "a" ends; the tunnel is marked Terminated; deleting it fails *)
Definition late2 : system :=
  on_operator (fun s =>
    let s := on_kube (fun w => fk_set_pods (alter pod_done (mkKey "team" (gatewayResourceName "a")) (fk_pods w)) w) s in
    let s := reconcile (Ok "gw-key") "a" s in
    on_kube (set_delete_fails false) (reconcile (Ok "gw-key") "a" (on_kube (set_delete_fails true) s))) late1.
Definition late3 : system :=
  bring_up "b" "10.0.0.2"
    (on_operator (on_kube (fun w => fk_set_tunnels (<[demo_req "b" := demo_tunnel "b"]> (fk_tunnels w)) w)) late2).
Definition late4 : system := deliver (on_operator (reconcile (Ok "gw-key") "a") late3).
Definition late5 : system := deliver (on_operator (reconcile (Ok "gw-key") "b") late4).

Definition phase_of (name : string) (x : system) : option TunnelPhase := Phase ∘ Status <$> tunnel_of name (operator x).

(** Retrying the cleanup of an ended tunnel can take down another one.  The
    port is released before the tunnel is deleted, so when that delete fails the port
    can go to another tunnel; the retry publishes the deletion of the port once more,
    forwarders obey it by port alone, and the tunnel that has the port now loses its
    route.  It stays Ready, and reconciling it again does not publish its mapping. *)
Theorem late_deletion_takes_down_other_tunnel :
  (phase_of "a" late1 = Some TunnelPhaseReady /\ (r_name <$> routes (proxy late1) !! 51820) = Some "a") /\
  (phase_of "b" late3 = Some TunnelPhaseReady /\ (r_name <$> routes (proxy late3) !! 51820) = Some "b") /\
  (phase_of "b" late4 = Some TunnelPhaseReady /\ routes (proxy late4) !! 51820 = None) /\
  (phase_of "b" late5 = Some TunnelPhaseReady /\ routes (proxy late5) !! 51820 = None) /\
  tunnel_of "a" (operator late4) = None.
Proof. vm_compute. by split_and!. Qed.

(** *** Witness *)

Definition witness_tunnel : Tunnel := default (demo_tunnel "") (tunnel_of "db" demo2).

(** The server once the mapping is published and before it is acknowledged. *)
Definition witness_world : demo_world := reset demo2.
Definition witness_server : ForwarderServer := default NewForwarderServer (fwd witness_world).
Definition witness_pod : Pod := running_pod.
Definition witness_policy_world : FakeKube :=
  (kube_create_or_update_policy (gateway_key witness_tunnel) (mutate_policy witness_tunnel (gatewayLabels "db")) (kube witness_world)).2.


Lemma operator_messages_well_formed_witness :
  tu_Type (notified 4 demo2) = Some MODIFIED /\ update_ok (notified 4 demo2).
Proof.
  split; [vm_compute; reflexivity|].
  destruct (operator_messages_well_formed (demo_rc (Ok "gw-key")) (demo_req "db") before2 (mkKey "" "") (kube before2) None) as [Hpub _].
  apply (Hpub (take 4 (trace demo2)) (notified 4 demo2) (drop 5 (trace demo2))); vm_compute; reflexivity.
Defined.
