(* ===== verification/Stubs.v ===== *)
(** * The generated gRPC stubs (pkg/forwarder/proto/forwarder/v1/forwarder_grpc.pb.go)

    The client stubs, the handlers and the service description that route a call of a
    forwarder to a method of the operator's server.  The gRPC library itself and the
    protobuf encoding are not part of the program: a connection is the interface
    [ClientConn], an encoding the interface [Codec], and what the program relies on are
    the laws [CodecLaws] and [ConnLaws].  They let every call fail at any point: before
    the handler runs, or after it ran and its answer got lost.

    The theorems say that a stub call is the server's method with the same request, so
    that the forwarder's theorems, which are over any operator ([OperatorAPI]), hold of a
    forwarder that talks to the operator over a connection ([stub_operator]). *)

From S2P Require Import Prelude GoStd Proto Api Kube Portalloc Server Session Proxy Client Forwarder System.

(** ** Messages as [interface{}] *)

Inductive message_kind :=
  KGetConfigRequest | KForwarderConfig | KStreamUpdatesRequest | KTunnelUpdate | KAckRequest | KAckResponse.

#[export] Instance message_kind_eq_dec : EqDecision message_kind.
Proof. solve_decision. Defined.

Definition message (k : message_kind) : Type :=
  match k with
  | KGetConfigRequest => GetConfigRequest
  | KForwarderConfig => ForwarderConfig
  | KStreamUpdatesRequest => StreamUpdatesRequest
  | KTunnelUpdate => TunnelUpdate
  | KAckRequest => AckRequest
  | KAckResponse => AckResponse
  end.

(** A value of type [interface{}] that holds a pointer to a message, and the type
    assertion [x.( *T )]. *)
Definition any_message : Type := sigT message.

Definition assert_kind (k : message_kind) (x : any_message) : option (message k) :=
  match decide (projT1 x = k) with
  | left E => Some (eq_rect _ message (projT2 x) _ E)
  | right _ => None
  end.

(** A call of a handler: it returns, or it panics ([None]). *)
Definition Call (S A : Type) : Type := S -> option (res A) * S.
Definition returning {S A} (m : ST S A) : Call S A := fun s => let '(r, s') := m s in (Some r, s').
Definition panic {S A} : Call S A := fun s => (None, s).

(** ** Names *)

Definition ForwarderConfigService_GetConfig_FullMethodName : string :=
  "/nais.tunnel.forwarder.v1.ForwarderConfigService/GetConfig".
Definition ForwarderConfigService_StreamUpdates_FullMethodName : string :=
  "/nais.tunnel.forwarder.v1.ForwarderConfigService/StreamUpdates".
Definition ForwarderConfigService_Ack_FullMethodName : string :=
  "/nais.tunnel.forwarder.v1.ForwarderConfigService/Ack".

(** ** The server side

    [S] is the state the server works on.  A streaming method runs until its stream
    ends, so what it does is left open as a type [P]. *)

Record ForwarderConfigServiceServer (S P : Type) := mkService {
  srv_GetConfig : GetConfigRequest -> ST S ForwarderConfig;
  srv_StreamUpdates : StreamUpdatesRequest -> nat -> P;
  srv_Ack : AckRequest -> ST S AckResponse;
}.
Arguments mkService {_ _} _ _ _.
Arguments srv_GetConfig {_ _} _ _.
Arguments srv_StreamUpdates {_ _} _ _ _.
Arguments srv_Ack {_ _} _ _.

(** [codes.Unimplemented] is 12. *)
Definition unimplemented {S A} (method : string) : ST S A :=
  throw (ErrStatus (OtherCode 12) ("method " +:+ method +:+ " not implemented")).

Definition UnimplementedForwarderConfigServiceServer {S} : ForwarderConfigServiceServer S (ST S unit) :=
  mkService (fun _ => unimplemented "GetConfig") (fun _ _ => unimplemented "StreamUpdates")
    (fun _ => unimplemented "Ack").

(** How a server has the method [testEmbeddedByValue]: not at all, from a value, or
    from a pointer that may be nil. *)
Inductive embedding := NotEmbedded | EmbeddedByValue | EmbeddedByPointer (is_nil : bool).

Section service.
Context {S P : Type}.
Abbreviation service := (ForwarderConfigServiceServer S P).

(** [dec] and [stream.RecvMsg] fill a message of the type they are given. *)
Abbreviation decoder := (forall k : message_kind, res (message k)).

Record UnaryServerInfo := mkInfo { info_Server : service; info_FullMethod : string }.
Definition interceptor : Type := any_message -> UnaryServerInfo -> (any_message -> Call S any_message) -> Call S any_message.

Definition answer {k} (m : ST S (message k)) : Call S any_message :=
  returning (r ← m; mret (existT k r)).

Definition _ForwarderConfigService_GetConfig_Handler (srv : service) (dec : decoder) (ic : option interceptor) :
    Call S any_message :=
  match dec KGetConfigRequest with
  | Fail err => returning (throw err)
  | Ok in_ =>
      match ic with
      | None => answer (k := KForwarderConfig) (srv_GetConfig srv in_)
      | Some ic =>
          ic (existT KGetConfigRequest in_) (mkInfo srv ForwarderConfigService_GetConfig_FullMethodName)
            (fun req => match assert_kind KGetConfigRequest req with
                        | Some req => answer (k := KForwarderConfig) (srv_GetConfig srv req)
                        | None => panic
                        end)
      end
  end.

Definition _ForwarderConfigService_StreamUpdates_Handler (srv : service) (stream : nat) (RecvMsg : decoder) : res P :=
  match RecvMsg KStreamUpdatesRequest with
  | Fail err => Fail err
  | Ok m => Ok (srv_StreamUpdates srv m stream)
  end.

Definition _ForwarderConfigService_Ack_Handler (srv : service) (dec : decoder) (ic : option interceptor) :
    Call S any_message :=
  match dec KAckRequest with
  | Fail err => returning (throw err)
  | Ok in_ =>
      match ic with
      | None => answer (k := KAckResponse) (srv_Ack srv in_)
      | Some ic =>
          ic (existT KAckRequest in_) (mkInfo srv ForwarderConfigService_Ack_FullMethodName)
            (fun req => match assert_kind KAckRequest req with
                        | Some req => answer (k := KAckResponse) (srv_Ack srv req)
                        | None => panic
                        end)
      end
  end.

Record MethodDesc := mkMethodDesc {
  MethodName : string;
  md_Handler : service -> decoder -> option interceptor -> Call S any_message;
}.

Record StreamDesc := mkStreamDesc {
  StreamName : string;
  sd_Handler : service -> nat -> decoder -> res P;
  ServerStreams : bool;
}.

Record ServiceDesc := mkServiceDesc {
  ServiceName : string;
  Methods : list MethodDesc;
  Streams : list StreamDesc;
  Metadata : string;
}.

Definition stream_updates_desc : StreamDesc :=
  mkStreamDesc "StreamUpdates" _ForwarderConfigService_StreamUpdates_Handler true.

Definition ForwarderConfigService_ServiceDesc : ServiceDesc :=
  mkServiceDesc "nais.tunnel.forwarder.v1.ForwarderConfigService"
    [mkMethodDesc "GetConfig" _ForwarderConfigService_GetConfig_Handler;
     mkMethodDesc "Ack" _ForwarderConfigService_Ack_Handler]
    [stream_updates_desc]
    "forwarder/v1/forwarder.proto".

(** [s.RegisterService] is the library's: [registrar] is what it does.  The check
    before it panics on a nil embedded pointer. *)
Definition RegisterForwarderConfigServiceServer {G} (RegisterService : ServiceDesc -> service -> G -> G)
    (e : embedding) (srv : service) (g : G) : option G :=
  match e with
  | EmbeddedByPointer true => None
  | _ => Some (RegisterService ForwarderConfigService_ServiceDesc srv g)
  end.

(** The name a call of a method has on the wire: [/service/method]. *)
Definition full_name (d : ServiceDesc) (name : string) : string := "/" +:+ ServiceName d +:+ "/" +:+ name.
End service.
Arguments MethodDesc : clear implicits.
Arguments StreamDesc : clear implicits.
Arguments ServiceDesc : clear implicits.

(** ** The library's interfaces *)

(** The protobuf encoding.  Encoding can fail (a string that is not UTF-8); what was
    encoded decodes to itself, but for the two things the encoding does not keep: a nil
    entry of a repeated field arrives as an empty message, and an enum value is its
    number. *)
Class Codec := {
  wire : Type;
  marshal : forall k, message k -> res wire;
  unmarshal : forall k, wire -> res (message k);
}.

Definition enum_ok (t : UpdateType) : Prop := match t with UpdateTypeOther n => ~ 0 <= n <= 3 | _ => True end.

Definition wire_ok (k : message_kind) : message k -> Prop :=
  match k with
  | KForwarderConfig => fun c => Forall is_Some (fc_Tunnels c)
  | KTunnelUpdate => fun u => match tu_Type u with Some t => enum_ok t | None => True end
  | _ => fun _ => True
  end.

Class CodecLaws `{Codec} : Prop := {
  codec_roundtrip k (m : message k) b : wire_ok k m -> marshal k m = Ok b -> unmarshal k b = Ok m;
}.

(** [status.FromError]: what a handler's error is on the other side.  A status error is
    sent as it is. *)
Class StatusConv := { status_of : error -> error }.
Class StatusLaws `{StatusConv} : Prop := { status_kept code msg : status_of (ErrStatus code msg) = ErrStatus code msg }.

(** A stream as its client has used it: the method it was opened for, the messages sent
    and whether the client has closed its side. *)
Record stream_view := mkView { sv_method : string; sv_sent : list any_message; sv_closed : bool }.

Class ClientConn (S P : Type) := {
  Invoke : string -> forall kin kout, message kin -> ST S (message kout);
  NewStream : StreamDesc S P -> string -> ST S nat;
  SendMsg : nat -> forall k, message k -> ST S unit;
  CloseSend : nat -> ST S unit;
  (** what the library keeps of a stream, and what the handler's [RecvMsg] gives there *)
  view : S -> nat -> option stream_view;
  RecvMsg : S -> nat -> forall k, res (message k);
}.

(** What can become of a call whose request was encoded: it is not sent; the handler
    runs and the answer is lost; its error comes back as a status; its answer comes
    back encoded and decoded. *)
Inductive invoked `{Codec} `{StatusConv} {S kout} (handler : Call S any_message) (s : S) : res (message kout) * S -> Prop :=
| not_sent e : invoked handler s (Fail e, s)
| answer_lost e o s' : handler s = (o, s') -> invoked handler s (Fail e, s')
| answer_error e s' : handler s = (Some (Fail e), s') -> invoked handler s (Fail (status_of e), s')
| answer_reply a b s' :
    handler s = (Some (Ok a), s') -> marshal (projT1 a) (projT2 a) = Ok b -> invoked handler s (unmarshal kout b, s').

Class ConnLaws {S P : Type} `{Codec} `{StatusConv} `{ClientConn S P} (d : ServiceDesc S P)
    (srv : ForwarderConfigServiceServer S P) : Prop := {
  (** a call reaches the handler registered under its name, which has no interceptor *)
  invoke_law md kin kout (m : message kin) s :
    md ∈ Methods d ->
    match marshal kin m with
    | Fail _ => exists e, Invoke (full_name d (MethodName md)) kin kout m s = (Fail e, s)
    | Ok b => invoked (md_Handler md srv (fun k => unmarshal k b) None) s
                (Invoke (full_name d (MethodName md)) kin kout m s)
    end;
  new_stream_law sd m s h s' :
    NewStream sd m s = (Ok h, s') -> view s' h = Some (mkView m [] false);
  send_law h k m s s' v :
    SendMsg h k m s = (Ok tt, s') -> view s h = Some v ->
    view s' h = Some (mkView (sv_method v) (sv_sent v ++ [existT k m]) (sv_closed v));
  close_law h s s' v :
    CloseSend h s = (Ok tt, s') -> view s h = Some v -> view s' h = Some (mkView (sv_method v) (sv_sent v) true);
  (** the handler receives what was sent first, or nothing *)
  recv_law s h v k0 m0 rest k :
    view s h = Some v -> sv_sent v = existT k0 m0 :: rest ->
    (exists e, RecvMsg s h k = Fail e) \/ exists b, marshal k0 m0 = Ok b /\ RecvMsg s h k = unmarshal k b;
}.

(** ** The client stubs *)

Section client.
Context {S P : Type} `{!ClientConn S P}.

Definition forwarderConfigServiceClient_GetConfig (in_ : GetConfigRequest) : ST S ForwarderConfig :=
  Invoke ForwarderConfigService_GetConfig_FullMethodName KGetConfigRequest KForwarderConfig in_.

Definition forwarderConfigServiceClient_StreamUpdates (in_ : StreamUpdatesRequest) : ST S nat :=
  stream ← NewStream stream_updates_desc ForwarderConfigService_StreamUpdates_FullMethodName;
  SendMsg stream KStreamUpdatesRequest in_ ;;
  CloseSend stream ;;
  mret stream.

Definition forwarderConfigServiceClient_Ack (in_ : AckRequest) : ST S AckResponse :=
  Invoke ForwarderConfigService_Ack_FullMethodName KAckRequest KAckResponse in_.

(** The methods of [ConfigClient] that call them (pkg/forwarder/grpc_client.go). *)
Definition FetchConfig : ST S ForwarderConfig := forwarderConfigServiceClient_GetConfig mkGetConfigRequest.

Definition ConfigClient_Ack (forwarderID : string) (mapping : option TunnelMapping) : ST S unit :=
  match mapping with
  | None => throw (ErrNew "nil tunnel mapping")
  | Some m => forwarderConfigServiceClient_Ack (ackRequest forwarderID m) ;; mret tt
  end.

(** The operator as a forwarder sees it over a connection. *)
Definition stub_operator : OperatorAPI S :=
  {| op_Ack request := forwarderConfigServiceClient_Ack request ;; mret tt |}.
End client.

(** ** What a stub call is *)

Section stub_calls.
Context {S P : Type} `{CodecLaws} `{StatusLaws} `{!ClientConn S P} (srv : ForwarderConfigServiceServer S P)
  `{!ConnLaws ForwarderConfigService_ServiceDesc srv}.

(** The result of a method, as the caller of the stub can get it: the call had no
    effect and failed; or the method ran, and the caller has its result, its error as a
    status, or an error in place of a lost answer. *)
Inductive called {A} (method : ST S A) (s : S) : res A * S -> Prop :=
| called_not e : called method s (Fail e, s)
| called_lost e : called method s (Fail e, (method s).2)
| called_error e : (method s).1 = Fail e -> called method s (Fail (status_of e), (method s).2)
| called_ok a : (method s).1 = Ok a -> called method s (Ok a, (method s).2).

Lemma answer_run k (m : ST S (message k)) s :
  answer m s = (Some (match (m s).1 with Ok a => Ok (existT k a) | Fail e => Fail e end), (m s).2).
Proof. unfold answer, returning, mbind, ST_bind. by destruct (m s) as [[a|e] s']. Qed.

Lemma invoked_answer k (m : ST S (message k)) s r :
  (forall a, (m s).1 = Ok a -> wire_ok k a) -> invoked (answer m) s r -> called m s r.
Proof.
  intros Hok. destruct 1 as [e|e o s' Hrun|e s' Hrun|a b s' Hrun Hb].
  - apply called_not.
  - rewrite answer_run in Hrun. injection Hrun as _ <-. apply called_lost.
  - rewrite answer_run in Hrun. injection Hrun as Hr <-. apply called_error. by destruct (m s).1; simplify_eq.
  - rewrite answer_run in Hrun. injection Hrun as Hr <-. destruct (m s).1 as [a'|e'] eqn:Hm; [|done].
    injection Hr as <-. rewrite (codec_roundtrip k a' b); [by apply called_ok|by apply Hok|done].
Qed.

(** A handler without interceptor is its method on the decoded request. *)
Lemma stub_unary md kin kout (m : message kin) (method : ST S (message kout)) s :
  md ∈ Methods ForwarderConfigService_ServiceDesc -> wire_ok kin m ->
  (forall dec, dec kin = Ok m -> md_Handler md srv dec None = answer method) ->
  (forall a, (method s).1 = Ok a -> wire_ok kout a) ->
  called method s (Invoke (full_name (S := S) (P := P) ForwarderConfigService_ServiceDesc (MethodName md)) kin kout m s).
Proof.
  intros Hmd Hm Hh Hok. pose proof (invoke_law md kin kout m s Hmd) as Hlaw.
  destruct (marshal kin m) as [b|e] eqn:Hb; [|destruct Hlaw as [e' ->]; apply called_not].
  rewrite Hh in Hlaw by by apply codec_roundtrip. by apply invoked_answer.
Qed.

Lemma GetConfig_stub in_ s :
  (forall c, (srv_GetConfig srv in_ s).1 = Ok c -> wire_ok KForwarderConfig c) ->
  called (srv_GetConfig srv in_) s (forwarderConfigServiceClient_GetConfig in_ s).
Proof.
  intros Hok.
  refine (stub_unary (mkMethodDesc "GetConfig" _ForwarderConfigService_GetConfig_Handler)
            KGetConfigRequest KForwarderConfig in_ (srv_GetConfig srv in_) s _ I _ Hok).
  - apply list_elem_of_here.
  - intros dec Hdec. simpl. unfold _ForwarderConfigService_GetConfig_Handler. by rewrite Hdec.
Qed.

Lemma Ack_stub in_ s : called (srv_Ack srv in_) s (forwarderConfigServiceClient_Ack in_ s).
Proof.
  refine (stub_unary (mkMethodDesc "Ack" _ForwarderConfigService_Ack_Handler)
            KAckRequest KAckResponse in_ (srv_Ack srv in_) s _ I _ (fun _ _ => I)).
  - apply list_elem_of_further, list_elem_of_here.
  - intros dec Hdec. simpl. unfold _ForwarderConfigService_Ack_Handler. by rewrite Hdec.
Qed.

(** C15: a call of a stub is a call of the server's method.  Over any connection that
    delivers a call to the handler registered under its name, if at all, a client's
    GetConfig and Ack either fail without effect, or run exactly the method of that name
    of the server, once, with the client's request; and what the client gets is that
    method's result, its error as a status, or an error because the answer was lost.  In
    particular a client that gets a value got the method's value. *)
Theorem stub_call_is_method_call s :
  (forall in_, (forall c, (srv_GetConfig srv in_ s).1 = Ok c -> wire_ok KForwarderConfig c) ->
     called (srv_GetConfig srv in_) s (forwarderConfigServiceClient_GetConfig in_ s)) /\
  (forall in_, called (srv_Ack srv in_) s (forwarderConfigServiceClient_Ack in_ s)).
Proof. split; intros; [by apply GetConfig_stub|by apply Ack_stub]. Qed.

(** A stream a stub has opened: if its handler starts at all, it starts the server's
    StreamUpdates with the request of the client. *)
Lemma stream_stub in_ s h s' :
  forwarderConfigServiceClient_StreamUpdates in_ s = (Ok h, s') ->
  exists sd, sd ∈ Streams (S := S) (P := P) ForwarderConfigService_ServiceDesc /\
    view s' h = Some (mkView (full_name (S := S) (P := P) ForwarderConfigService_ServiceDesc (StreamName sd))
                        [existT KStreamUpdatesRequest in_] true) /\
    forall proc, sd_Handler sd srv h (RecvMsg s' h) = Ok proc -> proc = srv_StreamUpdates srv in_ h.
Proof.
  unfold forwarderConfigServiceClient_StreamUpdates, mbind, ST_bind.
  destruct (NewStream _ _ s) as [[h1|e] s1] eqn:Hnew; [|done].
  destruct (SendMsg h1 KStreamUpdatesRequest in_ s1) as [[[]|e] s2] eqn:Hsend; [|done].
  destruct (CloseSend h1 s2) as [[[]|e] s3] eqn:Hclose; [|done]. intros [= <- <-].
  pose proof (new_stream_law _ _ _ _ _ Hnew) as Hv1.
  pose proof (send_law _ _ _ _ _ _ Hsend Hv1) as Hv2.
  pose proof (close_law _ _ _ _ Hclose Hv2) as Hv3. simpl in Hv3.
  exists stream_updates_desc. split; [by apply list_elem_of_here|]. split; [exact Hv3|].
  intros proc. simpl. unfold _ForwarderConfigService_StreamUpdates_Handler.
  destruct (recv_law _ _ _ _ _ _ KStreamUpdatesRequest Hv3 eq_refl) as [[e ->]|(b & Hb & ->)]; [done|].
  rewrite (codec_roundtrip KStreamUpdatesRequest in_ b I Hb). by intros [= <-].
Qed.
End stub_calls.

(** ** The operator behind its stubs

    The process that serves: the gRPC server with its streams, the cluster and the
    allocator GetConfig uses, and what the library keeps of its connections. *)

Section operator_service.
Context {W : Type} `{!KubeClient W} `{!ControllerUtil} {R : Type} `{!RandSource R} {N : Type}.

Record net := mkNet {
  n_sys : server_sys;
  n_cluster : W * option (PortAllocator R);
  n_conns : N;
}.

Definition on_server {A} (m : ST ForwarderServer A) : ST net A := fun s =>
  let x := n_sys s in
  let '(r, f) := m (Server.srv x) in
  (r, mkNet (mkSys f (delivered x) (published x)) (n_cluster s) (n_conns s)).

(** The methods [*ForwarderServer] has for the interface; it embeds the unimplemented
    server by value and overrides all three. *)
Definition forwarder_service (forwarderServiceKey : ObjectKey) : ForwarderConfigServiceServer net (net -> net) :=
  mkService
    (fun _ s => let '(r, c) := Server.GetConfig forwarderServiceKey (n_cluster s) in (r, mkNet (n_sys s) c (n_conns s)))
    (fun request ptr s => mkNet (open_stream ptr (Some request) (n_sys s)) (n_cluster s) (n_conns s))
    (fun request => on_server (Server.Ack (Some request)) ;; mret mkAckResponse).

Definition serving {G} (RegisterService : ServiceDesc net (net -> net) -> ForwarderConfigServiceServer net (net -> net) -> G -> G)
    (forwarderServiceKey : ObjectKey) (server : G) : option G :=
  RegisterForwarderConfigServiceServer RegisterService EmbeddedByValue (forwarder_service forwarderServiceKey) server.

Lemma service_config_wire_ok key in_ s c :
  (srv_GetConfig (forwarder_service key) in_ s).1 = Ok c -> wire_ok KForwarderConfig c.
Proof.
  simpl. destruct s as [x [w o] n]. simpl. pose proof (GetConfig_result key w o) as Hres.
  destruct (kube_list_tunnels w) as [[items|e] w']; rewrite Hres; simpl; [|done].
  intros [= <-]. apply Forall_fmap, Forall_forall. by intros t _; eexists.
Qed.

Section over_connection.
Context `{CodecLaws} `{StatusLaws} `{!ClientConn net (net -> net)} (key : ObjectKey)
  `{!ConnLaws ForwarderConfigService_ServiceDesc (forwarder_service key)}.

(** A snapshot that arrives is one GetConfig made. *)
Lemma fetched_config s c s' :
  FetchConfig s = (Ok c, s') ->
  exists w', Server.GetConfig key (n_cluster s) = (Ok c, w') /\ s' = mkNet (n_sys s) w' (n_conns s).
Proof.
  unfold FetchConfig. intros Hrun.
  pose proof (GetConfig_stub (forwarder_service key) mkGetConfigRequest s (service_config_wire_ok key _ s)) as Hc.
  rewrite Hrun in Hc. simpl in Hc.
  inversion Hc as [| | |a Ha Er]; subst. simpl in *.
  destruct (Server.GetConfig key (n_cluster s)) as [r w'] eqn:Eg. simpl in *. subst r. by exists w'.
Qed.

(** An acknowledgement that returns without error is on record. *)
Lemma acknowledged_on_record request s s' :
  forwarderConfigServiceClient_Ack request s = (Ok mkAckResponse, s') ->
  s' = (srv_Ack (forwarder_service key) request s).2 /\ (Server.Ack (Some request) (Server.srv (n_sys s))).1 = Ok tt.
Proof.
  intros Hrun. pose proof (Ack_stub (forwarder_service key) request s) as Hc. rewrite Hrun in Hc.
  inversion Hc as [| | |a Ha Er]; subst. split; [done|].
  revert Ha. simpl. unfold mbind, ST_bind, on_server. by destruct (Server.Ack _ _) as [[[]|e] f].
Qed.

Lemma Ack_ok_missing request s :
  (Server.Ack (Some request) s).1 = Ok tt ->
  GetAckForwarderId (Some request) ∉
    MissingAcks (GetAckTunnelNamespace (Some request)) (GetAckTunnelName (Some request)) (GetAckRevision (Some request))
      (Server.Ack (Some request) s).2.
Proof.
  intros Hok. destruct (Ack_spec (Some request) s) as [Hbad Hgood]. rewrite elem_of_MissingAcks. intros [_ Hlt].
  destruct (decide (GetAckForwarderId (Some request) = "" \/ GetAckTunnelName (Some request) = "" \/
                    GetAckTunnelNamespace (Some request) = "")) as [Hb|Hb].
  { destruct (Hbad Hb) as [msg Hm]. by rewrite Hm in Hok. }
  destruct (Hgood ltac:(tauto) ltac:(tauto) ltac:(tauto)) as [Hnot Hyes].
  destruct (connectedLocked (GetAckForwarderId (Some request)) s) eqn:Hconn.
  - pose proof (Ack_acked (Some request) s ltac:(tauto) ltac:(tauto) ltac:(tauto) Hconn). lia.
  - destruct (Hnot eq_refl) as [msg Hm]. by rewrite Hm in Hok.
Qed.

(** What can become of an acknowledgement: it fails without effect; it takes effect and
    the answer is lost; or the client gets what the server's Ack returned, with its code.
    All errors of Ack are status errors. *)
Lemma ack_over_wire fid m s :
  let direct := on_server (Server.Ack (Some (ackRequest fid m))) s in
  (exists e, ConfigClient_Ack fid (Some m) s = (Fail e, s)) \/
  (exists e, ConfigClient_Ack fid (Some m) s = (Fail e, direct.2)) \/
  ConfigClient_Ack fid (Some m) s = direct.
Proof.
  set (request := ackRequest fid m). intros direct.
  assert (forall e, direct.1 = Fail e -> exists code msg, e = ErrStatus code msg) as Hstatus.
  { subst direct. unfold on_server, Server.Ack. intros e. repeat case_match; simplify_eq/=; try discriminate; intros [= <-]; eauto. }
  assert (srv_Ack (forwarder_service key) request s =
          (match direct.1 with Ok _ => Ok mkAckResponse | Fail e => Fail e end, direct.2)) as Hdir.
  { simpl. unfold mbind, ST_bind. fold direct. by destruct direct as [[[]|e] s']. }
  pose proof (Ack_stub (forwarder_service key) request s) as Hc.
  unfold ConfigClient_Ack, mbind, ST_bind. fold request.
  destruct Hc as [e|e|e He|a Ha]; simpl in *; rewrite ?Hdir in *; simpl in *; [by left; exists e|by right; left; exists e| |].
  - right; right. destruct direct as [[[]|e0] s']; simpl in *; [done|]. destruct (Hstatus e0 eq_refl) as (code & msg & ->).
    injection He as <-. by rewrite status_kept.
  - right; right. by destruct direct as [[[]|e0] s'].
Qed.

(** A stream that a client opened with an identity is registered under it when its
    handler starts. *)
Lemma opened_stream_is_connected fid s h s' proc s1 :
  fid <> "" ->
  forwarderConfigServiceClient_StreamUpdates (mkStreamUpdatesRequest (Some fid)) s = (Ok h, s') ->
  _ForwarderConfigService_StreamUpdates_Handler (forwarder_service key) h (RecvMsg s' h) = Ok proc ->
  connectedLocked fid (Server.srv (n_sys (proc s1))) = true.
Proof.
  intros Hfid Hrun Hproc. destruct (stream_stub (forwarder_service key) _ _ _ _ Hrun) as (sd & Hsd & _ & Hh).
  apply list_elem_of_singleton in Hsd as ->. rewrite (Hh _ Hproc). simpl.
  apply connectedLocked_spec. exists h, (mkStream fid [] false).
  unfold open_stream, streamID, GetStreamForwarderId, getter. simpl. rewrite bool_decide_true by done. simpl.
  by rewrite lookup_insert_eq.
Qed.

Section forwarder.
Context (os_refuses : nat -> bool) (fid : string).

Lemma handled_in_effect m (s s' : fproc net) msg1 msg2 :
  proxy_inv (f_proxy s) ->
  (wrap_err msg1 (on_proxy (ApplyMapping os_refuses (Some m))) ;;
   wrap_err msg2 (client_Ack (H := stub_operator) fid (Some m))) s = (Ok tt, s') ->
  in_effect (f_proxy s) (f_proxy s') (Some m) /\
  fid ∉ MissingAcks (GetTunnelNamespace (Some m)) (GetTunnelName (Some m)) (GetRevision (Some m)) (Server.srv (n_sys (f_op s'))).
Proof.
  intros Hinv. unfold mbind, ST_bind, wrap_err, on_proxy, client_Ack.
  destruct (ApplyMapping os_refuses (Some m) (f_proxy s)) as [[[]|e] p] eqn:Happ; [|done].
  simpl. unfold mbind, ST_bind. set (request := ackRequest fid m).
  destruct (forwarderConfigServiceClient_Ack request (f_op s)) as [[[]|e] o] eqn:Hack; [|done].
  intros [= <-]. simpl. split; [by apply newest_in_effect; eapply ApplyMapping_newest|].
  apply acknowledged_on_record in Hack as [-> Hok]. pose proof (Ack_ok_missing request _ Hok) as Hmiss.
  revert Hmiss. simpl. unfold mbind, ST_bind, on_server.
  destruct (Server.Ack (Some request) _) as [r f]. simpl in *. by subst r.
Qed.

(** C16: over the wire, an update is handled without error only once both sides have it.
    When the forwarder's handler of an update that carries a mapping returns nil, with
    its acknowledgement sent through the stub over a connection that may fail anywhere,
    then the operator's server no longer counts the forwarder as missing for the
    revision, and the forwarder's port serves exactly the mapping, its tunnel, gateway and
    revision, unless it had a route of the same tunnel with a higher revision before:
    then it still has that route. *)
Theorem wire_update_in_effect u m (s s' : fproc net) :
  proxy_inv (f_proxy s) -> GetTunnel u = Some m -> GetType u = ADDED \/ GetType u = MODIFIED ->
  0 < GetForwarderPort (Some m) -> TrimSpace (GetGatewayAddress (Some m)) <> "" ->
  handleUpdate (H := stub_operator) os_refuses fid u s = (Ok tt, s') ->
  in_effect (f_proxy s) (f_proxy s') (Some m) /\
  fid ∉ MissingAcks (GetTunnelNamespace (Some m)) (GetTunnelName (Some m)) (GetRevision (Some m)) (Server.srv (n_sys (f_op s'))).
Proof.
  intros Hinv Hm Hty Hport Haddr Hrun. revert Hrun. unfold handleUpdate. rewrite Hm, bool_decide_false by lia.
  destruct Hty as [->| ->]; rewrite bool_decide_false by done; apply handled_in_effect; done.
Qed.
End forwarder.
End over_connection.
End operator_service.

(** ** Interceptors, the unimplemented server and registration *)

(** An interceptor that hands its request on changes nothing, and one that hands on a
    request of another type makes the handler panic. *)
Lemma interceptor_forwarding {S P} (srv : ForwarderConfigServiceServer S P) dec :
  let pass := fun req _ (handler : any_message -> Call S any_message) => handler req in
  _ForwarderConfigService_GetConfig_Handler srv dec (Some pass) = _ForwarderConfigService_GetConfig_Handler srv dec None /\
  _ForwarderConfigService_Ack_Handler srv dec (Some pass) = _ForwarderConfigService_Ack_Handler srv dec None /\
  forall in_ s, dec KAckRequest = Ok in_ ->
    (_ForwarderConfigService_Ack_Handler srv dec
       (Some (fun _ _ handler => handler (existT KGetConfigRequest mkGetConfigRequest))) s).1 = None.
Proof.
  unfold _ForwarderConfigService_GetConfig_Handler, _ForwarderConfigService_Ack_Handler. split_and!.
  - by destruct (dec KGetConfigRequest).
  - by destruct (dec KAckRequest).
  - by intros in_ s ->.
Qed.

(** A server that leaves a method out answers Unimplemented without effect; registering
    one panics exactly if it embeds a nil pointer. *)
Lemma unimplemented_methods {S} (s : S) in1 in2 in3 ptr :
  let code r := match r with (Fail (ErrStatus c _), s') => Some (c, s') | _ => None end in
  let srv := UnimplementedForwarderConfigServiceServer (S := S) in
  (match srv_GetConfig srv in1 s with (Fail (ErrStatus c _), s') => Some (c, s') | _ => None end) = Some (OtherCode 12, s) /\
  code (srv_StreamUpdates srv in2 ptr s) = Some (OtherCode 12, s) /\
  (match srv_Ack srv in3 s with (Fail (ErrStatus c _), s') => Some (c, s') | _ => None end) = Some (OtherCode 12, s).
Proof. done. Qed.

Lemma registration_panics {S P G} register e (srv : ForwarderConfigServiceServer S P) (g : G) :
  RegisterForwarderConfigServiceServer register e srv g = None <-> e = EmbeddedByPointer true.
Proof. destruct e as [| |[]]; simpl; split; try done; discriminate. Qed.

(** ** A connection that delivers everything

    Both ends in one process, with messages as their own encoding, nil entries turned
    into empty messages.  It satisfies the laws, for any server. *)

Definition nil_to_empty (m : option TunnelMapping) : option TunnelMapping :=
  match m with None => Some (mkTunnelMapping None None None None None None None) | m => m end.

Definition normal (k : message_kind) : message k -> message k :=
  match k with
  | KForwarderConfig => fun c => mkForwarderConfig (fc_LbVip c) (nil_to_empty <$> fc_Tunnels c)
  | _ => fun m => m
  end.

#[export] Instance plain_codec : Codec := {|
  wire := any_message;
  marshal k m := Ok (existT k (normal k m));
  unmarshal k b := match assert_kind k b with Some m => Ok m | None => Fail (ErrNew "wrong message") end;
|}.

Lemma assert_kind_same k (m : message k) : assert_kind k (existT k m) = Some m.
Proof.
  unfold assert_kind. simpl. destruct (decide (k = k)) as [E|]; [|done]. f_equal.
  symmetry. apply Eqdep_dec.eq_rect_eq_dec. exact message_kind_eq_dec.
Qed.

Lemma normal_wire_ok k (m : message k) : wire_ok k m -> normal k m = m.
Proof.
  destruct k; simpl; try done. destruct m as [vip ms]; simpl. intros Hall. f_equal.
  induction Hall as [|? ms [m ->] _ IH]; [done|]. cbn. by f_equal.
Qed.

#[export] Instance plain_codec_laws : CodecLaws.
Proof.
  split. intros k m b Hok [= <-]. simpl. rewrite assert_kind_same. by rewrite normal_wire_ok.
Qed.

(** An error that is no status becomes one of code Unknown. *)
#[export] Instance plain_status : StatusConv :=
  {| status_of e := match e with ErrStatus _ _ => e | _ => ErrStatus (OtherCode 2) "unknown" end |}.
#[export] Instance plain_status_laws : StatusLaws.
Proof. done. Qed.

Section loopback.
Context {W : Type} `{!KubeClient W} `{!ControllerUtil} {R : Type} `{!RandSource R} (key : ObjectKey).
Abbreviation lnet := (net (W := W) (R := R) (N := gmap nat stream_view)).
Abbreviation ldesc := (ServiceDesc lnet (lnet -> lnet)).

Definition find_method (d : ldesc) (name : string) : option (MethodDesc lnet (lnet -> lnet)) :=
  head (filter (fun md => full_name d (MethodName md) = name) (Methods d)).

Definition set_view (h : nat) (v : stream_view) (s : lnet) : lnet :=
  mkNet (n_sys s) (n_cluster s) (<[h := v]> (n_conns s)).

Definition loopback : ClientConn lnet (lnet -> lnet) := {|
  Invoke name kin kout m s :=
    match find_method ForwarderConfigService_ServiceDesc name with
    | None => (Fail (ErrStatus (OtherCode 12) "unknown method"), s)
    | Some md =>
        match md_Handler md (forwarder_service key) (fun k => unmarshal k (existT kin (normal kin m))) None s with
        | (None, s') => (Fail (ErrStatus (OtherCode 14) "connection closed"), s')
        | (Some (Fail e), s') => (Fail (status_of e), s')
        | (Some (Ok a), s') => (unmarshal kout (existT (projT1 a) (normal (projT1 a) (projT2 a))), s')
        end
    end;
  NewStream sd name s := let h := fresh (dom (n_conns s)) in (Ok h, set_view h (mkView name [] false) s);
  SendMsg h k m s :=
    match n_conns s !! h with
    | None => (Fail (ErrNew "no such stream"), s)
    | Some v => (Ok tt, set_view h (mkView (sv_method v) (sv_sent v ++ [existT k m]) (sv_closed v)) s)
    end;
  CloseSend h s :=
    match n_conns s !! h with
    | None => (Fail (ErrNew "no such stream"), s)
    | Some v => (Ok tt, set_view h (mkView (sv_method v) (sv_sent v) true) s)
    end;
  view s h := n_conns s !! h;
  RecvMsg s h k :=
    match n_conns s !! h with
    | Some v => match sv_sent v with x :: _ => unmarshal k (existT (projT1 x) (normal (projT1 x) (projT2 x))) | [] => Fail (ErrNew "EOF") end
    | None => Fail (ErrNew "no such stream")
    end;
|}.

Lemma find_method_found md :
  md ∈ Methods (S := lnet) (P := lnet -> lnet) ForwarderConfigService_ServiceDesc ->
  find_method ForwarderConfigService_ServiceDesc (full_name (S := lnet) (P := lnet -> lnet) ForwarderConfigService_ServiceDesc (MethodName md)) = Some md.
Proof.
  simpl. rewrite !elem_of_cons. intros [->|[->|[]%elem_of_nil]]; reflexivity.
Qed.

#[local] Existing Instance loopback.

Lemma loopback_laws : ConnLaws ForwarderConfigService_ServiceDesc (forwarder_service key).
Proof.
  split.
  - intros md kin kout m s Hmd. cbn [marshal plain_codec]. unfold Invoke, loopback. rewrite (find_method_found md Hmd).
    destruct (md_Handler md _ _ None s) as [[[a|e]|] s'] eqn:Hrun.
    + by eapply answer_reply.
    + by apply answer_error.
    + by eapply answer_lost.
  - intros sd m s h s'. simpl. intros [= <- <-]. simpl. by rewrite lookup_insert_eq.
  - intros h k m s s' v. simpl. intros Hs Hv. rewrite Hv in Hs. injection Hs as <-. simpl. by rewrite lookup_insert_eq.
  - intros h s s' v. simpl. intros Hs Hv. rewrite Hv in Hs. injection Hs as <-. simpl. by rewrite lookup_insert_eq.
  - intros s h v k0 m0 rest k. simpl. intros -> ->. right. by eexists.
Qed.
End loopback.

(** *** Witnesses: a connected forwarder over the loopback connection *)

Abbreviation wnet := (net (W := FakeKube) (R := Z) (N := gmap nat stream_view)).
Definition w_key : ObjectKey := mkKey "ops" "forwarder".
Definition w_conn : ClientConn wnet (wnet -> wnet) := loopback w_key.
#[local] Existing Instance w_conn.
Definition w_laws : ConnLaws ForwarderConfigService_ServiceDesc (forwarder_service w_key) := loopback_laws (W := FakeKube) (R := Z) w_key.

(** The stub opens the stream and the handler registers it. *)
Definition w_start : wnet := mkNet sys_init (fake_empty, None) ∅.
Definition w_opened : wnet :=
  match forwarderConfigServiceClient_StreamUpdates (ClientConn0 := w_conn) (mkStreamUpdatesRequest (Some "fwd-1")) w_start with
  | (Ok h, s) =>
      match _ForwarderConfigService_StreamUpdates_Handler (forwarder_service w_key) h (RecvMsg (ClientConn := w_conn) s h) with
      | Ok proc => proc s
      | Fail _ => s
      end
  | (Fail _, s) => s
  end.

Definition w_proc : fproc wnet := mkProc demo_proxy false w_opened [].
Definition w_done : fproc wnet := (handleUpdate (H := stub_operator (ClientConn0 := w_conn)) os_ok "fwd-1" demo_update3 w_proc).2.

Lemma stub_call_is_method_call_witness :
  (exists c, (forwarderConfigServiceClient_GetConfig (ClientConn0 := w_conn) mkGetConfigRequest w_opened).1 = Ok c) /\
  called (srv_GetConfig (forwarder_service w_key) mkGetConfigRequest) w_opened
    (forwarderConfigServiceClient_GetConfig (ClientConn0 := w_conn) mkGetConfigRequest w_opened).
Proof.
  split; [vm_compute; eexists; reflexivity|].
  apply (stub_call_is_method_call (H0 := plain_codec_laws) (forwarder_service w_key) (ConnLaws0 := w_laws) w_opened).
  apply service_config_wire_ok.
Defined.

Lemma wire_update_in_effect_witness :
  "fwd-1" ∈ MissingAcks "team" "a" 3 (Server.srv (n_sys w_opened)) /\
  in_effect (f_proxy w_proc) (f_proxy w_done) (GetTunnel demo_update3) /\
  "fwd-1" ∉ MissingAcks "team" "a" 3 (Server.srv (n_sys (f_op w_done))).
Proof.
  split; [by apply (bool_decide_unpack _); vm_compute|].
  apply (wire_update_in_effect w_key (ConnLaws0 := w_laws) os_ok "fwd-1" demo_update3
    (mkTunnelMapping (Some "a") (Some "team") (Some 51820) (Some "10.0.0.7:51820") (Some 3) None None) w_proc w_done);
    [exact demo_proxy_inv|reflexivity|by right|reflexivity|vm_compute; discriminate|vm_compute; reflexivity].
Defined.
