(* ===== verification/Process.v ===== *)
(** * The three processes: what runs before and after their work

    Before [main]: the package initialisers, which register the Prometheus metrics of
    each process (internal/controller/metrics.go, pkg/forwarder/metrics.go,
    cmd/gateway/metrics.go) and the resource types of the operator's client
    (api/v1alpha1/groupversion_info.go, cmd/main.go).  Both registries are libraries and
    interfaces here; both panic on a name that is malformed or taken.

    After [run]: the exit codes of the forwarder and of the gateway.  The gateway's is
    how its tunnel learns what happened: the kubelet turns it into the phase of the pod,
    and the reconciler turns that into the phase of the tunnel. *)

From Stdlib Require Import Ascii.
From S2P Require Import Prelude GoStd Proto Api Kube Portalloc Server Controller Reconcile Scenarios Session Proxy Client Forwarder Drain Operator Startup Gateway.

(** ** Metrics *)

Inductive metric_type := CounterMetric | GaugeMetric.

(** [CounterOpts], [GaugeOpts] and the variable labels of a vector. *)
Record metric := mkMetric {
  mt_type : metric_type;
  mt_Name : string;
  mt_Help : string;
  mt_ConstLabels : list (string * string);
  mt_Labels : list string;
}.

Definition controller_metrics : list metric :=
  [mkMetric CounterMetric "tunnel_operator_reconciliations_total" "Total number of tunnel reconciliations." [] ["result"];
   mkMetric GaugeMetric "tunnel_operator_tunnels_active" "Number of tunnels by phase." [] ["phase"; "namespace"];
   mkMetric GaugeMetric "tunnel_operator_port_allocations_active" "Number of currently allocated forwarder ports." [] []].

Definition forwarder_metrics : list metric :=
  [mkMetric CounterMetric "tunnel_forwarder_packets_total" "Total number of packets forwarded" []
     ["tunnel_name"; "tunnel_namespace"; "direction"];
   mkMetric CounterMetric "tunnel_forwarder_bytes_total" "Total number of bytes forwarded" []
     ["tunnel_name"; "tunnel_namespace"; "direction"];
   mkMetric GaugeMetric "tunnel_forwarder_active_sessions" "Number of active UDP sessions" []
     ["tunnel_name"; "tunnel_namespace"]].

(** The metrics [newGatewayMetrics] makes, each with the labels of its tunnel. *)
Definition gateway_metrics (tunnelName tunnelNamespace targetHost targetPort : string) : list metric :=
  let constLabels := [("tunnel_name", tunnelName); ("tunnel_namespace", tunnelNamespace);
                      ("target_host", targetHost); ("target_port", targetPort)] in
  [mkMetric CounterMetric "tunnel_gateway_tcp_connections_total"
     "Total number of TCP connections handled by the gateway." constLabels [];
   mkMetric GaugeMetric "tunnel_gateway_tcp_connections_active" "Number of currently active TCP connections." constLabels [];
   mkMetric CounterMetric "tunnel_gateway_tcp_received_bytes_total"
     "Total bytes received from WireGuard tunnel (client to target direction)." constLabels [];
   mkMetric CounterMetric "tunnel_gateway_tcp_sent_bytes_total"
     "Total bytes sent back through WireGuard tunnel (target to client direction)." constLabels []].

(** The labels are those [Gateway.start] serves with. *)
Lemma gateway_metrics_labels tunnelName tunnelNamespace targetHost targetPort m :
  m ∈ gateway_metrics tunnelName tunnelNamespace targetHost targetPort ->
  list_to_map (mt_ConstLabels m) = newGatewayMetrics tunnelName tunnelNamespace targetHost targetPort /\ mt_Labels m = [].
Proof. unfold gateway_metrics. rewrite !elem_of_cons, elem_of_nil. by intros [->|[->|[->|[->|[]]]]]. Qed.

(** The names Prometheus accepts: [a-zA-Z_:][a-zA-Z0-9_:]* for a metric, the same without
    the colon for a label, which must not start with two underscores either. *)
Definition in_range (lo hi c : ascii) : bool := (nat_of_ascii lo <=? nat_of_ascii c)%nat && (nat_of_ascii c <=? nat_of_ascii hi)%nat.
Definition letter (c : ascii) : bool := in_range "a"%char "z"%char c || in_range "A"%char "Z"%char c || bool_decide (c = "_"%char).
Definition letter_or_digit (c : ascii) : bool := letter c || in_range "0"%char "9"%char c.

Definition label_name (s : string) : bool :=
  match String.list_ascii_of_string s with
  | [] => false
  | c :: cs => letter c && forallb letter_or_digit cs && negb (String.prefix "__" s)
  end.
Definition metric_name (s : string) : bool :=
  match String.list_ascii_of_string s with
  | [] => false
  | c :: cs => (letter c || bool_decide (c = ":"%char)) && forallb (fun c => letter_or_digit c || bool_decide (c = ":"%char)) cs
  end.

Definition label_names (m : metric) : list string := (mt_ConstLabels m).*1 ++ mt_Labels m.

Definition described (m : metric) : bool :=
  metric_name (mt_Name m) && forallb label_name (label_names m) && bool_decide (NoDup (label_names m)).

(** A Prometheus registry: [Register] refuses some descriptions. *)
Class Registry (P : Type) := {
  Register : metric -> P -> res P;
  registered : P -> gset string;
  valid_label_value : string -> bool;
}.

(** What its documentation says: a well-formed description whose name is not in use, with
    constant labels of valid values, is taken, and nothing else changes. *)
Class RegistryLaws (P : Type) `{Registry P} : Prop := {
  register_fresh m (p : P) : described m = true -> forallb (fun kv => valid_label_value kv.2) (mt_ConstLabels m) = true ->
    mt_Name m ∉ registered p -> exists p', Register m p = Ok p' /\ registered p' = {[mt_Name m]} ∪ registered p;
}.

Section registration.
Context {P : Type} `{RegistryLaws P}.

(** [MustRegister], and [promauto]'s constructors one by one: [None] is a panic. *)
Fixpoint MustRegister (ms : list metric) (p : P) : option P :=
  match ms with
  | [] => Some p
  | m :: ms => match Register m p with Ok p => MustRegister ms p | Fail _ => None end
  end.

Definition names_of (ms : list metric) : gset string := list_to_set (mt_Name <$> ms).

Lemma MustRegister_fresh ms : forall p,
  forallb described ms = true ->
  Forall (fun m => forallb (fun kv => valid_label_value kv.2) (mt_ConstLabels m) = true) ms ->
  NoDup (mt_Name <$> ms) -> names_of ms ## registered p ->
  exists p', MustRegister ms p = Some p' /\ registered p' = names_of ms ∪ registered p.
Proof.
  unfold names_of. induction ms as [|m ms IH]; intros p Hd Hv Hnd Hdis; simpl.
  { exists p. split; [done|]. set_solver. }
  simpl in Hd. apply andb_prop in Hd as [Hd Hds]. apply Forall_cons in Hv as [Hv Hvs].
  simpl in Hnd. apply NoDup_cons in Hnd as [Hni Hnd].
  destruct (register_fresh m p Hd Hv) as (p1 & -> & Hp1); [set_solver|].
  destruct (IH p1 Hds Hvs Hnd) as (p' & -> & Hp').
  { rewrite Hp1. set_solver. }
  exists p'. split; [done|]. rewrite Hp', Hp1. set_solver.
Qed.

(** The initialisers do not panic.  In each of the three processes, whatever else is
    registered under other names, registering the program's metrics succeeds and adds
    exactly their names; the gateway's also needs its tunnel's names, host and port to be
    valid label values. *)
Theorem metrics_register (p : P) :
  (names_of controller_metrics ## registered p ->
     exists p', MustRegister controller_metrics p = Some p' /\ registered p' = names_of controller_metrics ∪ registered p) /\
  (names_of forwarder_metrics ## registered p ->
     exists p', MustRegister forwarder_metrics p = Some p' /\ registered p' = names_of forwarder_metrics ∪ registered p) /\
  (forall tunnelName tunnelNamespace targetHost targetPort,
     let ms := gateway_metrics tunnelName tunnelNamespace targetHost targetPort in
     Forall (fun v => valid_label_value v = true) [tunnelName; tunnelNamespace; targetHost; targetPort] ->
     names_of ms ## registered p ->
     exists p', MustRegister ms p = Some p' /\ registered p' = names_of ms ∪ registered p).
Proof.
  split_and!.
  1, 2: intros Hdis; apply MustRegister_fresh; [vm_compute; reflexivity|repeat constructor|compute_done|done].
  intros nm ns h pt ms Hv Hdis. apply MustRegister_fresh; [vm_compute; reflexivity| |compute_done|done].
  rewrite !Forall_cons in Hv. destruct Hv as (H1 & H2 & H3 & H4 & _).
  subst ms. unfold gateway_metrics. repeat constructor; simpl; by rewrite H1, H2, H3, H4.
Qed.
End registration.

(** ** Resource types *)

Record GroupVersion := mkGroupVersion { gv_Group : string; gv_Version : string }.

#[export] Instance GroupVersion_eq_dec : EqDecision GroupVersion.
Proof. solve_decision. Defined.

Definition tunnelGroupVersion : GroupVersion := mkGroupVersion "nais.io" "v1alpha1".
Definition coreV1 : GroupVersion := mkGroupVersion "" "v1".
Definition networkingV1 : GroupVersion := mkGroupVersion "networking.k8s.io" "v1".

(** The scheme of k8s.io/apimachinery, and the registration of client-go. *)
Class Scheme (S : Type) := {
  NewScheme : S;
  AddKnownTypes : GroupVersion -> list string -> S -> S;
  AddToGroupVersion : GroupVersion -> S -> S;
  clientgo_AddToScheme : S -> option error * S;
  Recognizes : S -> GroupVersion -> string -> bool;
}.

Class SchemeLaws (S : Type) `{Scheme S} : Prop := {
  known_types gv kinds (s : S) gv' k :
    Recognizes (AddKnownTypes gv kinds s) gv' k = bool_decide (gv' = gv /\ k ∈ kinds) || Recognizes s gv' k;
  group_version_keeps gv (s : S) gv' k : Recognizes s gv' k = true -> Recognizes (AddToGroupVersion gv s) gv' k = true;
  clientgo_keeps (s : S) gv k : Recognizes s gv k = true -> Recognizes (clientgo_AddToScheme s).2 gv k = true;
  clientgo_kinds (s : S) gv k : (clientgo_AddToScheme s).1 = None ->
    (gv, k) ∈ [(coreV1, "Pod"); (coreV1, "Service"); (networkingV1, "NetworkPolicy")] ->
    Recognizes (clientgo_AddToScheme s).2 gv k = true;
}.

Section scheme.
Context {S : Type} `{SchemeLaws S}.

Definition addKnownTypes (scheme : S) : option error * S :=
  let scheme := AddKnownTypes tunnelGroupVersion ["Tunnel"; "TunnelList"] scheme in
  (None, AddToGroupVersion tunnelGroupVersion scheme).

(** [SchemeBuilder.AddToScheme] runs the functions it was built from up to the first
    that fails. *)
Fixpoint AddToScheme (builder : list (S -> option error * S)) (scheme : S) : option error * S :=
  match builder with
  | [] => (None, scheme)
  | f :: builder => match f scheme with (None, scheme) => AddToScheme builder scheme | bad => bad end
  end.
Definition SchemeBuilder : list (S -> option error * S) := [addKnownTypes].

(** [init] of cmd/main.go: [Must] panics on an error ([None]). *)
Definition init_scheme : option S :=
  match clientgo_AddToScheme NewScheme with
  | (Some _, _) => None
  | (None, scheme) => match AddToScheme SchemeBuilder scheme with (Some _, _) => None | (None, scheme) => Some scheme end
  end.

(** The types of the objects a call of the reconciler carries; the client refuses a call
    with a type its scheme does not have. *)
Definition event_types (e : event) : list (GroupVersion * string) :=
  match e with
  | EvGet _ _ | EvUpdate _ _ | EvPatch _ _ _ | EvDelete _ _ => [(tunnelGroupVersion, "Tunnel")]
  | EvGetPod _ _ | EvCreatePod _ _ | EvDeletePod _ _ => [(coreV1, "Pod")]
  | EvApplyPolicy _ _ | EvDeletePolicy _ _ => [(networkingV1, "NetworkPolicy")]
  | EvGetService _ _ => [(coreV1, "Service")]
  | EvAllocate _ _ | EvRelease _ | EvNotify _ => []
  end.

(** The operator's client knows its objects: if client-go registers its own types,
    [init] does not panic and the scheme has the type of every object a call of the
    reconciler can carry and the list GetConfig and start-up read. *)
Theorem scheme_knows_objects :
  (clientgo_AddToScheme (NewScheme : S)).1 = None ->
  exists scheme, init_scheme = Some scheme /\
    (forall e gv k, (gv, k) ∈ event_types e -> Recognizes scheme gv k = true) /\
    Recognizes scheme tunnelGroupVersion "TunnelList" = true.
Proof.
  intros Hgo. unfold init_scheme. pose proof (fun gv k => clientgo_kinds NewScheme gv k Hgo) as Hk.
  destruct (clientgo_AddToScheme NewScheme) as [o s]. simpl in *. subst o.
  eexists. split; [reflexivity|]. split.
  - intros e gv k Hin. apply group_version_keeps. rewrite known_types.
    destruct e; simpl in Hin; try (by apply elem_of_nil in Hin); apply list_elem_of_singleton in Hin as [= -> ->];
      apply orb_true_iff; first [left; by compute_done | right; apply Hk; by compute_done].
  - apply group_version_keeps. rewrite known_types. done.
Qed.
End scheme.

(** ** Exit codes *)

(** [main] of the forwarder: a [run] that fails ends the process with 1, one that returns
    with 0; [None] while it runs.  [x] is where a [run] that watches updates has got. *)
Definition forwarder_main {O} (st : exit) (x : shutdown (O := O)) : option Z :=
  match st with
  | Exited code => Some code
  | Returned r => Some (exit_code r)
  | Running => None
  | Watching _ => match sd_main x with Ended r => Some (exit_code r) | _ => None end
  end.

(** The forwarder ends with 0 or 1, and with 0 only if [run] returned nil; then its
    connection is closed. *)
Theorem forwarder_main_code {O} `{OperatorAPI O} (e : environment) (operator : O) st s c x code :
  run e operator = (st, s, c) ->
  (forall id, st = Watching id -> rtc (shutdown_step (e_os_refuses e) id) (watching s c) x) ->
  forwarder_main st x = Some code ->
  (code = 0 /\ (st = Returned (Ok tt) /\ cc_open c = ∅ \/ sd_main x = Ended (Ok tt) /\ cc_open (sd_client x) = ∅)) \/ code = 1.
Proof.
  intros Hrun Hx Hcode. pose proof (run_starts e operator) as Hst. rewrite Hrun in Hst.
  destruct st as [c0|r| |id]; simpl in Hcode.
  - injection Hcode as <-. right. apply Hst.
  - injection Hcode as <-. destruct r as [[]|err]; [left|by right]. split; [done|]. left. split; [done|apply Hst].
  - discriminate Hcode.
  - destruct (sd_main x) as [| |r] eqn:Hm; [discriminate Hcode..|]. injection Hcode as <-.
    destruct r as [[]|err]; [left|by right]. split; [done|]. right. split; [done|].
    destruct Hst as (Hinv & _ & Hc). specialize (Hx id eq_refl).
    assert (shutdown_inv x) as [_ _ _ _ Hcl]; [|by rewrite Hm in Hcl].
    eapply shutdown_reachable_inv; [exact Hx|]. by split.
Qed.

(** [main] of the gateway: [run] fails at start-up, or serves until it leaves its
    [select]. *)
Definition gateway_main (st : gw_start) (g : gw) : option Z :=
  match st with
  | GwExited code => Some code
  | GwFailed _ _ _ => Some 1
  | GwServing _ => exit_code <$> exited g
  end.

(** Why the main goroutine left its [select]. *)
Definition left_for (g : gw) : Prop :=
  (accept_err g <> None -> accepting g = false) /\
  match exited g with
  | None => True
  | Some (Ok _) => watch g = PeerTimedOut \/ ctx_done g = true
  | Some (Fail e) => accept_err g = Some e
  end.

Lemma gw_step_left_for g g' : gw_step g g' -> left_for g -> left_for g'.
Proof.
  intros Hstep [Ha Hl]. unfold left_for in *.
  destruct Hstep; simpl in *; split; try done; try (by intros ?; auto);
    destruct (exited g) as [[]|]; simpl in *; try done; try (by right); try (by left);
    try (destruct Hl as [Hl|Hl]; [|by right]; congruence).
  rewrite Ha in *; congruence.
Qed.

Lemma gw_reachable_left_for g : gw_reachable g -> left_for g.
Proof.
  apply (rtc_ind_r left_for).
  - by split.
  - intros x y _ Hstep Hx. by eapply gw_step_left_for.
Qed.

(** The kubelet reports the phase of a pod whose containers have all ended, with these
    codes; [stopped] says whether it has ended the pod itself. *)
Class Kubelet := { ended_phase : PodSpec -> forall stopped : bool, list Z -> string }.

(** What Kubernetes documents for pods that are not restarted: a pod that the kubelet
    stops, because its active deadline is over or its node is short of resources, has
    failed whatever its containers answered to the signal; otherwise the exit codes
    decide. *)
Class KubeletLaws `{Kubelet} : Prop := {
  ended_stopped spec codes : ended_phase spec true codes = PodFailed;
  ended_well spec codes : ps_RestartPolicy spec = "Never" -> length codes = length (ps_Containers spec) ->
    Forall (fun c => c = 0) codes -> ended_phase spec false codes = PodSucceeded;
  ended_badly spec codes : ps_RestartPolicy spec = "Never" -> length codes = length (ps_Containers spec) ->
    Exists (fun c => c <> 0) codes -> ended_phase spec false codes = PodFailed;
}.

Section gateway_exit.
Context {W : Type} `{KubeClient W} `{!ControllerUtil} {R : Type} `{RandSource R} {F : Type} `{forwarderServer F}.
Context `{KubeletLaws}.

(** The pod of a gateway that ended with [code], as the API server reports it. *)
Definition gateway_ended (rc : TunnelReconciler) (t : Tunnel) (stopped : bool) (code : Z) (pod : Pod) : Prop :=
  (exists image deadline, pod_Spec pod = gatewayPodSpec (r_Getenv rc) t image deadline) /\
  pod_Phase pod = ended_phase (pod_Spec pod) stopped [code].

Lemma gateway_ended_phase rc t stopped code pod :
  gateway_ended rc t stopped code pod ->
  pod_Phase pod = if bool_decide (stopped = false /\ code = 0) then PodSucceeded else PodFailed.
Proof.
  intros [(image & deadline & Hspec) ->]. rewrite Hspec. destruct stopped.
  - rewrite bool_decide_false by naive_solver. apply ended_stopped.
  - case_bool_decide as Hc.
    + apply ended_well; [done|done|]. repeat constructor. apply Hc.
    + apply ended_badly; [done|done|]. constructor. naive_solver.
Qed.

(** C23: how a gateway ends decides what becomes of its tunnel.  The process of a gateway
    ends with 0 only after a full start that was left for inactivity or on a signal,
    and with another code if it could not start or could not accept connections.  Once
    the kubelet has reported the end of the pod the reconciler created, the reconciler
    evaluates the tunnel, without any call and without asking to be woken again: to
    Terminated, after which it is torn down, if the gateway ended with 0 and the kubelet
    had not stopped the pod itself (for its active deadline, or to evict it), and to
    Failed otherwise; and it writes the status exactly if that is news. *)
Theorem gateway_end_decides_tunnel (rc : TunnelReconciler) (t : Tunnel) st (g : gw) stopped code pod (s : world W R F) :
  (exists e, st = start e) -> gw_reachable g -> gateway_main st g = Some code -> gateway_ended rc t stopped code pod ->
  (code = 0 <-> (exists sv, st = GwServing sv) /\ exited g = Some (Ok tt)) /\
  (code = 0 -> watch g = PeerTimedOut \/ ctx_done g = true) /\
  (code <> 0 -> (forall sv, st <> GwServing sv) \/ is_Some (accept_err g)) /\
  exists o, evaluatePodPhase rc t pod s = (Ok o, s) /\ o_requeue o = 0 /\
    Phase (Status (o_tunnel o)) = (if bool_decide (stopped = false /\ code = 0) then TunnelPhaseTerminated else TunnelPhaseFailed) /\
    (o_updated o = true <-> Phase (Status t) <> Phase (Status (o_tunnel o))) /\
    (o_updated o = false -> o_tunnel o = t).
Proof.
  intros [e He] Hg Hcode Hpod. apply gateway_ended_phase in Hpod. apply gw_reachable_left_for in Hg as [_ Hleft].
  assert (forall c, st = GwExited c -> c = 1) as Hexit.
  { intros c ->. unfold start in He. repeat (case_match; simplify_eq; try done). }
  split_and!.
  - destruct st as [c|err n|sv]; simpl in Hcode.
    + injection Hcode as <-. rewrite (Hexit c eq_refl). split; [done|]. by intros [[sv [=]] _].
    + injection Hcode as <-. split; [done|]. by intros [[sv [=]] _].
    + destruct (exited g) as [[[]|err]|]; simpl in Hcode; [|injection Hcode as <-|discriminate Hcode].
      * injection Hcode as <-. split; eauto.
      * split; [done|]. by intros [_ [=]].
  - intros ->. destruct st as [c|err n|sv]; simpl in Hcode.
    + injection Hcode as ->. by specialize (Hexit 0 eq_refl).
    + discriminate Hcode.
    + by destruct (exited g) as [[|]|].
  - intros Hne. destruct st as [c|err n|sv]; [by left|by left|right]. simpl in Hcode.
    destruct (exited g) as [[|err]|]; simpl in Hcode; [by injection Hcode as <-| |discriminate Hcode]. by rewrite Hleft.
  - unfold evaluatePodPhase. rewrite Hpod. case_bool_decide as Hc.
    + rewrite bool_decide_false by done. rewrite bool_decide_true by done.
      case_bool_decide as Hph; eexists; split_and!; try done; by apply dec_stable.
    + rewrite bool_decide_true by done.
      case_bool_decide as Hph; eexists; split_and!; try done; by apply dec_stable.
Qed.
End gateway_exit.

(** ** The interfaces can be implemented *)

(** A registry that keeps the names in use; a kubelet. *)
#[export] Instance set_registry : Registry (gset string) := {|
  Register m p := if described m && bool_decide (mt_Name m ∉ p) then Ok ({[mt_Name m]} ∪ p) else Fail (ErrNew "registration");
  registered p := p;
  valid_label_value _ := true;
|}.

#[export] Instance set_registry_laws : RegistryLaws (gset string).
Proof.
  split. intros m p Hd _ Hni. simpl. rewrite Hd, bool_decide_true by done. simpl. eauto.
Qed.

Example operator_metrics_registered :
  MustRegister controller_metrics (∅ : gset string) = Some (names_of controller_metrics) /\
  MustRegister (controller_metrics ++ controller_metrics) (∅ : gset string) = None.
Proof. split; vm_compute; reflexivity. Qed.

(** A scheme as the list of its types. *)
#[export] Instance list_scheme : Scheme (list (GroupVersion * string)) := {|
  NewScheme := [];
  AddKnownTypes gv kinds s := ((gv,.) <$> kinds) ++ s;
  AddToGroupVersion gv s := (gv, "WatchEvent") :: s;
  clientgo_AddToScheme s := (None, [(coreV1, "Pod"); (coreV1, "Service"); (networkingV1, "NetworkPolicy")] ++ s);
  Recognizes s gv k := bool_decide ((gv, k) ∈ s);
|}.

#[export] Instance list_scheme_laws : SchemeLaws (list (GroupVersion * string)).
Proof.
  split.
  - intros gv kinds s gv' k. simpl. apply Bool.eq_iff_eq_true. rewrite orb_true_iff, !bool_decide_eq_true, elem_of_app, list_elem_of_fmap.
    split; intros [Hx|Hx]; auto.
    + destruct Hx as (y & [= -> ->] & ?). by left.
    + destruct Hx as [-> ?]. left. eauto.
  - intros gv s gv' k. simpl. rewrite !bool_decide_eq_true, elem_of_cons. auto.
  - intros s gv k. simpl. rewrite !bool_decide_eq_true, !elem_of_cons. auto.
  - intros s gv k _. simpl. rewrite bool_decide_eq_true, !elem_of_cons. intros [|[|[|Hn%elem_of_nil]]]; tauto.
Qed.

#[export] Instance code_kubelet : Kubelet := {|
  ended_phase _ stopped codes := if negb stopped && bool_decide (Forall (fun c => c = 0) codes) then PodSucceeded else PodFailed;
|}.

#[export] Instance code_kubelet_laws : KubeletLaws.
Proof.
  split; [done|intros spec codes _ _ Hc; simpl..].
  - by rewrite bool_decide_true.
  - rewrite bool_decide_false; [done|]. intros Hall. apply Exists_exists in Hc as (c & Hin & Hc).
    rewrite Forall_forall in Hall. by apply Hc, Hall.
Qed.

(** A gateway is told to stop by a graceful deletion of its pod, as when its node is drained. *)
Definition stopped : gw := leave (Ok tt) (set_control true true None None gw_init).
Definition pod_stopped (p : Pod) : Pod :=
  mkPod (pod_Key p) (pod_UID p) (pod_Labels p) (pod_Annotations p) (pod_Owners p) (pod_Spec p)
    (ended_phase (pod_Spec p) false [default 1 (gateway_main (start gw_demo_env) stopped)]) (pod_PodIP p) [].
Definition demo_stopped : demo_world :=
  on_kube (fun w => fk_set_pods (alter pod_stopped (mkKey "team" (gatewayResourceName "db")) (fk_pods w)) w) demo3.
Definition demo_terminated : demo_world := reconcile (Ok "gw-key") "db" demo_stopped.

Lemma stopped_reachable : gw_reachable stopped.
Proof.
  eapply rtc_l; [apply (gw_signal gw_init)|].
  eapply rtc_l; [apply gw_exit_signal; reflexivity|]. reflexivity.
Qed.

(** A gateway that is stopped from outside takes its tunnel with it.  The signal of a
    graceful pod deletion, as when a node is drained, ends the gateway with 0; its pod
    counts as succeeded, a tunnel that was Ready turns Terminated, and the reconciliation that
    follows deletes it instead of starting a replacement gateway. *)
Theorem stopped_gateway_terminates_tunnel :
  (Phase ∘ Status <$> tunnel_of "db" demo_stopped) = Some TunnelPhaseReady /\
  gateway_main (start gw_demo_env) stopped = Some 0 /\ ctx_done stopped = true /\ last_seen stopped = None /\
  (Phase ∘ Status <$> tunnel_of "db" demo_terminated) = Some TunnelPhaseTerminated /\
  tunnel_of "db" (reconcile (Ok "gw-key") "db" demo_terminated) = None.
Proof. vm_compute. by split_and!. Qed.

Lemma gateway_end_decides_tunnel_witness :
  (watch stopped = PeerTimedOut \/ ctx_done stopped = true) /\
  exists o, evaluatePodPhase (demo_rc (Ok "")) ready_tunnel (pod_stopped running_pod) before4 = (Ok o, before4) /\
    Phase (Status (o_tunnel o)) = TunnelPhaseTerminated.
Proof.
  destruct (gateway_end_decides_tunnel (demo_rc (Ok "")) ready_tunnel (start gw_demo_env) stopped false 0
    (pod_stopped running_pod) before4) as (_ & Hleft & _ & o & Ho & _ & Hph & _).
  - eexists. reflexivity.
  - exact stopped_reachable.
  - reflexivity.
  - split; [|reflexivity]. exists "europe-north1-docker.pkg.dev/nais-io/nais/images/tunnel-operator-gateway:latest", 3600. vm_compute. reflexivity.
  - split; [exact (Hleft eq_refl)|]. exists o. split; [exact Ho|]. rewrite Hph. reflexivity.
Defined.
