(* ===== verification/Spike.v ===== *)
(** * The VIP-binding experiment (cmd/forwarder/spike_vip_binding.go)

    A stand-alone program, excluded from normal builds: it opens a local UDP server and
    a client, sends one packet to a target and reports the addresses used.  It is a
    function of what the network answers; the state is the sockets it opens and
    closes.  The server goroutine sends its one result to a channel of capacity one, so
    it ends whether or not anyone receives it. *)

From S2P Require Import Prelude GoStd.

Definition VIPBindingNeeded : bool := true.

Inductive socket := ServerSocket (port : Z) | ClientSocket (localIP : option string) (raddr : string).
Inductive socket_event := Opened (s : socket) | Closed (s : socket).

Record net_env := mkNet {
  (** [net.ResolveUDPAddr]: the address and its port *)
  n_resolve : string -> res (string * Z);
  n_listen : Z -> option error;
  n_parse_ip : string -> option string;
  n_dial : option string -> string -> option error;
  (** [SyscallConn], [Control] and [SetsockoptInt] on the client's socket *)
  n_syscall_conn : option error;
  n_control : option error;
  n_setsockopt : option error;
  n_client_write : option error;
  n_client_read : res string;
  n_server_read : res (string * string);
  n_server_write : string -> option error;
}.

Section spike.
Context (e : net_env).
Abbreviation M := (ST (list socket_event)).

(** [defer s.Close()] around the rest of the function *)
Definition with_socket {A} (s : socket) (body : M A) : M A := fun tr =>
  let '(r, tr) := body (tr ++ [Opened s]) in (r, tr ++ [Closed s]).

Definition fails {A} (answer : option error) (msg : string) (k : M A) : M A :=
  match answer with Some err => throw (ErrWrap msg err) | None => k end.

Definition setPktInfo : option error :=
  match n_syscall_conn e with
  | Some err => Some err
  | None =>
      match n_control e with
      | Some controlErr => Some controlErr
      | None => n_setsockopt e
      end
  end.

(** What the server goroutine puts into [serverDone]. *)
Definition serverDone : option error :=
  match n_server_read e with
  | Fail readErr => Some (ErrWrap "server read" readErr)
  | Ok (_, clientAddr) =>
      match n_server_write e clientAddr with
      | Some writeErr => Some (ErrWrap "server write" writeErr)
      | None => None
      end
  end.

(** From the client's socket on. *)
Definition exchange (bindingIP : string) : M unit :=
  (* a failed [setPktInfo] is only reported *)
  let _warned := if bool_decide (bindingIP <> "") then setPktInfo else None in
  fails (n_client_write e) "client write"
    match n_client_read e with
    | Fail err => throw (ErrWrap "client read" err)
    | Ok _ => match serverDone with Some err => throw err | None => mret tt end
    end.

(** The client's local address: any, or the requested one. *)
Definition localAddr (bindingIP : string) : res (option string) :=
  if bool_decide (bindingIP <> "") then
    match n_parse_ip e bindingIP with
    | None => Fail (ErrNew ("invalid SPIKE_BIND_IP " +:+ bindingIP))
    | Some ip => Ok (Some ip)
    end
  else Ok None.

Definition demo (target bindingIP : string) : M unit :=
  match n_resolve e target with
  | Fail err => throw (ErrWrap "resolve target" err)
  | Ok (raddr, port) =>
      fails (n_listen e port) "listen local server"
        (with_socket (ServerSocket port)
          match localAddr bindingIP with
          | Fail err => throw err
          | Ok ip =>
              fails (n_dial e ip raddr) "dial client"
                (with_socket (ClientSocket ip raddr) (exchange bindingIP))
          end)
  end.

(** The exit code, and the sockets opened and closed. *)
Definition spike_main (getenv : string -> string) : Z * list socket_event :=
  let target := if bool_decide (TrimSpace (getenv "SPIKE_TARGET") = "") then "127.0.0.1:9999" else TrimSpace (getenv "SPIKE_TARGET") in
  let bindingIP := TrimSpace (getenv "SPIKE_BIND_IP") in
  match demo target bindingIP [] with
  | (Fail _, tr) => (1, tr)
  | (Ok _, tr) => (0, tr)
  end.

(** ** Properties *)

(** The experiment leaves no socket open, whatever fails: sockets are closed in the
    reverse order of opening; and it exits with 0 only after the client sent its packet,
    got an answer, and the local server received and answered one. *)
Theorem spike_closes_sockets getenv :
  let '(code, tr) := spike_main getenv in
  (tr = [] \/ (exists s, tr = [Opened s; Closed s]) \/ (exists s c, tr = [Opened s; Opened c; Closed c; Closed s])) /\
  (code = 0 -> n_client_write e = None /\ is_ok (n_client_read e) = true /\
     exists m clientAddr, n_server_read e = Ok (m, clientAddr) /\ n_server_write e clientAddr = None).
Proof.
  unfold spike_main. set (target := if bool_decide _ then _ else _). clearbody target. unfold demo.
  destruct (n_resolve e target) as [[raddr port]|err]; simpl; [|split; [by left|done]]. unfold fails at 1.
  destruct (n_listen e port) as [err|]; simpl; [split; [by left|done]|]. unfold with_socket at 1.
  destruct (localAddr _) as [ip|err]; simpl; [|split; [right; left; by eexists|done]]. unfold fails at 1.
  destruct (n_dial e ip raddr) as [err|]; simpl; [split; [right; left; by eexists|done]|].
  unfold with_socket, exchange, fails, serverDone. destruct (n_client_write e); simpl; [split; [right; right; eauto|done]|].
  destruct (n_client_read e); simpl; [|split; [right; right; eauto|done]].
  destruct (n_server_read e) as [[m addr]|err]; simpl; [|split; [right; right; eauto|done]].
  destruct (n_server_write e addr) eqn:Ew; simpl; (split; [right; right; eauto|]); [done|]. eauto 10.
Qed.
End spike.
